(* ===== verification/_CoqProject ===== *)
-Q . S2P
Prelude.v
Monad.v
State.v
Spinlock.v
Console.v
Kalloc.v
Sched.v
Mmu.v
Vm.v
Mutex.v
MutexConc.v
KString.v
UserApi.v
Tournament.v
TournamentCode.v
UserKernel.v
Umalloc.v
UserExample.v
Sleeplock.v
Held.v
Bytes.v
Bio.v
Log.v
Fs.v
Uaccess.v
Ring.v
Pipe.v
File.v
Threads.v
Kbd.v
ConsoleIn.v
Syscall.v
Exec.v
Sysproc.v
Sysfile.v
Trap.v
Printf.v
Cprintf.v
UserProg.v
Programs.v
Grep.v
Sh.v
ShGrammar.v
ShRun.v
Editor.v
Cache.v
Crash.v
Join.v
Tx.v
Alloc.v
Inode.v
Path.v
Icache.v
Dir.v
Namei.v
