(* ===== verification/Prelude.v ===== *)
(** * A verification of the multi-threaded xv6

    The program under src/ is the teaching kernel xv6 with kernel threads, kernel mutexes
    and a user-level tournament tree lock, its file system and its user programs.  This
    library models it as Rocq functions, one for each C function under its C name, and
    proves that its parts do what they are for.

    ** The parts and where they are

    Foundations.  [Prelude] (this file): 32-bit integers, record update, hint databases,
    list lemmas.  [Monad]: kernel code as computations with a state, [panic], faults, and
    waiting.  [State]: the structures of proc.h, kthread.h, buf.h, file.h, fs.h and the
    static tables in one record [kernel]; pointers to table entries are indices, null is
    [None].  [Spinlock]: spinlock.c and cpuid, both on one CPU and interleaved; the
    kernel-level [acquire] and [release] of [State] are refined by it.

    Memory.  [Kalloc] (kalloc.c), [Mmu] (the translation of mmu.h), [Vm] (vm.c),
    [Uaccess] (loads and stores of kernel code to user memory), [KString] (string.c,
    ulib.c).

    Processes and threads, proc.c.  [Sched]: tables, scheduler, [sleep], [wakeup].
    [Threads]: [fork], [exit], [wait] and the kthread calls; [Join]: the life of a thread.
    [Mutex]: the mutex calls as one thread runs them; [MutexConc]: many threads at one
    mutex, as a step relation.  [Syscall], [Sysproc], [Trap], [Exec]: syscall.c,
    sysproc.c, trap.c, exec.c.

    The tournament tree.  [UserApi]: what user code asks of the kernel and the heap, as
    classes of operations and laws.  [TournamentCode]: tournament_tree.c over them;
    [Tournament]: the threads in the tree, as a step relation.  [UserKernel] and [Umalloc]
    (umalloc.c) prove the laws of the kernel and of the allocator; [UserExample] runs the
    theorems on a small system.

    Files.  From the disk up: [Bio] (bio.c over memide.c), [Log] (log.c), [Fs] (fs.c),
    [File] (file.c), [Pipe] (pipe.c), [Sysfile] (sysfile.c); [Sleeplock] and [Held]
    (sleeplock.c); [Bytes]: structures in disk blocks; [Ring]: the circular buffers.
    What is proved of them is in [Cache] (the buffer cache as a table of blocks), [Crash]
    (the log), [Tx] (blocks inside a transaction), [Alloc] (the free map), [Inode]
    (the contents of files), [Icache] (references to inodes), [Path], [Dir] and [Namei]
    (names).

    Console.  [Console] and [Cprintf] (output of console.c, uart.c), [Kbd] (kbd.c),
    [ConsoleIn] and [Editor] (input), [Printf] (printf.c of user programs).

    User programs.  [UserProg]: a program as the system calls that it makes given the
    answers to the calls before.  [Programs]: cat, wc, echo, ls, kill, ln, mkdir, rm, init,
    zombie, stressfs, forktest, and [stat] and [gets] of ulib.c.  [Grep]: grep.c.
    [Sh], [ShGrammar], [ShRun]: sh.c, the grammar of its lines, and its processes with
    their descriptors.

    ** What the theorems show

    - Files survive: a crash anywhere in a commit leaves all of a transaction or nothing
      ([Crash]); the cache is a table of blocks ([Cache]); [balloc] and [bfree], [readi]
      and [writei], directories and [namex] implement sets of blocks, lists of bytes,
      finite maps and recursive lookup ([Alloc], [Inode], [Dir], [Namei]).
    - Threads: spin locks exclude each other and refine the kernel-level ones; [sleep]
      gives up its lock and returns with it; create, exit and join of threads; the mutex
      calls on all branches; mutual exclusion among many threads, and the lost wakeup and
      the double allocation that the code permits ([MutexConc]).
    - The tournament tree: mutual exclusion for any number of threads; that it hangs only
      through a wakeup that the kernel's mutexes lose, and that it can; acquire, release
      and alloc on all branches; and that the kernel with the allocator of umalloc.c keeps
      the promises these rest on.
    - Arguments of system calls stay inside the memory of the process; page tables
      translate what they were asked to; pipes are queues; the console is a line editor.
    - User programs: grep's matcher decides the language of its patterns and grep prints
      the selected lines; the shell's parser accepts exactly a grammar; the processes of a
      command line execute exactly its programs, with exactly the descriptors that its
      redirections and pipes give them.

    ** Choices and bounds

    A computation takes what the rest of the machine does while it waits as an argument;
    theorems quantify over it where they are about waiting.  Theorems on the cache, the
    log and files are for a process that runs without contention on those locks.  The file
    theorems assume one bitmap block ([sb_size <= BPB], true of [FSSIZE] = 1000).  The disk
    is an image and the list of the writes to it.  [umem], the data of the running program,
    is apart from the pages of the allocator; a string argument of a system call is read
    when it is fetched.  [sbrk], the bytes that devices deliver and return addresses on
    stacks are arguments; [Umalloc.Sbrk] states what the allocator relies on, since
    [Threads.growproc] works on page tables and not on [umem].

    The flags register is in [Spinlock] only: elsewhere interrupts are off while a lock is
    held, and [sched] tests that; the [intena] it saves is not represented.  The step
    relations of [MutexConc] and [Tournament] leave out threads that are killed on the
    way.  In [Tournament.Race] a thread uses one ID at a time.

    Loops that are not structural take a bound.  The callers give the number of entries of
    the table or the steps of the transfer, which the loop cannot exceed: [digit_loop] one
    more than the 16 bytes of its buffer, [dir_scan] one more than the entries of the
    directory, [namex_loop] one more than the length of the path ([Path.namex_loop_ends]
    relates it to the loop without a bound), [readi_loop] and [writei_loop] the blocks
    that a range of the size asked for can touch, [scan] the number of buffers; the string
    functions have a theorem that any bound above the length of the string gives the
    result.  Loops of user programs make a call
    in each pass and take the number of answers ([UserProg.loop_unfold]); [UserProg.runs]
    is total correctness, so a theorem with it also shows that no bound is reached.  The
    parsers of the shell take four times the length of the line and four
    ([ShGrammar.parsecmd_correct]).

    In [UserProg] the data of an answer are the bytes that the kernel stored, as many as
    it returned.  The shell's nodes are values: [malloc], whose result sh.c does not
    check, is taken to succeed.  The descriptor calls of [ShRun.Descriptors] state what
    sysfile.c does to the table of one process, with [fdalloc] choosing the lowest free
    entry; [fork], [pipe] and [open] may fail at any time.

    ** Not modelled

    - ide.c: port I/O with a disk controller; memide.c has the same interface.
    - lapic.c, ioapic.c, picirq.c, mp.c, main.c: device registers and BIOS tables; of vm.c,
      seginit, switchkvm and kvmalloc, and the registers that switchuvm loads; of
      trap.c, the descriptor table, the acknowledgement of interrupts and the reads of
      control registers.
    - Assembly (entry.S, entryother.S, swtch.S, trapasm.S, vectors.S, usys.S, initcode.S,
      bootasm.S) and bootmain.c: they run before or below the state modelled here.
      A context switch is the waiting of [Monad].
    - mkfs.c, a program of the host; usertests.c and sanity.c, tests of the kernel. *)

From Stdlib Require Export ZArith Lia.
From stdpp Require Export base tactics numbers list functions relations gmap strings.

#[global] Open Scope Z_scope.
#[global] Set Default Goal Selector "!".

(** * Functional record update

    [r <| p := v |>] is the record [r] with field [p] replaced by [v];
    [r <| p ::= f |>] applies [f] to the field.  A record type takes part by
    declaring its eta expansion as an instance of [Eta]; the updater of a
    field is then found by abstracting the field in that expansion. *)

Class Eta (R : Type) := eta : R -> R.

Class Field {R E : Type} (p : R -> E) := field_upd : (E -> E) -> R -> R.

Ltac solve_field :=
  match goal with
  | |- @Field ?R ?E ?p =>
      let f := fresh "f" in let r := fresh "r" in
      intros f r;
      let e := constr:(_ : Eta R) in
      let b := eval red in (e r) in
      lazymatch eval pattern (p r) in b with
      | ?g _ => let t := eval cbv beta in (g (f (p r))) in exact t
      end
  end.

#[export] Hint Extern 1 (Field _) => solve_field : typeclass_instances.

Definition setf {R E : Type} (p : R -> E) {u : Field p} (f : E -> E) (r : R) : R := u f r.
Arguments setf {R E} p {u} f r.

#[local] Set Warnings "-postfix-notation-not-level-1".
Declare Scope update_scope.
#[global] Open Scope update_scope.
Notation "r <| p ::= f |>" := (setf p f r)
  (at level 12, left associativity, p at level 9, f at level 99,
   format "r  <|  p  ::=  f  |>") : update_scope.
Notation "r <| p := v |>" := (setf p (fun _ => v) r)
  (at level 12, left associativity, p at level 9, v at level 99,
   format "r  <|  p  :=  v  |>") : update_scope.

(** [rsimpl] evaluates projections of updated records.  The equation used is
    checked on a variable record, so that the depth of nested updates does not
    matter. *)
Ltac rsimpl1 :=
  match goal with
  | |- context [?p (@setf ?R ?E ?q ?u ?f ?r)] =>
      let H := fresh in
      (tryif constr_eq p q
       then assert (forall ff rr, p (@setf R E q u ff rr) = ff (p rr)) as H by (intros; reflexivity)
       else assert (forall ff rr, p (@setf R E q u ff rr) = p rr) as H by (intros; reflexivity));
      rewrite H; clear H; cbv beta
  end.
Ltac rsimpl_in G :=
  match type of G with
  | context [?p (@setf ?R ?E ?q ?u ?f ?r)] =>
      let H := fresh in
      (tryif constr_eq p q
       then assert (forall ff rr, p (@setf R E q u ff rr) = ff (p rr)) as H by (intros; reflexivity)
       else assert (forall ff rr, p (@setf R E q u ff rr) = p rr) as H by (intros; reflexivity));
      rewrite H in G; clear H; cbv beta in G
  end.
Ltac rsimpl :=
  repeat rsimpl1; repeat match goal with H : _ |- _ => rsimpl_in H end.

(** * Machine integers *)

(** C's [uint] and [int]: a 32-bit value is the integer reduced modulo
    [2^32], read as signed for [int]. *)
Definition u32 (z : Z) : Z := z mod 2 ^ 32.
Definition s32 (z : Z) : Z := let u := z mod 2 ^ 32 in if u <? 2 ^ 31 then u else u - 2 ^ 32.
Definition u8 (z : Z) : Z := z mod 256.

Definition is_u32 (z : Z) : Prop := 0 <= z < 2 ^ 32.
Definition is_s32 (z : Z) : Prop := - 2 ^ 31 <= z < 2 ^ 31.

Lemma u32_small z : is_u32 z -> u32 z = z.
Proof. unfold is_u32, u32. intros. apply Z.mod_small. lia. Qed.

Lemma u32_range z : is_u32 (u32 z).
Proof. unfold is_u32, u32. apply Z.mod_pos_bound. lia. Qed.

Lemma s32_range z : is_s32 (s32 z).
Proof.
  unfold is_s32, s32. pose proof (Z.mod_pos_bound z (2 ^ 32)). cbv zeta. destruct (Z.ltb_spec (z mod 2 ^ 32) (2 ^ 31)); lia.
Qed.

Lemma s32_small z : is_s32 z -> s32 z = z.
Proof.
  unfold is_s32, s32. intros [Hl Hu].
  destruct (decide (0 <= z)).
  - rewrite Z.mod_small by lia. destruct (Z.ltb_spec z (2 ^ 31)); lia.
  - rewrite <- (Z.mod_add _ 1) by lia. rewrite Z.mod_small by lia.
    destruct (Z.ltb_spec (z + 1 * 2 ^ 32) (2 ^ 31)); lia.
Qed.

Lemma u32_idemp_l a b : u32 (u32 a + b) = u32 (a + b).
Proof. unfold u32. apply Z.add_mod_idemp_l. lia. Qed.

Create HintDb xv6 discriminated.
#[export] Hint Resolve u32_range : xv6.

(** * Lists *)

Lemma alter_at {A} (f g : A -> A) i (l : list A) x :
  l !! i = Some x -> f x = g x -> alter f i l = alter g i l.
Proof. intros Hx Hf. apply list_alter_ext; [|done]. intros y Hy. congruence. Qed.

Lemma alter_same {A} (f : A -> A) i (l : list A) x :
  l !! i = Some x -> f x = x -> alter f i l = l.
Proof.
  intros Hx Hf. rewrite (alter_at f id i l x) by done. by apply list_alter_id.
Qed.

Lemma map_alter_insert `{Countable K} {A} (f : A -> A) (m : gmap K A) i x :
  m !! i = Some x -> alter f i m = <[i := f x]> m.
Proof.
  intros Hx. apply map_eq. intros j. destruct (decide (i = j)) as [->|].
  - by rewrite lookup_alter_eq, lookup_insert_eq, Hx.
  - by rewrite lookup_alter_ne, lookup_insert_ne.
Qed.

(** An invariant of the initial state kept by every step holds of every
    reachable state. *)
Lemma rtc_invariant {A} (R : A -> A -> Prop) (P : A -> Prop) x y :
  (forall a b, P a -> R a b -> P b) -> P x -> rtc R x y -> P y.
Proof. intros HP Hx Hr. induction Hr; eauto. Qed.

(** * Proof steps *)

(** Case analysis on the test of the innermost conditional of the goal. *)
Ltac case_if :=
  match goal with
  | |- context [if ?b then _ else _] =>
      lazymatch b with
      | context [if _ then _ else _] => fail
      | _ => let E := fresh "E" in destruct b eqn:E
      end
  end.

Ltac break_match :=
  match goal with
  | |- context [match ?x with _ => _ end] =>
      lazymatch x with
      | context [match _ with _ => _ end] => fail
      | _ => let E := fresh "E" in destruct x eqn:E
      end
  end.
