(* ===== verification/Monad.v ===== *)
(** The effects of kernel code: explicit state, [panic], wild memory accesses,
    abandoned control ([kthread_exit] called from inside [sleep]) and waiting.

    A thread that gives up the CPU ([sched]) or spins on a lock held by another
    CPU lets the rest of the machine run.  What the rest of the machine does is
    an argument of the computation: a list of state transformers, one consumed
    at each such point.  A theorem about a computation therefore quantifies over
    every behaviour of its environment; when the list runs out the computation
    is still waiting, which is the outcome [Waiting]. *)

From S2P Require Import Prelude.

Inductive outcome (S A : Type) : Type :=
| Ok (a : A) (o : list (S -> S)) (s : S)
| Panic (msg : string) (s : S)
| Fault (msg : string) (s : S)
| Exiting (o : list (S -> S)) (s : S)
| Waiting (s : S).
Arguments Ok {S A} a o s.
Arguments Panic {S A} msg s.
Arguments Fault {S A} msg s.
Arguments Exiting {S A} o s.
Arguments Waiting {S A} s.

Definition M (S A : Type) : Type := list (S -> S) -> S -> outcome S A.

#[export] Instance M_ret S : MRet (M S) := fun A a o s => Ok a o s.

#[export] Instance M_bind S : MBind (M S) := fun A B f m o s =>
  match m o s with
  | Ok a o' s' => f a o' s'
  | Panic msg s' => Panic msg s'
  | Fault msg s' => Fault msg s'
  | Exiting o' s' => Exiting o' s'
  | Waiting s' => Waiting s'
  end.

Section ops.
Context {S : Type}.
Implicit Types (o : list (S -> S)) (s : S).

Definition gets {A} (f : S -> A) : M S A := fun o s => Ok (f s) o s.
Definition modify (f : S -> S) : M S unit := fun o s => Ok tt o (f s).
Definition panic {A} (msg : string) : M S A := fun o s => Panic msg s.
Definition fault {A} (msg : string) : M S A := fun o s => Fault msg s.
Definition exiting {A} : M S A := fun o s => Exiting o s.
(** Let the environment run once. *)
Definition wait_env : M S unit := fun o s =>
  match o with [] => Waiting s | f :: o' => Ok tt o' (f s) end.
(** The pointer an access goes through; [None] is a wild access. *)
Definition deref {A} (msg : string) (f : S -> option A) : M S A := fun o s =>
  match f s with Some a => Ok a o s | None => Fault msg s end.
Definition when (b : bool) (m : M S unit) : M S unit := if b then m else mret tt.

(** [for] loops: the body once for each element, left to right. *)
Fixpoint for_each {A} (l : list A) (body : A -> M S unit) : M S unit :=
  match l with
  | [] => mret tt
  | a :: l' => body a ;; for_each l' body
  end.

(** A computation that runs to completion. *)
Definition returns {A} (m : M S A) o s (a : A) o' s' : Prop := m o s = Ok a o' s'.

(** Every step of [bind] as a rewriting rule. *)
Lemma bind_ok {A B} (m : M S A) (f : A -> M S B) o s a o' s' :
  m o s = Ok a o' s' -> (m ≫= f) o s = f a o' s'.
Proof. unfold mbind, M_bind. by intros ->. Qed.

Lemma bind_ext {A B} (m m' : M S A) (f : A -> M S B) o s :
  m o s = m' o s -> (m ≫= f) o s = (m' ≫= f) o s.
Proof. unfold mbind, M_bind. by intros ->. Qed.

Lemma bind_panic {A B} (m : M S A) (f : A -> M S B) o s msg s' :
  m o s = Panic msg s' -> (m ≫= f) o s = Panic msg s'.
Proof. unfold mbind, M_bind. by intros ->. Qed.

Lemma bind_ok_inv {A B} (m : M S A) (f : A -> M S B) o s b o' s' :
  (m ≫= f) o s = Ok b o' s' ->
  exists a o1 s1, m o s = Ok a o1 s1 /\ f a o1 s1 = Ok b o' s'.
Proof. unfold mbind, M_bind. destruct (m o s); try discriminate. eauto. Qed.

Lemma bind_assoc {A B C} (m : M S A) (f : A -> M S B) (g : B -> M S C) o s :
  ((m ≫= f) ≫= g) o s = (m ≫= (fun a => f a ≫= g)) o s.
Proof. unfold mbind, M_bind. by destruct (m o s). Qed.

Lemma deref_some {A} msg (f : S -> option A) o s a :
  f s = Some a -> deref msg f o s = Ok a o s.
Proof. unfold deref. by intros ->. Qed.

(** ** Consumption of the environment

    A computation that returns leaves at most the environment steps it was
    given; one that had to wait leaves strictly fewer. *)
Definition consumes (d : nat) {A} (m : M S A) : Prop :=
  forall o s a o' s', m o s = Ok a o' s' -> (d + length o' <= length o)%nat.

Lemma consumes_bind d1 d2 {A B} (m : M S A) (f : A -> M S B) :
  consumes d1 m -> (forall a, consumes d2 (f a)) -> consumes (d1 + d2) (m ≫= f).
Proof.
  intros Hm Hf o s b o' s' (a & o1 & s1 & H1 & H2)%bind_ok_inv.
  apply Hm in H1. apply Hf in H2. lia.
Qed.

Lemma consumes_0_bind {A B} (m : M S A) (f : A -> M S B) :
  consumes 0 m -> (forall a, consumes 0 (f a)) -> consumes 0 (m ≫= f).
Proof. apply (consumes_bind 0 0). Qed.

Lemma consumes_ret {A} (a : A) : consumes 0 (mret a : M S A).
Proof. intros o s a' o' s' [= -> -> ->]. lia. Qed.
Lemma consumes_gets {A} (f : S -> A) : consumes 0 (gets f).
Proof. intros o s a o' s' [= _ -> _]. lia. Qed.
Lemma consumes_modify f : consumes 0 (modify f).
Proof. intros o s a o' s' [= _ -> _]. lia. Qed.
Lemma consumes_deref {A} msg (f : S -> option A) : consumes 0 (deref msg f).
Proof. intros o s a o' s'. unfold deref. destruct (f s); [|done]. intros [= _ -> _]. lia. Qed.
Lemma consumes_never {A} (m : M S A) : (forall o s a o' s', m o s <> Ok a o' s') -> forall d, consumes d m.
Proof. intros Hm d o s a o' s' H. by apply Hm in H. Qed.

(** ** Loops that wait

    [repeat_until body] runs [body] until it gives a result.  A pass that gives
    none has let the environment run, which bounds the number of passes. *)
Fixpoint repeat_fuel {A} (n : nat) (body : M S (option A)) : M S A :=
  match n with
  | O => fault "loop"
  | Datatypes.S n' => body ≫= fun r => match r with Some a => mret a | None => repeat_fuel n' body end
  end.
Definition repeat_until {A} (body : M S (option A)) : M S A :=
  fun o => repeat_fuel (Datatypes.S (length o)) body o.

(** The condition under which the bound is never reached. *)
Definition waits {A} (body : M S (option A)) : Prop :=
  forall o s o' s', body o s = Ok None o' s' -> (length o' < length o)%nat.

Lemma repeat_fuel_enough {A} (body : M S (option A)) : waits body ->
  forall n n' o s, (length o < n)%nat -> (length o < n')%nat ->
  repeat_fuel n body o s = repeat_fuel n' body o s.
Proof.
  intros Hw n. induction n as [|n IH]; intros [|n'] o s Hn Hn'; try lia. simpl.
  unfold mbind, M_bind. destruct (body o s) as [[a|] o1 s1| | | |] eqn:E; try done.
  apply Hw in E. apply IH; lia.
Qed.

(** The loop as its own unrolling: what the source means by it. *)
Lemma repeat_unfold {A} (body : M S (option A)) o s : waits body ->
  repeat_until body o s =
    (body ≫= fun r => match r with Some a => mret a | None => repeat_until body end) o s.
Proof.
  intros Hw. unfold repeat_until at 1. simpl. unfold mbind, M_bind.
  destruct (body o s) as [[a|] o1 s1| | | |] eqn:E; try done.
  apply Hw in E. apply repeat_fuel_enough; [done|lia..].
Qed.

Lemma repeat_once {A} (body : M S (option A)) o s a o' s' :
  body o s = Ok (Some a) o' s' -> repeat_until body o s = Ok a o' s'.
Proof. unfold repeat_until. simpl. unfold mbind, M_bind. by intros ->. Qed.

Lemma for_each_app {A} (l1 l2 : list A) (body : A -> M S unit) o s :
  for_each (l1 ++ l2) body o s = (for_each l1 body ≫= fun _ => for_each l2 body) o s.
Proof.
  revert o s. induction l1 as [|a l1 IH]; intros o s; simpl; [done|].
  rewrite bind_assoc. unfold mbind at 1 2, M_bind at 1 2. destruct (body a o s); [apply IH|done..].
Qed.
End ops.

Create HintDb consumes discriminated.
#[export] Hint Resolve consumes_ret consumes_gets consumes_modify consumes_deref : consumes.
#[export] Hint Extern 1 (consumes _ (panic _)) => by apply consumes_never : consumes.
#[export] Hint Extern 1 (consumes _ (fault _)) => by apply consumes_never : consumes.
#[export] Hint Extern 1 (consumes _ exiting) => by apply consumes_never : consumes.
Ltac solve_consumes :=
  repeat (first [ solve [eauto with consumes] | apply consumes_0_bind; [|intros ?] | progress case_if | break_match ]).

(** [mstep] executes the first action of a computation whose effect the [mexec]
    database or the context knows; [mrun] executes as far as it goes. *)
Create HintDb mexec discriminated.

Ltac mbind_step :=
  match goal with
  | |- context [@mbind _ _ ?A ?B ?f ?m ?o ?s] =>
      first
        [ erewrite (bind_ok m f o s) by (first [ reflexivity | eassumption | solve [eauto with mexec] ])
        | erewrite (bind_panic m f o s) by (first [ reflexivity | eassumption ]) ];
      cbv beta
  end.
Ltac mrun := repeat (mbind_step; rsimpl).
