(* ===== verification/State.v ===== *)
(** The kernel's data: the structures of proc.h, kthread.h, buf.h, sleeplock.h,
    fs.h, file.h, log.c, pipe.c, console.c and kalloc.c, gathered in the record
    [kernel] that every kernel operation transforms.

    Pointers to entries of a static table are indices into the list that models
    the table, with [None] for the null pointer; addresses of pages handed out
    by the page allocator are integers, with 0 for null. *)

From S2P Require Import Prelude Monad.

(** * Constants of param.h, mmu.h, memlayout.h, kthread.h and fs.h *)

Definition NPROC : nat := 64.
Definition NTHREAD : nat := 16.
Definition NOFILE : nat := 16.
Definition NFILE : nat := 100.
Definition NINODE : nat := 50.
Definition MAXOPBLOCKS : Z := 10.
Definition LOGSIZE : Z := MAXOPBLOCKS * 3.
Definition NBUF : nat := 30.
Definition BSIZE : Z := 512.
Definition NDIRECT : nat := 12.
Definition INPUT_BUF : Z := 128.
Definition PIPESIZE : Z := 512.
Definition KSTACKSIZE : Z := 4096.
Definition MAX_MUTEXES : nat := 64.
Definition PGSIZE : Z := 4096.
Definition KERNBASE : Z := 0x80000000.
Definition PHYSTOP : Z := 0xE000000.
Definition EXTMEM : Z := 0x100000.
Definition DEVSPACE : Z := 0xFE000000.
Definition FL_IF : Z := 0x200.
Definition SEG_UCODE : Z := 3.
Definition SEG_UDATA : Z := 4.
Definition DPL_USER : Z := 3.

(** Symbols whose value the linker chooses: code and data addresses. *)
Class Layout := {
  sym_end : Z;       (* first address after the loaded kernel *)
  sym_data : Z;      (* start of the kernel's writable data *)
  sym_forkret : Z;
  sym_trapret : Z;
}.

(** * Names of locks and of sleep channels *)

(** The sleep locks: those of the buffers and of the cached inodes. *)
Inductive slid : Type :=
| SBuf (i : nat)          (* bcache.buf[i].lock *)
| SInode (i : nat).       (* icache.inode[i].lock *)

#[export] Instance slid_eq_dec : EqDecision slid.
Proof. solve_decision. Defined.

(** The spin locks of the kernel. *)
Inductive lockid : Type :=
| LPtable                 (* ptable.lock *)
| LMtable                 (* mtable.lock *)
| LMutex (i : nat)        (* mtable.mutex[i].mutexLock *)
| LKmem                   (* kmem.lock *)
| LFtable                 (* ftable.lock *)
| LTicks                  (* tickslock *)
| LLog                    (* log.lock *)
| LBcache                 (* bcache.lock *)
| LIcache                 (* icache.lock *)
| LCons                   (* cons.lock *)
| LIde                    (* idelock *)
| LSleep (s : slid)       (* the spin lock inside a sleep lock *)
| LPipe (a : Z).          (* lock of the pipe in page a *)

#[export] Instance lockid_eq_dec : EqDecision lockid.
Proof. solve_decision. Defined.

Definition lockid_enc (l : lockid) : nat * Z :=
  match l with
  | LPtable => (0%nat, 0) | LMtable => (1%nat, 0) | LMutex i => (2%nat, Z.of_nat i)
  | LKmem => (3%nat, 0) | LFtable => (4%nat, 0) | LTicks => (5%nat, 0)
  | LLog => (6%nat, 0) | LPipe a => (7%nat, a)
  | LBcache => (8%nat, 0) | LIcache => (9%nat, 0) | LCons => (10%nat, 0) | LIde => (11%nat, 0)
  | LSleep (SBuf i) => (12%nat, Z.of_nat i) | LSleep (SInode i) => (13%nat, Z.of_nat i)
  end.
Definition lockid_dec (c : nat * Z) : option lockid :=
  match c with
  | (0%nat, _) => Some LPtable | (1%nat, _) => Some LMtable
  | (2%nat, z) => Some (LMutex (Z.to_nat z)) | (3%nat, _) => Some LKmem
  | (4%nat, _) => Some LFtable | (5%nat, _) => Some LTicks
  | (6%nat, _) => Some LLog | (7%nat, a) => Some (LPipe a)
  | (8%nat, _) => Some LBcache | (9%nat, _) => Some LIcache | (10%nat, _) => Some LCons
  | (11%nat, _) => Some LIde | (12%nat, z) => Some (LSleep (SBuf (Z.to_nat z)))
  | (13%nat, z) => Some (LSleep (SInode (Z.to_nat z))) | _ => None
  end.
#[export] Instance lockid_countable : Countable lockid.
Proof.
  apply (inj_countable lockid_enc lockid_dec).
  intros [| | | | | | | | | | |[]|]; simpl; rewrite ?Nat2Z.id; reflexivity.
Defined.

(** Who holds a spin lock: the executing CPU or another one. *)
Inductive holder : Type := Me | Other.
#[export] Instance holder_eq_dec : EqDecision holder.
Proof. solve_decision. Defined.

(** The objects whose address serves as a sleep channel. *)
Inductive chan : Type :=
| CThread (p t : nat)     (* &ptable.proc[p].ttable[t] *)
| CMutex (i : nat)        (* &mtable.mutex[i] *)
| CTicks                  (* &ticks *)
| CLog                    (* &log *)
| CSleep (s : slid)       (* the sleep lock itself *)
| CBuf (i : nat)          (* &bcache.buf[i] *)
| CInput                  (* &input.r *)
| CNread (a : Z)          (* &p->nread of the pipe in page a *)
| CNwrite (a : Z).        (* &p->nwrite *)
#[export] Instance chan_eq_dec : EqDecision chan.
Proof. solve_decision. Defined.

(** * Processes and threads (proc.h) *)

Inductive threadstate : Type :=
  T_UNUSED | T_EMBRYO | T_SLEEPING | T_RUNNABLE | T_RUNNING | T_ZOMBIE.
#[export] Instance threadstate_eq_dec : EqDecision threadstate.
Proof. solve_decision. Defined.

Inductive procstate : Type := UNUSED | USED | ZOMBIE.
#[export] Instance procstate_eq_dec : EqDecision procstate.
Proof. solve_decision. Defined.

(** Saved registers for kernel context switches, and the return address the
    word above them holds. *)
Record context : Type := mkContext {
  c_edi : Z; c_esi : Z; c_ebx : Z; c_ebp : Z; c_eip : Z; c_ret : Z }.
#[export] Instance eta_context : Eta context := fun c =>
  mkContext (c_edi c) (c_esi c) (c_ebx c) (c_ebp c) (c_eip c) (c_ret c).

Record trapframe : Type := mkTrapframe {
  tf_edi : Z; tf_esi : Z; tf_ebp : Z; tf_oesp : Z; tf_ebx : Z; tf_edx : Z; tf_ecx : Z; tf_eax : Z;
  tf_gs : Z; tf_fs : Z; tf_es : Z; tf_ds : Z; tf_trapno : Z;
  tf_err : Z; tf_eip : Z; tf_cs : Z; tf_eflags : Z; tf_esp : Z; tf_ss : Z }.
#[export] Instance eta_trapframe : Eta trapframe := fun f =>
  mkTrapframe (tf_edi f) (tf_esi f) (tf_ebp f) (tf_oesp f) (tf_ebx f) (tf_edx f) (tf_ecx f) (tf_eax f)
    (tf_gs f) (tf_fs f) (tf_es f) (tf_ds f) (tf_trapno f)
    (tf_err f) (tf_eip f) (tf_cs f) (tf_eflags f) (tf_esp f) (tf_ss f).
Definition zero_trapframe : trapframe := mkTrapframe 0 0 0 0 0 0 0 0 0 0 0 0 0 0 0 0 0 0 0.
Definition sizeof_trapframe : Z := 76.
Definition sizeof_context : Z := 20.

(** [struct thread].  [t_tf] and [t_context] are the pointers into the kernel
    stack; the objects they point to are the fields [t_frame] and [t_ctx]. *)
Record thread : Type := mkThread {
  t_kstack : Z;
  t_state : threadstate;
  t_tf : Z;
  t_frame : trapframe;
  t_tid : Z;
  t_parent : option nat;
  t_context : Z;
  t_ctx : context;
  t_chan : option chan;
  t_shouldDie : Z;
  t_next : option (nat * nat);
  t_mutex_flag : Z;
  t_name : list Z }.
#[export] Instance eta_thread : Eta thread := fun t =>
  mkThread (t_kstack t) (t_state t) (t_tf t) (t_frame t) (t_tid t) (t_parent t) (t_context t)
    (t_ctx t) (t_chan t) (t_shouldDie t) (t_next t) (t_mutex_flag t) (t_name t).

Record proc : Type := mkProc {
  p_sz : Z;
  p_pgdir : Z;
  p_state : procstate;
  p_pid : Z;
  p_parent : option nat;
  p_killed : Z;
  p_ofile : list (option nat);
  p_cwd : option nat;
  p_ttable : list thread;
  p_name : list Z;
  p_numOfthread : Z }.
#[export] Instance eta_proc : Eta proc := fun p =>
  mkProc (p_sz p) (p_pgdir p) (p_state p) (p_pid p) (p_parent p) (p_killed p) (p_ofile p)
    (p_cwd p) (p_ttable p) (p_name p) (p_numOfthread p).

(** * Kernel mutexes (kthread.h) *)

Inductive mutexState : Type := UNINITIALIZED | OPEN | CLOSE.
#[export] Instance mutexState_eq_dec : EqDecision mutexState.
Proof. solve_decision. Defined.

Record mutex : Type := mkMutex {
  m_mid : Z;
  m_lock : Z;
  m_numOfWaiting : Z;
  m_state : mutexState;
  m_holding : option (nat * nat);
  m_pid_holder : Z }.
#[export] Instance eta_mutex : Eta mutex := fun m =>
  mkMutex (m_mid m) (m_lock m) (m_numOfWaiting m) (m_state m) (m_holding m) (m_pid_holder m).

(** * Pipes (pipe.c) *)

Record pipe : Type := mkPipe {
  pi_data : list Z;
  pi_nread : Z;
  pi_nwrite : Z;
  pi_readopen : Z;
  pi_writeopen : Z }.
#[export] Instance eta_pipe : Eta pipe := fun p =>
  mkPipe (pi_data p) (pi_nread p) (pi_nwrite p) (pi_readopen p) (pi_writeopen p).

(** * Sleep locks (sleeplock.h) *)

Record sleeplock : Type := mkSleeplock { sl_locked : Z; sl_pid : Z }.
#[export] Instance eta_sleeplock : Eta sleeplock := fun l => mkSleeplock (sl_locked l) (sl_pid l).

(** * The buffer cache and the log (buf.h, bio.c, log.c) *)

Definition B_VALID : Z := 0x2.
Definition B_DIRTY : Z := 0x4.

(** The links of a buffer are indices into [bcache]: [buf[i]] is entry [i] and
    [head] is entry [NBUF]. *)
Record buf : Type := mkBuf {
  b_flags : Z;
  b_dev : Z;
  b_blockno : Z;
  b_lock : sleeplock;
  b_refcnt : Z;
  b_prev : nat;
  b_next : nat;
  b_qnext : option nat;
  b_data : list Z }.
#[export] Instance eta_buf : Eta buf := fun b =>
  mkBuf (b_flags b) (b_dev b) (b_blockno b) (b_lock b) (b_refcnt b) (b_prev b) (b_next b)
    (b_qnext b) (b_data b).

(** [struct log] with its in-memory header [lh]. *)
Record log : Type := mkLog {
  lg_start : Z;
  lg_size : Z;
  lg_outstanding : Z;
  lg_committing : Z;
  lg_dev : Z;
  lh_n : Z;
  lh_block : list Z }.
#[export] Instance eta_log : Eta log := fun l =>
  mkLog (lg_start l) (lg_size l) (lg_outstanding l) (lg_committing l) (lg_dev l) (lh_n l) (lh_block l).

(** * The file system (fs.h, file.h) *)

Record superblock : Type := mkSuperblock {
  sb_size : Z; sb_nblocks : Z; sb_ninodes : Z; sb_nlog : Z;
  sb_logstart : Z; sb_inodestart : Z; sb_bmapstart : Z }.
#[export] Instance eta_superblock : Eta superblock := fun s =>
  mkSuperblock (sb_size s) (sb_nblocks s) (sb_ninodes s) (sb_nlog s)
    (sb_logstart s) (sb_inodestart s) (sb_bmapstart s).

Record inode : Type := mkInode {
  i_dev : Z;
  i_inum : Z;
  i_ref : Z;
  i_lock : sleeplock;
  i_valid : Z;
  i_type : Z;
  i_major : Z;
  i_minor : Z;
  i_nlink : Z;
  i_size : Z;
  i_addrs : list Z }.
#[export] Instance eta_inode : Eta inode := fun i =>
  mkInode (i_dev i) (i_inum i) (i_ref i) (i_lock i) (i_valid i) (i_type i) (i_major i) (i_minor i)
    (i_nlink i) (i_size i) (i_addrs i).

Inductive filetype : Type := FD_NONE | FD_PIPE | FD_INODE.
#[export] Instance filetype_eq_dec : EqDecision filetype.
Proof. solve_decision. Defined.

Record file : Type := mkFile {
  f_type : filetype;
  f_ref : Z;
  f_readable : bool;
  f_writable : bool;
  f_pipe : Z;
  f_ip : option nat;
  f_off : Z }.
#[export] Instance eta_file : Eta file := fun f =>
  mkFile (f_type f) (f_ref f) (f_readable f) (f_writable f) (f_pipe f) (f_ip f) (f_off f).

(** The disk is the image the machine was started with and the blocks written to
    it since, oldest first. *)
Record fsys : Type := mkFsys {
  d_image : list (list Z);
  d_trace : list (nat * list Z);
  bcache : list buf;
  slog : log;
  sb : superblock;
  icache : list inode;
  ftable : list file;
  idequeue : option nat;
  fs_first : bool }.                   (* [first] of [forkret] *)
#[export] Instance eta_fsys : Eta fsys := fun f =>
  mkFsys (d_image f) (d_trace f) (bcache f) (slog f) (sb f) (icache f) (ftable f) (idequeue f)
    (fs_first f).

(** * The console (console.c) *)

Record console : Type := mkConsole {
  con_panicked : bool;
  con_locking : bool;                  (* cons.locking *)
  con_uart : bool;                     (* a serial port is present *)
  con_out : list Z;                    (* what was sent to the serial port *)
  con_crt : list Z;                    (* CGA memory *)
  con_pos : Z;                         (* the cursor position the CGA registers hold *)
  in_buf : list Z;
  in_r : Z;
  in_w : Z;
  in_e : Z;
  kbd_shift : Z }.                     (* [shift] of [kbdgetc] *)
#[export] Instance eta_console : Eta console := fun c =>
  mkConsole (con_panicked c) (con_locking c) (con_uart c) (con_out c) (con_crt c) (con_pos c)
    (in_buf c) (in_r c) (in_w c) (in_e c) (kbd_shift c).

(** * The whole kernel *)

Record kernel : Type := mkKernel {
  locks : gmap lockid holder;          (* spin locks that are held *)
  cpu_proc : option nat;               (* mycpu()->proc *)
  cpu_thread : option (nat * nat);     (* mycpu()->thread *)
  ptable : list proc;                  (* ptable.proc *)
  initproc : option nat;
  nextpid : Z;
  nexttid : Z;
  nextmid : Z;
  mtable : list mutex;                 (* mtable.mutex *)
  use_lock : bool;                     (* kmem.use_lock *)
  freelist : Z;                        (* kmem.freelist *)
  pages : gmap Z (list Z);             (* memory of the allocator's pages, by word *)
  pipes : gmap Z pipe;                 (* the pipes, by page *)
  ticks : Z;
  umem : gmap Z Z;                     (* words of the running program's data *)
  fs : fsys;
  cons : console }.
#[export] Instance eta_kernel : Eta kernel := fun k =>
  mkKernel (locks k) (cpu_proc k) (cpu_thread k) (ptable k) (initproc k) (nextpid k) (nexttid k)
    (nextmid k) (mtable k) (use_lock k) (freelist k) (pages k) (pipes k) (ticks k) (umem k)
    (fs k) (cons k).

Abbreviation K A := (M kernel A).

(** Statically allocated tables start zeroed. *)
Definition zero_context : context := mkContext 0 0 0 0 0 0.
Definition zero_thread : thread :=
  mkThread 0 T_UNUSED 0 zero_trapframe 0 None 0 zero_context None 0 None 0 (replicate 16 0).
Definition zero_proc : proc :=
  mkProc 0 0 UNUSED 0 None 0 (replicate NOFILE None) None (replicate NTHREAD zero_thread)
    (replicate 16 0) 0.
Definition zero_mutex : mutex := mkMutex 0 0 0 UNINITIALIZED None 0.
Definition zero_sleeplock : sleeplock := mkSleeplock 0 0.
Definition zero_buf : buf := mkBuf 0 0 0 zero_sleeplock 0 0 0 None (replicate (Z.to_nat BSIZE) 0).
Definition zero_log : log := mkLog 0 0 0 0 0 0 (replicate (Z.to_nat LOGSIZE) 0).
Definition zero_superblock : superblock := mkSuperblock 0 0 0 0 0 0 0.
Definition zero_inode : inode := mkInode 0 0 0 zero_sleeplock 0 0 0 0 0 0 (replicate (NDIRECT + 1) 0).
Definition zero_file : file := mkFile FD_NONE 0 false false 0 None 0.
Definition zero_fsys : fsys :=
  mkFsys [] [] (replicate (S NBUF) zero_buf) zero_log zero_superblock (replicate NINODE zero_inode)
    (replicate NFILE zero_file) None true.
Definition zero_console : console :=
  mkConsole false false false [] (replicate (Z.to_nat 16384) 0) 0 (replicate (Z.to_nat INPUT_BUF) 0) 0 0 0 0.
Definition boot_kernel : kernel :=
  mkKernel ∅ None None (replicate NPROC zero_proc) None 1 1 1 (replicate MAX_MUTEXES zero_mutex)
    false 0 ∅ ∅ 0 ∅ zero_fsys zero_console.

(** * Spin locks as the rest of the kernel sees them

    [acquire] panics on a lock this CPU already holds, spins while another CPU
    holds it and otherwise takes it; [release] panics on a lock this CPU does
    not hold.  The implementation of spinlock.c is shown to refine these in the
    file on spin locks. *)

Definition holding (l : lockid) : K bool := gets (fun k => bool_decide (locks k !! l = Some Me)).

Fixpoint acquire_spin (l : lockid) (o : list (kernel -> kernel)) (k : kernel) : outcome kernel unit :=
  match locks k !! l with
  | None => Ok tt o (k <| locks ::= <[l := Me]> |>)
  | Some _ => match o with [] => Waiting k | f :: o' => acquire_spin l o' (f k) end
  end.

Definition acquire (l : lockid) : K unit :=
  h ← holding l;
  if (h : bool) then panic "acquire" else acquire_spin l.

Definition release (l : lockid) : K unit :=
  h ← holding l;
  if (h : bool) then modify (fun k => k <| locks ::= delete l |>) else panic "release".

(** [mycpu()->ncli]: the number of locks this CPU holds. *)
Definition ncli (k : kernel) : nat := size (filter (fun lh => lh.2 = Me) (locks k)).

Definition unlocked (l : lockid) (k : kernel) : Prop := locks k !! l = None.
Definition locked (l : lockid) (k : kernel) : Prop := locks k !! l = Some Me.

Lemma acquire_unfold l o k :
  acquire l o k = if bool_decide (locks k !! l = Some Me) then Panic "acquire" k else acquire_spin l o k.
Proof. unfold acquire, holding, mbind, M_bind, gets. by destruct (bool_decide _). Qed.

Lemma release_unfold l o k :
  release l o k = if bool_decide (locks k !! l = Some Me)
                  then Ok tt o (k <| locks ::= delete l |>) else Panic "release" k.
Proof. unfold release, holding, mbind, M_bind, gets. by destruct (bool_decide _). Qed.

Lemma acquire_unlocked l o k :
  unlocked l k -> acquire l o k = Ok tt o (k <| locks ::= <[l := Me]> |>).
Proof.
  unfold unlocked, acquire, holding, mbind, M_bind, gets. intros H.
  rewrite H. simpl. destruct o; simpl; by rewrite H.
Qed.

Lemma acquire_locked l o k : locked l k -> acquire l o k = Panic "acquire" k.
Proof.
  unfold locked, acquire, holding, mbind, M_bind, gets. intros H.
  by rewrite bool_decide_true.
Qed.

Lemma release_locked l o k :
  locked l k -> release l o k = Ok tt o (k <| locks ::= delete l |>).
Proof.
  unfold locked, release, holding, mbind, M_bind, gets. intros H.
  by rewrite bool_decide_true.
Qed.

Lemma release_unlocked l o k : unlocked l k -> release l o k = Panic "release" k.
Proof.
  unfold unlocked, release, holding, mbind, M_bind, gets. intros H.
  by rewrite H.
Qed.

Lemma consumes_acquire l : consumes 0 (acquire l).
Proof.
  unfold acquire, holding. apply consumes_0_bind; [apply consumes_gets|]. intros [].
  - eauto with consumes.
  - intros o. induction o as [|f o IH]; intros k a o' k'; simpl; destruct (locks k !! l).
    + done.
    + intros [= _ <- _]. done.
    + intros Hs%IH. simpl in *. lia.
    + intros [= _ <- _]. done.
Qed.

Lemma consumes_release l : consumes 0 (release l).
Proof. unfold release, holding. solve_consumes. Qed.
#[export] Hint Resolve consumes_acquire consumes_release : consumes.

Lemma kernel_eta k : k <| locks := locks k |> = k.
Proof. by destruct k. Qed.

Lemma locked_insert l L k : locked l (k <| locks := <[l := Me]> L |>).
Proof. unfold locked. rsimpl. apply lookup_insert_eq. Qed.

Lemma ncli_insert l k : unlocked l k -> ncli (k <| locks ::= <[l := Me]> |>) = S (ncli k).
Proof.
  unfold unlocked, ncli. intros H. rsimpl. rewrite map_filter_insert_True by done.
  apply map_size_insert_None. apply map_lookup_filter_None. by left.
Qed.

Lemma ncli_delete l k : locked l k -> ncli k = S (ncli (k <| locks ::= delete l |>)).
Proof.
  unfold locked, ncli. intros H. rsimpl. rewrite map_filter_delete.
  rewrite <- (insert_id (filter _ (locks k)) l Me) at 1.
  - rewrite <- insert_delete_eq, map_size_insert_None by apply lookup_delete_eq. done.
  - by apply map_lookup_filter_Some.
Qed.

Lemma ncli_singleton l k : locks k = {[l := Me]} -> ncli k = 1%nat.
Proof. intros Hl. unfold ncli. rewrite Hl, map_filter_singleton_True by done. apply map_size_singleton. Qed.

(** Lock hypotheses of states reached by updates of other fields. *)
Ltac solve_lock :=
  match goal with
  | |- locked _ _ => unfold locked, unlocked in *; rsimpl; simplify_map_eq; done
  | |- unlocked _ _ => unfold locked, unlocked in *; rsimpl; simplify_map_eq; done
  end.
#[export] Hint Extern 1 (locked _ _) => solve_lock : mexec.
#[export] Hint Extern 1 (unlocked _ _) => solve_lock : mexec.
#[export] Hint Resolve acquire_unlocked release_locked : mexec.

Lemma unlock_lock (L : gmap lockid holder) l : L !! l = None -> delete l (<[l := Me]> L) = L.
Proof. apply delete_insert_id. Qed.
Lemma delete_insert_swap (L : gmap lockid holder) l l' h :
  l <> l' -> delete l (<[l' := h]> L) = <[l' := h]> (delete l L).
Proof. intros. by apply delete_insert_ne. Qed.
Create Rewrite HintDb locks.
#[export] Hint Rewrite unlock_lock delete_insert_swap
  using (repeat first [rewrite lookup_insert_ne by done | rewrite lookup_delete_ne by done]; done) : locks.

(** Equality of kernel states, field by field. *)
Lemma kernel_ext k k' :
  locks k = locks k' -> cpu_proc k = cpu_proc k' -> cpu_thread k = cpu_thread k' ->
  ptable k = ptable k' -> initproc k = initproc k' -> nextpid k = nextpid k' ->
  nexttid k = nexttid k' -> nextmid k = nextmid k' -> mtable k = mtable k' ->
  use_lock k = use_lock k' -> freelist k = freelist k' -> pages k = pages k' ->
  pipes k = pipes k' -> ticks k = ticks k' -> umem k = umem k' ->
  fs k = fs k' -> cons k = cons k' -> k = k'.
Proof. destruct k, k'; simpl; intros; subst; reflexivity. Qed.

Lemma proc_ext p p' :
  p_sz p = p_sz p' -> p_pgdir p = p_pgdir p' -> p_state p = p_state p' -> p_pid p = p_pid p' ->
  p_parent p = p_parent p' -> p_killed p = p_killed p' -> p_ofile p = p_ofile p' ->
  p_cwd p = p_cwd p' -> p_ttable p = p_ttable p' -> p_name p = p_name p' ->
  p_numOfthread p = p_numOfthread p' -> p = p'.
Proof. destruct p, p'; simpl; intros; subst; reflexivity. Qed.

Lemma thread_ext t t' :
  t_kstack t = t_kstack t' -> t_state t = t_state t' -> t_tf t = t_tf t' -> t_frame t = t_frame t' ->
  t_tid t = t_tid t' -> t_parent t = t_parent t' -> t_context t = t_context t' ->
  t_ctx t = t_ctx t' -> t_chan t = t_chan t' -> t_shouldDie t = t_shouldDie t' ->
  t_next t = t_next t' -> t_mutex_flag t = t_mutex_flag t' -> t_name t = t_name t' -> t = t'.
Proof. destruct t, t'; simpl; intros; subst; reflexivity. Qed.

Lemma mutex_ext m m' :
  m_mid m = m_mid m' -> m_lock m = m_lock m' -> m_numOfWaiting m = m_numOfWaiting m' ->
  m_state m = m_state m' -> m_holding m = m_holding m' -> m_pid_holder m = m_pid_holder m' -> m = m'.
Proof. destruct m, m'; simpl; intros; subst; reflexivity. Qed.

Ltac kernel_eq :=
  apply kernel_ext; unfold unlocked, locked in *; rsimpl; autorewrite with locks; try done.

(** Equality of two updates of one process that differ in how the updates of
    its fields and of its threads are composed. *)
Ltac alter_eq tac :=
  rewrite ?list_alter_alter_eq; apply list_alter_ext; [intros ? ?; unfold compose; tac|done].
Ltac proc_eq :=
  alter_eq ltac:(apply proc_ext; rsimpl; try done;
                 alter_eq ltac:(apply thread_ext; rsimpl; done)).
Ltac mutex_eq := alter_eq ltac:(apply mutex_ext; rsimpl; done).
