(* ===== verification/Spinlock.v ===== *)
(** Mutual exclusion spin locks (spinlock.c), interrupt nesting
    ([pushcli]/[popcli]) and the identity of the executing CPU ([mycpu],
    [cpuid] of proc.c), at the level of the CPUs' flags and the atomic [xchg].

    [Module Spin] models the operations as one CPU runs them; [Module Smp]
    interleaves the instructions of many CPUs contending for one lock.  The last
    section shows that the operations implement the spin locks the rest of the
    development uses. *)

From S2P Require Import Prelude Monad State.

Module Spin.

(** The part of [struct cpu] the locks use. *)
Record cpu : Type := mkCpu { apicid : Z; ncli : Z; intena : Z }.
#[global] Instance eta_cpu : Eta cpu := fun c => mkCpu (apicid c) (ncli c) (intena c).

Record spinlock : Type := mkSpinlock {
  sl_locked : Z; sl_name : string; sl_cpu : option nat; sl_pcs : list Z }.
#[global] Instance eta_spinlock : Eta spinlock := fun l =>
  mkSpinlock (sl_locked l) (sl_name l) (sl_cpu l) (sl_pcs l).

(** The machine: the table [cpus], the flags register and local APIC id of each
    processor, the locks, and the words of kernel memory. *)
Record machine : Type := mkMachine {
  cpus : list cpu;
  eflags : list Z;
  lapic : list Z;
  sl : lockid -> spinlock;
  mem : Z -> Z }.
#[global] Instance eta_machine : Eta machine := fun m =>
  mkMachine (cpus m) (eflags m) (lapic m) (sl m) (mem m).

Section ops.
(** The processor that executes the code. *)
Variable self : nat.

Definition readeflags : M machine Z := deref "eflags" (fun m => eflags m !! self).
Definition cli : M machine unit :=
  modify (fun m => m <| eflags ::= alter (fun f => Z.ldiff f FL_IF) self |>).
Definition sti : M machine unit :=
  modify (fun m => m <| eflags ::= alter (fun f => Z.lor f FL_IF) self |>).
Definition lapicid : M machine Z := deref "lapic" (fun m => lapic m !! self).

(** [mycpu]: the entry of [cpus] with the processor's APIC id. *)
Definition mycpu : M machine nat :=
  fl ← readeflags;
  if negb (Z.land fl FL_IF =? 0) then panic "mycpu called with interrupts enabled" else
  id ← lapicid;
  cs ← gets cpus;
  match list_find (fun c => apicid c = id) cs with
  | Some (i, _) => mret i
  | None => panic "unknown apicid"
  end.

Definition cpuid : M machine nat := mycpu.

Definition cpu_at (i : nat) : M machine cpu := deref "cpu" (fun m => cpus m !! i).
Definition upd_cpu (i : nat) (f : cpu -> cpu) : M machine unit :=
  modify (fun m => m <| cpus ::= alter f i |>).

Definition pushcli : M machine unit :=
  fl ← readeflags;
  cli;;
  i ← mycpu;
  c ← cpu_at i;
  when (ncli c =? 0) (j ← mycpu; upd_cpu j (fun c => c <| intena := Z.land fl FL_IF |>));;
  j ← mycpu;
  upd_cpu j (fun c => c <| ncli := ncli c + 1 |>).

Definition popcli : M machine unit :=
  fl ← readeflags;
  if negb (Z.land fl FL_IF =? 0) then panic "popcli - interruptible" else
  i ← mycpu;
  upd_cpu i (fun c => c <| ncli := ncli c - 1 |>);;
  c ← cpu_at i;
  if ncli c <? 0 then panic "popcli" else
  j ← mycpu;
  c ← cpu_at j;
  when ((ncli c =? 0) && negb (intena c =? 0)) sti.

Definition initlock (l : lockid) (name : string) : M machine unit :=
  modify (fun m => m <| sl ::= alter (fun lk => lk <| sl_name := name |> <| sl_locked := 0 |> <| sl_cpu := None |>) l |>).

Definition holding (l : lockid) : M machine bool :=
  pushcli;;
  m ← gets id;
  i ← mycpu;
  let r := negb (sl_locked (sl m l) =? 0) && bool_decide (sl_cpu (sl m l) = Some i) in
  popcli;;
  mret r.

(** The atomic exchange: the old value comes back. *)
Definition xchg_locked (l : lockid) (v : Z) : M machine Z :=
  old ← gets (fun m => sl_locked (sl m l));
  modify (fun m => m <| sl ::= alter (fun lk => lk <| sl_locked := v |>) l |>);;
  mret old.

(** [while(xchg(&lk->locked, 1) != 0);] the other CPUs run between two tries. *)
Fixpoint spin (l : lockid) (o : list (machine -> machine)) (m : machine) : outcome machine unit :=
  match xchg_locked l 1 o m with
  | Ok old o1 m1 =>
      if old =? 0 then Ok tt o1 m1 else
      match o with [] => Waiting m1 | f :: o' => spin l o' (f m1) end
  | Panic msg m1 => Panic msg m1
  | Fault msg m1 => Fault msg m1
  | Exiting o1 m1 => Exiting o1 m1
  | Waiting m1 => Waiting m1
  end.

(** [getcallerpcs]: follow the chain of saved frame pointers. *)
Fixpoint getcallerpcs_loop (mm : Z -> Z) (n : nat) (ebp : Z) : list Z :=
  match n with
  | O => []
  | S n' =>
      if (ebp =? 0) || (ebp <? KERNBASE) || (ebp =? 0xffffffff) then replicate n 0
      else mm (ebp + 4) :: getcallerpcs_loop mm n' (mm ebp)
  end.
Definition getcallerpcs (mm : Z -> Z) (v : Z) : list Z := getcallerpcs_loop mm 10 (u32 (v - 8)).

(** [arg] is the address of the parameter on the caller's stack. *)
Definition acquire (arg : Z) (l : lockid) : M machine unit :=
  pushcli;;
  h ← holding l;
  if (h : bool) then panic "acquire" else
  spin l;;
  i ← mycpu;
  modify (fun m => m <| sl ::= alter (fun lk => lk <| sl_cpu := Some i |>
                                                <| sl_pcs := getcallerpcs (mem m) arg |>) l |>).

Definition release (l : lockid) : M machine unit :=
  h ← holding l;
  if negb h then panic "release" else
  modify (fun m => m <| sl ::= alter (fun lk => lk <| sl_pcs ::= <[0%nat := 0]> |> <| sl_cpu := None |>) l |>);;
  modify (fun m => m <| sl ::= alter (fun lk => lk <| sl_locked := 0 |>) l |>);;
  popcli.
End ops.

(** [getcallerpcs] fills its ten entries whatever the memory holds. *)
Lemma getcallerpcs_length mm v : length (getcallerpcs mm v) = 10%nat.
Proof.
  unfold getcallerpcs. generalize (u32 (v - 8)). generalize 10%nat.
  induction n as [|n IH]; intros ebp; [done|].
  cbn [getcallerpcs_loop]. case_if; [apply length_replicate|]. simpl. by rewrite IH.
Qed.

(** ** The effect of each operation on a well-formed machine *)

Definition if_clear (f : Z) : Prop := Z.land f FL_IF = 0.

(** Every processor finds its own entry of [cpus] by its APIC id. *)
Record wf (m : machine) : Prop := {
  wf_eflags : length (eflags m) = length (cpus m);
  wf_lapic : (apicid <$> cpus m) = lapic m;
  wf_nodup : NoDup (lapic m) }.

Definition push_cpu (f : Z) (c : cpu) : cpu :=
  let c := if ncli c =? 0 then c <| intena := Z.land f FL_IF |> else c in
  c <| ncli := ncli c + 1 |>.
Definition push (self : nat) (m : machine) : machine :=
  m <| eflags ::= alter (fun f => Z.ldiff f FL_IF) self |>
    <| cpus ::= alter (push_cpu (default 0 (eflags m !! self))) self |>.
Definition pop (self : nat) (m : machine) : machine :=
  let m1 := m <| cpus ::= alter (fun c => c <| ncli := ncli c - 1 |>) self |> in
  match cpus m1 !! self with
  | Some c => if (ncli c =? 0) && negb (intena c =? 0)
              then m1 <| eflags ::= alter (fun f => Z.lor f FL_IF) self |> else m1
  | None => m1
  end.

Lemma land_ldiff_clear f : if_clear (Z.ldiff f FL_IF).
Proof. unfold if_clear. rewrite Z.land_comm. apply Z.bits_inj'. intros n Hn.
  rewrite Z.land_spec, Z.ldiff_spec, Z.bits_0. destruct (Z.testbit FL_IF n), (Z.testbit f n); done.
Qed.

Lemma ldiff_clear f : if_clear f -> Z.ldiff f FL_IF = f.
Proof. intros H. apply Z.bits_inj'. intros n Hn.
  assert (Z.testbit (Z.land f FL_IF) n = false) as Hb by (unfold if_clear in H; rewrite H; apply Z.bits_0).
  rewrite Z.land_spec in Hb. rewrite Z.ldiff_spec.
  destruct (Z.testbit f n), (Z.testbit FL_IF n); simpl in *; congruence.
Qed.

(** Restoring a set interrupt flag gives back the flags. *)
Lemma lor_ldiff_set f : Z.land f FL_IF <> 0 -> Z.lor (Z.ldiff f FL_IF) FL_IF = f.
Proof.
  intros H. change FL_IF with (2 ^ 9) in *. apply Z.bits_inj'. intros n Hn.
  rewrite Z.lor_spec, Z.ldiff_spec, Z.pow2_bits_eqb by lia.
  destruct (Z.eqb_spec 9 n) as [<-|]; [|by destruct (Z.testbit f n)].
  destruct (Z.testbit f 9) eqn:E; [done|]. contradict H. apply Z.bits_inj'. intros n Hn'.
  rewrite Z.land_spec, Z.pow2_bits_eqb, Z.bits_0 by lia.
  destruct (Z.eqb_spec 9 n) as [<-|]; [by rewrite E|]. by rewrite andb_false_r.
Qed.

Section effects.
Variable self : nat.
Implicit Types (m : machine) (o : list (machine -> machine)).

Lemma apicid_find m c :
  wf m -> cpus m !! self = Some c ->
  exists id, lapic m !! self = Some id /\
    exists c', list_find (fun c => apicid c = id) (cpus m) = Some (self, c').
Proof.
  intros [_ Hl Hn] Hc. exists (apicid c). rewrite <- Hl, list_lookup_fmap, Hc. split; [done|].
  exists c. apply list_find_Some. split; [done|]. split; [done|].
  intros j y Hy Hlt Heq. assert (j = self); [|lia].
  eapply (NoDup_lookup (lapic m)); [done| |];
    rewrite <- Hl, list_lookup_fmap; [rewrite Hy|rewrite Hc]; simpl; by f_equal.
Qed.

Lemma mycpu_self o m c f :
  wf m -> cpus m !! self = Some c -> eflags m !! self = Some f -> if_clear f ->
  mycpu self o m = Ok self o m.
Proof.
  intros Hwf Hc Hf Hi. destruct (apicid_find m c Hwf Hc) as (id & Hid & c' & Hfind).
  unfold mycpu, readeflags, lapicid. unfold mbind, M_bind, deref, gets. rewrite Hf.
  unfold if_clear in Hi. rewrite Hi. simpl. rewrite Hid, Hfind. done.
Qed.

Lemma wf_eflags_lookup m c : wf m -> cpus m !! self = Some c -> exists f, eflags m !! self = Some f.
Proof.
  intros Hwf Hc. apply lookup_lt_is_Some. rewrite (wf_eflags _ Hwf). eauto using lookup_lt_Some.
Qed.

Lemma wf_alter_cpu m g :
  (forall c, apicid (g c) = apicid c) -> wf m -> wf (m <| cpus ::= alter g self |>).
Proof.
  intros Hg [H1 H2 H3]. split; rsimpl; [by rewrite length_alter| |done].
  rewrite <- H2. apply list_eq. intros i. rewrite !list_lookup_fmap, list_lookup_alter.
  case_decide; [|done]. subst. destruct (cpus m !! i); simpl; by rewrite ?Hg.
Qed.

Lemma wf_alter_eflags m g : wf m -> wf (m <| eflags ::= alter g self |>).
Proof. intros [H1 H2 H3]. split; rsimpl; [by rewrite length_alter|done|done]. Qed.

Lemma wf_set_sl m g : wf m -> wf (m <| sl ::= g |>).
Proof. intros [H1 H2 H3]. by split. Qed.

Lemma wf_push m : wf m -> wf (push self m).
Proof.
  intros H. unfold push. apply wf_alter_cpu; [|by apply wf_alter_eflags].
  intros c. unfold push_cpu. by destruct (ncli c =? 0).
Qed.

Lemma pushcli_eq o m c :
  wf m -> cpus m !! self = Some c -> pushcli self o m = Ok tt o (push self m).
Proof.
  intros Hwf Hc. destruct (wf_eflags_lookup m c Hwf Hc) as [f Hf].
  set (m1 := m <| eflags ::= alter (fun f => Z.ldiff f FL_IF) self |>).
  assert (wf m1) as Hwf1 by by apply wf_alter_eflags.
  assert (eflags m1 !! self = Some (Z.ldiff f FL_IF)) as Hf1.
  { unfold m1. rsimpl. rewrite list_lookup_alter, decide_True, Hf by done. done. }
  assert (cpus m1 !! self = Some c) as Hc1 by done.
  unfold pushcli. erewrite bind_ok by (unfold readeflags; by apply deref_some).
  erewrite bind_ok by reflexivity. fold m1.
  erewrite bind_ok by (eapply mycpu_self; eauto using land_ldiff_clear).
  erewrite bind_ok by (unfold cpu_at; by apply deref_some).
  unfold push. fold m1. rewrite Hf. unfold push_cpu. simpl default.
  destruct (ncli c =? 0) eqn:En; simpl when.
  - erewrite bind_ok.
    2:{ erewrite bind_ok by (eapply mycpu_self; eauto using land_ldiff_clear). reflexivity. }
    erewrite bind_ok.
    2:{ eapply mycpu_self; [by apply wf_alter_cpu| | |]; eauto using land_ldiff_clear.
        rsimpl. rewrite list_lookup_alter, decide_True, Hc1 by done. reflexivity. }
    unfold upd_cpu, modify. f_equal. unfold setf; simpl. f_equal.
    rewrite list_alter_alter_eq. eapply alter_at; [done|]. unfold compose. by rewrite En.
  - erewrite bind_ok by reflexivity.
    erewrite bind_ok by (eapply mycpu_self; eauto using land_ldiff_clear).
    unfold upd_cpu, modify. f_equal. unfold setf; simpl. f_equal.
    eapply alter_at; [done|]. by rewrite En.
Qed.

Lemma popcli_eq o m c f :
  wf m -> cpus m !! self = Some c -> eflags m !! self = Some f -> if_clear f -> 1 <= ncli c ->
  popcli self o m = Ok tt o (pop self m).
Proof.
  intros Hwf Hc Hf Hi Hn.
  set (m1 := m <| cpus ::= alter (fun c => c <| ncli := ncli c - 1 |>) self |>).
  assert (wf m1) as Hwf1 by by apply wf_alter_cpu.
  assert (cpus m1 !! self = Some (c <| ncli := ncli c - 1 |>)) as Hc1.
  { unfold m1. rsimpl. by rewrite list_lookup_alter_eq, Hc. }
  unfold popcli. erewrite bind_ok by (unfold readeflags; by apply deref_some).
  unfold if_clear in Hi. rewrite Hi. cbn [negb Z.eqb].
  erewrite bind_ok by (eapply mycpu_self; eauto).
  erewrite bind_ok by reflexivity. fold m1.
  erewrite bind_ok by (unfold cpu_at; by apply deref_some).
  rsimpl. destruct (Z.ltb_spec (ncli c - 1) 0); [lia|].
  erewrite bind_ok by (eapply mycpu_self; eauto).
  erewrite bind_ok by (unfold cpu_at; by apply deref_some).
  unfold pop. fold m1. rewrite Hc1. rsimpl. by destruct ((ncli c - 1 =? 0) && _).
Qed.

(** The state of this processor after [pushcli]. *)
Lemma push_self m c f :
  cpus m !! self = Some c -> eflags m !! self = Some f ->
  cpus (push self m) !! self = Some (push_cpu f c) /\
  eflags (push self m) !! self = Some (Z.ldiff f FL_IF).
Proof.
  intros Hc Hf. unfold push. rsimpl. rewrite Hf, !list_lookup_alter_eq, Hc. by rewrite Hf.
Qed.

(** Nested inside another [pushcli], a pair of [pushcli] and [popcli] changes
    nothing. *)
Lemma pop_push_nested m c f :
  cpus m !! self = Some c -> eflags m !! self = Some f -> if_clear f -> 1 <= ncli c ->
  pop self (push self m) = m.
Proof.
  intros Hc Hf Hi Hn. destruct (push_self m c f Hc Hf) as [Hc' Hf'].
  unfold pop. rsimpl. rewrite list_lookup_alter_eq, Hc'. simpl. rsimpl.
  unfold push_cpu. destruct (Z.eqb_spec (ncli c) 0); [lia|]. rsimpl.
  destruct (Z.eqb_spec (ncli c + 1 - 1) 0); [lia|]. simpl.
  unfold push. rewrite Hf. destruct m as [cs fl la s mm]; unfold setf; simpl in *. f_equal.
  - rewrite list_alter_alter_eq. eapply alter_same; [done|]. unfold compose, push_cpu.
    destruct (Z.eqb_spec (ncli c) 0); [lia|]. destruct c; unfold setf; simpl. f_equal. lia.
  - eapply alter_same; [done|]. by apply ldiff_clear.
Qed.

(** At the outermost level the interrupt flag and the nesting depth come back. *)
Lemma pop_push_outer m c f :
  cpus m !! self = Some c -> eflags m !! self = Some f -> ncli c = 0 ->
  pop self (push self m) = m <| cpus ::= alter (fun c => c <| intena := Z.land f FL_IF |>) self |>.
Proof.
  intros Hc Hf Hn. destruct (push_self m c f Hc Hf) as [Hc' Hf'].
  assert (forall P Q : machine, eflags P = eflags Q -> cpus P = cpus Q -> lapic P = lapic Q ->
    sl P = sl Q -> mem P = mem Q -> P = Q) as Hext by (intros [] []; simpl; congruence).
  assert (alter (fun c => c <| ncli := ncli c - 1 |>) self (cpus (push self m)) =
          alter (fun c => c <| intena := Z.land f FL_IF |>) self (cpus m)) as Hcpus.
  { unfold push. rsimpl. rewrite Hf, list_alter_alter_eq. eapply alter_at; [done|].
    unfold compose, push_cpu. rewrite Hn. destruct c; unfold setf; simpl in *. by subst. }
  unfold pop. rsimpl. rewrite list_lookup_alter_eq, Hc'. simpl. rsimpl.
  unfold push_cpu. rewrite Hn. cbn [Z.eqb]. rsimpl. rewrite Hn.
  change (0 + 1 - 1 =? 0) with true. simpl.
  destruct (Z.eqb_spec (Z.land f FL_IF) 0) as [Hi|Hi]; simpl; apply Hext; rsimpl; try done.
  - unfold push. rsimpl. eapply alter_same; [done|]. by apply ldiff_clear.
  - unfold push. rsimpl. rewrite list_alter_alter_eq. eapply alter_same; [done|]. by apply lor_ldiff_set.
Qed.

Definition held_by (l : lockid) m : bool :=
  negb (sl_locked (sl m l) =? 0) && bool_decide (sl_cpu (sl m l) = Some self).

Lemma holding_eq l o m c :
  wf m -> cpus m !! self = Some c -> 0 <= ncli c ->
  holding self l o m = Ok (held_by l m) o (pop self (push self m)).
Proof.
  intros Hwf Hc Hn. destruct (wf_eflags_lookup m c Hwf Hc) as [f Hf].
  destruct (push_self m c f Hc Hf) as [Hc' Hf'].
  unfold holding. erewrite bind_ok by (eapply pushcli_eq; eauto).
  erewrite bind_ok by reflexivity.
  erewrite bind_ok by (eapply mycpu_self; eauto using wf_push, land_ldiff_clear).
  erewrite bind_ok.
  2:{ eapply popcli_eq; eauto using wf_push, land_ldiff_clear.
      unfold push_cpu. destruct (ncli c =? 0); rsimpl; lia. }
  done.
Qed.

Definition take_lock (arg : Z) (l : lockid) m : machine :=
  m <| sl ::= alter (fun lk => lk <| sl_locked := 1 |>) l |>
    <| sl ::= alter (fun lk => lk <| sl_cpu := Some self |> <| sl_pcs := getcallerpcs (mem m) arg |>) l |>.
Definition drop_lock (l : lockid) m : machine :=
  m <| sl ::= alter (fun lk => lk <| sl_pcs ::= <[0%nat := 0]> |> <| sl_cpu := None |>) l |>
    <| sl ::= alter (fun lk => lk <| sl_locked := 0 |>) l |>.

Lemma push_ncli f c : 0 <= ncli c -> ncli (push_cpu f c) = ncli c + 1.
Proof. intros. unfold push_cpu. by destruct (ncli c =? 0). Qed.

(** The checks of [acquire] before it spins. *)
Lemma acquire_enter arg l o m c :
  wf m -> cpus m !! self = Some c -> 0 <= ncli c ->
  acquire self arg l o m =
    if held_by l m then Panic "acquire" (push self m) else
    (spin l ;; i ← mycpu self;
     modify (fun m => m <| sl ::= alter (fun lk => lk <| sl_cpu := Some i |>
                                                <| sl_pcs := getcallerpcs (mem m) arg |>) l |>))
      o (push self m).
Proof.
  intros Hwf Hc Hn. destruct (wf_eflags_lookup m c Hwf Hc) as [f Hf].
  destruct (push_self m c f Hc Hf) as [Hc' Hf'].
  unfold acquire. erewrite bind_ok by (eapply pushcli_eq; eauto).
  assert (0 <= ncli (push_cpu f c)) by (rewrite push_ncli; lia).
  erewrite bind_ok by (eapply holding_eq; eauto using wf_push).
  erewrite pop_push_nested by (eauto using land_ldiff_clear; rewrite push_ncli; lia).
  change (held_by l (push self m)) with (held_by l m). by destruct (held_by l m).
Qed.

Lemma acquire_free arg l o m c :
  wf m -> cpus m !! self = Some c -> 0 <= ncli c -> sl_locked (sl m l) = 0 ->
  acquire self arg l o m = Ok tt o (take_lock arg l (push self m)).
Proof.
  intros Hwf Hc Hn Hl. destruct (wf_eflags_lookup m c Hwf Hc) as [f Hf].
  destruct (push_self m c f Hc Hf) as [Hc' Hf'].
  erewrite acquire_enter by eauto. unfold held_by. rewrite Hl. cbn [negb Z.eqb andb].
  erewrite bind_ok.
  2:{ destruct o; simpl; unfold mbind, M_bind, gets, modify, mret, M_ret;
      change (sl (push self m)) with (sl m); rewrite Hl; reflexivity. }
  erewrite bind_ok by (eapply mycpu_self; eauto using land_ldiff_clear, wf_set_sl, wf_push).
  done.
Qed.

Lemma release_held l o m c f :
  wf m -> cpus m !! self = Some c -> eflags m !! self = Some f -> if_clear f -> 1 <= ncli c ->
  held_by l m = true ->
  release self l o m = Ok tt o (pop self (drop_lock l m)).
Proof.
  intros Hwf Hc Hf Hi Hn Hh. unfold release.
  erewrite bind_ok by (eapply holding_eq; eauto; lia). rewrite Hh. cbn [negb].
  erewrite pop_push_nested by eauto.
  do 2 (erewrite bind_ok by reflexivity).
  eapply popcli_eq; eauto using wf_set_sl.
Qed.

(** ** Acquiring and releasing *)

Definition machine_ok m : Prop :=
  wf m /\ exists c f, cpus m !! self = Some c /\ eflags m !! self = Some f /\
    0 <= ncli c /\ (1 <= ncli c -> if_clear f).

Lemma take_lock_held arg l m : held_by l (take_lock arg l m) = true.
Proof.
  unfold held_by, take_lock. rsimpl. rewrite !fn_lookup_alter. rsimpl.
  by rewrite bool_decide_true.
Qed.

Lemma take_push_ok arg l m : machine_ok m -> machine_ok (take_lock arg l (push self m)).
Proof.
  intros (Hwf & c & f & Hc & Hf & Hn & Hi). destruct (push_self m c f Hc Hf) as [Hc' Hf'].
  split; [by apply wf_set_sl, wf_set_sl, wf_push|].
  exists (push_cpu f c), (Z.ldiff f FL_IF). rewrite push_ncli by done.
  repeat split; try done; [lia|]. intros _. apply land_ldiff_clear.
Qed.

Lemma pop_set_sl m g : pop self (m <| sl ::= g |>) = pop self m <| sl ::= g |>.
Proof.
  unfold pop. rsimpl.
  change (m <| sl ::= g |> <| cpus ::= ?h |>) with (m <| cpus ::= h |> <| sl ::= g |>).
  rsimpl. destruct (_ !! self); [|done]. by destruct (_ && _).
Qed.

Lemma pop_push_frame m : machine_ok m ->
  eflags (pop self (push self m)) = eflags m /\
  (ncli <$> cpus (pop self (push self m))) = (ncli <$> cpus m) /\
  sl (pop self (push self m)) = sl m.
Proof.
  intros (Hwf & c & f & Hc & Hf & Hn & Hi).
  destruct (decide (ncli c = 0)) as [H0|H0].
  - erewrite pop_push_outer by eauto. rsimpl. repeat split; [].
    apply list_eq. intros i. rewrite !list_lookup_fmap, list_lookup_alter.
    case_decide as Hd; [|done]. subst. by destruct (cpus m !! i).
  - assert (1 <= ncli c) by lia. by erewrite pop_push_nested by eauto.
Qed.
End effects.

(** Taking a free lock and releasing it returns, leaves the interrupt flag
    and the nesting depth of every processor as they were, frees the lock and
    touches no other lock. *)
Theorem acquire_release_balanced self arg l o m :
  machine_ok self m -> sl_locked (sl m l) = 0 ->
  exists m', (acquire self arg l ;; release self l) o m = Ok tt o m' /\
    eflags m' = eflags m /\ (ncli <$> cpus m') = (ncli <$> cpus m) /\
    sl_locked (sl m' l) = 0 /\ sl_cpu (sl m' l) = None /\
    forall l', l' <> l -> sl m' l' = sl m l'.
Proof.
  intros Hok Hl. destruct (pop_push_frame self m Hok) as (He & Hc & Hs).
  destruct (take_push_ok self arg l m Hok) as (Hwf' & c' & f' & Hc' & Hf' & Hn' & Hi').
  pose proof Hok as (Hwf & c & f & Hc0 & Hf0 & Hn0 & Hi0).
  destruct (push_self self m c f Hc0 Hf0) as [Hcp Hfp].
  exists (pop self (drop_lock l (take_lock self arg l (push self m)))).
  assert (1 <= ncli c') as Hn1.
  { change (cpus (push self m) !! self = Some c') in Hc'. rewrite Hcp in Hc'.
    injection Hc' as <-. rewrite push_ncli; lia. }
  split.
  { erewrite bind_ok by (eapply acquire_free; eauto).
    apply (release_held self l o _ c' f'); auto using take_lock_held. }
  unfold drop_lock, take_lock. rewrite !pop_set_sl. rsimpl. rewrite Hs.
  repeat split; try done; rewrite ?fn_lookup_alter; rsimpl; try done.
  intros l' Hne. by rewrite !fn_lookup_alter_ne by done.
Qed.

(** A machine with one CPU, interrupts on and every lock free. *)
Definition uniprocessor : machine :=
  mkMachine [mkCpu 0 0 0] [FL_IF] [0] (fun _ => mkSpinlock 0 "lock" None (replicate 10 0)) (fun _ => 0).

Lemma uniprocessor_wf : wf uniprocessor.
Proof. split; [done|done|]. apply NoDup_singleton. Qed.

Lemma acquire_release_balanced_witness :
  exists m', (acquire 0 100 LPtable ;; release 0 LPtable) [] uniprocessor = Ok tt [] m' /\
    eflags m' = [FL_IF].
Proof.
  destruct (acquire_release_balanced 0 100 LPtable [] uniprocessor) as (m' & H & He & _).
  - split; [apply uniprocessor_wf|]. exists (mkCpu 0 0 0), FL_IF. repeat split; simpl; lia.
  - reflexivity.
  - exists m'. split; [exact H|exact He].
Defined.

End Spin.

(** * Refinement of the kernel's view of spin locks *)

Section refinement.
Variable self : nat.

(** The CPU-level machine [m] implements the table of held locks of [k]; [d] is
    the number of pending [pushcli] not accounted for by a held lock. *)
Record impl (d : nat) (m : Spin.machine) (k : kernel) : Prop := {
  impl_wf : Spin.wf m;
  impl_cpu : exists c f, Spin.cpus m !! self = Some c /\ Spin.eflags m !! self = Some f /\
    Spin.ncli c = Z.of_nat (ncli k + d) /\ (1 <= Spin.ncli c -> Spin.if_clear f);
  impl_lock : forall l,
    match locks k !! l with
    | None => Spin.sl_locked (Spin.sl m l) = 0
    | Some Me => Spin.sl_locked (Spin.sl m l) = 1 /\ Spin.sl_cpu (Spin.sl m l) = Some self
    | Some Other => Spin.sl_locked (Spin.sl m l) = 1 /\ Spin.sl_cpu (Spin.sl m l) <> Some self
    end }.

Definition impl_env : list (Spin.machine -> Spin.machine) -> list (kernel -> kernel) -> Prop :=
  Forall2 (fun f g => forall d m k, impl d m k -> impl d (f m) (g k)).

(** Outcomes correspond: same kind of result, related states and environments. *)
Inductive impl_outcome : outcome Spin.machine unit -> outcome kernel unit -> Prop :=
| impl_ok o1 m o2 k : impl 0 m k -> impl_env o1 o2 -> impl_outcome (Ok tt o1 m) (Ok tt o2 k)
| impl_panic msg m k : impl_outcome (Panic msg m) (Panic msg k)
| impl_waiting m k : impl_outcome (Waiting m) (Waiting k).

Lemma impl_held d m k l :
  impl d m k -> Spin.held_by self l m = bool_decide (locks k !! l = Some Me).
Proof.
  intros [_ _ Hl]. specialize (Hl l). unfold Spin.held_by.
  destruct (locks k !! l) as [[]|] eqn:E.
  - destruct Hl as [-> ->]. by rewrite !bool_decide_true.
  - destruct Hl as [-> Hne]. rewrite !bool_decide_false by congruence. done.
  - by rewrite Hl.
Qed.

Lemma impl_push m k : impl 0 m k -> impl 1 (Spin.push self m) k.
Proof.
  intros [Hwf (c & f & Hc & Hf & Hn & Hi) Hl].
  destruct (Spin.push_self self m c f Hc Hf) as [Hc' Hf'].
  split; [by apply Spin.wf_push| |exact Hl].
  exists (Spin.push_cpu f c), (Z.ldiff f FL_IF). rewrite Spin.push_ncli by lia.
  repeat split; try done; [lia|]. intros _. apply Spin.land_ldiff_clear.
Qed.

(** A failed [xchg] leaves the lock taken. *)
Lemma impl_xchg d m k (l : lockid) :
  is_Some (locks k !! l) -> impl d m k ->
  impl d (m <| Spin.sl ::= alter (fun lk => lk <| Spin.sl_locked := 1 |>) l |>) k.
Proof.
  intros [h Hh] [Hwf Hc Hl]. split; [by apply Spin.wf_set_sl|done|].
  intros l'. specialize (Hl l'). rsimpl.
  destruct (decide (l' = l)) as [->|Hne].
  - rewrite fn_lookup_alter. rewrite Hh in *. rsimpl. by destruct h, Hl.
  - by rewrite fn_lookup_alter_ne.
Qed.

Lemma impl_take arg m k (l : lockid) :
  locks k !! l = None -> impl 1 m k ->
  impl 0 (Spin.take_lock self arg l m) (k <| locks ::= <[l := Me]> |>).
Proof.
  intros Hk [Hwf (c & f & Hc & Hf & Hn & Hi) Hl]. split.
  - by apply Spin.wf_set_sl, Spin.wf_set_sl.
  - exists c, f. rewrite (ncli_insert l) by done. repeat split; try done. lia.
  - intros l'. specialize (Hl l'). unfold Spin.take_lock. rsimpl.
    destruct (decide (l' = l)) as [->|Hne].
    + rewrite lookup_insert_eq, !fn_lookup_alter. done.
    + by rewrite lookup_insert_ne, !fn_lookup_alter_ne by done.
Qed.

(** The spinning loop, with the assignment of the owner that follows it. *)
Lemma spin_refines arg l o1 o2 m k :
  impl_env o1 o2 -> impl 1 m k ->
  impl_outcome
    ((Spin.spin l ;; i ← Spin.mycpu self;
      modify (fun m => m <| Spin.sl ::= alter (fun lk => lk <| Spin.sl_cpu := Some i |>
                 <| Spin.sl_pcs := Spin.getcallerpcs (Spin.mem m) arg |>) l |>)) o1 m)
    (acquire_spin l o2 k).
Proof.
  intros Ho. revert m k. induction Ho as [|f g o1 o2 Hfg Ho IH]; intros m k Hm.
  all: destruct (locks k !! l) as [h|] eqn:Hk.
  all: pose proof (impl_lock _ _ _ Hm l) as Hl; rewrite Hk in Hl.
  all: pose proof Hm as [Hwf (c & fl & Hc & Hf & Hn & Hi) _].
  all: assert (Spin.if_clear fl) as Hcl by (apply Hi; lia).
  all: unfold mbind at 1, M_bind at 1; cbn [Spin.spin];
       unfold Spin.xchg_locked, mbind, M_bind, gets, modify, mret, M_ret.
  - assert (Spin.sl_locked (Spin.sl m l) = 1) as -> by (by destruct h, Hl).
    simpl. rewrite Hk. constructor.
  - rewrite Hl. cbn [Z.eqb]. erewrite Spin.mycpu_self by eauto using Spin.wf_set_sl.
    simpl. rewrite Hk. constructor; [|constructor]. by apply (impl_take arg m k l).
  - assert (Spin.sl_locked (Spin.sl m l) = 1) as -> by (by destruct h, Hl).
    cbn [Z.eqb]. cbn [acquire_spin]. rewrite Hk. apply IH, Hfg, impl_xchg; eauto.
  - rewrite Hl. cbn [Z.eqb]. erewrite Spin.mycpu_self by eauto using Spin.wf_set_sl.
    cbn [acquire_spin]. rewrite Hk. constructor; [|by constructor]. by apply (impl_take arg m k l).
Qed.

(** C18. [acquire] of spinlock.c, run by one CPU of the machine, refines the
    kernel's [acquire]: it panics, spins or takes the lock exactly when the
    latter does, whatever the other CPUs do meanwhile. *)
Theorem acquire_refines arg l o1 o2 m k :
  impl_env o1 o2 -> impl 0 m k ->
  impl_outcome (Spin.acquire self arg l o1 m) (acquire l o2 k).
Proof.
  intros Ho Hm. pose proof Hm as [Hwf (c & f & Hc & Hf & Hn & Hi) _].
  erewrite Spin.acquire_enter by (eauto; lia). erewrite impl_held by done.
  rewrite acquire_unfold. destruct (bool_decide _) eqn:E; [constructor|].
  apply spin_refines; [done|]. by apply impl_push.
Qed.

Lemma impl_pop_drop m k (l : lockid) :
  locks k !! l = Some Me -> impl 0 m k ->
  impl 0 (Spin.pop self (Spin.drop_lock l m)) (k <| locks ::= delete l |>).
Proof.
  intros Hk [Hwf (c & f & Hc & Hf & Hn & Hi) Hl].
  assert (ncli k = S (ncli (k <| locks ::= delete l |>))) as Hd by by apply ncli_delete.
  unfold Spin.drop_lock. rewrite !Spin.pop_set_sl. split.
  - apply Spin.wf_set_sl, Spin.wf_set_sl. unfold Spin.pop. rsimpl.
    rewrite list_lookup_alter_eq, Hc. simpl.
    destruct (_ && _); [apply Spin.wf_alter_eflags|]; by apply Spin.wf_alter_cpu.
  - exists (c <| Spin.ncli := Spin.ncli c - 1 |>). rsimpl. unfold Spin.pop. rsimpl.
    rewrite list_lookup_alter_eq, Hc. simpl. rsimpl.
    destruct (Z.eqb_spec (Spin.ncli c - 1) 0) as [H0|H0]; simpl.
    + destruct (negb _); rsimpl; rewrite ?list_lookup_alter_eq, ?Hc, ?Hf;
        eexists; (split; [done|]); (split; [done|]); (split; [lia|]); lia.
    + rewrite list_lookup_alter_eq, Hc. exists f.
      repeat split; try done; [lia|]. intros _. apply Hi. lia.
  - intros l'. specialize (Hl l'). rsimpl.
    assert (Spin.sl (Spin.pop self m) = Spin.sl m) as ->.
    { unfold Spin.pop. destruct (Spin.cpus (setf _ _ _) !! self); [|done]. by case_if. }
    destruct (decide (l' = l)) as [->|Hne].
    + by rewrite lookup_delete_eq, !fn_lookup_alter.
    + by rewrite lookup_delete_ne, !fn_lookup_alter_ne by done.
Qed.

(** C19. [release] of spinlock.c refines the kernel's [release]: it panics exactly
    on a lock this CPU does not hold, and otherwise frees it. *)
Theorem release_refines l o1 o2 m k :
  impl_env o1 o2 -> impl 0 m k ->
  impl_outcome (Spin.release self l o1 m) (release l o2 k).
Proof.
  intros Ho Hm. pose proof Hm as [Hwf (c & f & Hc & Hf & Hn & Hi) _].
  rewrite release_unfold.
  pose proof (impl_held _ _ _ l Hm) as Hh. destruct (bool_decide _) eqn:E.
  - assert (locked l k) as Hlk by by apply bool_decide_eq_true in E.
    pose proof (ncli_delete l k Hlk).
    erewrite (Spin.release_held self l) by (eauto; try apply Hi; lia).
    constructor; [|done]. by apply impl_pop_drop.
  - unfold Spin.release.
    erewrite bind_ok by (eapply Spin.holding_eq; eauto; lia).
    rewrite Hh. constructor.
Qed.
End refinement.

Lemma uniprocessor_impl : impl 0 0 Spin.uniprocessor boot_kernel.
Proof.
  split; [apply Spin.uniprocessor_wf| |intros l; done].
  exists (Spin.mkCpu 0 0 0), FL_IF. split_and!; [done|done|done|]. simpl. lia.
Qed.

Lemma acquire_refines_witness :
  impl_outcome 0 (Spin.acquire 0 100 LKmem [] Spin.uniprocessor) (acquire LKmem [] boot_kernel).
Proof. apply acquire_refines; [constructor|apply uniprocessor_impl]. Defined.

(** The CPU holds the lock. *)
Definition kmem_taken : Spin.machine := Spin.take_lock 0 100 LKmem (Spin.push 0 Spin.uniprocessor).

Lemma kmem_taken_impl : impl 0 0 kmem_taken (boot_kernel <| locks ::= <[LKmem := Me]> |>).
Proof. apply impl_take; [done|]. by apply impl_push, uniprocessor_impl. Qed.

(** A lock that is held is freed; one that is not makes both panic. *)
Lemma release_refines_witness :
  (exists m' k', Spin.release 0 LKmem [] kmem_taken = Ok tt [] m' /\
     release LKmem [] (boot_kernel <| locks ::= <[LKmem := Me]> |>) = Ok tt [] k' /\ impl 0 0 m' k') /\
  impl_outcome 0 (Spin.release 0 LKmem [] Spin.uniprocessor) (release LKmem [] boot_kernel).
Proof.
  split; [|apply release_refines; [constructor|apply uniprocessor_impl]].
  pose proof (release_refines 0 LKmem [] [] _ _ (List.Forall2_nil _) kmem_taken_impl) as H.
  assert (exists k', release LKmem [] (boot_kernel <| locks ::= <[LKmem := Me]> |>) = Ok tt [] k') as [k' Ek]
    by (eexists; vm_compute; reflexivity).
  rewrite Ek in H. destruct (Spin.release 0 LKmem [] kmem_taken) as [[] o1 m1| | | |]; try (exfalso; inversion H; fail).
  assert (o1 = [] /\ impl 0 0 m1 k') as [-> Hi] by (inversion H as [? ? ? ? Hi He| |]; subst; inversion He; subst; by split).
  exists m1, k'. split_and!; [reflexivity|exact Ek|exact Hi].
Defined.

(** * Many CPUs contending for one lock *)

Module Smp.

(** Where a CPU is in [acquire] and [release]: before the first [xchg]; after a
    successful [xchg], with [lk->cpu] not yet assigned; between [acquire] and
    [release]; after [lk->cpu = 0] and before the store that frees the lock. *)
Inductive pc : Type := Outside | Spinning | Taken | Critical | Releasing.

Record state : Type := mkState { locked : Z; owner : option nat; pcs : nat -> pc }.

(** One instruction of one CPU. *)
Inductive step : state -> state -> Prop :=
| step_enter lk ow f i :
    f i = Outside -> ow <> Some i ->
    step (mkState lk ow f) (mkState lk ow (<[i := Spinning]> f))
| step_xchg_fail lk ow f i :
    f i = Spinning -> lk <> 0 ->
    step (mkState lk ow f) (mkState 1 ow f)
| step_xchg_ok ow f i :
    f i = Spinning ->
    step (mkState 0 ow f) (mkState 1 ow (<[i := Taken]> f))
| step_owner lk ow f i :
    f i = Taken ->
    step (mkState lk ow f) (mkState lk (Some i) (<[i := Critical]> f))
| step_disown lk ow f i :
    f i = Critical -> lk <> 0 -> ow = Some i ->
    step (mkState lk ow f) (mkState lk None (<[i := Releasing]> f))
| step_free lk ow f i :
    f i = Releasing ->
    step (mkState lk ow f) (mkState 0 ow (<[i := Outside]> f)).

Definition init : state := mkState 0 None (fun _ => Outside).

Definition inside (p : pc) : bool := match p with Taken | Critical | Releasing => true | _ => false end.

(** [holding(lk)] as CPU [i] computes it. *)
Definition holds (i : nat) (s : state) : bool :=
  negb (locked s =? 0) && bool_decide (owner s = Some i).

Record inv (s : state) : Prop := {
  inv_excl : forall i j, inside (pcs s i) = true -> inside (pcs s j) = true -> i = j;
  inv_free : locked s = 0 -> forall i, inside (pcs s i) = false;
  inv_taken : locked s <> 0 -> exists i, inside (pcs s i) = true;
  inv_owner : forall i, owner s = Some i <-> pcs s i = Critical }.

Lemma smp_inv_init : inv init.
Proof. split; simpl; naive_solver. Qed.

Ltac pc_cases :=
  repeat match goal with
  | |- context [<[?i := ?x]> ?f ?j] =>
      destruct (decide (i = j)) as [<-|?];
      [rewrite (fn_lookup_insert f i x)|rewrite (fn_lookup_insert_ne f i j x) by done]
  | H : context [<[?i := ?x]> ?f ?j] |- _ =>
      destruct (decide (i = j)) as [<-|?];
      [rewrite (fn_lookup_insert f i x) in H|rewrite (fn_lookup_insert_ne f i j x) in H by done]
  end.

(** The CPU that moves is the one inside, if any is. *)
Lemma inv_only s i j : inv s -> inside (pcs s i) = true -> inside (pcs s j) = true -> j = i.
Proof. intros H ??. by apply (inv_excl s H). Qed.

Lemma smp_inv_step s s' : inv s -> step s s' -> inv s'.
Proof.
  intros [He Hf Ht Ho] Hs.
  destruct Hs as [lk ow f i Hi Hn|lk ow f i Hi Hl|ow f i Hi|lk ow f i Hi|lk ow f i Hi Hl Ho'|lk ow f i Hi];
    simpl in *.
  - split; simpl.
    + intros a b. pc_cases; simpl; try done. apply He.
    + intros H0 a. pc_cases; [done|]. by apply Hf.
    + intros H0. destruct (Ht H0) as [a Ha]. exists a. pc_cases; [by rewrite Hi in Ha|done].
    + intros a. pc_cases; [|apply Ho]. done.
  - split; simpl; [done|done|intros _; by apply Ht|done].
  - specialize (Hf eq_refl). split; simpl.
    + intros a b. pc_cases; rewrite ?Hf; done.
    + done.
    + intros _. exists i. by rewrite fn_lookup_insert.
    + intros a. pc_cases; [|apply Ho]. rewrite Ho, Hi. done.
  - assert (inside (f i) = true) as Hin by by rewrite Hi.
    split; simpl.
    + intros a b Ha Hb. pc_cases; try done; eauto.
    + intros H0 a. by rewrite (Hf H0 i) in Hin.
    + intros H0. exists i. by rewrite fn_lookup_insert.
    + intros a. pc_cases; [done|]. split; [congruence|].
      intros Ha. destruct (He i a); [done|by rewrite Ha|done].
  - assert (inside (f i) = true) as Hin by by rewrite Hi.
    split; simpl.
    + intros a b Ha Hb. pc_cases; try done; eauto.
    + done.
    + intros H0. exists i. by rewrite fn_lookup_insert.
    + intros a. pc_cases; [done|]. rewrite <- Ho. subst. split; congruence.
  - assert (inside (f i) = true) as Hin by by rewrite Hi.
    split; simpl.
    + intros a b Ha Hb. pc_cases; try done; eauto.
    + intros _ a. pc_cases; [done|]. destruct (inside (f a)) eqn:E; [|done]. by destruct (He i a).
    + done.
    + intros a. pc_cases; [|apply Ho]. rewrite Ho, Hi. done.
Qed.

Lemma smp_reachable_inv s : rtc step init s -> inv s.
Proof. apply rtc_invariant; [apply smp_inv_step|apply smp_inv_init]. Qed.

(** C20. At most one CPU is between a successful [xchg] and the store that frees
    the lock, and [holding] tells a CPU the truth: it answers yes exactly when
    the CPU is inside its critical section. *)
Theorem mutual_exclusion s :
  rtc step init s ->
  (forall i j, inside (pcs s i) = true -> inside (pcs s j) = true -> i = j) /\
  (forall i, holds i s = true <-> pcs s i = Critical).
Proof.
  intros Hr. pose proof (smp_reachable_inv s Hr) as [He Hf Ht Ho]. split; [done|].
  intros i. unfold holds. rewrite andb_true_iff, negb_true_iff, Z.eqb_neq, bool_decide_eq_true, Ho.
  split; [by intros []|]. intros Hc. split; [|done]. intros H0. by specialize (Hf H0 i); rewrite Hc in Hf.
Qed.

(** A spinning CPU never waits in vain for a lock nobody has: when no CPU is
    inside, the next [xchg] succeeds. *)
Theorem spin_progress s i :
  rtc step init s -> pcs s i = Spinning -> (forall j, inside (pcs s j) = false) ->
  step s (mkState 1 (owner s) (<[i := Taken]> (pcs s))).
Proof.
  intros Hr Hi Hn. pose proof (smp_reachable_inv s Hr) as [He Hf Ht Ho].
  destruct (decide (locked s = 0)) as [H0|H0].
  - destruct s as [lk ow f]. simpl in *. subst. by constructor.
  - destruct (Ht H0) as [j Hj]. by rewrite Hn in Hj.
Qed.

(** CPU 0 inside its critical section, CPU 1 spinning. *)
Definition contended : state := mkState 1 (Some 0%nat) (<[1%nat := Spinning]> (<[0%nat := Critical]> (<[0%nat := Taken]> (<[0%nat := Spinning]> (fun _ => Outside))))).

Lemma contended_reachable : rtc step init contended.
Proof.
  unfold init, contended.
  eapply rtc_l; [by apply (step_enter _ _ _ 0%nat)|].
  eapply rtc_l; [by apply (step_xchg_ok _ _ 0%nat)|].
  eapply rtc_l; [by apply (step_owner _ _ _ 0%nat)|].
  eapply rtc_l; [by apply (step_enter _ _ _ 1%nat)|]. apply rtc_refl.
Qed.

Lemma mutual_exclusion_witness : holds 0 contended = true /\ pcs contended 0%nat = Critical.
Proof.
  destruct (mutual_exclusion contended contended_reachable) as [_ H].
  split; [by apply H|reflexivity].
Defined.

(** CPU 0 about to try a free lock. *)
Definition entering : state := mkState 0 None (<[0%nat := Spinning]> (fun _ => Outside)).

Lemma spin_progress_witness :
  step entering (mkState 1 (owner entering) (<[0%nat := Taken]> (pcs entering))).
Proof.
  apply (spin_progress entering 0%nat).
  - eapply rtc_l; [by apply (step_enter _ _ _ 0%nat)|apply rtc_refl].
  - reflexivity.
  - intros [|j]; reflexivity.
Defined.
End Smp.
