(* ===== verification/Console.v ===== *)
(** Console output (console.c, uart.c): numbers and formats rendered character by
    character to the serial port and to the CGA text screen. *)

From S2P Require Import Prelude Monad State.

(** The bytes of a string constant. *)
Definition str (s : string) : list Z := (fun a => Z.of_N (Ascii.N_of_ascii a)) <$> String.list_ascii_of_string s.

(** * Rendering a number

    Both [printint]s fill a buffer of 16 characters from the least significant
    digit up; a store past its end is a wild access. *)
Definition PRINTBUF : nat := 16.

Definition digits_lower : list Z := str "0123456789abcdef".
Definition digits_upper : list Z := str "0123456789ABCDEF".

(** [buf[i++] = c] *)
Definition buf_add (b : list Z) (c : Z) : option (list Z) :=
  if (length b <? PRINTBUF)%nat then Some (b ++ [c]) else None.

(** [do buf[i++] = digits[x % base]; while((x /= base) != 0);] *)
Fixpoint digit_loop (digits : list Z) (fuel : nat) (b : list Z) (x base : Z) : option (list Z) :=
  match fuel with
  | O => None
  | S n =>
      d ← digits !! Z.to_nat (x mod base);
      b' ← buf_add b d;
      if x / base =? 0 then Some b' else digit_loop digits n b' (x / base) base
  end.

(** The characters [printint] emits, first one first.  [fuel] is one more than the
    buffer holds. *)
Definition render (digits : list Z) (xx base : Z) (sign : bool) : option (list Z) :=
  let neg := sign && (xx <? 0) in
  let x := if neg then u32 (- xx) else u32 xx in
  b ← digit_loop digits (S PRINTBUF) [] x base;
  b' ← (if neg then buf_add b 45 else Some b);
  Some (reverse b').

(** ** What is rendered

    The value of digits, least significant first, and of digit characters, most
    significant first. *)
Fixpoint num (base : Z) (vs : list Z) : Z :=
  match vs with [] => 0 | v :: vs' => v + base * num base vs' end.

Definition char_of (digits : list Z) (v : Z) : Z := default 0 (digits !! Z.to_nat v).

(** The digits of a number: the shortest list with its value. *)
Record digits_of (base x : Z) (vs : list Z) : Prop := {
  dg_range : Forall (fun v => 0 <= v < base) vs;
  dg_value : num base vs = x;
  dg_short : vs = [x] \/ exists v, last vs = Some v /\ 0 < v }.

Lemma digit_loop_spec digits base m fuel b x :
  2 <= base <= Z.of_nat (length digits) -> 0 <= x < base ^ Z.of_nat (S m) ->
  (length b + m < PRINTBUF)%nat -> (m < fuel)%nat ->
  exists vs, digit_loop digits fuel b x base = Some (b ++ (char_of digits <$> vs))
    /\ digits_of base x vs /\ (length vs <= S m)%nat.
Proof.
  revert fuel b x. induction m as [|m IH]; intros [|fuel] b x Hb Hx Hl Hf; try lia; cbn [digit_loop].
  all: pose proof (Z.mod_pos_bound x base ltac:(lia)) as Hm.
  all: destruct (lookup_lt_is_Some_2 digits (Z.to_nat (x mod base)) ltac:(lia)) as [d Hd]; rewrite Hd; simpl.
  all: unfold buf_add; destruct (Nat.ltb_spec (length b) PRINTBUF); [|lia]; simpl.
  - change (Z.of_nat 1) with 1 in Hx. rewrite Z.pow_1_r in Hx.
    rewrite Z.div_small, Z.eqb_refl by lia. exists [x]. rewrite Z.mod_small in Hd by lia.
    split_and!; [|split|simpl; lia].
    + simpl. unfold char_of. by rewrite Hd.
    + constructor; [lia|constructor].
    + simpl. lia.
    + by left.
  - rewrite Nat2Z.inj_succ, Z.pow_succ_r in Hx by lia.
    assert (0 <= x / base < base ^ Z.of_nat (S m)) as Hq.
    { split; [apply Z.div_pos; lia|]. apply Z.div_lt_upper_bound; lia. }
    destruct (Z.eqb_spec (x / base) 0) as [E|E].
    + exists [x mod base]. pose proof (Z.div_mod x base ltac:(lia)).
      split_and!; [|split|simpl; lia].
      * simpl. unfold char_of. by rewrite Hd.
      * constructor; [lia|constructor].
      * simpl. lia.
      * left. f_equal. lia.
    + destruct (IH fuel (b ++ [d]) (x / base)) as (vs & -> & [H1 H2 H3] & Hvl); [lia|lia| |lia|].
      { rewrite length_app. simpl. lia. }
      exists (x mod base :: vs). pose proof (Z.div_mod x base ltac:(lia)).
      split_and!; [|split|simpl; lia].
      * rewrite <- app_assoc. simpl. unfold char_of at 2. by rewrite Hd.
      * by constructor.
      * simpl. lia.
      * right. destruct H3 as [->|(v & Hv & Hp)].
        -- exists (x / base). split; [done|lia].
        -- exists v. split; [|done]. destruct vs; [done|]. by simpl.
Qed.

Module Console.

Definition BACKSPACE : Z := 0x100.

Definition upd_cons (f : console -> console) : K unit := modify (fun k => k <| cons ::= f |>).

(** The wait for the transmitter to be ready only delays. *)
Definition uartputc (c : Z) : K unit :=
  uart ← gets (fun k => con_uart (cons k));
  when uart (upd_cons (fun s => s <| con_out ::= fun l => l ++ [u8 c] |>)).

(** [crt[i] = v] *)
Definition set_crt (i v : Z) : K unit :=
  crt ← gets (fun k => con_crt (cons k));
  if (0 <=? i) && (i <? Z.of_nat (length crt))
  then upd_cons (fun s => s <| con_crt ::= <[Z.to_nat i := v]> |>)
  else fault "crt".

(** Move the rows up by one and clear what follows the cursor on the last one. *)
Definition scroll (pos : Z) (crt : list Z) : list Z :=
  let up := take 1840 (drop 80 crt) ++ drop 1840 crt in
  take (Z.to_nat pos) up ++ replicate (Z.to_nat (1920 - pos)) 0 ++ drop 1920 up.

(** Where the cursor goes and what is stored there. *)
Definition cga_advance (c pos : Z) : K Z :=
  if c =? 10 then mret (pos + (80 - Z.rem pos 80))
  else if c =? BACKSPACE then mret (if 0 <? pos then pos - 1 else pos)
  else set_crt pos (Z.lor (Z.land c 0xff) 0x0700);; mret (pos + 1).

Definition cgaputc (c : Z) : K unit :=
  pos0 ← gets (fun k => con_pos (cons k));
  pos ← cga_advance c pos0;
  if (pos <? 0) || (25 * 80 <? pos) then panic "pos under/overflow" else
  pos ← (if 24 <=? pos / 80 then
           upd_cons (fun s => s <| con_crt ::= scroll (pos - 80) |>);; mret (pos - 80)
         else mret pos);
  upd_cons (fun s => s <| con_pos := pos mod 2 ^ 16 |>);;
  set_crt pos (Z.lor 32 0x0700).

(** A CPU that finds [panicked] set spins for ever. *)
Definition consputc (c : Z) : K unit :=
  p ← gets (fun k => con_panicked (cons k));
  if (p : bool) then (fun _ k => Waiting k) : K unit else
  (if c =? BACKSPACE then uartputc 8;; uartputc 32;; uartputc 8 else uartputc c);;
  cgaputc c.

Definition printint (xx base : Z) (sign : bool) : K unit :=
  match render digits_lower xx base sign with
  | None => fault "printint: buf"
  | Some cs => for_each cs consputc
  end.

(** A variable argument: a word, or a pointer to a string. *)
Inductive arg : Type :=
| AInt (z : Z)
| AStr (s : option (list Z)).

Definition arg_int (args : list arg) : K (Z * list arg) :=
  match args with AInt z :: args' => mret (z, args') | _ => fault "vararg" end.
Definition arg_str (args : list arg) : K (list Z * list arg) :=
  match args with
  | AStr s :: args' => mret (default (str "(null)") s, args')
  | _ => fault "vararg"
  end.

Fixpoint cprintf_loop (fmt : list Z) (args : list arg) : K unit :=
  match fmt with
  | [] => mret tt
  | c :: fmt' =>
      if negb (c =? 37) then consputc c ≫= fun _ => cprintf_loop fmt' args else
      match fmt' with
      | [] => mret tt
      | d :: fmt2 =>
          if d =? 100 then
            arg_int args ≫= fun za => printint (s32 za.1) 10 true ≫= fun _ => cprintf_loop fmt2 za.2
          else if (d =? 120) || (d =? 112) then
            arg_int args ≫= fun za => printint (s32 za.1) 16 false ≫= fun _ => cprintf_loop fmt2 za.2
          else if d =? 115 then
            arg_str args ≫= fun sa => for_each sa.1 consputc ≫= fun _ => cprintf_loop fmt2 sa.2
          else if d =? 37 then consputc 37 ≫= fun _ => cprintf_loop fmt2 args
          else consputc 37 ≫= fun _ => consputc d ≫= fun _ => cprintf_loop fmt2 args
      end
  end.

Definition cprintf (fmt : string) (args : list arg) : K unit :=
  locking ← gets (fun k => con_locking (cons k));
  when locking (acquire LCons);;
  cprintf_loop (str fmt) args;;
  when locking (release LCons).

(** What [panic] does before it stops for ever; the APIC id of the CPU and the
    return addresses on its stack are arguments. *)
Definition panic_print (s : string) (lapicid : Z) (pcs : list Z) : K unit :=
  upd_cons (fun c => c <| con_locking := false |>);;
  cprintf "lapicid %d: panic: " [AInt lapicid];;
  cprintf s [];;
  cprintf "
" [];;
  for_each (take 10 pcs) (fun pc => cprintf " %p" [AInt pc]);;
  upd_cons (fun c => c <| con_panicked := true |>).
End Console.
