(* ===== verification/Kalloc.v ===== *)
(** The physical page allocator (kalloc.c): a free list threaded through the
    free pages themselves.  The abstract view is a stack of page addresses. *)

From S2P Require Import Prelude Monad State.

(** * Address arithmetic of mmu.h and memlayout.h *)

Definition PGROUNDUP (a : Z) : Z := Z.land (u32 (a + PGSIZE - 1)) (Z.lnot (PGSIZE - 1)).
Definition PGROUNDDOWN (a : Z) : Z := Z.land (u32 a) (Z.lnot (PGSIZE - 1)).
Definition V2P (a : Z) : Z := u32 (a - KERNBASE).
Definition P2V (a : Z) : Z := u32 (a + KERNBASE).

(** A page of memory is its 1024 words. *)
Definition NWORDS : nat := 1024.

(** Word [w] of a page, and the store to it. *)
Definition page_word (pg : gmap Z (list Z)) (a : Z) (w : nat) : option Z :=
  pg !! a ≫= fun ws => ws !! w.
Definition set_page_word (a : Z) (w : nat) (v : Z) (pg : gmap Z (list Z)) : gmap Z (list Z) :=
  alter (fun ws => <[w := v]> ws) a pg.

(** [memset(v, c, PGSIZE)] on a page: every word is the byte [c] four times. *)
Definition fill_page (v c : Z) : K unit :=
  modify (fun k => k <| pages ::= <[v := replicate NWORDS (u8 c * 0x01010101)]> |>).

Lemma land_lnot_page a : Z.land a (Z.lnot (PGSIZE - 1)) = a / PGSIZE * PGSIZE.
Proof.
  change (PGSIZE - 1) with (Z.ones 12). rewrite <- Z.ldiff_land, Z.ldiff_ones_r by lia.
  by rewrite Z.shiftl_mul_pow2, Z.shiftr_div_pow2 by lia.
Qed.

Lemma PGROUNDUP_eq a :
  0 <= a <= 2 ^ 32 - PGSIZE -> PGROUNDUP a = (a + PGSIZE - 1) / PGSIZE * PGSIZE.
Proof.
  intros Ha. unfold PGROUNDUP. rewrite u32_small, land_lnot_page; [done|].
  unfold is_u32, PGSIZE in *. lia.
Qed.

Lemma PGROUNDUP_bounds a :
  0 <= a <= 2 ^ 32 - PGSIZE ->
  a <= PGROUNDUP a < a + PGSIZE /\ PGROUNDUP a mod PGSIZE = 0.
Proof.
  intros Ha. rewrite PGROUNDUP_eq by done. split; [|apply Z.mod_mul; done].
  pose proof (Z.div_mod (a + PGSIZE - 1) PGSIZE). pose proof (Z.mod_pos_bound (a + PGSIZE - 1) PGSIZE).
  unfold PGSIZE in *. lia.
Qed.

Module Kalloc.
Section with_layout.
Context `{Layout}.

Definition kfree (v : Z) : K unit :=
  if negb (u32 v mod PGSIZE =? 0) || (v <? sym_end) || (PHYSTOP <=? V2P v) then panic "kfree" else
  fill_page v 1;;
  ul ← gets use_lock;
  when ul (acquire LKmem);;
  fl ← gets freelist;
  modify (fun k => k <| pages ::= set_page_word v 0 fl |>);;
  modify (fun k => k <| freelist := v |>);;
  when ul (release LKmem).

Definition kalloc : K Z :=
  ul ← gets use_lock;
  when ul (acquire LKmem);;
  r ← gets freelist;
  when (negb (r =? 0))
    (nx ← deref "kalloc: free list" (fun k => page_word (pages k) r 0);
     modify (fun k => k <| freelist := nx |>));;
  when ul (release LKmem);;
  mret r.

(** The loop of [freerange]; the fuel bounds the number of pages. *)
Fixpoint freerange_loop (fuel : nat) (p vend : Z) : K unit :=
  if u32 (p + PGSIZE) <=? vend then
    match fuel with
    | O => fault "freerange: fuel"
    | S n => kfree p;; freerange_loop n (u32 (p + PGSIZE)) vend
    end
  else mret tt.
Definition freerange (vstart vend : Z) : K unit :=
  freerange_loop (Z.to_nat (vend / PGSIZE)) (PGROUNDUP vstart) vend.

Definition kinit1 (vstart vend : Z) : K unit :=
  modify (fun k => k <| locks ::= delete LKmem |>);;   (* initlock *)
  modify (fun k => k <| use_lock := false |>);;
  freerange vstart vend.

Definition kinit2 (vstart vend : Z) : K unit :=
  freerange vstart vend;;
  modify (fun k => k <| use_lock := true |>).

(** * The free list as a stack of pages *)

(** A page the allocator may hand out. *)
Definition page_ok (a : Z) : Prop :=
  a mod PGSIZE = 0 /\ sym_end <= a < KERNBASE + PHYSTOP.

(** The chain of [next] pointers from [a] visits exactly the pages [l]. *)
Fixpoint freechain (pg : gmap Z (list Z)) (a : Z) (l : list Z) : Prop :=
  match l with
  | [] => a = 0
  | x :: l' => a = x /\ exists nx, page_word pg x 0 = Some nx /\ freechain pg nx l'
  end.

Record kmem_inv (k : kernel) (l : list Z) : Prop := {
  km_chain : freechain (pages k) (freelist k) l;
  km_nodup : NoDup l;
  km_pages : Forall page_ok l }.

(** The allocator's lock is free whenever the lock is in use. *)
Definition kmem_ready (k : kernel) : Prop := use_lock k = true -> unlocked LKmem k.

Hypothesis end_high : KERNBASE < sym_end.

Lemma page_ok_pos a : page_ok a -> 0 < a.
Proof. unfold page_ok, KERNBASE in *. lia. Qed.

Lemma page_ok_test a : page_ok a ->
  negb (u32 a mod PGSIZE =? 0) || (a <? sym_end) || (PHYSTOP <=? V2P a) = false.
Proof.
  intros [Hm [Hlo Hhi]].
  assert (is_u32 a) as Ha by (unfold is_u32, KERNBASE, PHYSTOP in *; lia).
  unfold V2P. rewrite (u32_small a), Hm by done.
  rewrite u32_small by (unfold is_u32, KERNBASE, PHYSTOP in *; lia).
  destruct (Z.ltb_spec a sym_end), (Z.leb_spec PHYSTOP (a - KERNBASE)); try lia.
Qed.

(** Stores to a page outside the chain leave the chain alone. *)
Lemma freechain_frame pg pg' a l :
  (forall x, x ∈ l -> page_word pg' x 0 = page_word pg x 0) ->
  freechain pg a l -> freechain pg' a l.
Proof.
  revert a. induction l as [|x l IH]; intros a Hw; simpl; [done|].
  intros (-> & nx & Hx & Hc). split; [done|]. exists nx. split.
  - rewrite Hw by constructor. done.
  - apply IH; [|done]. intros y Hy. apply Hw. by constructor.
Qed.

(** What [kfree] leaves in memory. *)
Definition freed_page (nx : Z) : list Z := <[0%nat := nx]> (replicate NWORDS (u8 1 * 0x01010101)).

Lemma set_fresh_page v fl (pg : gmap Z (list Z)) :
  set_page_word v 0 fl (<[v := replicate NWORDS (u8 1 * 0x01010101)]> pg) = <[v := freed_page fl]> pg.
Proof. unfold set_page_word. by rewrite alter_insert_eq. Qed.

Lemma kfree_eq v o k :
  page_ok v -> kmem_ready k ->
  kfree v o k = Ok tt o (k <| pages ::= <[v := freed_page (freelist k)]> |> <| freelist := v |>).
Proof.
  intros Hv Hr. unfold kfree. rewrite page_ok_test by done.
  erewrite bind_ok by reflexivity. erewrite bind_ok by reflexivity. rsimpl.
  unfold kmem_ready in Hr. destruct (use_lock k) eqn:Eu; simpl when.
  - assert (unlocked LKmem k) as Hul by auto.
    erewrite bind_ok by by apply acquire_unlocked.
    do 3 (erewrite bind_ok by reflexivity). rsimpl. rewrite release_locked.
    2:{ unfold locked. rsimpl. apply lookup_insert_eq. }
    f_equal. kernel_eq. by rewrite set_fresh_page.
  - do 4 (erewrite bind_ok by reflexivity). rsimpl.
    unfold mret, M_ret. f_equal. kernel_eq. by rewrite set_fresh_page.
Qed.

(** A reference free outside the allocator's pages is caught. *)
Lemma kfree_bad v o k :
  is_u32 v -> ~ page_ok v -> kfree v o k = Panic "kfree" k.
Proof.
  intros Hv Hb. unfold kfree.
  assert (negb (u32 v mod PGSIZE =? 0) || (v <? sym_end) || (PHYSTOP <=? V2P v) = true) as ->; [|done].
  apply not_false_is_true. rewrite !orb_false_iff, negb_false_iff, Z.eqb_eq, Z.ltb_ge, Z.leb_gt.
  intros [[Hm Hlo] Hhi]. apply Hb. rewrite u32_small in Hm by done. split; [done|].
  unfold V2P in Hhi. rewrite u32_small in Hhi by (unfold is_u32, KERNBASE in *; lia). lia.
Qed.

(** [kalloc] pops the stack. *)
Lemma kalloc_eq o k l :
  kmem_ready k -> kmem_inv k l ->
  kalloc o k = match l with
               | [] => Ok 0 o k
               | x :: l' => Ok x o (k <| freelist := default 0 (page_word (pages k) x 0) |>)
               end.
Proof.
  intros Hr [Hc Hn Hp]. unfold kalloc. unfold kmem_ready in Hr. erewrite bind_ok by reflexivity.
  assert (forall (k1 : kernel), pages k1 = pages k ->
    when (negb (freelist k =? 0))
      (nx ← deref "kalloc: free list" (fun k1 => page_word (pages k1) (freelist k) 0);
       modify (fun k => k <| freelist := nx |>)) o k1 =
    Ok tt o match l with [] => k1 | x :: _ => k1 <| freelist := default 0 (page_word (pages k) x 0) |> end)
    as Hpop.
  { intros k1 Hp1. destruct l as [|x l]; simpl in Hc.
    - by rewrite Hc.
    - destruct Hc as (Hx & nx & Hnx & Hc). inversion_clear Hp as [|? ? Hx' ?].
      pose proof (page_ok_pos x Hx'). rewrite Hx. destruct (Z.eqb_spec x 0); [lia|]. simpl.
      erewrite bind_ok by (apply deref_some; by rewrite Hp1). rewrite Hnx. done. }
  destruct (use_lock k) eqn:Eu; simpl when at 1.
  - assert (unlocked LKmem k) as Hul by auto.
    erewrite bind_ok by by apply acquire_unlocked.
    erewrite bind_ok by reflexivity. rsimpl.
    erewrite bind_ok by by apply Hpop.
    erewrite bind_ok.
    2:{ simpl. apply release_locked. unfold locked. destruct l; rsimpl; apply lookup_insert_eq. }
    unfold mret, M_ret. destruct l as [|x l]; simpl in Hc; [rewrite Hc|destruct Hc as [-> _]]; f_equal; kernel_eq.
  - do 2 (erewrite bind_ok by reflexivity).
    erewrite bind_ok by by apply Hpop. erewrite bind_ok by reflexivity. unfold mret, M_ret.
    destruct l as [|x l]; simpl in Hc; [rewrite Hc|destruct Hc as [-> _]]; done.
Qed.

Lemma kalloc_nil o k : kmem_ready k -> kmem_inv k [] -> kalloc o k = Ok 0 o k.
Proof. apply (kalloc_eq o k []). Qed.

Lemma kalloc_cons o k x l :
  kmem_ready k -> kmem_inv k (x :: l) ->
  kalloc o k = Ok x o (k <| freelist := default 0 (page_word (pages k) x 0) |>).
Proof. apply (kalloc_eq o k (x :: l)). Qed.

(** The invariant speaks of the free pages only. *)
Lemma kmem_inv_frame k k' l :
  pages k' = pages k -> freelist k' = freelist k -> kmem_inv k l -> kmem_inv k' l.
Proof. intros Hp Hf [Hc Hn Ho]. split; [by rewrite Hp, Hf|done|done]. Qed.

Lemma kmem_inv_push v k l :
  page_ok v -> v ∉ l -> kmem_inv k l ->
  kmem_inv (k <| pages ::= <[v := freed_page (freelist k)]> |> <| freelist := v |>) (v :: l).
Proof.
  intros Hv Hnl [Hc Hn Hp]. split; rsimpl; [|by constructor|by constructor].
  split; [done|]. exists (freelist k). split.
  - unfold page_word. rewrite lookup_insert_eq. done.
  - eapply freechain_frame; [|exact Hc]. intros x Hx. unfold page_word.
    rewrite lookup_insert_ne; [done|]. congruence.
Qed.

Lemma kmem_inv_pop x k l :
  kmem_inv k (x :: l) ->
  kmem_inv (k <| freelist := default 0 (page_word (pages k) x 0) |>) l.
Proof.
  intros [(_ & nx & Hx & Hc) Hn Hp]. inversion_clear Hn. inversion_clear Hp.
  split; rsimpl; [|done|done]. by rewrite Hx.
Qed.

(** * Initialisation *)

(** The [n] pages from [p] up. *)
Definition page_run (p : Z) (n : nat) : list Z := (fun i => p + PGSIZE * Z.of_nat i) <$> seq 0 n.

Lemma page_run_S p n : page_run p (S n) = p :: page_run (p + PGSIZE) n.
Proof.
  unfold page_run. simpl. f_equal; [lia|]. rewrite <- fmap_S_seq, <- list_fmap_compose.
  apply list_fmap_ext. intros i x _. unfold compose. lia.
Qed.

Lemma page_run_elem p n x : x ∈ page_run p n -> p <= x < p + PGSIZE * Z.of_nat n.
Proof.
  unfold page_run. intros (i & -> & Hi)%list_elem_of_fmap.
  apply elem_of_seq in Hi. unfold PGSIZE in *. lia.
Qed.

(** The loop frees the pages of its range, each once, and stops. *)
Lemma freerange_loop_eq n fuel p vend o k l :
  (n <= fuel)%nat -> vend < 2 ^ 32 -> p mod PGSIZE = 0 -> sym_end <= p ->
  p + PGSIZE * Z.of_nat n <= vend < p + PGSIZE * Z.of_nat n + PGSIZE ->
  p + PGSIZE * Z.of_nat n + PGSIZE < 2 ^ 32 ->
  p + PGSIZE * Z.of_nat n <= KERNBASE + PHYSTOP ->
  kmem_ready k -> kmem_inv k l -> (forall x, x ∈ l -> x ∉ page_run p n) ->
  exists k', freerange_loop fuel p vend o k = Ok tt o k' /\
    kmem_inv k' (reverse (page_run p n) ++ l) /\ use_lock k' = use_lock k /\ locks k' = locks k.
Proof.
  revert fuel p k l. induction n as [|n IH]; intros fuel p k l Hfu Hend Hm Hlo Hr Hw Hhi Hrd Hinv Hd.
  - exists k. replace (freerange_loop fuel p vend) with (mret tt : K unit); [done|].
    assert (u32 (p + PGSIZE) = p + PGSIZE) as Hu
      by (apply u32_small; unfold is_u32, KERNBASE, PGSIZE in *; lia).
    destruct fuel; simpl; rewrite Hu;
      (destruct (Z.leb_spec (p + PGSIZE) vend); [unfold PGSIZE in *; lia|done]).
  - destruct fuel as [|fuel]; [lia|]. simpl freerange_loop.
    assert (u32 (p + PGSIZE) = p + PGSIZE) as Hu
      by (apply u32_small; unfold is_u32, KERNBASE, PGSIZE in *; lia).
    rewrite Hu. destruct (Z.leb_spec (p + PGSIZE) vend); [|unfold PGSIZE in *; lia].
    assert (page_ok p) as Hp by (split; [done|]; unfold PGSIZE in *; lia).
    erewrite bind_ok by by apply kfree_eq.
    rewrite page_run_S in Hd |- *. rewrite reverse_cons, <- app_assoc. simpl.
    assert (p ∉ l) as Hpl by (intros Hin; apply (Hd p Hin); constructor).
    edestruct (IH fuel (p + PGSIZE)) as (k' & Hk & Hi & Hul & Hlk).
    9:{ apply kmem_inv_push; eauto. }
    all: try (unfold PGSIZE in *; lia).
    + rewrite <- (Z.mul_1_l PGSIZE) at 1. by rewrite Z.mod_add.
    + intros Hu'. by apply Hrd.
    + intros x [->|Hx]%elem_of_cons Hin.
      * apply page_run_elem in Hin. unfold PGSIZE in *; lia.
      * apply (Hd x Hx). by constructor.
    + exists k'. done.
Qed.

(** The pages between two addresses, the highest first. *)
Definition pages_between (vstart vend : Z) : list Z :=
  reverse (page_run (PGROUNDUP vstart) (Z.to_nat ((vend - PGROUNDUP vstart) / PGSIZE))).

Lemma freerange_eq vstart vend o k l :
  sym_end <= vstart -> PGROUNDUP vstart <= vend <= KERNBASE + PHYSTOP -> vstart < 2 ^ 31 + PHYSTOP ->
  kmem_ready k -> kmem_inv k l -> (forall x, x ∈ l -> x ∉ pages_between vstart vend) ->
  exists k', freerange vstart vend o k = Ok tt o k' /\
    kmem_inv k' (pages_between vstart vend ++ l) /\ use_lock k' = use_lock k /\ locks k' = locks k.
Proof.
  intros Hs He Hv Hr Hi Hd. unfold freerange, pages_between in *.
  destruct (PGROUNDUP_bounds vstart) as [Hb Hm]; [unfold PGSIZE, KERNBASE, PHYSTOP in *; lia|].
  set (p := PGROUNDUP vstart) in *.
  pose proof (Z.div_mod (vend - p) PGSIZE ltac:(done)) as Hdm.
  pose proof (Z.mod_pos_bound (vend - p) PGSIZE ltac:(done)) as Hmb.
  assert (0 <= (vend - p) / PGSIZE) as Hq by (apply Z.div_pos; [lia|done]).
  eapply freerange_loop_eq; eauto; try (unfold PGSIZE, KERNBASE, PHYSTOP in *; lia).
  - apply Z2Nat.inj_le; [done|apply Z.div_pos; [unfold KERNBASE in *; lia|done]|].
    apply Z.div_le_mono; [done|]. unfold KERNBASE in *; lia.
  - intros x Hx Hin. apply (Hd x Hx). by apply elem_of_reverse.
Qed.
End with_layout.

Section properties.
Context `{Layout} (end_high : KERNBASE < sym_end).

(** The allocator is a stack of pages: [kalloc] returns the page last freed
    (0 when none is left), the pages that remain free are the others, and
    nothing but the head of the free list changes. *)
Theorem kalloc_pops o k l :
  kmem_ready k -> kmem_inv k l ->
  exists k', kalloc o k = Ok (hd 0 l) o k' /\ kmem_inv k' (tl l) /\
    k' = k <| freelist := freelist k' |>.
Proof.
  intros Hr Hi. rewrite (kalloc_eq end_high o k l) by done. destruct l as [|x l].
  - exists k. split; [done|]. split; [done|]. by destruct k.
  - eexists. split; [done|]. split; [by apply kmem_inv_pop|]. done.
Qed.

(** Freeing a page that is not free puts it on the stack, with every byte but
    the link overwritten; freeing anything that is not one of the allocator's
    pages panics. *)
Theorem kfree_pushes v o k l :
  is_u32 v -> kmem_ready k -> kmem_inv k l -> v ∉ l ->
  (page_ok v -> exists k', kfree v o k = Ok tt o k' /\ kmem_inv k' (v :: l) /\
     pages k' = <[v := freed_page (freelist k)]> (pages k)) /\
  (~ page_ok v -> kfree v o k = Panic "kfree" k).
Proof.
  intros Hu Hr Hi Hv. split.
  - intros Hp. rewrite kfree_eq by done. eexists. split; [done|]. split; [|done].
    by apply kmem_inv_push.
  - by apply kfree_bad.
Qed.

(** [kinit1] followed by [kinit2] returns, and leaves on the free list exactly
    the whole pages of the two ranges, each once, with locking switched on. *)
Theorem kinit_free_pages vstart vmid vend o k :
  sym_end <= vstart < KERNBASE + PHYSTOP -> PGROUNDUP vstart <= vmid -> vmid mod PGSIZE = 0 ->
  vmid <= vend <= KERNBASE + PHYSTOP -> vmid < KERNBASE + PHYSTOP -> freelist k = 0 ->
  exists k', (kinit1 vstart vmid ;; kinit2 vmid vend) o k = Ok tt o k' /\
    kmem_inv k' (pages_between vmid vend ++ pages_between vstart vmid) /\ use_lock k' = true.
Proof.
  intros Hs Hm Hmod He Hmid Hf. unfold kinit1, kinit2.
  destruct (PGROUNDUP_bounds vstart) as [Hb _]; [unfold KERNBASE, PHYSTOP, PGSIZE in *; lia|].
  assert (PGROUNDUP vmid = vmid) as Hmeq.
  { rewrite PGROUNDUP_eq by (unfold KERNBASE, PHYSTOP, PGSIZE in *; lia).
    pose proof (Z.div_mod vmid PGSIZE ltac:(done)).
    replace (vmid + PGSIZE - 1) with (PGSIZE - 1 + vmid / PGSIZE * PGSIZE) by lia.
    rewrite Z.div_add by done. change ((PGSIZE - 1) / PGSIZE) with 0. lia. }
  set (k1 := k <| locks ::= delete LKmem |> <| use_lock := false |>).
  assert (kmem_inv k1 []) as Hi1 by (split; [done|constructor|constructor]).
  edestruct (freerange_eq end_high vstart vmid o k1 []) as (k2 & Hk2 & Hi2 & Hu2 & Hl2).
  { lia. } { lia. } { unfold KERNBASE in *; lia. } { done. } { done. } { intros x Hx. inversion Hx. }
  edestruct (freerange_eq end_high vmid vend o k2 (pages_between vstart vmid ++ [])) as (k3 & Hk3 & Hi3 & Hu3 & Hl3).
  { lia. }
  { lia. } { unfold KERNBASE in *; lia. }
  { unfold kmem_ready. rewrite Hu2. done. } { exact Hi2. }
  { intros x Hx1 Hx2. rewrite app_nil_r in Hx1. unfold pages_between in *.
    apply elem_of_reverse, page_run_elem in Hx1. apply elem_of_reverse, page_run_elem in Hx2.
    rewrite Hmeq in Hx2. rewrite Z2Nat.id in Hx1 by (apply Z.div_pos; [lia|done]).
    pose proof (Z.mul_div_le (vmid - PGROUNDUP vstart) PGSIZE). unfold PGSIZE in *. lia. }
  exists (k3 <| use_lock := true |>). split.
  - unfold mbind, M_bind, modify. fold k1. by rewrite Hk2, Hk3.
  - rewrite app_nil_r in Hi3. split; [|done]. destruct Hi3 as [Hc Hn Hp]. by split.
Qed.
End properties.

(** A kernel that ends at 0x80120000, and an allocator with one free page. *)
#[export] Instance small_layout : Layout :=
  {| sym_end := 0x80120000; sym_data := 0x80108000; sym_forkret := 0x80103000; sym_trapret := 0x80105000 |}.
Lemma small_layout_high : KERNBASE < sym_end.
Proof. reflexivity. Qed.

Definition one_page : kernel :=
  boot_kernel <| freelist := 0x80200000 |> <| pages := {[0x80200000 := replicate NWORDS 0]} |>.

Lemma one_page_inv : kmem_inv one_page [0x80200000].
Proof.
  split; [|apply NoDup_singleton|].
  - split; [done|]. exists 0. by split.
  - repeat constructor; done.
Qed.

Lemma kalloc_pops_witness : exists k', kalloc [] one_page = Ok 0x80200000 [] k' /\ kmem_inv k' [].
Proof.
  destruct (kalloc_pops small_layout_high [] one_page [0x80200000]) as (k' & H & Hi & _);
    [discriminate|apply one_page_inv|]. exists k'. split; [exact H|exact Hi].
Defined.

Lemma kfree_pushes_witness :
  (exists k', kfree 0x80201000 [] one_page = Ok tt [] k' /\ kmem_inv k' [0x80201000; 0x80200000]) /\
    kfree 0x80201004 [] one_page = Panic "kfree" one_page.
Proof.
  split.
  - destruct (kfree_pushes small_layout_high 0x80201000 [] one_page [0x80200000]) as [H _];
      [split; [discriminate|reflexivity]|discriminate|apply one_page_inv|by intros [?|?%elem_of_nil]%elem_of_cons|].
    destruct H as (k' & Hk & Hi & _); [repeat split; discriminate|]. by exists k'.
  - apply (kfree_pushes small_layout_high 0x80201004 [] one_page [0x80200000]);
      [split; [discriminate|reflexivity]|discriminate|apply one_page_inv|by intros [?|?%elem_of_nil]%elem_of_cons|].
    by intros [? _].
Defined.

Lemma kinit_free_pages_witness :
  exists k', (kinit1 0x80120004 0x80123000 ;; kinit2 0x80123000 0x80125000) [] boot_kernel = Ok tt [] k' /\
    kmem_inv k' [0x80124000; 0x80123000; 0x80122000; 0x80121000].
Proof.
  destruct (kinit_free_pages small_layout_high 0x80120004 0x80123000 0x80125000 [] boot_kernel) as (k' & Hk & Hi & _);
    try (split; discriminate || reflexivity); try discriminate; try reflexivity.
  exists k'. split; [exact Hk|exact Hi].
Defined.
End Kalloc.
