(* ===== verification/Sched.v ===== *)
(** The process and thread tables and the scheduler (first part of proc.c):
    allocation of processes and threads, the switch to and from the scheduler,
    [sleep], [wakeup], [yield] and [kill]. *)

From S2P Require Import Prelude Monad State Kalloc.

(** * Access to the tables *)

(** A pointer to a thread: the index of its process and its place in the
    process's thread table. *)
Abbreviation tptr := (nat * nat)%type.

Definition thread_at (k : kernel) (pt : tptr) : option thread :=
  ptable k !! pt.1 ≫= fun p => p_ttable p !! pt.2.

Definition alter_thread (pt : tptr) (f : thread -> thread) (k : kernel) : kernel :=
  k <| ptable ::= alter (fun p => p <| p_ttable ::= alter f pt.2 |>) pt.1 |>.

Definition get_proc (p : nat) : K proc := deref "proc" (fun k => ptable k !! p).
Definition upd_proc (p : nat) (f : proc -> proc) : K unit :=
  modify (fun k => k <| ptable ::= alter f p |>).
Definition get_thread (pt : tptr) : K thread := deref "thread" (fun k => thread_at k pt).
Definition upd_thread (pt : tptr) (f : thread -> thread) : K unit := modify (alter_thread pt f).

Definition myproc : K (option nat) := gets cpu_proc.
Definition mythread : K (option tptr) := gets cpu_thread.

(** [myproc()->...] and [mythread()->...]: the pointer is followed. *)
Definition curproc : K nat := deref "myproc" cpu_proc.
Definition curthread : K tptr := deref "mythread" cpu_thread.

(** ** Lookups after updates *)

Lemma thread_at_alter pt pt' f k :
  thread_at (alter_thread pt f k) pt' =
    if decide (pt = pt') then f <$> thread_at k pt' else thread_at k pt'.
Proof.
  destruct pt as [p t], pt' as [p' t']. unfold thread_at, alter_thread. rsimpl. simpl.
  rewrite list_lookup_alter. destruct (decide (p = p')) as [->|Hp].
  - destruct (ptable k !! p') as [pr|]; simpl; [rsimpl|by destruct (decide _)].
    rewrite list_lookup_alter. destruct (decide (t = t')) as [->|Ht].
    + by rewrite decide_True.
    + rewrite decide_False by congruence. done.
  - rewrite decide_False by congruence. done.
Qed.

Lemma thread_at_alter_eq pt f k : thread_at (alter_thread pt f k) pt = f <$> thread_at k pt.
Proof. rewrite thread_at_alter. by rewrite decide_True. Qed.

Lemma thread_at_alter_ne pt pt' f k :
  pt <> pt' -> thread_at (alter_thread pt f k) pt' = thread_at k pt'.
Proof. intros. rewrite thread_at_alter. by rewrite decide_False. Qed.

(** Updates of the other fields of a process leave the threads alone. *)
Lemma thread_at_proc g p k pt :
  (forall pr, p_ttable (g pr) = p_ttable pr) ->
  thread_at (k <| ptable ::= alter g p |>) pt = thread_at k pt.
Proof.
  intros Hg. unfold thread_at. rsimpl. rewrite list_lookup_alter. case_decide as Hd; [|done].
  subst. destruct (ptable k !! pt.1) as [pr|] eqn:E; rewrite ?E; simpl; by rewrite ?Hg.
Qed.

Lemma thread_at_ext k k' pt : ptable k = ptable k' -> thread_at k pt = thread_at k' pt.
Proof. unfold thread_at. by intros ->. Qed.

(** * Invariants of the tables *)

(** The tables have the size the source declares. *)
Record tables_ok (k : kernel) : Prop := {
  tb_procs : length (ptable k) = NPROC;
  tb_proc : forall i p, ptable k !! i = Some p ->
    length (p_ttable p) = NTHREAD /\ length (p_ofile p) = NOFILE;
  tb_mutexes : length (mtable k) = MAX_MUTEXES }.

(** Process ids: those handed out are positive and below the counter, and no two
    entries of the table share one. *)
Record pid_inv (k : kernel) : Prop := {
  pi_next : 1 <= nextpid k;
  pi_range : forall i p, ptable k !! i = Some p -> 0 <= p_pid p < nextpid k;
  pi_unique : forall i j p q, ptable k !! i = Some p -> ptable k !! j = Some q ->
    p_pid p <> 0 -> p_pid p = p_pid q -> i = j }.

(** Thread ids likewise, across all processes. *)
Record tid_inv (k : kernel) : Prop := {
  ti_next : 1 <= nexttid k;
  ti_range : forall pt t, thread_at k pt = Some t -> 0 <= t_tid t < nexttid k;
  ti_unique : forall pt pt' t t', thread_at k pt = Some t -> thread_at k pt' = Some t' ->
    t_tid t <> 0 -> t_tid t = t_tid t' -> pt = pt' }.

Lemma tables_ok_alter k g p :
  (forall pr, length (p_ttable (g pr)) = length (p_ttable pr)) ->
  (forall pr, length (p_ofile (g pr)) = length (p_ofile pr)) ->
  tables_ok k -> tables_ok (k <| ptable ::= alter g p |>).
Proof.
  intros Ht Ho [H1 H2 H3]. split; rsimpl; [by rewrite length_alter| |done].
  intros i pr. rewrite list_lookup_alter. case_decide as Hd; [|apply H2].
  subst. intros (pr0 & Hp & ->)%fmap_Some. rewrite Ht, Ho. by apply (H2 i).
Qed.

Lemma tables_ok_thread k pt f : tables_ok k -> tables_ok (alter_thread pt f k).
Proof.
  apply tables_ok_alter; intros pr; rsimpl; [apply length_alter|done].
Qed.

(** Updates that keep every id keep the invariants. *)
Lemma pid_inv_alter k g p :
  (forall pr, p_pid (g pr) = p_pid pr) -> pid_inv k -> pid_inv (k <| ptable ::= alter g p |>).
Proof.
  intros Hg [H1 H2 H3].
  assert (forall i pr, ptable (k <| ptable ::= alter g p |>) !! i = Some pr ->
    exists pr0, ptable k !! i = Some pr0 /\ p_pid pr = p_pid pr0) as Hl.
  { intros i pr. rsimpl. rewrite list_lookup_alter. case_decide; [|eauto]. subst.
    intros (pr0 & Hp & ->)%fmap_Some. eauto. }
  split; [done| |].
  - intros i pr Hi. apply Hl in Hi as (pr0 & Hi & ->). rsimpl. eauto.
  - intros i j pr qr Hi Hj. apply Hl in Hi as (pr0 & Hi & ->). apply Hl in Hj as (qr0 & Hj & ->). eauto.
Qed.

Lemma tid_inv_threads k k' :
  nexttid k' = nexttid k ->
  (forall pt t', thread_at k' pt = Some t' ->
     exists t, thread_at k pt = Some t /\ (t_tid t' = t_tid t \/ t_tid t' = 0)) ->
  tid_inv k -> tid_inv k'.
Proof.
  intros Hn Hl [H1 H2 H3]. split; [by rewrite Hn| |].
  - intros pt t' Ht. rewrite Hn. apply Hl in Ht as (t & Ht & [->| ->]); [eauto|lia].
  - intros pt pt' t u Ht Hu. apply Hl in Ht as (t0 & Ht & [->| ->]); [|done].
    apply Hl in Hu as (u0 & Hu & [->| ->]); [eauto|done].
Qed.

Module Sched.
Section with_layout.
Context `{Layout}.

Definition pinit : K unit :=
  modify (fun k => k <| locks ::= delete LMtable |>);;
  modify (fun k => k <| locks ::= delete LPtable |>);;
  for_each (seq 0 MAX_MUTEXES) (fun i => modify (fun k => k <| locks ::= delete (LMutex i) |>)).

(** * Allocation of table entries *)

Definition allocproc : K (option nat) :=
  acquire LPtable;;
  ps ← gets ptable;
  match list_find (fun p => p_state p = UNUSED) ps with
  | None => release LPtable;; mret None
  | Some (i, _) =>
      upd_proc i (fun p => p <| p_state := USED |>);;
      pid ← gets nextpid;
      upd_proc i (fun p => p <| p_pid := pid |>);;
      modify (fun k => k <| nextpid := s32 (pid + 1) |>);;
      release LPtable;;
      mret (Some i)
  end.

(** The saved context of a thread that has never run: it starts in [forkret],
    which returns to [trapret]. *)
Definition fresh_context : context := mkContext 0 0 0 0 sym_forkret sym_trapret.

Definition allocthread (p : nat) : K (option tptr) :=
  acquire LPtable;;
  pr ← get_proc p;
  match list_find (fun t => t_state t = T_UNUSED) (p_ttable pr) with
  | None => release LPtable;; mret None
  | Some (i, _) =>
      let t := (p, i) in
      upd_thread t (fun t => t <| t_state := T_EMBRYO |>);;
      tid ← gets nexttid;
      upd_thread t (fun t => t <| t_tid := tid |>);;
      modify (fun k => k <| nexttid := s32 (tid + 1) |>);;
      upd_thread t (fun t => t <| t_parent := Some p |> <| t_next := None |>
                               <| t_mutex_flag := 0 |> <| t_shouldDie := 0 |>);;
      release LPtable;;
      ks ← Kalloc.kalloc;
      upd_thread t (fun t => t <| t_kstack := ks |>);;
      if ks =? 0 then
        upd_proc p (fun p => p <| p_state := UNUSED |>);;
        upd_thread t (fun t => t <| t_state := T_UNUSED |>);;
        mret None
      else
        let sp := ks + KSTACKSIZE in
        let sp := sp - sizeof_trapframe in
        upd_thread t (fun t => t <| t_tf := sp |>);;
        let sp := sp - 4 in
        let sp := sp - sizeof_context in
        upd_thread t (fun t => t <| t_context := sp |>);;
        upd_thread t (fun t => t <| t_ctx := fresh_context |>);;
        upd_proc p (fun p => p <| p_numOfthread := p_numOfthread p + 1 |>);;
        mret (Some t)
  end.

(** * Switching *)

(** The checks of [switchuvm]; the segment and page-table registers it loads
    are not part of the model. *)
Definition switchuvm (t : option tptr) (p : option nat) : K unit :=
  match p with None => panic "switchuvm: no process" | Some p =>
  match t with None => panic "switchuvm: no thread" | Some t =>
    th ← get_thread t;
    if t_kstack th =? 0 then panic "switchuvm: no kstack" else
    pr ← get_proc p;
    if p_pgdir pr =? 0 then panic "switchuvm: no pgdir" else mret tt
  end end.

(** What [scheduler] does before it switches to a thread. *)
Definition dispatch (t : tptr) : K unit :=
  modify (fun k => k <| cpu_proc := Some t.1 |>);;
  modify (fun k => k <| cpu_thread := Some t |>);;
  switchuvm (Some t) (Some t.1);;
  upd_proc t.1 (fun p => p <| p_state := USED |>);;
  upd_thread t (fun t => t <| t_state := T_RUNNING |>).

(** A scheduler holding only [ptable.lock] has reached the thread, and it is
    runnable. *)
Definition sched_ready (t : tptr) (k : kernel) : bool :=
  bool_decide (locks k !! LPtable = Some Me) && (ncli k =? 1)%nat &&
  bool_decide (t_state <$> thread_at k t = Some T_RUNNABLE).

(** The other side of [swtch]: the thread runs again when a scheduler picks it. *)
Fixpoint resume (t : tptr) (o : list (kernel -> kernel)) (k : kernel) : outcome kernel unit :=
  match o with
  | [] => Waiting k
  | f :: o' => if sched_ready t (f k) then dispatch t o' (f k) else resume t o' (f k)
  end.

(** [readeflags() & FL_IF]: this state has no flags register; interrupts are off on a
    CPU that holds a lock, which is the invariant of [pushcli] and [popcli]
    ([Spinlock.machine_ok]).  The [intena] that [sched] saves and restores is not in
    this state either. *)
Definition interruptible (k : kernel) : bool := (ncli k =? 0)%nat.

Definition sched : K unit :=
  h ← holding LPtable;
  if negb h then panic "sched ptable.lock" else
  n ← gets ncli;
  if negb (n =? 1)%nat then panic "sched locks" else
  t ← curthread;
  th ← get_thread t;
  if bool_decide (t_state th = T_RUNNING) then panic "sched running curthread" else
  fl ← gets interruptible;
  if (fl : bool) then panic "sched interruptible" else
  resume t.

Definition yield : K unit :=
  acquire LPtable;;
  p ← curproc;
  upd_proc p (fun p => p <| p_state := USED |>);;
  t ← curthread;
  upd_thread t (fun t => t <| t_state := T_RUNNABLE |>);;
  sched;;
  release LPtable.

(** One pass of [scheduler] over the process table; [wait_env] is the run of
    the chosen thread until it switches back. *)
Definition scheduler_visit (pt : tptr) : K unit :=
  th ← get_thread pt;
  when (bool_decide (t_state th = T_RUNNABLE))
    (dispatch pt;;
     wait_env;;
     modify (fun k => k <| cpu_proc := None |>);;
     modify (fun k => k <| cpu_thread := None |>)).
Definition scheduler_round : K unit :=
  acquire LPtable;;
  for_each (seq 0 NPROC) (fun p => for_each (seq 0 NTHREAD) (fun t => scheduler_visit (p, t)));;
  release LPtable.

(** * Sleep and wakeup *)

Definition sleep (ch : chan) (lk : option lockid) : K unit :=
  p ← myproc;
  t ← mythread;
  match p with None => panic "sleep" | Some _ =>
  match t with None => panic "sleep" | Some t =>
  match lk with None => panic "sleep without lk" | Some lk =>
    when (negb (bool_decide (lk = LPtable))) (acquire LPtable;; release lk);;
    upd_thread t (fun t => t <| t_chan := Some ch |>);;
    upd_thread t (fun t => t <| t_state := T_SLEEPING |>);;
    sched;;
    th ← get_thread t;
    when (negb (t_shouldDie th =? 0)) (release LPtable;; exiting);;
    upd_thread t (fun t => t <| t_chan := None |>);;
    when (negb (bool_decide (lk = LPtable))) (release LPtable;; acquire lk)
  end end end.

Definition wakes (ch : chan) (t : thread) : bool :=
  bool_decide (t_state t = T_SLEEPING) && bool_decide (t_chan t = Some ch).

Definition wakeup1_thread (ch : chan) (t : thread) : thread :=
  if wakes ch t then t <| t_state := T_RUNNABLE |> else t.
Definition wakeup1_proc (ch : chan) (p : proc) : proc :=
  let p' := p <| p_ttable ::= fmap (wakeup1_thread ch) |> in
  if existsb (wakes ch) (p_ttable p) then p' <| p_state := USED |> else p'.
Definition wakeup1 (ch : chan) : K unit :=
  modify (fun k => k <| ptable ::= fmap (wakeup1_proc ch) |>).

Definition wakeup (ch : chan) : K unit :=
  acquire LPtable;;
  wakeup1 ch;;
  release LPtable.

(** [if(t->state == T_SLEEPING) t->state = T_RUNNABLE;] *)
Definition rouse (t : thread) : thread :=
  if bool_decide (t_state t = T_SLEEPING) then t <| t_state := T_RUNNABLE |> else t.

Definition kill (pid : Z) : K Z :=
  acquire LPtable;;
  ps ← gets ptable;
  match list_find (fun p => p_pid p = pid) ps with
  | Some (i, _) =>
      upd_proc i (fun p => p <| p_killed := 1 |>);;
      upd_proc i (fun p => p <| p_ttable ::= fmap rouse |>);;
      release LPtable;;
      mret 0
  | None => release LPtable;; mret (-1)
  end.

(** * What each operation does *)

Lemma allocproc_eq o k :
  unlocked LPtable k ->
  allocproc o k =
    match list_find (fun p => p_state p = UNUSED) (ptable k) with
    | None => Ok None o k
    | Some (i, _) =>
        Ok (Some i) o
          (k <| ptable ::= alter (fun p => p <| p_state := USED |> <| p_pid := nextpid k |>) i |>
             <| nextpid := s32 (nextpid k + 1) |>)
    end.
Proof.
  intros Hl. unfold allocproc. mrun. destruct (list_find _ _) as [[i p]|] eqn:E.
  - unfold upd_proc. mrun. unfold mret, M_ret. f_equal. kernel_eq. by rewrite list_alter_alter_eq.
  - mrun. unfold mret, M_ret. f_equal. kernel_eq.
Qed.

(** The entry [allocthread] fills in, without and with a kernel stack. *)
Definition embryo (p : nat) (tid : Z) (t : thread) : thread :=
  t <| t_state := T_EMBRYO |> <| t_tid := tid |> <| t_parent := Some p |> <| t_next := None |>
    <| t_mutex_flag := 0 |> <| t_shouldDie := 0 |>.
Definition with_stack (ks : Z) (t : thread) : thread :=
  t <| t_kstack := ks |> <| t_tf := ks + KSTACKSIZE - sizeof_trapframe |>
    <| t_context := ks + KSTACKSIZE - sizeof_trapframe - 4 - sizeof_context |>
    <| t_ctx := fresh_context |>.

Lemma allocthread_eq (end_high : KERNBASE < sym_end) o k p pr l :
  unlocked LPtable k -> Kalloc.kmem_ready k -> Kalloc.kmem_inv k l -> ptable k !! p = Some pr ->
  allocthread p o k =
    match list_find (fun t => t_state t = T_UNUSED) (p_ttable pr) with
    | None => Ok None o k
    | Some (i, _) =>
        match l with
        | [] =>
            Ok None o
              (alter_thread (p, i) (fun t => embryo p (nexttid k) t <| t_kstack := 0 |> <| t_state := T_UNUSED |>) k
                 <| ptable ::= alter (fun pr => pr <| p_state := UNUSED |>) p |>
                 <| nexttid := s32 (nexttid k + 1) |>)
        | x :: _ =>
            Ok (Some (p, i)) o
              (alter_thread (p, i) (fun t => with_stack x (embryo p (nexttid k) t)) k
                 <| ptable ::= alter (fun pr => pr <| p_numOfthread := p_numOfthread pr + 1 |>) p |>
                 <| nexttid := s32 (nexttid k + 1) |>
                 <| freelist := default 0 (page_word (pages k) x 0) |>)
        end
    end.
Proof.
  intros Hl Hr Hi Hp. unfold allocthread, get_proc, upd_thread, upd_proc, alter_thread.
  mbind_step. erewrite bind_ok by by apply deref_some.
  destruct (list_find _ _) as [[i t]|] eqn:E.
  2:{ mrun. unfold mret, M_ret. f_equal. kernel_eq. }
  do 6 (mbind_step; rsimpl).
  match goal with |- (_ ≫= _) o ?k1 = _ => set (k1' := k1) end.
  assert (Kalloc.kmem_ready k1') as Hr1 by (intros Hu; specialize (Hr Hu); unfold k1'; solve_lock).
  assert (Kalloc.kmem_inv k1' l) as Hi1 by by eapply Kalloc.kmem_inv_frame; [| |exact Hi].
  destruct l as [|x l].
  - erewrite bind_ok by by apply Kalloc.kalloc_nil. mbind_step. cbn [Z.eqb]. mrun.
    unfold mret, M_ret. f_equal. unfold k1'. kernel_eq.
    unfold embryo, with_stack. cbn [fst snd]. proc_eq.
  - erewrite bind_ok by by eapply Kalloc.kalloc_cons. mbind_step.
    assert (0 < x) as Hx.
    { destruct Hi as [_ _ Hok]. inversion_clear Hok. by apply Kalloc.page_ok_pos. }
    destruct (Z.eqb_spec x 0); [lia|]. mrun.
    unfold mret, M_ret. f_equal. unfold k1'. kernel_eq.
    unfold embryo, with_stack. cbn [fst snd]. proc_eq.
Qed.

Lemma wakeup_eq ch o k :
  unlocked LPtable k -> wakeup ch o k = Ok tt o (k <| ptable ::= fmap (wakeup1_proc ch) |>).
Proof.
  intros Hl. unfold wakeup, wakeup1. mrun.
  erewrite release_locked by solve_lock. f_equal. kernel_eq.
Qed.

Lemma wakeup1_proc_threads ch p :
  p_ttable (wakeup1_proc ch p) = wakeup1_thread ch <$> p_ttable p.
Proof. unfold wakeup1_proc. by destruct (existsb _ _). Qed.

Lemma thread_at_wakeup ch k pt :
  thread_at (k <| ptable ::= fmap (wakeup1_proc ch) |>) pt = wakeup1_thread ch <$> thread_at k pt.
Proof.
  unfold thread_at. rsimpl. rewrite list_lookup_fmap. destruct (ptable k !! pt.1) as [p|]; [|done].
  simpl. by rewrite wakeup1_proc_threads, list_lookup_fmap.
Qed.

Lemma wakeup1_thread_idemp ch t : wakeup1_thread ch (wakeup1_thread ch t) = wakeup1_thread ch t.
Proof.
  unfold wakeup1_thread. destruct (wakes ch t) eqn:E; [|by rewrite E].
  unfold wakes. rsimpl. done.
Qed.

Lemma wakeup1_proc_idemp ch p : wakeup1_proc ch (wakeup1_proc ch p) = wakeup1_proc ch p.
Proof.
  assert (existsb (wakes ch) (p_ttable (wakeup1_proc ch p)) = false) as He.
  { rewrite wakeup1_proc_threads. apply not_true_iff_false. rewrite existsb_exists.
    intros (t & (t0 & <- & _)%in_map_iff & Ht). revert Ht. unfold wakeup1_thread.
    destruct (wakes ch t0) eqn:E; [by unfold wakes; rsimpl|by rewrite E]. }
  unfold wakeup1_proc at 1. rewrite He. apply proc_ext; rsimpl; try done.
  rewrite wakeup1_proc_threads, <- list_fmap_compose. apply list_fmap_ext. intros _ t _.
  apply wakeup1_thread_idemp.
Qed.

Lemma wakeup_ptable_idemp ch (ps : list proc) :
  wakeup1_proc ch <$> (wakeup1_proc ch <$> ps) = wakeup1_proc ch <$> ps.
Proof. rewrite <- list_fmap_compose. apply list_fmap_ext. intros _ p _. apply wakeup1_proc_idemp. Qed.

Lemma kill_eq pid o k :
  unlocked LPtable k ->
  kill pid o k =
    match list_find (fun p => p_pid p = pid) (ptable k) with
    | Some (i, _) =>
        Ok 0 o (k <| ptable ::= alter (fun p => p <| p_killed := 1 |> <| p_ttable ::= fmap rouse |>) i |>)
    | None => Ok (-1) o k
    end.
Proof.
  intros Hl. unfold kill, upd_proc. mrun. destruct (list_find _ _) as [[i p]|] eqn:E; mrun;
    unfold mret, M_ret; f_equal; kernel_eq. by rewrite list_alter_alter_eq.
Qed.

(** The environment steps of a list, run in order. *)
Definition env_run (o : list (kernel -> kernel)) (k : kernel) : kernel := fold_left (fun k f => f k) o k.

(** No scheduler picks the thread during the run. *)
Fixpoint never_ready (t : tptr) (o : list (kernel -> kernel)) (k : kernel) : Prop :=
  match o with
  | [] => True
  | f :: o' => sched_ready t (f k) = false /\ never_ready t o' (f k)
  end.

Lemma resume_app t o1 o2 k : never_ready t o1 k -> resume t (o1 ++ o2) k = resume t o2 (env_run o1 k).
Proof.
  revert k. induction o1 as [|f o1 IH]; intros k; simpl; [done|].
  intros [-> Hn]. by apply IH.
Qed.

(** A thread with a kernel stack in a process with a page table. *)
Definition can_run (t : tptr) (k : kernel) : Prop :=
  exists p th, ptable k !! t.1 = Some p /\ p_ttable p !! t.2 = Some th /\
    t_kstack th <> 0 /\ p_pgdir p <> 0.

Definition dispatched (t : tptr) (k : kernel) : kernel :=
  alter_thread t (fun th => th <| t_state := T_RUNNING |>) k
    <| ptable ::= alter (fun p => p <| p_state := USED |>) t.1 |>
    <| cpu_proc := Some t.1 |> <| cpu_thread := Some t |>.

Lemma dispatch_eq t o k : can_run t k -> dispatch t o k = Ok tt o (dispatched t k).
Proof.
  intros (p & th & Hp & Ht & Hk & Hd). unfold dispatch, switchuvm, upd_proc, upd_thread.
  do 2 mbind_step. rsimpl. erewrite bind_ok.
  2:{ erewrite bind_ok by (apply deref_some; unfold thread_at; rsimpl; by rewrite Hp).
      destruct (Z.eqb_spec (t_kstack th) 0); [done|].
      erewrite bind_ok by (apply deref_some; rsimpl; done).
      destruct (Z.eqb_spec (p_pgdir p) 0); [done|]. done. }
  mrun. unfold modify, dispatched, alter_thread. f_equal. kernel_eq. proc_eq.
Qed.

Lemma sched_eq t th o k :
  cpu_thread k = Some t -> thread_at k t = Some th -> locked LPtable k -> ncli k = 1%nat ->
  t_state th <> T_RUNNING -> sched o k = resume t o k.
Proof.
  intros Ht Hth Hl Hn Hs. unfold sched.
  erewrite (bind_ok _ _ _ _ true) by (unfold holding, gets; by rewrite bool_decide_true).
  cbn [negb]. mbind_step. rewrite Hn. cbn [negb Nat.eqb].
  erewrite bind_ok by by apply deref_some.
  erewrite bind_ok by by apply deref_some.
  rewrite bool_decide_false by done. mbind_step. unfold interruptible. by rewrite Hn.
Qed.

Lemma consumes_dispatch t : consumes 0 (dispatch t).
Proof. unfold dispatch, switchuvm, upd_proc, upd_thread, get_thread, get_proc. solve_consumes. Qed.

(** A thread that went to sleep has let the environment run. *)
Lemma consumes_resume t : consumes 1 (resume t).
Proof.
  intros o. induction o as [|f o IH]; intros k a o' k'; simpl; [done|].
  destruct (sched_ready t (f k)); [intros H1%consumes_dispatch|intros H1%IH]; simpl in *; lia.
Qed.

Lemma consumes_sched : consumes 1 sched.
Proof.
  unfold sched, holding, curthread, get_thread.
  apply (consumes_bind 0 1); [solve_consumes|]. intros [|]; cbn [negb]; [|eauto with consumes].
  apply (consumes_bind 0 1); [solve_consumes|]. intros n. destruct (negb _); [eauto with consumes|].
  apply (consumes_bind 0 1); [solve_consumes|]. intros t.
  apply (consumes_bind 0 1); [solve_consumes|]. intros th. destruct (bool_decide _); [eauto with consumes|].
  apply (consumes_bind 0 1); [solve_consumes|]. intros [|]; [eauto with consumes|].
  apply consumes_resume.
Qed.

Lemma consumes_sleep ch lk : consumes 1 (sleep ch lk).
Proof.
  unfold sleep, myproc, mythread, upd_thread, get_thread.
  apply (consumes_bind 0 1); [solve_consumes|]. intros p.
  apply (consumes_bind 0 1); [solve_consumes|]. intros t.
  do 3 (break_match; [|eauto with consumes]).
  apply (consumes_bind 0 1); [unfold when; solve_consumes|]. intros _.
  apply (consumes_bind 0 1); [solve_consumes|]. intros _.
  apply (consumes_bind 0 1); [solve_consumes|]. intros _.
  apply (consumes_bind 1 0); [apply consumes_sched|]. intros _.
  unfold when. solve_consumes.
Qed.

(** The state in which [sleep] hands over to the scheduler. *)
Definition asleep (t : tptr) (ch : chan) (lk : lockid) (k : kernel) : kernel :=
  alter_thread t (fun th => th <| t_chan := Some ch |> <| t_state := T_SLEEPING |>) k
    <| locks := <[LPtable := Me]> (delete lk (locks k)) |>.

(** The rest of [sleep], after the thread is picked again. *)
Definition sleep_tail (t : tptr) (lk : lockid) : K unit :=
  th ← get_thread t;
  when (negb (t_shouldDie th =? 0)) (release LPtable;; exiting);;
  upd_thread t (fun t => t <| t_chan := None |>);;
  when (negb (bool_decide (lk = LPtable))) (release LPtable;; acquire lk).

(** A thread that may call [sleep]: it runs, and holds the lock it passes and no
    other. *)
Record may_sleep (t : tptr) (th : thread) (lk : lockid) (k : kernel) : Prop := {
  ms_proc : cpu_proc k = Some t.1;
  ms_thread : cpu_thread k = Some t;
  ms_at : thread_at k t = Some th;
  ms_lock : locked lk k;
  ms_ncli : ncli k = 1%nat;
  ms_ne : lk <> LPtable;
  ms_ptable : unlocked LPtable k }.

(** From [k0] on, the environment leaves the thread alone during [o1]; its next
    step [f] ends in [k1], where a scheduler picks the thread. *)
Record picked (t : tptr) (th1 : thread) (lk : lockid) (o1 : list (kernel -> kernel)) (f : kernel -> kernel)
    (k0 k1 : kernel) : Prop := {
  pk_wait : never_ready t o1 k0;
  pk_step : k1 = f (env_run o1 k0);
  pk_ready : sched_ready t k1 = true;
  pk_can : can_run t k1;
  pk_lock : unlocked lk k1;
  pk_at : thread_at k1 t = Some th1 }.

Lemma sleep_eq t th ch lk o k :
  may_sleep t th lk k ->
  sleep ch (Some lk) o k = (resume t ≫= fun _ => sleep_tail t lk) o (asleep t ch lk k).
Proof.
  intros [Hp Ht Hth Hlk Hn Hne Hul]. unfold sleep, myproc, mythread, upd_thread.
  mbind_step. mbind_step. rewrite Hp, Ht.
  rewrite (bool_decide_false (lk = LPtable)) by done. cbn [negb when].
  erewrite bind_ok.
  2:{ erewrite bind_ok by by apply acquire_unlocked. apply release_locked.
      unfold locked in *. rsimpl. by rewrite lookup_insert_ne. }
  do 2 (mbind_step; rsimpl).
  assert (ncli (asleep t ch lk k) = 1%nat) as Hn1.
  { pose proof (ncli_delete lk k Hlk) as Hd.
    transitivity (ncli (k <| locks ::= delete lk |> <| locks ::= <[LPtable := Me]> |>)).
    - done.
    - rewrite ncli_insert; [lia|]. unfold unlocked in *. rsimpl. rewrite lookup_delete_ne by done. done. }
  match goal with |- _ o ?k1 = _ => assert (k1 = asleep t ch lk k) as -> end.
  { unfold asleep, alter_thread. kernel_eq. proc_eq. }
  assert (thread_at (asleep t ch lk k) t =
            Some (th <| t_chan := Some ch |> <| t_state := T_SLEEPING |>)) as Hth'.
  { transitivity (thread_at (alter_thread t (fun th => th <| t_chan := Some ch |> <| t_state := T_SLEEPING |>) k) t);
      [by apply thread_at_ext|]. by rewrite thread_at_alter_eq, Hth. }
  unfold sleep_tail. rewrite (bool_decide_false (lk = LPtable)) by done. cbn [negb when].
  apply bind_ext. eapply sched_eq; [by unfold asleep; rsimpl|done| |done|by rsimpl].
  unfold locked, asleep. rsimpl. apply lookup_insert_eq.
Qed.

(** After the thread is picked: it runs, off the channel, with the lock it came
    in with held again and [ptable.lock] free. *)
Definition awake (t : tptr) (lk : lockid) (k : kernel) : kernel :=
  alter_thread t (fun th => th <| t_chan := None |>) k
    <| locks := <[lk := Me]> (delete LPtable (locks k)) |>.

Lemma sleep_tail_eq t th lk o k :
  thread_at k t = Some th -> t_shouldDie th = 0 -> locked LPtable k -> unlocked lk k -> lk <> LPtable ->
  sleep_tail t lk o k = Ok tt o (awake t lk k).
Proof.
  intros Ht Hd Hl Hu Hne. unfold sleep_tail, get_thread, upd_thread.
  erewrite bind_ok by by apply deref_some.
  rewrite Hd, bool_decide_false by done. cbn [negb Z.eqb when]. unfold alter_thread. mrun.
  rewrite acquire_unlocked.
  - done.
  - unfold unlocked, alter_thread in *. rsimpl. by rewrite lookup_delete_ne.
Qed.

Lemma sleep_tail_dying t th lk o k :
  thread_at k t = Some th -> t_shouldDie th <> 0 -> locked LPtable k ->
  sleep_tail t lk o k = Exiting o (k <| locks ::= delete LPtable |>).
Proof.
  intros Ht Hd Hl. unfold sleep_tail, get_thread.
  erewrite bind_ok by by apply deref_some.
  destruct (Z.eqb_spec (t_shouldDie th) 0); [done|]. cbn [negb when].
  unfold mbind, M_bind. by rewrite release_locked.
Qed.

Lemma sched_ready_spec t k :
  sched_ready t k = true <->
  locked LPtable k /\ ncli k = 1%nat /\ exists th, thread_at k t = Some th /\ t_state th = T_RUNNABLE.
Proof.
  unfold sched_ready. rewrite !andb_true_iff, !bool_decide_eq_true, Nat.eqb_eq.
  rewrite fmap_Some. unfold locked. split.
  - intros [[? ?] (th & ? & ?)]. eauto 10.
  - intros (? & ? & th & ? & ?). eauto 10.
Qed.

Lemma dispatched_at t k th :
  thread_at k t = Some th -> thread_at (dispatched t k) t = Some (th <| t_state := T_RUNNING |>).
Proof.
  intros Ht. transitivity (thread_at (alter_thread t (fun th => th <| t_state := T_RUNNING |>) k
    <| ptable ::= alter (fun p => p <| p_state := USED |>) t.1 |>) t); [by apply thread_at_ext|].
  by rewrite thread_at_proc, thread_at_alter_eq, Ht.
Qed.

Lemma sleep_waits t th ch lk o k :
  may_sleep t th lk k -> never_ready t o (asleep t ch lk k) ->
  sleep ch (Some lk) o k = Waiting (env_run o (asleep t ch lk k)).
Proof.
  intros Hms Hn. rewrite (sleep_eq t th) by done. unfold mbind, M_bind.
  rewrite <- (app_nil_r o) at 1. by rewrite resume_app.
Qed.

Lemma sleep_picked t th th1 ch lk o1 f o2 k k1 :
  may_sleep t th lk k -> picked t th1 lk o1 f (asleep t ch lk k) k1 ->
  sleep ch (Some lk) (o1 ++ f :: o2) k =
    (if t_shouldDie th1 =? 0 then Ok tt o2 (awake t lk (dispatched t k1))
     else Exiting o2 (dispatched t k1 <| locks ::= delete LPtable |>)).
Proof.
  intros Hms [Hnr -> Hrd Hcan Hulk Ht1]. pose proof (ms_ne _ _ _ _ Hms) as Hne.
  set (k1 := f (env_run o1 (asleep t ch lk k))) in *.
  pose proof (proj1 (sched_ready_spec t k1) Hrd) as (Hl1 & _).
  assert (locked LPtable (dispatched t k1)) as Hl2 by exact Hl1.
  pose proof (dispatched_at t k1 th1 Ht1) as Hd1.
  rewrite (sleep_eq t th) by done. unfold mbind, M_bind.
  rewrite resume_app by done. cbn [resume]. fold k1. rewrite Hrd, dispatch_eq by done.
  destruct (Z.eqb_spec (t_shouldDie th1) 0).
  - by erewrite sleep_tail_eq by eauto.
  - by erewrite sleep_tail_dying by eauto.
Qed.

(** ** The tables after [allocproc] and [allocthread] *)

Lemma pid_inv_alloc k i p :
  ptable k !! i = Some p -> pid_inv k -> nextpid k < 2 ^ 31 - 1 ->
  pid_inv (k <| ptable ::= alter (fun p => p <| p_state := USED |> <| p_pid := nextpid k |>) i |>
             <| nextpid := s32 (nextpid k + 1) |>).
Proof.
  intros Hi [H1 H2 H3] Hn. rewrite s32_small by (unfold is_s32; lia).
  assert (forall j q, ptable (k <| ptable ::= alter (fun p => p <| p_state := USED |> <| p_pid := nextpid k |>) i |>) !! j = Some q ->
    (j = i /\ p_pid q = nextpid k) \/ (j <> i /\ ptable k !! j = Some q)) as Hl.
  { intros j q. rsimpl. rewrite list_lookup_alter. case_decide as Hd; [|right; split; congruence]. subst.
    rewrite Hi. simpl. intros [= <-]. by left. }
  split; rsimpl; [lia| |].
  - intros j q Hj. apply Hl in Hj as [[-> ->]|[Hj Hq]]; [lia|]. specialize (H2 j q Hq). lia.
  - intros a b q r Ha Hb Hz Heq.
    apply Hl in Ha as [[-> Ha]|[Ha Hqa]]; apply Hl in Hb as [[-> Hb]|[Hb Hqb]]; try done.
    + specialize (H2 _ _ Hqb). lia.
    + specialize (H2 _ _ Hqa). lia.
    + by eapply H3.
Qed.

(** A thread given a fresh id keeps the ids distinct. *)
Lemma tid_inv_alloc k k' pt :
  nexttid k' = nexttid k + 1 ->
  (forall q t', thread_at k' q = Some t' ->
     (q = pt /\ t_tid t' = nexttid k) \/ (q <> pt /\ exists t, thread_at k q = Some t /\ t_tid t' = t_tid t)) ->
  tid_inv k -> tid_inv k'.
Proof.
  intros Hn Hl [H1 H2 H3]. split; [lia| |].
  - intros q t' Hq. apply Hl in Hq as [[-> ->]|(Hq & t & Ht & ->)]; [lia|]. specialize (H2 q t Ht). lia.
  - intros a b t u Ha Hb Hz Heq.
    apply Hl in Ha as [[-> Ha]|(Ha & t0 & Ht & Hta)], Hb as [[-> Hb]|(Hb & u0 & Hu & Htb)]; try done.
    + specialize (H2 _ _ Hu). lia.
    + specialize (H2 _ _ Ht). lia.
    + eapply H3; eauto; congruence.
Qed.
End with_layout.

Section properties.
Context `{Layout} (end_high : KERNBASE < sym_end).

(** [allocproc] takes the first unused entry of the process table, marks it
    used and gives it a process id no other entry has; when every entry is in
    use it returns null and changes nothing. *)
Theorem allocproc_fresh o k :
  unlocked LPtable k -> pid_inv k -> nextpid k < 2 ^ 31 - 1 ->
  (Forall (fun p => p_state p <> UNUSED) (ptable k) /\ allocproc o k = Ok None o k) \/
  exists i p k', allocproc o k = Ok (Some i) o k' /\
    ptable k !! i = Some p /\ p_state p = UNUSED /\
    (forall j q, ptable k !! j = Some q -> (j < i)%nat -> p_state q <> UNUSED) /\
    ptable k' = <[i := p <| p_state := USED |> <| p_pid := nextpid k |>]> (ptable k) /\
    (forall j q, ptable k' !! j = Some q -> j <> i -> p_pid q <> nextpid k) /\
    pid_inv k' /\ locks k' = locks k.
Proof.
  intros Hl Hi Hn. rewrite allocproc_eq by done.
  destruct (list_find _ _) as [[i p]|] eqn:E.
  2:{ left. by apply list_find_None in E. }
  right. apply list_find_Some in E as (Hp & Hs & Hbefore).
  exists i, p. eexists. split; [done|].
  assert (forall f, alter f i (ptable k) = <[i := f p]> (ptable k)) as Hins.
  { intros f. rewrite list_insert_alter. eapply alter_at; [done|done]. }
  split_and!; try done; rsimpl.
  - by rewrite Hins.
  - intros j q Hq Hne. rewrite list_lookup_alter_ne in Hq by done.
    destruct Hi as [_ Hr _]. specialize (Hr j q Hq). lia.
  - by apply (pid_inv_alloc k i p).
Qed.

(** [allocthread] fills the first unused thread entry of the process with a
    thread id nobody has and a kernel stack taken from the page allocator, set up
    to start in [forkret]; no other thread changes.  With no unused entry it
    returns null and changes nothing. *)
Theorem allocthread_fresh o k p pr x l :
  unlocked LPtable k -> Kalloc.kmem_ready k -> Kalloc.kmem_inv k (x :: l) -> ptable k !! p = Some pr ->
  tid_inv k -> nexttid k < 2 ^ 31 - 1 ->
  (Forall (fun t => t_state t <> T_UNUSED) (p_ttable pr) /\ allocthread p o k = Ok None o k) \/
  exists i t k', allocthread p o k = Ok (Some (p, i)) o k' /\
    p_ttable pr !! i = Some t /\ t_state t = T_UNUSED /\
    thread_at k' (p, i) = Some (with_stack x (embryo p (nexttid k) t)) /\
    (forall q, q <> (p, i) -> thread_at k' q = thread_at k q) /\
    tid_inv k' /\ Kalloc.kmem_inv k' l /\ locks k' = locks k.
Proof.
  intros Hl Hr Hi Hp Ht Hn. rewrite (allocthread_eq end_high o k p pr (x :: l)) by done.
  destruct (list_find _ _) as [[i t]|] eqn:E.
  2:{ left. by apply list_find_None in E. }
  right. apply list_find_Some in E as (Hti & Hs & _).
  exists i, t. eexists. split; [done|].
  match goal with |- context [Kalloc.kmem_inv ?k0 l] => set (k' := k0) end.
  assert (forall q, thread_at k' q =
    if decide ((p, i) = q) then (fun t => with_stack x (embryo p (nexttid k) t)) <$> thread_at k q
    else thread_at k q) as Hat.
  { intros q. rewrite <- thread_at_alter. unfold k'.
    rewrite <- (thread_at_proc (fun pr => pr <| p_numOfthread := p_numOfthread pr + 1 |>) p (alter_thread _ _ _)) by done.
    by apply thread_at_ext. }
  assert (thread_at k (p, i) = Some t) as Hpi by (unfold thread_at; simpl; by rewrite Hp).
  split_and!; try done.
  - rewrite Hat, decide_True, Hpi by done. done.
  - intros q Hq. rewrite Hat, decide_False by congruence. done.
  - apply (tid_inv_alloc k k' (p, i)); [| |done].
    + unfold k'. rsimpl. apply s32_small. unfold is_s32. pose proof (ti_next k Ht). lia.
    + intros q t'. rewrite Hat. case_decide as Hd.
      * subst. rewrite Hpi. simpl. intros [= <-]. by left.
      * intros Hq. right. split; [congruence|]. eauto.
  - eapply Kalloc.kmem_inv_frame; [| |apply (Kalloc.kmem_inv_pop _ _ _ Hi)]; done.
Qed.

(** When no page is left, [allocthread] returns null with the entry unused
    again, but it has also marked the whole process unused, whatever its other
    threads are doing. *)
Theorem allocthread_out_of_memory o k p pr i t :
  unlocked LPtable k -> Kalloc.kmem_ready k -> Kalloc.kmem_inv k [] -> ptable k !! p = Some pr ->
  list_find (fun t => t_state t = T_UNUSED) (p_ttable pr) = Some (i, t) ->
  exists k', allocthread p o k = Ok None o k' /\
    p_state <$> ptable k' !! p = Some UNUSED /\
    t_state <$> thread_at k' (p, i) = Some T_UNUSED /\
    (forall q, q <> (p, i) -> thread_at k' q = thread_at k q).
Proof.
  intros Hl Hr Hi Hp Hf. rewrite (allocthread_eq end_high o k p pr []) by done. rewrite Hf.
  eexists. split; [done|].
  match goal with |- context [thread_at ?k0 (p, i)] => set (k' := k0) end.
  apply list_find_Some in Hf as (Hti & _ & _).
  assert (forall q, thread_at k' q =
    if decide ((p, i) = q) then (fun t => embryo p (nexttid k) t <| t_kstack := 0 |> <| t_state := T_UNUSED |>) <$> thread_at k q
    else thread_at k q) as Hat.
  { intros q. rewrite <- thread_at_alter. unfold k'.
    rewrite <- (thread_at_proc (fun pr => pr <| p_state := UNUSED |>) p (alter_thread _ _ _)) by done.
    by apply thread_at_ext. }
  assert (thread_at k (p, i) = Some t) as Hpi by (unfold thread_at; simpl; by rewrite Hp).
  split_and!.
  - unfold k', alter_thread. rsimpl. simpl. rewrite !list_lookup_alter_eq, Hp. done.
  - rewrite Hat, decide_True, Hpi by done. done.
  - intros q Hq. rewrite Hat, decide_False by congruence. done.
Qed.

(** [wakeup] makes runnable exactly the threads asleep on the channel: no
    sleeper is missed, no other thread is touched, and afterwards nobody sleeps
    on the channel. *)
Theorem wakeup_exact ch o k :
  unlocked LPtable k ->
  exists k', wakeup ch o k = Ok tt o k' /\
    (forall pt, thread_at k' pt = wakeup1_thread ch <$> thread_at k pt) /\
    (forall pt t, thread_at k' pt = Some t -> t_state t = T_SLEEPING -> t_chan t <> Some ch) /\
    (forall i p, ptable k !! i = Some p ->
       exists p', ptable k' !! i = Some p' /\ p_pid p' = p_pid p /\
         (p_state p' = p_state p \/ p_state p' = USED)) /\
    locks k' = locks k.
Proof.
  intros Hl. rewrite wakeup_eq by done. eexists. split; [done|]. split_and!.
  - intros pt. apply thread_at_wakeup.
  - intros pt t. rewrite thread_at_wakeup. intros (t0 & Ht & ->)%fmap_Some.
    unfold wakeup1_thread, wakes. destruct (bool_decide (t_state t0 = T_SLEEPING)) eqn:E1; simpl.
    + destruct (bool_decide (t_chan t0 = Some ch)) eqn:E2; [done|].
      by apply bool_decide_eq_false in E2.
    + apply bool_decide_eq_false in E1. done.
  - intros i p Hp. rsimpl. rewrite list_lookup_fmap, Hp. simpl. eexists. split; [done|].
    unfold wakeup1_proc. destruct (existsb _ _); rsimpl; auto.
  - done.
Qed.

(** C21. A thread that sleeps on a channel stays off the CPU, whatever the rest
    of the system does, until a scheduler finds it runnable; meanwhile it is
    marked asleep on the channel and the lock it came with is free. *)
Theorem sleep_until_ready t th ch lk o k :
  may_sleep t th lk k ->
  never_ready t o (asleep t ch lk k) ->
  sleep ch (Some lk) o k = Waiting (env_run o (asleep t ch lk k)) /\
  unlocked lk (asleep t ch lk k) /\
  thread_at (asleep t ch lk k) t = Some (th <| t_chan := Some ch |> <| t_state := T_SLEEPING |>).
Proof.
  intros Hms Hnr. pose proof Hms as [_ _ Hth _ _ Hne _]. split_and!.
  - by apply (sleep_waits t th).
  - unfold unlocked, asleep. rsimpl. rewrite lookup_insert_ne by done. apply lookup_delete_eq.
  - transitivity (thread_at (alter_thread t (fun th => th <| t_chan := Some ch |> <| t_state := T_SLEEPING |>) k) t);
      [by apply thread_at_ext|]. by rewrite thread_at_alter_eq, Hth.
Qed.

(** C22. When a scheduler picks the sleeper, [sleep] returns with the thread
    running and off the channel, the caller's lock held again and [ptable.lock]
    free; a thread told to die leaves for [kthread_exit] instead, without the
    lock. *)
Theorem sleep_returns t th th1 ch lk o1 f o2 k k1 :
  may_sleep t th lk k -> picked t th1 lk o1 f (asleep t ch lk k) k1 ->
  sleep ch (Some lk) (o1 ++ f :: o2) k =
    (if t_shouldDie th1 =? 0 then Ok tt o2 (awake t lk (dispatched t k1))
     else Exiting o2 (dispatched t k1 <| locks ::= delete LPtable |>)) /\
  thread_at (awake t lk (dispatched t k1)) t = Some (th1 <| t_state := T_RUNNING |> <| t_chan := None |>) /\
  locked lk (awake t lk (dispatched t k1)) /\ unlocked LPtable (awake t lk (dispatched t k1)).
Proof.
  intros Hms Hpk. split_and!.
  - by eapply sleep_picked.
  - transitivity (thread_at (alter_thread t (fun th => th <| t_chan := None |>) (dispatched t k1)) t);
      [by apply thread_at_ext|]. by rewrite thread_at_alter_eq, (dispatched_at t k1 th1) by apply Hpk.
  - unfold locked, awake. rsimpl. apply lookup_insert_eq.
  - unfold unlocked, awake. rsimpl. rewrite lookup_insert_ne by apply Hms. apply lookup_delete_eq.
Qed.

(** [kill] finds the process by its id, marks it killed and makes its
    sleeping threads runnable, leaving every other process alone; for an id
    nobody has it returns -1 and changes nothing. *)
Theorem kill_spec pid o k :
  unlocked LPtable k -> pid_inv k -> pid <> 0 ->
  (forall i p, ptable k !! i = Some p -> p_pid p = pid ->
     kill pid o k = Ok 0 o (k <| ptable := <[i := p <| p_killed := 1 |> <| p_ttable ::= fmap rouse |>]> (ptable k) |>)) /\
  (Forall (fun p => p_pid p <> pid) (ptable k) -> kill pid o k = Ok (-1) o k).
Proof.
  intros Hl Hi Hz. rewrite kill_eq by done. split.
  - intros i p Hp Hpid. destruct (list_find _ _) as [[j q]|] eqn:E.
    + apply list_find_Some in E as (Hq & Hqp & _).
      assert (j = i) as -> by (eapply (pi_unique k Hi j i q p); eauto; congruence).
      assert (q = p) as -> by congruence. f_equal. kernel_eq.
      rewrite list_insert_alter. by eapply alter_at.
    + apply list_find_None in E. rewrite Forall_lookup in E. by destruct (E i p Hp).
  - intros Hn. by rewrite (proj2 (list_find_None _ _) Hn).
Qed.

(** The id 0 of the unused entries is not excluded: [kill(0)] marks the first
    entry with id 0 killed, and if that is the entry [allocproc] takes next, the
    new process is born killed. *)
Theorem kill_zero_marks_next o k i p :
  unlocked LPtable k ->
  list_find (fun p => p_pid p = 0) (ptable k) = Some (i, p) ->
  list_find (fun p => p_state p = UNUSED) (ptable k) = Some (i, p) ->
  exists k', (kill 0 ≫= fun _ => allocproc) o k = Ok (Some i) o k' /\
    p_killed <$> ptable k' !! i = Some 1 /\ p_state <$> ptable k' !! i = Some USED.
Proof.
  intros Hl H0 Hu. apply list_find_Some in Hu as (Hp & Hs & Hb).
  eexists. split.
  - erewrite bind_ok by (rewrite kill_eq, H0 by done; reflexivity).
    rewrite allocproc_eq by done. rsimpl.
    assert (list_find (fun p => p_state p = UNUSED)
      (alter (fun p => p <| p_killed := 1 |> <| p_ttable ::= fmap rouse |>) i (ptable k)) =
      Some (i, p <| p_killed := 1 |> <| p_ttable ::= fmap rouse |>)) as ->; [|done].
    apply list_find_Some. rewrite list_lookup_alter_eq, Hp. split_and!; [done|done|].
    intros j q. rewrite list_lookup_alter. case_decide as Hd; [lia|]. intros Hq Hlt. by apply (Hb j q).
  - rsimpl. rewrite !list_lookup_alter_eq, Hp. done.
Qed.

(** [yield] gives up the CPU with the thread still runnable, so that a
    scheduler may pick it at once; it then continues with nothing changed but
    the process state. *)
Theorem yield_returns t p th o k :
  cpu_proc k = Some t.1 -> cpu_thread k = Some t ->
  ptable k !! t.1 = Some p -> p_ttable p !! t.2 = Some th -> t_state th = T_RUNNING ->
  t_kstack th <> 0 -> p_pgdir p <> 0 -> locks k = ∅ ->
  yield (id :: o) k = Ok tt o (k <| ptable ::= alter (fun p => p <| p_state := USED |>) t.1 |>) /\
  yield [] k = Waiting (alter_thread t (fun th => th <| t_state := T_RUNNABLE |>) k
                          <| ptable ::= alter (fun p => p <| p_state := USED |>) t.1 |>
                          <| locks := {[LPtable := Me]} |>).
Proof.
  intros Hp Ht Hpp Hth Hs Hk Hd Hlk.
  set (k1 := alter_thread t (fun th => th <| t_state := T_RUNNABLE |>) k
               <| ptable ::= alter (fun p => p <| p_state := USED |>) t.1 |>
               <| locks := {[LPtable := Me]} |>).
  assert (thread_at k1 t = Some (th <| t_state := T_RUNNABLE |>)) as Hth1.
  { unfold k1. transitivity (thread_at (alter_thread t (fun th => th <| t_state := T_RUNNABLE |>) k
      <| ptable ::= alter (fun p => p <| p_state := USED |>) t.1 |>) t); [by apply thread_at_ext|].
    rewrite thread_at_proc, thread_at_alter_eq by done. unfold thread_at. rewrite Hpp. simpl. by rewrite Hth. }
  assert (forall o1, yield o1 k = (resume t ≫= fun _ => release LPtable) o1 k1) as Hy.
  { intros o1. unfold yield, curproc, curthread, upd_proc, upd_thread, alter_thread.
    erewrite bind_ok by (apply acquire_unlocked; unfold unlocked; by rewrite Hlk).
    erewrite bind_ok by (apply deref_some; by rsimpl). mbind_step.
    erewrite bind_ok by (apply deref_some; by rsimpl). mbind_step.
    match goal with |- _ o1 ?k2 = _ => assert (k2 = k1) as -> end.
    { unfold k1, alter_thread. kernel_eq; [by rewrite Hlk|proc_eq]. }
    apply bind_ext. apply (sched_eq t (th <| t_state := T_RUNNABLE |>)); try done; by rsimpl. }
  assert (sched_ready t k1 = true) as Hrd.
  { apply sched_ready_spec. split_and!; [done|done|]. eexists. split; [done|]. by rsimpl. }
  assert (can_run t k1) as Hcan.
  { unfold can_run. unfold thread_at in Hth1. destruct (ptable k1 !! t.1) as [p1|] eqn:E; [|done].
    simpl in Hth1. exists p1, (th <| t_state := T_RUNNABLE |>). split_and!; try done.
    unfold k1, alter_thread in E. rsimpl. rewrite !list_lookup_alter_eq, Hpp in E. simpl in E.
    injection E as <-. by rsimpl. }
  rewrite !Hy. split; [|done].
  unfold mbind, M_bind. cbn [resume]. change (id k1) with k1. rewrite Hrd, dispatch_eq by done.
  rewrite release_locked by done. f_equal. unfold dispatched, k1, alter_thread. kernel_eq.
  rewrite !list_alter_alter_eq. eapply alter_at; [done|]. unfold compose. apply proc_ext; rsimpl; try done.
  rewrite list_alter_alter_eq. eapply alter_same; [done|]. unfold compose. apply thread_ext; rsimpl; done.
Qed.

(** With no runnable thread a pass of the scheduler changes nothing; a
    runnable thread it reaches is marked running and current before control goes
    to it, and the CPU is idle again when control comes back. *)
Theorem scheduler_visits :
  (forall o k, tables_ok k -> unlocked LPtable k ->
     (forall pt t, thread_at k pt = Some t -> t_state t <> T_RUNNABLE) ->
     scheduler_round o k = Ok tt o k) /\
  (forall pt t f o k, thread_at k pt = Some t -> t_state t = T_RUNNABLE -> can_run pt k ->
     scheduler_visit pt (f :: o) k =
       Ok tt o (f (dispatched pt k) <| cpu_proc := None |> <| cpu_thread := None |>) /\
     thread_at (dispatched pt k) pt = Some (t <| t_state := T_RUNNING |>) /\
     cpu_thread (dispatched pt k) = Some pt).
Proof.
  split.
  - intros o k [Hl1 Hl2 _] Hl Hn.
    set (k1 := k <| locks ::= <[LPtable := Me]> |>).
    assert (forall pt, (pt.1 < NPROC)%nat -> (pt.2 < NTHREAD)%nat -> scheduler_visit pt o k1 = Ok tt o k1) as Hv.
    { intros [p t] Hp Ht. simpl in *. destruct (lookup_lt_is_Some_2 (ptable k) p) as [pr Hpr]; [lia|].
      destruct (Hl2 _ _ Hpr) as [Hlen _].
      destruct (lookup_lt_is_Some_2 (p_ttable pr) t) as [th Hth]; [lia|].
      assert (thread_at k (p, t) = Some th) as Hat by (unfold thread_at; simpl; by rewrite Hpr).
      unfold scheduler_visit. erewrite bind_ok by (apply deref_some; exact Hat).
      rewrite bool_decide_false by eauto. done. }
    assert (forall A (l : list A) body, (forall a, a ∈ l -> body a o k1 = Ok tt o k1) ->
      for_each l body o k1 = Ok tt o k1) as Hfe.
    { intros A l. induction l as [|a l IH]; intros body Hb; simpl; [done|].
      erewrite bind_ok by (apply Hb; constructor). apply IH. intros; apply Hb; by constructor. }
    unfold scheduler_round. erewrite bind_ok by by apply acquire_unlocked. fold k1.
    erewrite bind_ok.
    2:{ apply Hfe. intros p Hp%elem_of_seq. apply Hfe. intros t Ht%elem_of_seq. apply Hv; simpl; lia. }
    rewrite release_locked by (unfold k1; solve_lock). f_equal. unfold k1. kernel_eq.
  - intros pt t f o k Ht Hs Hc. split_and!; [|by apply dispatched_at|done].
    unfold scheduler_visit, get_thread. erewrite bind_ok by by apply deref_some.
    rewrite bool_decide_true by done. cbn [when].
    erewrite bind_ok by by apply dispatch_eq. mrun. done.
Qed.
End properties.

(** * A small running system

    Process 0 has a running thread and an unused one, process 1 is unused; one
    page is free. *)
#[local] Existing Instance Kalloc.small_layout.

Definition running_thread : thread :=
  zero_thread <| t_state := T_RUNNING |> <| t_tid := 1 |> <| t_kstack := 0x80400000 |>
              <| t_parent := Some 0%nat |>.
Definition running_proc : proc :=
  zero_proc <| p_state := USED |> <| p_pid := 1 |> <| p_pgdir := 0x80300000 |>
            <| p_ttable := [running_thread; zero_thread] |> <| p_numOfthread := 1 |>.
Definition small_kernel : kernel :=
  Kalloc.one_page <| ptable := [running_proc; zero_proc <| p_ttable := [zero_thread] |>] |>
    <| nextpid := 2 |> <| nexttid := 2 |>
    <| cpu_proc := Some 0%nat |> <| cpu_thread := Some (0, 0)%nat |>
    <| mtable := [zero_mutex; zero_mutex] |>.

Lemma small_pid_inv : pid_inv small_kernel.
Proof.
  split; [done| |].
  - intros [|[|i]] p [= <-]; done.
  - intros [|[|i]] [|[|j]] p q [= <-] [= <-]; done.
Qed.

Lemma small_tid_inv : tid_inv small_kernel.
Proof.
  split; [done| |].
  - intros [[|[|i]] [|[|j]]] t [= <-]; done.
  - intros [[|[|i]] [|[|j]]] [[|[|i']] [|[|j']]] t u [= <-] [= <-]; done.
Qed.

Lemma small_kmem : Kalloc.kmem_inv small_kernel [0x80200000].
Proof. by eapply Kalloc.kmem_inv_frame; [| |apply Kalloc.one_page_inv]. Qed.

Lemma allocproc_fresh_witness :
  exists k', allocproc [] small_kernel = Ok (Some 1%nat) [] k' /\ pid_inv k'.
Proof.
  destruct (allocproc_fresh [] small_kernel) as [[H _]|(i & p & k' & H & _ & _ & _ & _ & _ & Hi & _)];
    [reflexivity|apply small_pid_inv|reflexivity| |].
  - exfalso. apply (proj1 (Forall_lookup _ _) H 1%nat _ eq_refl). reflexivity.
  - exists k'. split; [|exact Hi]. rewrite H. f_equal. vm_compute in H. congruence.
Defined.

Lemma allocthread_fresh_witness :
  exists k', allocthread 0 [] small_kernel = Ok (Some (0, 1)%nat) [] k' /\
    tid_inv k' /\ Kalloc.kmem_inv k' [].
Proof.
  destruct (allocthread_fresh Kalloc.small_layout_high [] small_kernel 0 running_proc 0x80200000 [])
    as [[H _]|(i & t & k' & H & Hi & Hs & _ & _ & Ht & Hk & _)];
    [reflexivity|discriminate|apply small_kmem|reflexivity|apply small_tid_inv|reflexivity| |].
  - exfalso. apply (proj1 (Forall_lookup _ _) H 1%nat _ eq_refl). reflexivity.
  - exists k'. split; [|by split]. rewrite H.
    destruct i as [|[|i]]; [injection Hi as <-; discriminate|reflexivity|discriminate].
Defined.

(** The same system with no page left. *)
Definition full_kernel : kernel := small_kernel <| freelist := 0 |>.

Lemma allocthread_out_of_memory_witness :
  exists k', allocthread 0 [] full_kernel = Ok None [] k' /\
    p_state <$> ptable k' !! 0%nat = Some UNUSED /\ thread_at k' (0, 0)%nat = Some running_thread.
Proof.
  destruct (allocthread_out_of_memory Kalloc.small_layout_high [] full_kernel 0 running_proc 1 zero_thread)
    as (k' & H & Hp & _ & Ht);
    [reflexivity|discriminate|split; constructor|reflexivity|reflexivity|].
  exists k'. split; [exact H|]. split; [exact Hp|]. rewrite Ht; [reflexivity|discriminate].
Defined.

Lemma wakeup_exact_witness : exists k', wakeup CTicks [] small_kernel = Ok tt [] k' /\ locks k' = ∅.
Proof.
  destruct (wakeup_exact CTicks [] small_kernel) as (k' & H & _ & _ & _ & Hl); [reflexivity|].
  exists k'. split; [exact H|exact Hl].
Defined.

(** The running thread holds one lock; nothing else happens. *)
Definition holding_one : kernel := small_kernel <| locks := {[LTicks := Me]} |>.

Lemma sleep_until_ready_witness :
  sleep CTicks (Some LTicks) [id] holding_one = Waiting (asleep (0, 0)%nat CTicks LTicks holding_one).
Proof.
  apply (sleep_until_ready (0, 0)%nat running_thread CTicks LTicks [id] holding_one);
    [split; reflexivity || discriminate|by split].
Defined.

(** Another CPU wakes the sleeper and a scheduler holding [ptable.lock] finds it. *)
Definition waking (k : kernel) : kernel := alter_thread (0, 0)%nat (fun t => t <| t_state := T_RUNNABLE |>) k.

Lemma sleep_returns_witness :
  exists k', sleep CTicks (Some LTicks) [id; waking] holding_one = Ok tt [] k' /\
    locked LTicks k' /\ unlocked LPtable k'.
Proof.
  destruct (sleep_returns (0, 0)%nat running_thread
    (running_thread <| t_chan := Some CTicks |> <| t_state := T_RUNNABLE |>) CTicks LTicks [id] waking []
    holding_one (waking (asleep (0, 0)%nat CTicks LTicks holding_one))) as (H & _ & Hl & Hu);
    [split; reflexivity || discriminate|split; try reflexivity; [by split|]|].
  - do 2 eexists. split_and!; [reflexivity|reflexivity|discriminate|discriminate].
  - eexists. split; [exact H|]. by split.
Defined.

Lemma kill_spec_witness :
  (exists k', kill 1 [] small_kernel = Ok 0 [] k' /\ p_killed <$> ptable k' !! 0%nat = Some 1) /\
  kill 7 [] small_kernel = Ok (-1) [] small_kernel.
Proof.
  split.
  - destruct (kill_spec 1 [] small_kernel) as [H _];
      [reflexivity|apply small_pid_inv|discriminate|].
    eexists. split; [apply (H 0%nat running_proc); reflexivity|reflexivity].
  - apply (kill_spec 7 [] small_kernel); [reflexivity|apply small_pid_inv|discriminate|].
    by repeat constructor.
Defined.

Lemma kill_zero_marks_next_witness :
  exists k', (kill 0 ≫= fun _ => allocproc) [] small_kernel = Ok (Some 1%nat) [] k' /\
    p_killed <$> ptable k' !! 1%nat = Some 1.
Proof.
  destruct (kill_zero_marks_next [] small_kernel 1 (zero_proc <| p_ttable := [zero_thread] |>))
    as (k' & H & Hk & _); [reflexivity|reflexivity|reflexivity|].
  exists k'. split; [exact H|exact Hk].
Defined.

Lemma yield_returns_witness : exists k', yield [id] small_kernel = Ok tt [] k'.
Proof.
  eexists. apply (yield_returns (0, 0)%nat running_proc running_thread [] small_kernel);
    reflexivity || discriminate.
Defined.
End Sched.
