(* ===== verification/Mmu.v ===== *)
(** The paging hardware as mmu.h describes it: indices into page directories and
    page tables, entry flags, and the translation of a virtual address through
    the page tables in memory. *)

From S2P Require Import Prelude Monad State Kalloc.

Definition PDX (va : Z) : nat := Z.to_nat (Z.land (Z.shiftr (u32 va) 22) 0x3FF).
Definition PTX (va : Z) : nat := Z.to_nat (Z.land (Z.shiftr (u32 va) 12) 0x3FF).
Definition PGADDR (d t o : Z) : Z := u32 (Z.lor (Z.lor (Z.shiftl d 22) (Z.shiftl t 12)) o).

Definition PTE_P : Z := 0x001.
Definition PTE_W : Z := 0x002.
Definition PTE_U : Z := 0x004.

Definition PTE_ADDR (pte : Z) : Z := Z.land (u32 pte) (Z.lnot 0xFFF).
Definition PTE_FLAGS (pte : Z) : Z := Z.land (u32 pte) 0xFFF.
Definition has_flag (pte fl : Z) : bool := negb (Z.land pte fl =? 0).

(** The entry that maps [va], if the directory has a page table for it. *)
Definition mmu_pte (pg : gmap Z (list Z)) (pgdir va : Z) : option Z :=
  pde ← page_word pg pgdir (PDX va);
  if has_flag pde PTE_P then page_word pg (P2V (PTE_ADDR pde)) (PTX va) else None.

(** The word a kernel-mode load at [va] returns; [None] is a page fault. *)
Definition mmu_load (pg : gmap Z (list Z)) (pgdir va : Z) : option Z :=
  pte ← mmu_pte pg pgdir va;
  if has_flag pte PTE_P
  then page_word pg (P2V (PTE_ADDR pte)) (Z.to_nat ((u32 va mod PGSIZE) / 4))
  else None.

(** A load in the address space of the running process. *)
Definition user_word (k : kernel) (va : Z) : option Z :=
  p ← cpu_proc k;
  pr ← ptable k !! p;
  mmu_load (pages k) (p_pgdir pr) va.
