(* ===== verification/Vm.v ===== *)
(** Page tables (vm.c): building, copying and freeing address spaces. *)

From S2P Require Import Prelude Monad State Console Kalloc Sched Mmu.

(** * Bytes of a page *)

Definition word_bytes (w : Z) : list Z :=
  [Z.land w 255; Z.land (Z.shiftr w 8) 255; Z.land (Z.shiftr w 16) 255; Z.land (Z.shiftr w 24) 255].
Definition bytes_word (b0 b1 b2 b3 : Z) : Z :=
  Z.lor b0 (Z.lor (Z.shiftl b1 8) (Z.lor (Z.shiftl b2 16) (Z.shiftl b3 24))).
Fixpoint words_of_bytes (bs : list Z) : list Z :=
  match bs with
  | b0 :: b1 :: b2 :: b3 :: bs' => bytes_word b0 b1 b2 b3 :: words_of_bytes bs'
  | _ => []
  end.

(** The page with the bytes [bs] stored from byte [off] on. *)
Definition write_bytes (off : nat) (bs : list Z) (ws : list Z) : list Z :=
  let old := ws ≫= word_bytes in
  words_of_bytes (take off old ++ bs ++ drop (off + length bs) old).

Module Vm.
Section with_layout.
Context `{Layout}.

(** A pointer to a page-table entry: the page that holds it and its index. *)
Abbreviation pteptr := (Z * nat)%type.

Definition load_pte (e : pteptr) : K Z := deref "pte" (fun k => page_word (pages k) e.1 e.2).
Definition store_pte (e : pteptr) (v : Z) : K unit :=
  load_pte e;; modify (fun k => k <| pages ::= set_page_word e.1 e.2 v |>).

Definition walkpgdir (pgdir va : Z) (alloc : bool) : K (option pteptr) :=
  pde ← load_pte (pgdir, PDX va);
  if has_flag pde PTE_P then mret (Some (P2V (PTE_ADDR pde), PTX va)) else
  if negb alloc then mret None else
  pgtab ← Kalloc.kalloc;
  if pgtab =? 0 then mret None else
  fill_page pgtab 0;;
  store_pte (pgdir, PDX va) (Z.lor (Z.lor (Z.lor (V2P pgtab) PTE_P) PTE_W) PTE_U);;
  mret (Some (pgtab, PTX va)).

(** The loop of [mappages] runs once for each page from [a] to [last]. *)
Fixpoint mappages_loop (n : nat) (pgdir a last pa perm : Z) : K Z :=
  match n with
  | O => fault "mappages: fuel"
  | S n' =>
      walkpgdir pgdir a true ≫= fun pte =>
      match pte with
      | None => mret (-1)
      | Some e =>
          load_pte e ≫= fun old =>
          if has_flag old PTE_P then panic "remap" else
          store_pte e (Z.lor (Z.lor pa perm) PTE_P) ≫= fun _ =>
          if a =? last then mret 0
          else mappages_loop n' pgdir (u32 (a + PGSIZE)) last (u32 (pa + PGSIZE)) perm
      end
  end.
Definition mappages (pgdir va size pa perm : Z) : K Z :=
  let a := PGROUNDDOWN va in
  let last := PGROUNDDOWN (u32 (va + size - 1)) in
  mappages_loop (S (Z.to_nat (u32 (last - a) / PGSIZE))) pgdir a last pa perm.

(** [for(; a < oldsz; a += PGSIZE)]; the jump over a missing page table moves up
    at least a page. *)
Fixpoint deallocuvm_loop (n : nat) (pgdir a oldsz : Z) : K unit :=
  if negb (a <? oldsz) then mret tt else
  match n with
  | O => fault "deallocuvm: fuel"
  | S n' =>
      walkpgdir pgdir a false ≫= fun pte =>
      match pte with
      | None => deallocuvm_loop n' pgdir (u32 (u32 (PGADDR (Z.of_nat (PDX a) + 1) 0 0 - PGSIZE) + PGSIZE)) oldsz
      | Some e =>
          load_pte e ≫= fun old =>
          (if has_flag old PTE_P then
             let pa := PTE_ADDR old in
             if pa =? 0 then panic "kfree" else
             Kalloc.kfree (P2V pa);;
             store_pte e 0
           else mret tt) ≫= fun _ =>
          deallocuvm_loop n' pgdir (u32 (a + PGSIZE)) oldsz
      end
  end.
Definition deallocuvm (pgdir oldsz newsz : Z) : K Z :=
  if oldsz <=? newsz then mret oldsz else
  deallocuvm_loop (Z.to_nat (oldsz / PGSIZE + 1)) pgdir (PGROUNDUP newsz) oldsz;;
  mret newsz.

Definition freevm (pgdir : Z) : K unit :=
  if pgdir =? 0 then panic "freevm: no pgdir" else
  deallocuvm pgdir KERNBASE 0;;
  for_each (seq 0 1024) (fun i =>
    pde ← load_pte (pgdir, i);
    when (has_flag pde PTE_P) (Kalloc.kfree (P2V (PTE_ADDR pde))));;
  Kalloc.kfree pgdir.

(** The kernel's mappings: virtual start, physical start and end, permission. *)
Definition kmap : list (Z * Z * Z * Z) :=
  [(KERNBASE, 0, EXTMEM, PTE_W);
   (KERNBASE + EXTMEM, V2P (KERNBASE + EXTMEM), V2P sym_data, 0);
   (sym_data, V2P sym_data, PHYSTOP, PTE_W);
   (DEVSPACE, DEVSPACE, 0, PTE_W)].

Fixpoint setupkvm_loop (pgdir : Z) (ks : list (Z * Z * Z * Z)) : K Z :=
  match ks with
  | [] => mret pgdir
  | (virt, phys_start, phys_end, perm) :: ks' =>
      mappages pgdir virt (u32 (phys_end - phys_start)) phys_start perm ≫= fun r =>
      if r <? 0 then freevm pgdir ≫= fun _ => mret 0 else setupkvm_loop pgdir ks'
  end.
Definition setupkvm : K Z :=
  pgdir ← Kalloc.kalloc;
  if pgdir =? 0 then mret 0 else
  fill_page pgdir 0;;
  if DEVSPACE <? P2V PHYSTOP then panic "PHYSTOP too high" else
  setupkvm_loop pgdir kmap.

Definition inituvm (pgdir : Z) (init : list Z) : K unit :=
  if PGSIZE <=? Z.of_nat (length init) then panic "inituvm: more than a page" else
  mem ← Kalloc.kalloc;
  fill_page mem 0;;
  mappages pgdir 0 PGSIZE (V2P mem) (Z.lor PTE_W PTE_U);;
  deref "inituvm" (fun k => pages k !! mem);;
  modify (fun k => k <| pages ::= alter (write_bytes 0 init) mem |>).

Fixpoint allocuvm_loop (n : nat) (pgdir a oldsz newsz : Z) : K Z :=
  if negb (a <? newsz) then mret newsz else
  match n with
  | O => fault "allocuvm: fuel"
  | S n' =>
      Kalloc.kalloc ≫= fun mem =>
      if mem =? 0 then
        Console.cprintf "allocuvm out of memory
" [] ≫= fun _ =>
        deallocuvm pgdir newsz oldsz ≫= fun _ => mret 0 else
      fill_page mem 0 ≫= fun _ =>
      mappages pgdir a PGSIZE (V2P mem) (Z.lor PTE_W PTE_U) ≫= fun r =>
      if r <? 0 then
        Console.cprintf "allocuvm out of memory (2)
" [] ≫= fun _ =>
        deallocuvm pgdir newsz oldsz ≫= fun _ => Kalloc.kfree mem ≫= fun _ => mret 0
      else allocuvm_loop n' pgdir (u32 (a + PGSIZE)) oldsz newsz
  end.
Definition allocuvm (pgdir oldsz newsz : Z) : K Z :=
  if KERNBASE <=? newsz then mret 0 else
  if newsz <? oldsz then mret oldsz else
  allocuvm_loop (Z.to_nat (newsz / PGSIZE + 1)) pgdir (PGROUNDUP oldsz) oldsz newsz.

Definition clearpteu (pgdir uva : Z) : K unit :=
  pte ← walkpgdir pgdir uva false;
  match pte with
  | None => panic "clearpteu"
  | Some e => old ← load_pte e; store_pte e (Z.land old (Z.lnot PTE_U))
  end.

Fixpoint copyuvm_loop (n : nat) (pgdir d i sz : Z) : K Z :=
  if negb (i <? sz) then mret d else
  match n with
  | O => fault "copyuvm: fuel"
  | S n' =>
      walkpgdir pgdir i false ≫= fun pte =>
      match pte with
      | None => panic "copyuvm: pte should exist"
      | Some e =>
          load_pte e ≫= fun old =>
          if negb (has_flag old PTE_P) then panic "copyuvm: page not present" else
          let pa := PTE_ADDR old in
          let flags := PTE_FLAGS old in
          Kalloc.kalloc ≫= fun mem =>
          if mem =? 0 then freevm d ≫= fun _ => mret 0 else
          deref "copyuvm" (fun k => pages k !! P2V pa) ≫= fun src =>
          modify (fun k => k <| pages ::= <[mem := src]> |>) ≫= fun _ =>
          mappages d i PGSIZE (V2P mem) flags ≫= fun r =>
          if r <? 0 then Kalloc.kfree mem ≫= fun _ => freevm d ≫= fun _ => mret 0
          else copyuvm_loop n' pgdir d (u32 (i + PGSIZE)) sz
      end
  end.
Definition copyuvm (pgdir sz : Z) : K Z :=
  d ← setupkvm;
  if d =? 0 then mret 0 else
  copyuvm_loop (Z.to_nat (sz / PGSIZE + 1)) pgdir d 0 sz.

(** A missing page table leaves a null pointer, which is followed: the load goes
    to address 0 of the running process. *)
Definition uva2ka (pgdir uva : Z) : K Z :=
  pte ← walkpgdir pgdir uva false;
  old ← match pte with
        | Some e => load_pte e
        | None => deref "uva2ka: null pte" (fun k => user_word k 0)
        end;
  if negb (has_flag old PTE_P) then mret 0 else
  if negb (has_flag old PTE_U) then mret 0 else
  mret (P2V (PTE_ADDR old)).

Fixpoint copyout_loop (n : nat) (pgdir va : Z) (buf : list Z) : K Z :=
  match buf with
  | [] => mret 0
  | _ =>
    match n with
    | O => fault "copyout: fuel"
    | S n' =>
        let va0 := PGROUNDDOWN va in
        uva2ka pgdir va0 ≫= fun pa0 =>
        if pa0 =? 0 then mret (-1) else
        let m := Nat.min (Z.to_nat (PGSIZE - (va - va0))) (length buf) in
        deref "copyout" (fun k => pages k !! pa0) ≫= fun _ =>
        modify (fun k => k <| pages ::= alter (write_bytes (Z.to_nat (va - va0)) (take m buf)) pa0 |>) ≫= fun _ =>
        copyout_loop n' pgdir (u32 (va0 + PGSIZE)) (drop m buf)
    end
  end.
Definition copyout (pgdir va : Z) (buf : list Z) : K Z := copyout_loop (length buf) pgdir va buf.

(** * Page-table entries *)

Lemma PTE_ADDR_lor x y : PTE_ADDR (Z.lor x y) = Z.lor (PTE_ADDR x) (PTE_ADDR y).
Proof. unfold PTE_ADDR, u32. rewrite <- !Z.land_ones by lia. by rewrite !Z.land_lor_distr_l. Qed.

Lemma PTE_ADDR_eq x : 0 <= x < 2 ^ 32 -> PTE_ADDR x = x / PGSIZE * PGSIZE.
Proof. intros Hx. unfold PTE_ADDR. rewrite u32_small by done. apply land_lnot_page. Qed.

Lemma PTE_ADDR_small f : 0 <= f < PGSIZE -> PTE_ADDR f = 0.
Proof. intros Hf. rewrite PTE_ADDR_eq by (unfold PGSIZE in *; lia). by rewrite Z.div_small. Qed.

Lemma PTE_ADDR_page x f :
  0 <= x < 2 ^ 32 -> x mod PGSIZE = 0 -> 0 <= f < PGSIZE -> PTE_ADDR (Z.lor x f) = x.
Proof.
  intros Hx Hm Hf. rewrite PTE_ADDR_lor, (PTE_ADDR_small f), Z.lor_0_r, PTE_ADDR_eq by done.
  pose proof (Z.div_mod x PGSIZE ltac:(done)). lia.
Qed.

Lemma has_flag_P y : has_flag (Z.lor y PTE_P) PTE_P = true.
Proof.
  unfold has_flag. rewrite Z.land_lor_distr_l. change (Z.land PTE_P PTE_P) with 1.
  destruct (Z.eqb_spec (Z.lor (Z.land y PTE_P) 1) 0) as [E|]; [|done].
  by apply Z.lor_eq_0_iff in E as [_ ?].
Qed.

Lemma has_flag_PWU y : has_flag (Z.lor (Z.lor (Z.lor y PTE_P) PTE_W) PTE_U) PTE_P = true.
Proof.
  rewrite <- Z.lor_assoc, <- Z.lor_assoc, (Z.lor_comm PTE_P), Z.lor_assoc. apply has_flag_P.
Qed.

Lemma V2P_page a : Kalloc.page_ok a -> KERNBASE < sym_end -> 0 <= V2P a < 2 ^ 32 /\ V2P a mod PGSIZE = 0 /\ P2V (V2P a) = a.
Proof.
  intros [Hm Ha] He. unfold V2P, P2V. rewrite !(u32_small (a - KERNBASE)) by (unfold is_u32, KERNBASE, PHYSTOP in *; lia).
  replace (a - KERNBASE + KERNBASE) with a by lia. rewrite u32_small by (unfold is_u32, KERNBASE, PHYSTOP in *; lia).
  split_and!; [unfold KERNBASE, PHYSTOP in *; lia|unfold KERNBASE, PHYSTOP in *; lia| |done].
  replace (a - KERNBASE) with (a + (-524288) * PGSIZE) by (unfold KERNBASE, PGSIZE; lia).
  rewrite Z.mod_add by done. done.
Qed.

(** The entry [walkpgdir] writes for a new page table leads back to it. *)
Lemma new_table a : Kalloc.page_ok a -> KERNBASE < sym_end ->
  P2V (PTE_ADDR (Z.lor (Z.lor (Z.lor (V2P a) PTE_P) PTE_W) PTE_U)) = a.
Proof.
  intros Ha He. destruct (V2P_page a Ha He) as (Hr & Hm & Hp).
  rewrite <- !Z.lor_assoc, PTE_ADDR_page; [done|done|done|]. by vm_compute.
Qed.

(** The two indices determine the page. *)
Lemma PDX_eq va : Z.of_nat (PDX va) = u32 va / 2 ^ 22.
Proof.
  pose proof (u32_range va) as Hr. unfold is_u32 in Hr. unfold PDX.
  rewrite Z.shiftr_div_pow2, Z2Nat.id by (try apply Z.land_nonneg; try apply Z.div_pos; lia).
  change 0x3FF with (Z.ones 10). rewrite Z.land_ones, Z.mod_small; [done| |lia].
  split; [apply Z.div_pos; lia|]. apply Z.div_lt_upper_bound; lia.
Qed.

Lemma PTX_eq va : Z.of_nat (PTX va) = (u32 va / 2 ^ 12) mod 2 ^ 10.
Proof.
  pose proof (u32_range va) as Hr. unfold is_u32 in Hr. unfold PTX.
  rewrite Z.shiftr_div_pow2 by lia. change 0x3FF with (Z.ones 10). rewrite Z.land_ones by lia.
  apply Z2Nat.id. apply Z.mod_pos_bound. lia.
Qed.

Lemma PDX_PTX_page va va' : PDX va = PDX va' -> PTX va = PTX va' -> u32 va / PGSIZE = u32 va' / PGSIZE.
Proof.
  intros H1 H2. apply (f_equal Z.of_nat) in H1, H2. rewrite !PDX_eq in H1. rewrite !PTX_eq in H2.
  change PGSIZE with (2 ^ 12). change (2 ^ 22) with (2 ^ 12 * 2 ^ 10) in H1. rewrite <- !Z.div_div in H1 by lia.
  pose proof (Z.div_mod (u32 va / 2 ^ 12) (2 ^ 10) ltac:(lia)).
  pose proof (Z.div_mod (u32 va' / 2 ^ 12) (2 ^ 10) ltac:(lia)). congruence.
Qed.

Lemma PDX_lt va : (PDX va < NWORDS)%nat.
Proof.
  apply Nat2Z.inj_lt. rewrite PDX_eq. pose proof (u32_range va) as Hr. unfold is_u32 in Hr.
  apply Z.div_lt_upper_bound; [lia|]. unfold NWORDS. lia.
Qed.

Lemma PTX_lt va : (PTX va < NWORDS)%nat.
Proof. apply Nat2Z.inj_lt. rewrite PTX_eq. pose proof (Z.mod_pos_bound (u32 va / 2 ^ 12) (2 ^ 10)). unfold NWORDS. lia. Qed.

(** * Translation *)

(** The entry the hardware uses for [va], when it is present. *)
Definition translate (pg : gmap Z (list Z)) (pgdir va : Z) : option Z :=
  mmu_pte pg pgdir va ≫= fun pte => if has_flag pte PTE_P then Some pte else None.

(** Page directory and page tables are whole pages, none of them free, each
    reached through one directory entry. *)
Record vm_wf (pg : gmap Z (list Z)) (pgdir : Z) (l : list Z) : Prop := {
  vw_dir : exists ws, pg !! pgdir = Some ws /\ length ws = NWORDS;
  vw_used : pgdir ∉ l;
  vw_table : forall i pde, page_word pg pgdir i = Some pde -> has_flag pde PTE_P = true ->
    (P2V (PTE_ADDR pde) ∉ l) /\ P2V (PTE_ADDR pde) <> pgdir /\
    exists ws, pg !! P2V (PTE_ADDR pde) = Some ws /\ length ws = NWORDS;
  vw_inj : forall i j p q, page_word pg pgdir i = Some p -> page_word pg pgdir j = Some q ->
    has_flag p PTE_P = true -> has_flag q PTE_P = true -> P2V (PTE_ADDR p) = P2V (PTE_ADDR q) -> i = j }.

Lemma page_word_is_some pg a ws i : pg !! a = Some ws -> length ws = NWORDS -> (i < NWORDS)%nat ->
  exists w, page_word pg a i = Some w.
Proof. intros Ha Hl Hi. unfold page_word. rewrite Ha. simpl. apply lookup_lt_is_Some. lia. Qed.

Lemma page_word_set pg a i v b j :
  page_word (set_page_word a i v pg) b j =
    if decide (a = b /\ i = j /\ is_Some (page_word pg a i)) then Some v else page_word pg b j.
Proof.
  unfold page_word, set_page_word. destruct (decide (a = b)) as [->|Hne].
  - rewrite lookup_alter_eq. destruct (pg !! b) as [ws|]; simpl.
    + destruct (decide (i = j)) as [->|Hij].
      * destruct (ws !! j) as [w|] eqn:E.
        -- rewrite list_lookup_insert_eq by (by eapply lookup_lt_Some). by rewrite decide_True by eauto.
        -- rewrite decide_False by (intros (_ & _ & [? ?]); congruence).
           rewrite list_insert_ge; [done|]. by apply lookup_ge_None.
      * rewrite list_lookup_insert_ne by done. by rewrite decide_False by (intros (_ & ? & _); done).
    + by rewrite decide_False by (intros (_ & _ & [? ?]); done).
  - rewrite lookup_alter_ne by done. by rewrite decide_False by (intros (? & _); done).
Qed.

Lemma set_page_word_dom pg a i v b ws :
  pg !! b = Some ws -> length ws = NWORDS ->
  exists ws', set_page_word a i v pg !! b = Some ws' /\ length ws' = NWORDS.
Proof.
  intros Hb Hl. unfold set_page_word. destruct (decide (a = b)) as [->|Hne].
  - rewrite lookup_alter_eq, Hb. simpl. eexists. split; [done|]. by rewrite length_insert.
  - rewrite lookup_alter_ne by done. eauto.
Qed.

(** A store into a page table changes the translation of one page. *)
Lemma translate_set pg pgdir l va pde v :
  vm_wf pg pgdir l -> page_word pg pgdir (PDX va) = Some pde -> has_flag pde PTE_P = true ->
  let pg' := set_page_word (P2V (PTE_ADDR pde)) (PTX va) v pg in
  vm_wf pg' pgdir l /\
  translate pg' pgdir va = (if has_flag v PTE_P then Some v else None) /\
  (forall va', u32 va' / PGSIZE <> u32 va / PGSIZE -> translate pg' pgdir va' = translate pg pgdir va').
Proof.
  intros Hwf Hpde Hp pg'. pose proof Hwf as [Hdir Hused Htab Hinj].
  destruct (Htab _ _ Hpde Hp) as (Hnl & Hne & ws & Hws & Hlen). set (t := P2V (PTE_ADDR pde)) in *.
  assert (forall i, page_word pg' pgdir i = page_word pg pgdir i) as Hsame.
  { intros i. unfold pg'. rewrite page_word_set. by rewrite decide_False by (intros (? & _); done). }
  split_and!.
  - split.
    + destruct Hdir as (wd & Hd & Hld). by eapply set_page_word_dom.
    + done.
    + intros i q. rewrite Hsame. intros Hq Hqp. destruct (Htab i q Hq Hqp) as (? & ? & w & Hw & Hlw).
      split_and!; [done|done|]. by eapply set_page_word_dom.
    + intros i j p q. rewrite !Hsame. apply Hinj.
  - unfold translate, mmu_pte. rewrite Hsame, Hpde. simpl. rewrite Hp. fold t. unfold pg'. rewrite page_word_set.
    destruct (page_word_is_some pg t ws (PTX va) Hws Hlen (PTX_lt va)) as [w Hw].
    rewrite decide_True by eauto. done.
  - intros va' Hva. unfold translate, mmu_pte. rewrite Hsame.
    destruct (page_word pg pgdir (PDX va')) as [q|] eqn:Eq; [|done]. simpl.
    destruct (has_flag q PTE_P) eqn:Hq; [|done]. unfold pg'. rewrite page_word_set.
    rewrite decide_False; [done|]. intros (Ht & Hx & _). apply Hva. symmetry. apply PDX_PTX_page; [|done].
    eapply Hinj; eauto.
Qed.

(** An empty page table changes no translation. *)
Lemma translate_new_table pg pgdir l x va pde :
  KERNBASE < sym_end -> Kalloc.page_ok x -> vm_wf pg pgdir (x :: l) -> x ∉ l ->
  page_word pg pgdir (PDX va) = Some pde -> has_flag pde PTE_P = false ->
  let e := Z.lor (Z.lor (Z.lor (V2P x) PTE_P) PTE_W) PTE_U in
  let pg' := set_page_word pgdir (PDX va) e (<[x := replicate NWORDS 0]> pg) in
  vm_wf pg' pgdir l /\ page_word pg' pgdir (PDX va) = Some e /\
  (forall va', translate pg' pgdir va' = translate pg pgdir va').
Proof.
  intros He Hx [Hdir Hused Htab Hinj] Hxl Hpde Hp e pg'.
  apply not_elem_of_cons in Hused as [Hdx Hdl].
  assert (P2V (PTE_ADDR e) = x) as Hex by by apply new_table.
  assert (has_flag e PTE_P = true) as Hep by apply has_flag_PWU.
  assert (forall i, page_word (<[x := replicate NWORDS 0]> pg) pgdir i = page_word pg pgdir i) as Hins
    by (intros i; unfold page_word; by rewrite lookup_insert_ne).
  assert (forall i, page_word pg' pgdir i = if decide (PDX va = i) then Some e else page_word pg pgdir i) as Hdirw.
  { intros i. unfold pg'. rewrite page_word_set, !Hins. destruct (decide (PDX va = i)) as [<-|Hn].
    - by rewrite decide_True by eauto.
    - by rewrite decide_False by (intros (_ & ? & _); done). }
  assert (forall t, t <> pgdir -> t <> x -> pg' !! t = pg !! t) as Hother.
  { intros t H1 H2. unfold pg', set_page_word. by rewrite lookup_alter_ne, lookup_insert_ne by done. }
  assert (pg' !! x = Some (replicate NWORDS 0)) as Hnew.
  { unfold pg', set_page_word. by rewrite lookup_alter_ne, lookup_insert_eq by done. }
  assert (forall i q, page_word pg pgdir i = Some q -> has_flag q PTE_P = true -> P2V (PTE_ADDR q) <> x) as Hnx.
  { intros i q Hq Hqp E. destruct (Htab i q Hq Hqp) as (Hnl & _ & _). apply Hnl. rewrite E. by constructor. }
  split_and!.
  - split.
    + destruct Hdir as (wd & Hd & Hld). apply (set_page_word_dom _ _ _ _ _ wd); [by rewrite lookup_insert_ne|done].
    + done.
    + intros i q. rewrite Hdirw. destruct (decide (PDX va = i)) as [<-|Hn].
      * intros [= <-] _. rewrite Hex. split_and!; [done|done|]. exists (replicate NWORDS 0). split; [done|apply length_replicate].
      * intros Hq Hqp. destruct (Htab i q Hq Hqp) as (Hnl & Hne & w & Hw & Hlw). apply not_elem_of_cons in Hnl as [? ?].
        split_and!; [done|done|]. exists w. split; [|done]. rewrite Hother; done.
    + intros i j p q. rewrite !Hdirw. destruct (decide (PDX va = i)) as [<-|Hi], (decide (PDX va = j)) as [<-|Hj]; [done| | |apply Hinj].
      * intros [= <-] Hq _ Hqp. rewrite Hex. intros E. by destruct (Hnx j q Hq Hqp).
      * intros Hq [= <-] Hqp _. rewrite Hex. intros E. by destruct (Hnx i p Hq Hqp).
  - by rewrite Hdirw, decide_True.
  - intros va'. unfold translate, mmu_pte. rewrite Hdirw. destruct (decide (PDX va = PDX va')) as [E|Hn].
    + rewrite <- E, Hpde. unfold mbind, option_bind. rewrite Hep, Hp, Hex. unfold page_word at 1.
      rewrite Hnew. unfold mbind, option_bind. by rewrite lookup_replicate_2 by apply PTX_lt.
    + destruct (page_word pg pgdir (PDX va')) as [q|] eqn:Eq; [|done]. simpl.
      destruct (has_flag q PTE_P) eqn:Hq; [|done].
      destruct (Htab _ _ Eq Hq) as (_ & Hne & _).
      unfold page_word. by rewrite Hother by eauto.
Qed.

(** * What the operations do *)

Section mapping.
Hypothesis end_high : KERNBASE < sym_end.

(** An address space [pgdir] with the free pages [l]. *)
Record space (k : kernel) (pgdir : Z) (l : list Z) : Prop := {
  sp_wf : vm_wf (pages k) pgdir l;
  sp_inv : Kalloc.kmem_inv k l;
  sp_ready : Kalloc.kmem_ready k }.

Lemma space_dir k pgdir l va : space k pgdir l -> exists pde, page_word (pages k) pgdir (PDX va) = Some pde.
Proof.
  intros [[(ws & Hd & Hl) _ _ _] _ _]. eapply page_word_is_some; [done|done|apply PDX_lt].
Qed.

(** The allocator does not look at pages in use. *)
Lemma kmem_inv_pages k l pg :
  (forall x, x ∈ l -> page_word pg x 0 = page_word (pages k) x 0) ->
  Kalloc.kmem_inv k l -> Kalloc.kmem_inv (k <| pages := pg |>) l.
Proof. intros Hp [Hc Hn Ho]. split; [|done|done]. rsimpl. by eapply Kalloc.freechain_frame. Qed.

(** [walkpgdir] with [alloc] set finds or makes a page table without changing any
    translation; it fails only when there is no page left. *)
Lemma walkpgdir_alloc pgdir va o k l :
  space k pgdir l ->
  (l = [] /\ walkpgdir pgdir va true o k = Ok None o k) \/
  exists k' l' pde, walkpgdir pgdir va true o k = Ok (Some (P2V (PTE_ADDR pde), PTX va)) o k' /\
    space k' pgdir l' /\ (exists u, l = u ++ l') /\
    page_word (pages k') pgdir (PDX va) = Some pde /\ has_flag pde PTE_P = true /\
    (forall va', translate (pages k') pgdir va' = translate (pages k) pgdir va').
Proof.
  intros Hsp. destruct (space_dir k pgdir l va Hsp) as [pde Hpde]. pose proof Hsp as [Hwf Hinv Hrd].
  unfold walkpgdir, load_pte. erewrite bind_ok by by apply deref_some.
  destruct (has_flag pde PTE_P) eqn:Hp.
  { right. exists k, l, pde. split_and!; try done. by exists []. }
  cbn [negb]. destruct l as [|x l].
  { left. split; [done|]. by erewrite bind_ok by by apply Kalloc.kalloc_nil. }
  right. pose proof Hinv as [_ Hn Hok]. inversion_clear Hok as [|? ? Hx Hok']. apply NoDup_cons in Hn as [Hxl Hnl].
  pose proof (Kalloc.page_ok_pos end_high x Hx). pose proof (vw_used _ _ _ Hwf) as Hused.
  destruct (translate_new_table (pages k) pgdir l x va pde) as (Hwf' & He & Htr); try done.
  set (e := Z.lor (Z.lor (Z.lor (V2P x) PTE_P) PTE_W) PTE_U) in *.
  set (pg' := set_page_word pgdir (PDX va) e (<[x := replicate NWORDS 0]> (pages k))) in *.
  exists (k <| freelist := default 0 (page_word (pages k) x 0) |> <| pages := pg' |>), l, e. split_and!; try done.
  - erewrite bind_ok by by eapply Kalloc.kalloc_cons. destruct (Z.eqb_spec x 0); [lia|].
    erewrite bind_ok by reflexivity. unfold store_pte, load_pte.
    erewrite bind_ok.
    2:{ erewrite bind_ok; [reflexivity|]. apply deref_some. rsimpl. simpl fst. simpl snd.
        unfold page_word. rewrite lookup_insert_ne; [exact Hpde|]. intros ->. apply Hused. by constructor. }
    assert (P2V (PTE_ADDR e) = x) as -> by by apply new_table.
    done.
  - split; [done| |].
    + apply (kmem_inv_pages (k <| freelist := default 0 (page_word (pages k) x 0) |>)).
      * intros y Hy. unfold pg'. rewrite page_word_set, decide_False.
        -- unfold page_word. rewrite lookup_insert_ne; [done|]. congruence.
        -- intros (-> & _). apply Hused. by constructor.
      * by apply Kalloc.kmem_inv_pop.
    + exact Hrd.
  - by exists [x].
  - apply has_flag_PWU.
Qed.

(** One pass of the loop of [mappages] on a page that is not mapped. *)
Lemma map_one pgdir a v o k l :
  space k pgdir l -> translate (pages k) pgdir a = None -> has_flag v PTE_P = true ->
  (l = [] /\ walkpgdir pgdir a true o k = Ok None o k) \/
  exists e k1 old k' l', walkpgdir pgdir a true o k = Ok (Some e) o k1 /\
    load_pte e o k1 = Ok old o k1 /\ has_flag old PTE_P = false /\ store_pte e v o k1 = Ok tt o k' /\
    space k' pgdir l' /\ (exists u, l = u ++ l') /\ translate (pages k') pgdir a = Some v /\
    (forall va, u32 va / PGSIZE <> u32 a / PGSIZE -> translate (pages k') pgdir va = translate (pages k) pgdir va).
Proof.
  intros Hsp Hn Hv. destruct (walkpgdir_alloc pgdir a o k l Hsp) as [|(k1 & l' & pde & Hw & Hsp1 & Hu & Hpde & Hp & Htr)];
    [by left|right]. pose proof Hsp1 as [Hwf Hinv Hrd].
  destruct (vw_table _ _ _ Hwf _ _ Hpde Hp) as (Hnl & Hne & ws & Hws & Hlen).
  destruct (page_word_is_some _ _ _ (PTX a) Hws Hlen (PTX_lt a)) as [old Hold].
  assert (has_flag old PTE_P = false) as Hop.
  { rewrite <- Htr in Hn. unfold translate, mmu_pte, mbind, option_bind in Hn. rewrite Hpde, Hp, Hold in Hn.
    by destruct (has_flag old PTE_P). }
  destruct (translate_set (pages k1) pgdir l' a pde v Hwf Hpde Hp) as (Hwf' & Ht & Hf). rewrite Hv in Ht.
  set (t := P2V (PTE_ADDR pde)) in *.
  exists (t, PTX a), k1, old, (k1 <| pages ::= set_page_word t (PTX a) v |>), l'. split_and!; try done.
  - by apply deref_some.
  - unfold store_pte, load_pte. by erewrite bind_ok by by apply deref_some.
  - split; [done| |exact Hrd]. apply kmem_inv_pages; [|done]. intros x Hx. rewrite page_word_set.
    rewrite decide_False; [done|]. intros (-> & _). done.
  - intros va Hva. rewrite <- Htr. by apply Hf.
Qed.

(** The entry [mappages] writes for the [i]-th page of the range. *)
Definition mapped (pa perm : Z) (i : nat) : Z := Z.lor (Z.lor (pa + PGSIZE * Z.of_nat i) perm) PTE_P.

(** The range of [n + 1] pages from [a] is mapped, or the pages ran out. *)
Record range_mapped (k : kernel) (pgdir a pa perm : Z) (n : nat) (l : list Z) (r : Z) (k' : kernel) (l' : list Z) : Prop := {
  rm_space : space k' pgdir l';
  rm_used : exists u, l = u ++ l';
  rm_result : (r = 0 /\ forall i, (i <= n)%nat -> translate (pages k') pgdir (a + PGSIZE * Z.of_nat i) = Some (mapped pa perm i)) \/
              (r = -1 /\ l' = []);
  rm_frame : forall va, u32 va / PGSIZE < a / PGSIZE \/ a / PGSIZE + Z.of_nat n < u32 va / PGSIZE ->
    translate (pages k') pgdir va = translate (pages k) pgdir va }.

Lemma page_index a i : a mod PGSIZE = 0 -> (a + PGSIZE * Z.of_nat i) / PGSIZE = a / PGSIZE + Z.of_nat i.
Proof. intros Ha. rewrite Z.mul_comm, Z.div_add by done. done. Qed.

Lemma mappages_loop_eq pgdir perm n a pa o k l :
  space k pgdir l -> a mod PGSIZE = 0 -> 0 <= a -> a + PGSIZE * Z.of_nat n < 2 ^ 32 ->
  0 <= pa -> pa + PGSIZE * Z.of_nat n < 2 ^ 32 ->
  (forall i, (i <= n)%nat -> translate (pages k) pgdir (a + PGSIZE * Z.of_nat i) = None) ->
  exists r k' l', mappages_loop (S n) pgdir a (a + PGSIZE * Z.of_nat n) pa perm o k = Ok r o k' /\
    range_mapped k pgdir a pa perm n l r k' l'.
Proof.
  revert a pa k l. induction n as [|n IH]; intros a pa k l Hsp Ham Ha Hahi Hpa Hpahi Hun;
    assert (u32 a = a) as Hua by (apply u32_small; unfold is_u32, PGSIZE in *; lia);
    (assert (translate (pages k) pgdir a = None) as Hun0
      by (rewrite <- (Hun 0%nat) by lia; f_equal; unfold PGSIZE; lia));
    (destruct (map_one pgdir a (Z.lor (Z.lor pa perm) PTE_P) o k l Hsp Hun0 (has_flag_P _))
      as [[-> Hw]|(e & k1 & old & k2 & l2 & Hw & Hld & Hop & Hst & Hsp2 & Hu & Ht & Hf)];
     [exists (-1), k, []; split; [cbn [mappages_loop]; by erewrite bind_ok by exact Hw|];
      split; [done|by exists []|by right|done]|]);
    cbn [mappages_loop]; (erewrite bind_ok by exact Hw); cbv beta iota;
    (erewrite bind_ok by exact Hld); rewrite Hop; (erewrite bind_ok by exact Hst).
  - replace (a + PGSIZE * Z.of_nat 0) with a by (unfold PGSIZE; lia). rewrite Z.eqb_refl.
    exists 0, k2, l2. split; [done|]. split; [done|done| |].
    + left. split; [done|]. intros i Hi. assert (i = 0%nat) as -> by lia. unfold mapped.
      replace (a + PGSIZE * Z.of_nat 0) with a by (unfold PGSIZE; lia).
      replace (pa + PGSIZE * Z.of_nat 0) with pa by (unfold PGSIZE; lia). done.
    + intros va Hva. apply Hf. rewrite Hua. lia.
  - destruct (Z.eqb_spec a (a + PGSIZE * Z.of_nat (S n))); [unfold PGSIZE in *; lia|].
    rewrite (u32_small (a + PGSIZE)), (u32_small (pa + PGSIZE)) by (unfold is_u32, PGSIZE in *; lia).
    replace (a + PGSIZE * Z.of_nat (S n)) with (a + PGSIZE + PGSIZE * Z.of_nat n) by (unfold PGSIZE; lia).
    assert ((a + PGSIZE) mod PGSIZE = 0) as Ham' by (rewrite <- (Z.mul_1_l PGSIZE) at 1; by rewrite Z.mod_add).
    assert ((a + PGSIZE) / PGSIZE = a / PGSIZE + 1) as Hdiv by (rewrite <- (Z.mul_1_l PGSIZE) at 1; by rewrite Z.div_add).
    destruct (IH (a + PGSIZE) (pa + PGSIZE) k2 l2) as (r & k' & l' & Hr & [Hsp' [u' Hu'] Hres Hfr]);
      try (unfold PGSIZE in *; lia); try done.
    + intros i Hi. rewrite Hf.
      * rewrite <- (Hun (S i)) by lia. f_equal. unfold PGSIZE. lia.
      * rewrite u32_small, Hua by (unfold is_u32, PGSIZE in *; lia). rewrite page_index by done. lia.
    + exists r, k', l'. split; [done|]. split; [done| | |].
      * destruct Hu as [u ->]. exists (u ++ u'). rewrite <- app_assoc. by f_equal.
      * destruct Hres as [[-> Hres]|Hres]; [left|by right]. split; [done|]. intros [|i] Hi.
        -- rewrite Hfr; [|left; rewrite u32_small by (unfold is_u32, PGSIZE in *; lia); rewrite page_index, Hdiv by done; lia].
           unfold mapped. replace (a + PGSIZE * Z.of_nat 0) with a by (unfold PGSIZE; lia).
           replace (pa + PGSIZE * Z.of_nat 0) with pa by (unfold PGSIZE; lia). done.
        -- replace (a + PGSIZE * Z.of_nat (S i)) with (a + PGSIZE + PGSIZE * Z.of_nat i) by (unfold PGSIZE; lia).
           rewrite Hres by lia. f_equal. unfold mapped. do 2 f_equal. unfold PGSIZE. lia.
      * intros va Hva. rewrite Hfr by (rewrite Hdiv; lia). apply Hf. rewrite Hua. lia.
Qed.
End mapping.

Lemma page_align_down a : 0 <= a < 2 ^ 32 -> PGROUNDDOWN a = a / PGSIZE * PGSIZE.
Proof. intros Ha. unfold PGROUNDDOWN. rewrite u32_small by done. apply land_lnot_page. Qed.

Lemma mappages_unfold pgdir va n pa perm :
  va mod PGSIZE = 0 -> 0 <= va -> va + PGSIZE * Z.of_nat (S n) <= 2 ^ 32 ->
  mappages pgdir va (PGSIZE * Z.of_nat (S n)) pa perm =
  mappages_loop (S n) pgdir va (va + PGSIZE * Z.of_nat n) pa perm.
Proof.
  intros Hm Hlo Hhi. unfold mappages. pose proof (Z.div_mod va PGSIZE ltac:(done)) as Hdm.
  rewrite !page_align_down.
  2:{ unfold PGSIZE in *; lia. } 2:{ apply u32_range. }
  rewrite (u32_small (va + _ - 1)) by (unfold is_u32, PGSIZE in *; lia).
  assert ((va + PGSIZE * Z.of_nat (S n) - 1) / PGSIZE = va / PGSIZE + Z.of_nat n) as ->.
  { replace (va + PGSIZE * Z.of_nat (S n) - 1) with (va / PGSIZE * PGSIZE + PGSIZE * Z.of_nat n + (PGSIZE - 1)) by (unfold PGSIZE in *; lia).
    replace (va / PGSIZE * PGSIZE + PGSIZE * Z.of_nat n + (PGSIZE - 1)) with (PGSIZE - 1 + (va / PGSIZE + Z.of_nat n) * PGSIZE) by lia.
    rewrite Z.div_add by done. change ((PGSIZE - 1) / PGSIZE) with 0. lia. }
  replace (va / PGSIZE * PGSIZE) with va by lia.
  replace ((va / PGSIZE + Z.of_nat n) * PGSIZE) with (va + PGSIZE * Z.of_nat n) by lia.
  replace (va + PGSIZE * Z.of_nat n - va) with (Z.of_nat n * PGSIZE) by lia.
  rewrite u32_small by (unfold is_u32, PGSIZE in *; lia). rewrite Z.div_mul by done. by rewrite Nat2Z.id.
Qed.
End with_layout.

Section properties.
Context `{Layout} (end_high : KERNBASE < sym_end).

(** C27. [mappages] makes the hardware translate every page of the range to the
    physical page and the permissions asked for, and changes the translation of
    no other page.  It needs a page only for a missing page table, fails with -1
    only when none is left, and panics rather than map a page twice. *)
Theorem mappages_spec pgdir va n pa perm o k l :
  space k pgdir l -> va mod PGSIZE = 0 -> 0 <= va -> va + PGSIZE * Z.of_nat (S n) <= 2 ^ 32 ->
  0 <= pa -> pa + PGSIZE * Z.of_nat n < 2 ^ 32 ->
  ((forall i, (i <= n)%nat -> translate (pages k) pgdir (va + PGSIZE * Z.of_nat i) = None) ->
     exists r k' l', mappages pgdir va (PGSIZE * Z.of_nat (S n)) pa perm o k = Ok r o k' /\
       range_mapped k pgdir va pa perm n l r k' l') /\
  (forall e, translate (pages k) pgdir va = Some e ->
     mappages pgdir va (PGSIZE * Z.of_nat (S n)) pa perm o k = Panic "remap" k).
Proof.
  intros Hsp Hm Hlo Hhi Hpa Hpahi. rewrite mappages_unfold by done. split.
  - intros Hun. by apply mappages_loop_eq; try done; unfold PGSIZE in *; lia.
  - intros e He. destruct (space_dir k pgdir l va Hsp) as [pde Hpde].
    unfold translate, mmu_pte, mbind, option_bind in He. rewrite Hpde in He.
    destruct (has_flag pde PTE_P) eqn:Hp; [|done].
    destruct (page_word (pages k) (P2V (PTE_ADDR pde)) (PTX va)) as [old|] eqn:Ho; [|done].
    destruct (has_flag old PTE_P) eqn:Hop; [|done].
    cbn [mappages_loop]. unfold walkpgdir, load_pte.
    erewrite bind_ok; [|erewrite bind_ok by (by apply deref_some); by rewrite Hp].
    cbv beta iota. erewrite bind_ok by by apply deref_some. by rewrite Hop.
Qed.
End properties.

(** An empty address space and one free page. *)
#[local] Existing Instance Kalloc.small_layout.
Definition empty_space : kernel := Kalloc.one_page <| pages ::= <[0x80300000 := replicate NWORDS 0]> |>.

Lemma empty_space_ok : space empty_space 0x80300000 [0x80200000].
Proof.
  assert (forall i pde, page_word (pages empty_space) 0x80300000 i = Some pde -> pde = 0) as Hz.
  { intros i pde. unfold page_word, empty_space. rsimpl. rewrite lookup_insert_eq. unfold mbind, option_bind.
    by intros [-> _]%lookup_replicate. }
  split; [split| |done].
  - exists (replicate NWORDS 0). split; [|apply length_replicate]. unfold empty_space. rsimpl. apply lookup_insert_eq.
  - by intros [?|?%elem_of_nil]%elem_of_cons.
  - intros i pde Hp Hf. apply Hz in Hp. by subst.
  - intros i j p q Hp _ Hf. apply Hz in Hp. by subst.
  - apply kmem_inv_pages; [|apply Kalloc.one_page_inv].
    intros x [->|?%elem_of_nil]%elem_of_cons; [|done]. unfold page_word. by rewrite lookup_insert_ne.
Qed.

Lemma empty_space_unmapped va : translate (pages empty_space) 0x80300000 va = None.
Proof.
  destruct (space_dir empty_space 0x80300000 _ va empty_space_ok) as [pde Hpde].
  unfold translate, mmu_pte, mbind, option_bind. rewrite Hpde.
  assert (pde = 0) as ->; [|done]. revert Hpde. unfold page_word, empty_space. rsimpl. rewrite lookup_insert_eq.
  unfold mbind, option_bind. by intros [-> _]%lookup_replicate.
Qed.

Lemma mappages_spec_witness :
  exists k' l', mappages 0x80300000 0x1000 0x2000 0x400000 PTE_U [] empty_space = Ok 0 [] k' /\
    range_mapped empty_space 0x80300000 0x1000 0x400000 PTE_U 1 [0x80200000] 0 k' l'.
Proof.
  destruct (mappages_spec Kalloc.small_layout_high 0x80300000 0x1000 1 0x400000 PTE_U [] empty_space [0x80200000])
    as [H _]; [apply empty_space_ok|reflexivity|discriminate|discriminate|discriminate|reflexivity|].
  destruct H as (r & k' & l' & H & Hr); [intros i _; apply empty_space_unmapped|].
  assert (r = 0) as ->; [|by exists k', l'].
  assert (Ok r [] k' = mappages 0x80300000 0x1000 0x2000 0x400000 PTE_U [] empty_space) as E by (symmetry; exact H).
  vm_compute in E. congruence.
Defined.
End Vm.
