(* ===== verification/Mutex.v ===== *)
(** The kernel mutexes of proc.c: [kthread_mutex_alloc], [_dealloc], [_lock] and
    [_unlock], as one thread executes them. *)

From S2P Require Import Prelude Monad State Kalloc Sched Mmu.

Module Mutex.

(** Offset of [tid] in [struct thread]: after [kstack], [state] and [tf]. *)
Definition offsetof_tid : Z := 12.

(** [m->holding->tid].  The pointer is followed even when it is null: the load
    then goes to address 12 of the running process. *)
Definition holding_tid (h : option tptr) : K Z :=
  match h with
  | Some t => th ← get_thread t; mret (t_tid th)
  | None => deref "null holding" (fun k => user_word k offsetof_tid)
  end.

(** [mythread()->tid] *)
Definition my_tid : K Z := t ← curthread; th ← get_thread t; mret (t_tid th).

Definition kthread_id : K Z :=
  t ← mythread;
  match t with None => mret (-1) | Some _ => my_tid end.

Definition get_mutex (i : nat) : K mutex := deref "mutex" (fun k => mtable k !! i).
Definition upd_mutex (i : nat) (f : mutex -> mutex) : K unit :=
  modify (fun k => k <| mtable ::= alter f i |>).

Section with_layout.
Context `{Layout}.

Definition kthread_mutex_alloc : K Z :=
  acquire LMtable;;
  ms ← gets mtable;
  match list_find (fun m => m_state m = UNINITIALIZED) ms with
  | None => release LMtable;; mret (-1)
  | Some (i, _) =>
      acquire (LMutex i);;
      release LMtable;;
      upd_mutex i (fun m => m <| m_lock := 0 |>);;
      mid ← gets nextmid;
      modify (fun k => k <| nextmid := s32 (mid + 1) |>);;
      upd_mutex i (fun m => m <| m_mid := mid |>);;
      p ← curproc;
      pr ← get_proc p;
      upd_mutex i (fun m => m <| m_pid_holder := p_pid pr |>);;
      upd_mutex i (fun m => m <| m_numOfWaiting := 0 |>);;
      upd_mutex i (fun m => m <| m_state := OPEN |>);;
      upd_mutex i (fun m => m <| m_holding := None |>);;
      release (LMutex i);;
      m ← get_mutex i;
      mret (m_mid m)
  end.

Definition kthread_mutex_dealloc (mutex_id : Z) : K Z :=
  acquire LMtable;;
  ms ← gets mtable;
  match list_find (fun m => m_mid m = mutex_id) ms with
  | None => release LMtable;; mret (-1)
  | Some (i, m) =>
      if bool_decide (m_state m = CLOSE) || negb (m_numOfWaiting m =? 0)
      then release LMtable;; mret (-1)
      else
        acquire (LMutex i);;
        upd_mutex i (fun m => m <| m_holding := None |>);;
        upd_mutex i (fun m => m <| m_mid := 0 |>);;
        upd_mutex i (fun m => m <| m_lock := 0 |>);;
        upd_mutex i (fun m => m <| m_numOfWaiting := 0 |>);;
        upd_mutex i (fun m => m <| m_pid_holder := 0 |>);;
        upd_mutex i (fun m => m <| m_state := UNINITIALIZED |>);;
        release (LMutex i);;
        release LMtable;;
        mret 0
  end.

(** [xchg((uint * ) &m->lock, 1)]. *)
Definition xchg_lock (i : nat) : K Z :=
  m ← get_mutex i;
  upd_mutex i (fun m => m <| m_lock := 1 |>);;
  mret (m_lock m).

(** [while (xchg(&m->lock, 1) != 0) sleep(m, &m->mutexLock);] every pass but the
    last consumes environment steps, which bounds the number of passes. *)
Fixpoint lock_loop (n : nat) (i : nat) : K unit :=
  match n with
  | O => fault "lock_loop: fuel"
  | S n' =>
      xchg_lock i ≫= fun old =>
      if old =? 0 then mret tt else
      Sched.sleep (CMutex i) (Some (LMutex i));; lock_loop n' i
  end.

Definition kthread_mutex_lock (mutex_id : Z) : K Z :=
  acquire LMtable;;
  ms ← gets mtable;
  match list_find (fun m => m_mid m = mutex_id) ms with
  | None => release LMtable;; mret (-1)
  | Some (i, m) =>
      refuse ← (if bool_decide (m_state m = UNINITIALIZED) then mret true
                else ht ← holding_tid (m_holding m); mt ← my_tid; mret (ht =? mt));
      if (refuse : bool) then release LMtable;; mret (-1) else
      acquire (LMutex i);;
      release LMtable;;
      (fun o => lock_loop (S (length o)) i o);;
      upd_mutex i (fun m => m <| m_state := CLOSE |>);;
      t ← mythread;
      upd_mutex i (fun m => m <| m_holding := t |>);;
      release (LMutex i);;
      mret 0
  end.

Definition asleep_on (i : nat) (t : thread) : Prop := t_state t = T_SLEEPING /\ t_chan t = Some (CMutex i).
#[export] Instance asleep_on_dec i t : Decision (asleep_on i t).
Proof. unfold asleep_on. apply _. Defined.

Definition kthread_mutex_unlock (mutex_id : Z) : K Z :=
  cp ← myproc;
  acquire LMtable;;
  ms ← gets mtable;
  match list_find (fun m => m_mid m = mutex_id) ms with
  | None => release LMtable;; mret (-1)
  | Some (i, _) =>
      acquire (LMutex i);;
      release LMtable;;
      m ← get_mutex i;
      refuse ← (if negb (bool_decide (m_state m = CLOSE)) then mret true
                else ht ← holding_tid (m_holding m); mt ← my_tid; mret (negb (ht =? mt)));
      if (refuse : bool) then release (LMutex i);; mret (-1) else
      upd_mutex i (fun m => m <| m_lock := 0 |>);;
      upd_mutex i (fun m => m <| m_state := OPEN |>);;
      upd_mutex i (fun m => m <| m_holding := None |>);;
      p ← deref "curproc" (fun _ => cp);
      pr ← get_proc p;
      match list_find (asleep_on i) (p_ttable pr) with
      | Some (j, _) =>
          upd_thread (p, j) (fun t => t <| t_state := T_RUNNABLE |>);;
          release (LMutex i);;
          mret 0
      | None => release (LMutex i);; mret 0
      end
  end.

(** * What each operation does when nobody holds the locks it takes *)

Definition quiet (k : kernel) : Prop := unlocked LMtable k /\ forall i, unlocked (LMutex i) k.

(** A slot as [kthread_mutex_alloc] leaves it. *)
Definition opened (mid pid : Z) : mutex := mkMutex mid 0 0 OPEN None pid.

Lemma alloc_eq o k p pr :
  quiet k -> cpu_proc k = Some p -> ptable k !! p = Some pr ->
  kthread_mutex_alloc o k =
    match list_find (fun m => m_state m = UNINITIALIZED) (mtable k) with
    | None => Ok (-1) o k
    | Some (i, _) =>
        Ok (nextmid k) o (k <| mtable ::= alter (fun _ => opened (nextmid k) (p_pid pr)) i |>
                            <| nextmid := s32 (nextmid k + 1) |>)
    end.
Proof.
  intros [Hl Hm] Hp Hpr. unfold kthread_mutex_alloc, upd_mutex, curproc, get_proc.
  mbind_step. mbind_step. rsimpl. destruct (list_find _ _) as [[i m]|] eqn:E.
  2:{ mrun. unfold mret, M_ret. f_equal. kernel_eq. }
  specialize (Hm i). apply list_find_Some in E as (Hi & _ & _).
  do 6 (mbind_step; rsimpl).
  erewrite bind_ok by (apply deref_some; by rsimpl). erewrite bind_ok by (apply deref_some; by rsimpl).
  do 5 (mbind_step; rsimpl).
  erewrite bind_ok by (apply deref_some; rsimpl; by rewrite !list_lookup_alter_eq, Hi).
  rsimpl. unfold mret, M_ret. f_equal. kernel_eq. mutex_eq.
Qed.

Lemma dealloc_eq id o k :
  quiet k ->
  kthread_mutex_dealloc id o k =
    match list_find (fun m => m_mid m = id) (mtable k) with
    | None => Ok (-1) o k
    | Some (i, m) =>
        if bool_decide (m_state m = CLOSE) || negb (m_numOfWaiting m =? 0) then Ok (-1) o k
        else Ok 0 o (k <| mtable ::= alter (fun _ => zero_mutex) i |>)
    end.
Proof.
  intros [Hl Hm]. unfold kthread_mutex_dealloc, upd_mutex.
  mbind_step. mbind_step. rsimpl. destruct (list_find _ _) as [[i m]|] eqn:E.
  2:{ mrun. unfold mret, M_ret. f_equal. kernel_eq. }
  specialize (Hm i). destruct (_ || _).
  - mrun. unfold mret, M_ret. f_equal. kernel_eq.
  - mrun. unfold mret, M_ret. f_equal. kernel_eq. mutex_eq.
Qed.

(** The id [m->holding->tid] evaluates to. *)
Definition holder_tid (k : kernel) (h : option tptr) : option Z :=
  match h with
  | Some t => t_tid <$> thread_at k t
  | None => user_word k offsetof_tid
  end.

Lemma holding_tid_eq h ht o k : holder_tid k h = Some ht -> holding_tid h o k = Ok ht o k.
Proof.
  unfold holder_tid, holding_tid. destruct h as [t|].
  - intros (th & Hth & ->)%fmap_Some. unfold get_thread. by erewrite bind_ok by by apply deref_some.
  - intros Hu. by apply deref_some.
Qed.

Lemma my_tid_eq t th o k : cpu_thread k = Some t -> thread_at k t = Some th -> my_tid o k = Ok (t_tid th) o k.
Proof.
  intros Ht Hth. unfold my_tid, curthread, get_thread.
  erewrite bind_ok by by apply deref_some. by erewrite bind_ok by by apply deref_some.
Qed.

Lemma kthread_id_eq t th o k : cpu_thread k = Some t -> thread_at k t = Some th -> kthread_id o k = Ok (t_tid th) o k.
Proof.
  intros Ht Hth. unfold kthread_id, mythread. mbind_step. rewrite Ht. by apply (my_tid_eq t th).
Qed.

(** A slot whose lock has been taken by a thread, and one that was given back. *)
Definition taken (t : option tptr) (m : mutex) : mutex :=
  m <| m_lock := 1 |> <| m_state := CLOSE |> <| m_holding := t |>.
Definition given_back (m : mutex) : mutex :=
  m <| m_lock := 0 |> <| m_state := OPEN |> <| m_holding := None |>.

(** [kthread_mutex_lock] from the loop on. *)
Definition lock_tail (i : nat) : K Z :=
  (fun o => lock_loop (S (length o)) i o);;
  upd_mutex i (fun m => m <| m_state := CLOSE |>);;
  t ← mythread;
  upd_mutex i (fun m => m <| m_holding := t |>);;
  release (LMutex i);;
  mret 0.

Lemma lock_eq id o k t th :
  quiet k -> cpu_thread k = Some t -> thread_at k t = Some th ->
  (forall i m, list_find (fun m => m_mid m = id) (mtable k) = Some (i, m) ->
     m_state m <> UNINITIALIZED -> is_Some (holder_tid k (m_holding m))) ->
  kthread_mutex_lock id o k =
    match list_find (fun m => m_mid m = id) (mtable k) with
    | None => Ok (-1) o k
    | Some (i, m) =>
        if bool_decide (m_state m = UNINITIALIZED) ||
           bool_decide (holder_tid k (m_holding m) = Some (t_tid th)) then Ok (-1) o k
        else lock_tail i o (k <| locks ::= <[LMutex i := Me]> |>)
    end.
Proof.
  intros [Hl Hm] Ht Hth Hh. unfold kthread_mutex_lock. mbind_step. mbind_step. rsimpl.
  destruct (list_find _ _) as [[i m]|] eqn:E.
  2:{ mrun. unfold mret, M_ret. f_equal. kernel_eq. }
  specialize (Hm i). destruct (bool_decide (m_state m = UNINITIALIZED)) eqn:Eu; cbn [orb].
  { mbind_step. cbv iota. mrun. unfold mret, M_ret. f_equal. kernel_eq. }
  apply bool_decide_eq_false in Eu. destruct (Hh i m eq_refl Eu) as [ht Hht].
  erewrite bind_ok.
  2:{ erewrite bind_ok by (apply holding_tid_eq; exact Hht).
      erewrite bind_ok by (apply (my_tid_eq t th); done). reflexivity. }
  rewrite Hht. destruct (Z.eqb_spec ht (t_tid th)) as [->|Hne].
  - rewrite bool_decide_true by done. mrun. unfold mret, M_ret. f_equal. kernel_eq.
  - rewrite bool_decide_false by congruence. do 2 (mbind_step; rsimpl).
    unfold lock_tail. match goal with |- _ o ?k1 = _ o ?k2 => assert (k1 = k2) as -> end; [|done].
    kernel_eq.
Qed.

Lemma lock_loop_free n i m o k :
  mtable k !! i = Some m -> m_lock m = 0 ->
  lock_loop (S n) i o k = Ok tt o (k <| mtable ::= alter (fun m => m <| m_lock := 1 |>) i |>).
Proof.
  intros Hm H0. cbn [lock_loop]. unfold xchg_lock, get_mutex, upd_mutex.
  erewrite bind_ok; [|by erewrite bind_ok by (by apply deref_some)]. by rewrite H0.
Qed.

Lemma lock_loop_busy n i m o k :
  mtable k !! i = Some m -> m_lock m <> 0 ->
  lock_loop (S n) i o k =
    (Sched.sleep (CMutex i) (Some (LMutex i)) ≫= fun _ => lock_loop n i) o
      (k <| mtable ::= alter (fun m => m <| m_lock := 1 |>) i |>).
Proof.
  intros Hm H0. cbn [lock_loop]. unfold xchg_lock, get_mutex, upd_mutex.
  erewrite bind_ok; [|by erewrite bind_ok by (by apply deref_some)].
  by destruct (Z.eqb_spec (m_lock m) 0).
Qed.

(** More fuel than environment steps is enough fuel. *)
Lemma lock_loop_fuel n n' i o k :
  (length o < n)%nat -> (length o < n')%nat -> lock_loop n i o k = lock_loop n' i o k.
Proof.
  revert n' o k. induction n as [|n IH]; intros [|n'] o k Hn Hn'; try lia.
  cbn [lock_loop]. unfold mbind, M_bind.
  destruct (xchg_lock i o k) as [old o1 k1| | | |] eqn:Ex; try done.
  assert (consumes 0 (xchg_lock i)) as Hx by (unfold xchg_lock, get_mutex, upd_mutex; solve_consumes).
  apply Hx in Ex. destruct (old =? 0); [done|].
  destruct (Sched.sleep _ _ o1 k1) as [[] o2 k2| | | |] eqn:Es; try done.
  apply Sched.consumes_sleep in Es. apply IH; lia.
Qed.

(** A pass that finds the lock taken sleeps and starts over. *)
Lemma lock_tail_busy i m o k :
  mtable k !! i = Some m -> m_lock m = 1 ->
  lock_tail i o k = (Sched.sleep (CMutex i) (Some (LMutex i)) ≫= fun _ => lock_tail i) o k.
Proof.
  intros Hm H1.
  assert (k <| mtable ::= alter (fun m => m <| m_lock := 1 |>) i |> = k) as Hk.
  { kernel_eq. eapply alter_same; [done|]. apply mutex_ext; rsimpl; done. }
  unfold lock_tail, mbind, M_bind. rewrite (lock_loop_busy _ i m) by (done || lia). rewrite Hk.
  unfold mbind, M_bind. destruct (Sched.sleep _ _ o k) as [[] o1 k1| | | |] eqn:Es; try done.
  apply Sched.consumes_sleep in Es. by rewrite (lock_loop_fuel (length o) (S (length o1))) by lia.
Qed.

(** The code after the loop, on a state with the lock just taken. *)
Lemma lock_tail_free i m o k :
  mtable k !! i = Some m -> m_lock m = 0 -> locked (LMutex i) k ->
  lock_tail i o k =
    Ok 0 o (k <| mtable ::= alter (taken (cpu_thread k)) i |> <| locks ::= delete (LMutex i) |>).
Proof.
  intros Hm H0 Hl. unfold lock_tail, upd_mutex, mythread.
  erewrite bind_ok by by eapply lock_loop_free. mrun.
  unfold mret, M_ret. f_equal. kernel_eq. mutex_eq.
Qed.

(** The wakeup of [kthread_mutex_unlock]: the first thread of the process that
    sleeps on the mutex becomes runnable. *)
Definition wake_first (p : nat) (pr : proc) (i : nat) (k : kernel) : kernel :=
  match list_find (asleep_on i) (p_ttable pr) with
  | Some (j, _) => alter_thread (p, j) (fun t => t <| t_state := T_RUNNABLE |>) k
  | None => k
  end.

Lemma wake_first_frame p pr i k :
  mtable (wake_first p pr i k) = mtable k /\ nextmid (wake_first p pr i k) = nextmid k.
Proof. unfold wake_first. by destruct (list_find _ _) as [[j tj]|]. Qed.

Lemma thread_at_wake_first p pr i k q :
  ptable k !! p = Some pr ->
  thread_at (wake_first p pr i k) q =
    match list_find (asleep_on i) (p_ttable pr) with
    | Some (j, tj) => if decide (q = (p, j)) then Some (tj <| t_state := T_RUNNABLE |>) else thread_at k q
    | None => thread_at k q
    end.
Proof.
  intros Hpr. unfold wake_first. destruct (list_find _ _) as [[j tj]|] eqn:E; [|done].
  apply list_find_Some in E as (Hj & _ & _).
  rewrite thread_at_alter. destruct (decide ((p, j) = q)) as [<-|Hn].
  - rewrite decide_True by done. unfold thread_at. simpl. by rewrite Hpr; simpl; rewrite Hj.
  - by rewrite decide_False by congruence.
Qed.

Lemma unlock_eq id o k p pr t th :
  quiet k -> cpu_proc k = Some p -> ptable k !! p = Some pr ->
  cpu_thread k = Some t -> thread_at k t = Some th ->
  (forall i m, list_find (fun m => m_mid m = id) (mtable k) = Some (i, m) ->
     m_state m = CLOSE -> is_Some (holder_tid k (m_holding m))) ->
  kthread_mutex_unlock id o k =
    match list_find (fun m => m_mid m = id) (mtable k) with
    | None => Ok (-1) o k
    | Some (i, m) =>
        if bool_decide (m_state m = CLOSE) && bool_decide (holder_tid k (m_holding m) = Some (t_tid th)) then
          Ok 0 o (wake_first p pr i (k <| mtable ::= alter given_back i |>))
        else Ok (-1) o k
    end.
Proof.
  intros [Hl Hm] Hp Hpr Ht Hth Hh. unfold kthread_mutex_unlock, myproc, get_mutex, upd_mutex, upd_thread, wake_first, alter_thread.
  mbind_step. mbind_step. mbind_step. rsimpl. destruct (list_find _ _) as [[i m]|] eqn:E.
  2:{ mrun. unfold mret, M_ret. f_equal. kernel_eq. }
  pose proof E as (Hi & _ & _)%list_find_Some.
  specialize (Hm i). do 2 (mbind_step; rsimpl). erewrite bind_ok by (apply deref_some; by rsimpl).
  destruct (bool_decide (m_state m = CLOSE)) eqn:Ec; cbn [negb andb].
  2:{ mbind_step. cbv iota. mrun. unfold mret, M_ret. f_equal. kernel_eq. }
  apply bool_decide_eq_true in Ec. destruct (Hh i m eq_refl Ec) as [ht Hht].
  erewrite bind_ok.
  2:{ erewrite bind_ok by (apply holding_tid_eq; exact Hht).
      erewrite bind_ok by (apply (my_tid_eq t th); done). reflexivity. }
  rewrite Hht. destruct (Z.eqb_spec ht (t_tid th)) as [->|Hne]; cbn [negb].
  2:{ rewrite bool_decide_false by congruence. mrun. unfold mret, M_ret. f_equal. kernel_eq. }
  rewrite bool_decide_true by done. do 3 (mbind_step; rsimpl).
  erewrite bind_ok by (apply deref_some; by rewrite Hp).
  erewrite bind_ok by (apply deref_some; by rsimpl).
  destruct (list_find (asleep_on i) (p_ttable pr)) as [[j tj]|]; mrun; unfold mret, M_ret; f_equal; kernel_eq;
    mutex_eq.
Qed.

(** * The mutex table *)

(** A slot is unused and zeroed, open and free, or closed with a holder. *)
Definition slot_ok (k : kernel) (m : mutex) : Prop :=
  match m_state m with
  | UNINITIALIZED => m = zero_mutex
  | OPEN => 1 <= m_mid m < nextmid k /\ m_lock m = 0 /\ m_numOfWaiting m = 0 /\ m_holding m = None
  | CLOSE => 1 <= m_mid m < nextmid k /\ m_lock m = 1 /\ m_numOfWaiting m = 0 /\
             exists t, m_holding m = Some t /\ is_Some (thread_at k t)
  end.

Record mutex_inv (k : kernel) : Prop := {
  mi_next : 1 <= nextmid k;
  mi_slot : forall i m, mtable k !! i = Some m -> slot_ok k m;
  mi_unique : forall i j m m', mtable k !! i = Some m -> mtable k !! j = Some m' ->
    m_mid m <> 0 -> m_mid m = m_mid m' -> i = j }.

Lemma slot_mid k m : slot_ok k m -> 1 <= nextmid k -> 0 <= m_mid m < nextmid k.
Proof. unfold slot_ok. destruct (m_state m); [intros ->; simpl; lia|lia|lia]. Qed.

Lemma slot_used k m : slot_ok k m -> m_mid m <> 0 -> m_state m <> UNINITIALIZED.
Proof. unfold slot_ok. destruct (m_state m); [by intros ->|done|done]. Qed.

(** The search by id finds the slot that has the id. *)
Lemma find_mid k i m :
  mutex_inv k -> mtable k !! i = Some m -> m_mid m <> 0 ->
  list_find (fun m' => m_mid m' = m_mid m) (mtable k) = Some (i, m).
Proof.
  intros Hi Hm Hz. apply list_find_Some. split_and!; [done|done|].
  intros j y Hj Hlt Heq. assert (j = i); [|lia]. eapply (mi_unique k Hi); eauto; congruence.
Qed.

(** An update of one slot that keeps its id keeps the invariant. *)
Lemma mutex_inv_insert k k' i m m' :
  mutex_inv k -> mtable k !! i = Some m -> mtable k' = <[i := m']> (mtable k) ->
  1 <= nextmid k' -> nextmid k <= nextmid k' ->
  (forall t, is_Some (thread_at k t) -> is_Some (thread_at k' t)) ->
  slot_ok k' m' ->
  (forall j n, mtable k !! j = Some n -> j <> i -> m_mid m' <> 0 -> m_mid n <> m_mid m') -> mutex_inv k'.
Proof.
  intros [H1 H2 H3] Hm Ht Hn Hle Hth Hok Hfresh. split; [done| |]; rewrite Ht.
  - intros j n Hj. apply list_lookup_insert_Some in Hj as [(-> & -> & _)|[Hne Hj]]; [done|].
    specialize (H2 j n Hj). unfold slot_ok in *. destruct (m_state n).
    + done.
    + destruct H2 as (? & ? & ? & ?). split_and!; [lia|lia|done|done|done].
    + destruct H2 as (? & ? & ? & t & ? & ?). split_and!; [lia|lia|done|done|]. eauto.
  - intros a b x y Ha Hb Hz Heq.
    apply list_lookup_insert_Some in Ha as [(-> & -> & _)|[Hna Ha]],
      Hb as [(-> & <- & _)|[Hnb Hb]]; try done.
    + destruct (Hfresh b y); congruence.
    + destruct (Hfresh a x); congruence.
    + by eapply (H3 a b).
Qed.

Lemma alter_const {A} i (l : list A) (x y : A) (f : A -> A) :
  l !! i = Some x -> f x = y -> alter f i l = <[i := y]> l.
Proof. intros Hx <-. rewrite list_insert_alter. by eapply alter_at. Qed.

(** The thread [t] runs, in process [p]. *)
Record running (k : kernel) (p : nat) (pr : proc) (t : tptr) (th : thread) : Prop := {
  rn_proc : cpu_proc k = Some p;
  rn_ptable : ptable k !! p = Some pr;
  rn_thread : cpu_thread k = Some t;
  rn_at : thread_at k t = Some th }.

Definition set_slot (i : nat) (m : mutex) (k : kernel) : kernel := k <| mtable := <[i := m]> (mtable k) |>.

Lemma set_slot_twice i m m' k : set_slot i m (set_slot i m' k) = set_slot i m k.
Proof. unfold set_slot. kernel_eq. apply list_insert_insert_eq. Qed.

Lemma set_slot_same i m k : mtable k !! i = Some m -> set_slot i m k = k.
Proof. intros Hm. unfold set_slot. kernel_eq. by apply list_insert_id. Qed.

Lemma set_slot_at i m m' k : mtable k !! i = Some m' -> mtable (set_slot i m k) !! i = Some m.
Proof. intros Hm. unfold set_slot. rsimpl. apply list_lookup_insert_eq. eauto using lookup_lt_Some. Qed.

Lemma thread_at_set_slot i m k q : thread_at (set_slot i m k) q = thread_at k q.
Proof. by apply thread_at_ext. Qed.

Lemma mutex_inv_set k i m m' :
  mutex_inv k -> mtable k !! i = Some m -> slot_ok k m' -> m_mid m' = m_mid m \/ m_mid m' = 0 ->
  mutex_inv (set_slot i m' k).
Proof.
  intros Hi Hm Hok Hmid. eapply (mutex_inv_insert k _ i m m'); try done; [apply Hi|].
  intros j n Hj Hji Hz Heq. destruct Hji. eapply (mi_unique k Hi j i n m); eauto; destruct Hmid; congruence.
Qed.

(** ** The operations on a slot of a well-formed table *)

Section slot.
Context (k : kernel) (p : nat) (pr : proc) (t : tptr) (th : thread) (i : nat) (m : mutex).
Hypotheses (Hq : quiet k) (Hi : mutex_inv k) (Hr : running k p pr t th).
Hypotheses (Hm : mtable k !! i = Some m) (Hz : m_mid m <> 0).

Lemma lock_open o w :
  m_state m = OPEN -> user_word k offsetof_tid = Some w -> w <> t_tid th ->
  kthread_mutex_lock (m_mid m) o k = Ok 0 o (set_slot i (taken (Some t) m) k) /\
  mutex_inv (set_slot i (taken (Some t) m) k).
Proof.
  intros Hs Hw Hne. destruct Hr as [_ _ Ht Hth]. pose proof (mi_slot k Hi i m Hm) as Hok.
  unfold slot_ok in Hok. rewrite Hs in Hok. destruct Hok as (Hmid & Hl & Hn & Hh). split.
  - rewrite (lock_eq _ o k t th), (find_mid k i m); try done.
    + rewrite bool_decide_false by congruence. rewrite Hh. simpl. rewrite Hw.
      rewrite bool_decide_false by congruence. cbn [orb].
      erewrite lock_tail_free; [|by rsimpl|done|unfold locked; rsimpl; apply lookup_insert_eq].
      f_equal. destruct Hq as [_ Hmi]. specialize (Hmi i). unfold set_slot. kernel_eq.
      eapply alter_const; [done|]. by rewrite Ht.
    + rewrite (find_mid k i m) by done. intros ? ? [= <- <-] _. rewrite Hh. simpl. eauto.
  - eapply mutex_inv_set; [done|done| |by left]. unfold slot_ok, taken. rsimpl. split_and!; try done; try lia; eauto.
Qed.

Lemma lock_own o :
  m_holding m = Some t -> kthread_mutex_lock (m_mid m) o k = Ok (-1) o k.
Proof.
  intros Hh. destruct Hr as [_ _ Ht Hth].
  assert (holder_tid k (m_holding m) = Some (t_tid th)) as Htid by (rewrite Hh; simpl; by rewrite Hth).
  rewrite (lock_eq _ o k t th), (find_mid k i m); try done.
  - rewrite Htid, (bool_decide_true (Some _ = Some _)) by done. by rewrite orb_true_r.
  - rewrite (find_mid k i m) by done. intros ? ? [= <- <-] _. eauto.
Qed.

Lemma unlock_own o :
  m_state m = CLOSE -> holder_tid k (m_holding m) = Some (t_tid th) ->
  kthread_mutex_unlock (m_mid m) o k = Ok 0 o (wake_first p pr i (set_slot i (given_back m) k)) /\
  mutex_inv (wake_first p pr i (set_slot i (given_back m) k)).
Proof.
  intros Hs Hh. destruct Hr as [Hp Hpr Ht Hth]. split.
  - rewrite (unlock_eq _ o k p pr t th), (find_mid k i m); try done.
    + rewrite !bool_decide_true by done. cbn [andb]. do 2 f_equal. unfold set_slot. kernel_eq. by eapply alter_const.
    + rewrite (find_mid k i m) by done. intros ? ? [= <- <-] _. eauto.
  - pose proof (mi_slot k Hi i m Hm) as Hok. unfold slot_ok in Hok. rewrite Hs in Hok.
    destruct Hok as (Hmid & _ & Hn & _).
    assert (mutex_inv (set_slot i (given_back m) k)) as Hi' by (eapply mutex_inv_set; [done|done|done|by left]).
    destruct (wake_first_frame p pr i (set_slot i (given_back m) k)) as [Hf1 Hf2].
    eapply (mutex_inv_insert _ _ i (given_back m)); [done|by eapply set_slot_at| | | | | |].
    + rewrite Hf1. symmetry. apply list_insert_id. by eapply set_slot_at.
    + rewrite Hf2. apply Hi'.
    + by rewrite Hf2.
    + intros q Hq'. rewrite thread_at_wake_first by done.
      destruct (list_find _ _) as [[j tj]|]; [|done]. case_decide; eauto.
    + unfold slot_ok. rewrite Hf2. done.
    + intros j n Hj Hne Hz' Heq. apply Hne. symmetry.
      eapply (mi_unique _ Hi' i j); [by eapply set_slot_at|done|done|congruence].
Qed.

Lemma unlock_refused o ht :
  holder_tid k (m_holding m) = Some ht -> m_state m <> CLOSE \/ ht <> t_tid th ->
  kthread_mutex_unlock (m_mid m) o k = Ok (-1) o k.
Proof.
  intros Hh Hor. destruct Hr as [Hp Hpr Ht Hth].
  rewrite (unlock_eq _ o k p pr t th), (find_mid k i m); try done.
  - rewrite Hh. destruct Hor as [Hs|Hs]; [by rewrite (bool_decide_false (_ = CLOSE))|].
    rewrite (bool_decide_false (Some _ = Some _)) by congruence. by rewrite andb_false_r.
  - rewrite (find_mid k i m) by done. intros ? ? [= <- <-] _. eauto.
Qed.

Lemma dealloc_slot o :
  kthread_mutex_dealloc (m_mid m) o k =
    if bool_decide (m_state m = CLOSE) then Ok (-1) o k else Ok 0 o (set_slot i zero_mutex k).
Proof.
  rewrite dealloc_eq, (find_mid k i m) by done.
  assert (m_numOfWaiting m = 0) as ->.
  { pose proof (mi_slot k Hi i m Hm) as Hok. pose proof (slot_used k m Hok Hz). unfold slot_ok in Hok.
    destruct (m_state m); [done|by apply Hok|by apply Hok]. }
  rewrite orb_false_r. destruct (bool_decide _); [done|]. f_equal. unfold set_slot. kernel_eq. by eapply alter_const.
Qed.
End slot.

Lemma alloc_slot o k p pr i :
  quiet k -> mutex_inv k -> cpu_proc k = Some p -> ptable k !! p = Some pr -> nextmid k < 2 ^ 31 - 1 ->
  list_find (fun m => m_state m = UNINITIALIZED) (mtable k) = Some (i, zero_mutex) ->
  let k' := set_slot i (opened (nextmid k) (p_pid pr)) k <| nextmid := nextmid k + 1 |> in
  kthread_mutex_alloc o k = Ok (nextmid k) o k' /\ mutex_inv k'.
Proof.
  intros Hq Hi Hp Hpr Hn Hf k'. pose proof (mi_next k Hi).
  assert (s32 (nextmid k + 1) = nextmid k + 1) as Hs by (apply s32_small; unfold is_s32; lia).
  pose proof Hf as (Hz & _ & _)%list_find_Some. split.
  - rewrite (alloc_eq o k p pr), Hf, Hs by done. f_equal. unfold k', set_slot. kernel_eq. by eapply alter_const.
  - eapply (mutex_inv_insert k _ i zero_mutex (opened (nextmid k) (p_pid pr)));
      unfold k'; rsimpl; try done; try lia.
    + unfold slot_ok. simpl. rsimpl. split_and!; done || lia.
    + intros j n Hj _ _. simpl. pose proof (slot_mid k n (mi_slot k Hi j n Hj)). lia.
Qed.

Lemma lock_unknown o k t th id :
  quiet k -> cpu_thread k = Some t -> thread_at k t = Some th -> Forall (fun m => m_mid m <> id) (mtable k) ->
  kthread_mutex_lock id o k = Ok (-1) o k.
Proof. intros Hq Ht Hth Hid. rewrite (lock_eq _ o k t th); try done; by rewrite (proj2 (list_find_None _ _) Hid). Qed.

Lemma unlock_unknown o k p pr t th id :
  quiet k -> running k p pr t th -> Forall (fun m => m_mid m <> id) (mtable k) ->
  kthread_mutex_unlock id o k = Ok (-1) o k.
Proof.
  intros Hq [Hp Hpr Ht Hth] Hid.
  rewrite (unlock_eq _ o k p pr t th); try done; by rewrite (proj2 (list_find_None _ _) Hid).
Qed.
End with_layout.

Section properties.
Context `{Layout}.

(** [kthread_mutex_alloc] opens the first unused slot under an id no slot has
    ever had and keeps the table well formed; when all slots are in use it
    returns -1 and changes nothing. *)
Theorem mutex_alloc_fresh o k p pr t th :
  quiet k -> mutex_inv k -> running k p pr t th -> nextmid k < 2 ^ 31 - 1 ->
  (Forall (fun m => m_state m <> UNINITIALIZED) (mtable k) /\ kthread_mutex_alloc o k = Ok (-1) o k) \/
  exists i k', kthread_mutex_alloc o k = Ok (nextmid k) o k' /\
    mtable k !! i = Some zero_mutex /\ mtable k' = <[i := opened (nextmid k) (p_pid pr)]> (mtable k) /\
    (forall j m, mtable k !! j = Some m -> m_mid m < nextmid k) /\ mutex_inv k' /\ locks k' = locks k.
Proof.
  intros Hq Hi [Hp Hpr _ _] Hn.
  destruct (list_find (fun m => m_state m = UNINITIALIZED) (mtable k)) as [[i m]|] eqn:E.
  2:{ left. rewrite (alloc_eq o k p pr), E by done. by apply list_find_None in E. }
  right. pose proof E as (Hm & Hs & _)%list_find_Some. pose proof (mi_slot k Hi i m Hm) as Hok.
  unfold slot_ok in Hok. rewrite Hs in Hok. subst m.
  destruct (alloc_slot o k p pr i) as [Ha Hi']; try done.
  exists i. eexists. split_and!; try done.
  intros j m Hj. pose proof (mi_next k Hi). pose proof (slot_mid k m (mi_slot k Hi j m Hj)). lia.
Qed.

(** [kthread_mutex_dealloc] clears an open mutex and refuses, with -1 and no
    change, a closed one and an id nobody has. *)
Theorem mutex_dealloc_spec o k i m :
  quiet k -> mutex_inv k -> mtable k !! i = Some m -> m_mid m <> 0 ->
  kthread_mutex_dealloc (m_mid m) o k =
    (if bool_decide (m_state m = CLOSE) then Ok (-1) o k
     else Ok 0 o (set_slot i zero_mutex k)) /\
  mutex_inv (set_slot i zero_mutex k) /\
  (forall id, Forall (fun m => m_mid m <> id) (mtable k) -> kthread_mutex_dealloc id o k = Ok (-1) o k).
Proof.
  intros Hq Hi Hm Hz. split_and!.
  - by apply dealloc_slot.
  - eapply mutex_inv_set; [done|done|done|by right].
  - intros id Hid. rewrite dealloc_eq by done. by rewrite (proj2 (list_find_None _ _) Hid).
Qed.

(** Locking an open mutex takes it for the calling thread; locking a mutex
    the thread holds already, or an id nobody has, returns -1 and changes
    nothing.  The word at address 12 of the process, which the kernel reads in
    place of the id of an absent holder, must be mapped and differ from the
    thread's id. *)
Theorem mutex_lock_free o k p pr t th i m w :
  quiet k -> mutex_inv k -> running k p pr t th -> mtable k !! i = Some m -> m_mid m <> 0 ->
  user_word k offsetof_tid = Some w -> w <> t_tid th ->
  (m_state m = OPEN ->
     kthread_mutex_lock (m_mid m) o k = Ok 0 o (set_slot i (taken (Some t) m) k) /\
     mutex_inv (set_slot i (taken (Some t) m) k)) /\
  (m_holding m = Some t -> kthread_mutex_lock (m_mid m) o k = Ok (-1) o k) /\
  (forall id, Forall (fun m => m_mid m <> id) (mtable k) -> kthread_mutex_lock id o k = Ok (-1) o k).
Proof.
  intros Hq Hi Hr Hm Hz Hw Hne. split_and!.
  - intros Ho. by eapply lock_open.
  - by eapply lock_own.
  - intros id Hid. eapply lock_unknown; [done|apply Hr|apply Hr|done].
Qed.

(** C4. A thread that finds the mutex closed by another thread sleeps on it, with
    the mutex's spin lock free, for as long as no scheduler picks it; when it is
    picked and the mutex is free, [kthread_mutex_lock] returns 0 with the thread
    as the holder; told to die, it leaves for [kthread_exit]. *)
Theorem mutex_lock_contended k p pr t th i m ht :
  locks k = ∅ -> mutex_inv k -> running k p pr t th -> p = t.1 -> mtable k !! i = Some m ->
  m_state m = CLOSE -> holder_tid k (m_holding m) = Some ht -> ht <> t_tid th ->
  let k0 := Sched.asleep t (CMutex i) (LMutex i) (k <| locks := {[LMutex i := Me]} |>) in
  (forall o, Sched.never_ready t o k0 -> kthread_mutex_lock (m_mid m) o k = Waiting (Sched.env_run o k0)) /\
  (forall o1 f o2 k1 th1 m1, Sched.picked t th1 (LMutex i) o1 f k0 k1 ->
     mtable k1 !! i = Some m1 -> m_lock m1 = 0 ->
     exists k', kthread_mutex_lock (m_mid m) (o1 ++ f :: o2) k =
         (if t_shouldDie th1 =? 0 then Ok 0 o2 k'
          else Exiting o2 (Sched.dispatched t k1 <| locks ::= delete LPtable |>)) /\
       mtable k' = <[i := taken (Some t) m1]> (mtable k1) /\ unlocked (LMutex i) k' /\
       thread_at k' t = Some (th1 <| t_state := T_RUNNING |> <| t_chan := None |>)) /\
  unlocked (LMutex i) k0.
Proof.
  intros Hlk Hi [Hp Hpr Ht Hth] -> Hm Hs Hh Hne k0.
  pose proof (mi_slot k Hi i m Hm) as Hok. unfold slot_ok in Hok. rewrite Hs in Hok.
  destruct Hok as (Hmid & Hl1 & _ & _).
  set (ka := k <| locks := {[LMutex i := Me]} |>) in *.
  assert (Sched.may_sleep t th (LMutex i) ka) as Hms.
  { split; try done; [by unfold locked, ka; rsimpl; simplify_map_eq| |by unfold unlocked, ka; rsimpl; simplify_map_eq].
    by eapply ncli_singleton. }
  assert (forall o, kthread_mutex_lock (m_mid m) o k =
    (Sched.sleep (CMutex i) (Some (LMutex i)) ≫= fun _ => lock_tail i) o ka) as Hlock.
  { intros o. rewrite (lock_eq _ o k t th), (find_mid k i m); try done; try lia.
    2:{ split; [|intros j]; unfold unlocked; by rewrite Hlk. }
    2:{ rewrite (find_mid k i m) by (done || lia). intros ? ? [= <- <-] _. eauto. }
    rewrite Hh, !bool_decide_false by congruence. cbn [orb].
    replace (k <| locks ::= <[LMutex i := Me]> |>) with ka by (unfold ka; kernel_eq; by rewrite Hlk).
    by eapply lock_tail_busy. }
  split_and!.
  - intros o Hn. rewrite Hlock. unfold mbind, M_bind. by rewrite (Sched.sleep_waits t th).
  - intros o1 f o2 k1 th1 m1 Hpk Hm1 H0. eexists. split; [rewrite Hlock; unfold mbind, M_bind|].
    + rewrite (Sched.sleep_picked t th th1 _ _ _ _ _ ka k1) by done. destruct (_ =? 0); [|done].
      rewrite (lock_tail_free i m1); try done. unfold locked, Sched.awake. rsimpl. apply lookup_insert_eq.
    + split_and!.
      * rsimpl. by eapply alter_const.
      * unfold unlocked, Sched.awake. rsimpl. apply lookup_delete_eq.
      * transitivity (thread_at (alter_thread t (fun th => th <| t_chan := None |>) (Sched.dispatched t k1)) t);
          [by apply thread_at_ext|]. by rewrite thread_at_alter_eq, (Sched.dispatched_at t k1 th1) by apply Hpk.
  - unfold k0, unlocked, Sched.asleep. rsimpl. rewrite lookup_insert_ne by done. apply lookup_delete_eq.
Qed.

(** C11. Unlocking a mutex the calling thread holds opens it and makes runnable the
    first thread of the caller's own process that sleeps on it, touching no
    other thread: sleepers of other processes stay asleep.  In every other case
    the call returns -1 and changes nothing. *)
Theorem mutex_unlock_spec o k p pr t th i m ht :
  quiet k -> mutex_inv k -> running k p pr t th -> mtable k !! i = Some m -> m_mid m <> 0 ->
  holder_tid k (m_holding m) = Some ht ->
  (m_state m = CLOSE -> ht = t_tid th ->
     exists k', kthread_mutex_unlock (m_mid m) o k = Ok 0 o k' /\
       mtable k' = <[i := given_back m]> (mtable k) /\ mutex_inv k' /\
       (forall q, thread_at k' q = match list_find (asleep_on i) (p_ttable pr) with
          | Some (j, tj) => if decide (q = (p, j)) then Some (tj <| t_state := T_RUNNABLE |>) else thread_at k q
          | None => thread_at k q
          end)) /\
  (m_state m <> CLOSE \/ ht <> t_tid th -> kthread_mutex_unlock (m_mid m) o k = Ok (-1) o k) /\
  (forall id, Forall (fun m => m_mid m <> id) (mtable k) -> kthread_mutex_unlock id o k = Ok (-1) o k).
Proof.
  intros Hq Hi Hr Hm Hz Hh. split_and!.
  - intros Hs ->. edestruct (unlock_own k p pr t th i m) as [Hu Hi']; try done.
    eexists. split_and!; [done| |done|].
    + by rewrite (proj1 (wake_first_frame _ _ _ _)).
    + intros q. rewrite thread_at_wake_first by apply Hr. by rewrite thread_at_set_slot.
  - by eapply unlock_refused.
  - intros id Hid. by eapply unlock_unknown.
Qed.

(** A null holder is followed: on an open mutex the thread's id is compared
    with the word at address 12 of the process.  When they happen to be equal
    the call fails although the mutex is free; when the page is not mapped the
    kernel faults. *)
Theorem mutex_lock_null_holder o k p pr t th i m :
  quiet k -> mutex_inv k -> running k p pr t th -> mtable k !! i = Some m -> m_state m = OPEN ->
  (user_word k offsetof_tid = Some (t_tid th) -> kthread_mutex_lock (m_mid m) o k = Ok (-1) o k) /\
  (user_word k offsetof_tid = None ->
     exists k', kthread_mutex_lock (m_mid m) o k = Fault "null holding" k').
Proof.
  intros Hq Hi [_ _ Ht Hth] Hm Hs. pose proof (mi_slot k Hi i m Hm) as Hok. unfold slot_ok in Hok.
  rewrite Hs in Hok. destruct Hok as (Hmid & _ & _ & Hhold). split.
  - intros Hw. rewrite (lock_eq _ o k t th), (find_mid k i m); try done; try lia.
    + rewrite Hhold. simpl. rewrite Hw, (bool_decide_true (Some _ = Some _)) by done. by rewrite orb_true_r.
    + rewrite (find_mid k i m) by (done || lia). intros ? ? [= <- <-] _. rewrite Hhold. simpl. eauto.
  - intros Hw. destruct Hq as [Hl _]. unfold kthread_mutex_lock. mbind_step. mbind_step. rsimpl.
    rewrite (find_mid k i m) by (done || lia). rewrite bool_decide_false by congruence.
    unfold holding_tid, mbind, M_bind. rewrite Hhold. unfold deref.
    match goal with |- context [user_word ?k1 offsetof_tid] =>
      assert (user_word k1 offsetof_tid = None) as -> by exact Hw end. eauto.
Qed.

(** Allocating a mutex, locking, unlocking and freeing it all succeed, and
    leave the kernel as it was but for the id used up. *)
Theorem mutex_round_trip o k p pr t th i w :
  quiet k -> mutex_inv k -> running k p pr t th -> nextmid k < 2 ^ 31 - 1 ->
  list_find (fun m => m_state m = UNINITIALIZED) (mtable k) = Some (i, zero_mutex) ->
  Forall (fun t => ~ asleep_on i t) (p_ttable pr) ->
  user_word k offsetof_tid = Some w -> w <> t_tid th ->
  (id ← kthread_mutex_alloc; r1 ← kthread_mutex_lock id; r2 ← kthread_mutex_unlock id;
   r3 ← kthread_mutex_dealloc id; mret (id, r1, r2, r3)) o k =
  Ok (nextmid k, 0, 0, 0) o (k <| nextmid := nextmid k + 1 |>).
Proof.
  intros Hq Hi Hr Hn Hf Hsl Hw Hne.
  destruct (alloc_slot o k p pr i) as [Ha Hi1]; try apply Hr; try done.
  apply list_find_Some in Hf as (Hz & _ & _). pose proof (mi_next k Hi).
  set (id := nextmid k) in *. set (op := opened id (p_pid pr)) in *.
  set (k1 := set_slot i op k <| nextmid := id + 1 |>) in *.
  assert (mtable k1 !! i = Some op) as Hm1 by by eapply set_slot_at.
  assert (running k1 p pr t th) as Hr1 by (destruct Hr; by split).
  destruct (lock_open k1 p pr t th i op) with (o := o) (w := w) as [Hl Hi2]; try done; [simpl; lia|].
  set (k2 := set_slot i (taken (Some t) op) k1) in *.
  assert (mtable k2 !! i = Some (taken (Some t) op)) as Hm2 by by eapply set_slot_at.
  assert (running k2 p pr t th) as Hr2 by (destruct Hr; by split).
  destruct (unlock_own k2 p pr t th i (taken (Some t) op)) with (o := o) as [Hu Hi3]; try done.
  { unfold taken; rsimpl; simpl; lia. } { unfold taken. rsimpl. simpl. by rewrite (rn_at _ _ _ _ _ Hr2). }
  assert (wake_first p pr i (set_slot i (given_back (taken (Some t) op)) k2) = k1) as Hk.
  { unfold wake_first. rewrite (proj2 (list_find_None _ _) Hsl). unfold k2. rewrite set_slot_twice.
    by apply set_slot_same. }
  rewrite Hk in Hu, Hi3.
  erewrite bind_ok by exact Ha. erewrite bind_ok by exact Hl. erewrite bind_ok by exact Hu.
  erewrite bind_ok; [|apply (dealloc_slot k1 i op); [done|done|done|simpl; lia]].
  unfold mret, M_ret. f_equal. unfold k1, set_slot. kernel_eq. rewrite list_insert_insert_eq. by apply list_insert_id.
Qed.
End properties.

(** * A table with an unused, an open and two closed mutexes

    The running thread holds the last one; page 0 of its process is mapped. *)
#[local] Existing Instance Kalloc.small_layout.

Definition small_pages : gmap Z (list Z) :=
  <[0x80300000 := <[0%nat := 0x301007]> (replicate NWORDS 0)]>
  (<[0x80301000 := <[0%nat := 0x302005]> (replicate NWORDS 0)]>
  {[0x80302000 := replicate NWORDS 0x90909090]}).
Definition small_mutexes : kernel :=
  Sched.small_kernel <| pages := small_pages |> <| nextmid := 4 |>
    <| mtable := [zero_mutex; opened 1 1; taken (Some (0, 1)%nat) (opened 2 1);
                  taken (Some (0, 0)%nat) (opened 3 1)] |>.

Lemma small_quiet : quiet small_mutexes.
Proof. by split. Qed.

Lemma small_mutex_inv : mutex_inv small_mutexes.
Proof.
  split; [done| |].
  - intros [|[|[|[|i]]]] m [= <-]; try done; split_and!; try done; eauto.
  - intros [|[|[|[|i]]]] [|[|[|[|j]]]] m n [= <-] [= <-]; done.
Qed.

Lemma small_running : running small_mutexes 0 Sched.running_proc (0, 0)%nat Sched.running_thread.
Proof. by split. Qed.

Lemma mutex_alloc_fresh_witness : exists k', kthread_mutex_alloc [] small_mutexes = Ok 4 [] k' /\ mutex_inv k'.
Proof.
  destruct (mutex_alloc_fresh [] small_mutexes _ _ _ _ small_quiet small_mutex_inv small_running)
    as [[H _]|(i & k' & H & _ & _ & _ & Hi & _)]; [reflexivity| |].
  - exfalso. by apply (proj1 (Forall_lookup _ _) H 0%nat _ eq_refl).
  - exists k'. split; [exact H|exact Hi].
Defined.

Lemma mutex_dealloc_spec_witness :
  kthread_mutex_dealloc 2 [] small_mutexes = Ok (-1) [] small_mutexes /\
  kthread_mutex_dealloc 1 [] small_mutexes = Ok 0 [] (set_slot 1 zero_mutex small_mutexes).
Proof.
  split.
  - apply (proj1 (mutex_dealloc_spec [] small_mutexes 2 (taken (Some (0, 1)%nat) (opened 2 1)) small_quiet small_mutex_inv
      eq_refl ltac:(discriminate))).
  - apply (proj1 (mutex_dealloc_spec [] small_mutexes 1 (opened 1 1) small_quiet small_mutex_inv
      eq_refl ltac:(discriminate))).
Defined.

Lemma mutex_lock_free_witness :
  kthread_mutex_lock 1 [] small_mutexes =
    Ok 0 [] (set_slot 1 (taken (Some (0, 0)%nat) (opened 1 1)) small_mutexes).
Proof.
  apply (mutex_lock_free [] small_mutexes 0 Sched.running_proc (0, 0)%nat Sched.running_thread 1 (opened 1 1)
    0x90909090 small_quiet small_mutex_inv small_running); done.
Defined.

Lemma mutex_lock_contended_witness :
  kthread_mutex_lock 2 [] small_mutexes =
    Waiting (Sched.asleep (0, 0)%nat (CMutex 2) (LMutex 2) (small_mutexes <| locks := {[LMutex 2 := Me]} |>)).
Proof.
  apply (mutex_lock_contended small_mutexes 0 Sched.running_proc (0, 0)%nat Sched.running_thread 2
    (taken (Some (0, 1)%nat) (opened 2 1)) 0 eq_refl small_mutex_inv small_running); done.
Defined.

Lemma mutex_unlock_spec_witness :
  exists k', kthread_mutex_unlock 3 [] small_mutexes = Ok 0 [] k' /\
    mtable k' !! 3%nat = Some (opened 3 1).
Proof.
  destruct (mutex_unlock_spec [] small_mutexes 0 Sched.running_proc (0, 0)%nat Sched.running_thread 3
    (taken (Some (0, 0)%nat) (opened 3 1)) 1 small_quiet small_mutex_inv small_running) as [H _]; [done..|].
  destruct H as (k' & H & Hm & _); [done..|]. exists k'. split; [exact H|]. rewrite Hm. reflexivity.
Defined.

(** The same system with the thread's own id at address 12. *)
Definition unlucky_mutexes : kernel :=
  small_mutexes <| pages ::= <[0x80302000 := replicate NWORDS 1]> |>.

Lemma mutex_lock_null_holder_witness :
  kthread_mutex_lock 1 [] unlucky_mutexes = Ok (-1) [] unlucky_mutexes.
Proof.
  apply (mutex_lock_null_holder [] unlucky_mutexes 0 Sched.running_proc (0, 0)%nat Sched.running_thread 1 (opened 1 1));
    try done.
  destruct small_mutex_inv as [H1 H2 H3]. by split.
Defined.

Lemma mutex_round_trip_witness :
  (id ← kthread_mutex_alloc; r1 ← kthread_mutex_lock id; r2 ← kthread_mutex_unlock id;
   r3 ← kthread_mutex_dealloc id; mret (id, r1, r2, r3)) [] small_mutexes =
  Ok (4, 0, 0, 0) [] (small_mutexes <| nextmid := 5 |>).
Proof.
  apply (mutex_round_trip [] small_mutexes 0 Sched.running_proc (0, 0)%nat Sched.running_thread 0 0x90909090
    small_quiet small_mutex_inv small_running); try done.
  by repeat constructor; intros [? ?].
Defined.
End Mutex.
