(* ===== verification/MutexConc.v ===== *)
(** Many threads using one kernel mutex: [kthread_mutex_lock] and
    [kthread_mutex_unlock] (with the [sleep] they call) and
    [kthread_mutex_alloc] interleaved at the points where spin locks are taken
    and released.

    [Module Handoff] is about locking and unlocking: mutual exclusion, who may
    unlock, and the wakeups that get lost.  Threads that are killed while they
    use the mutex ([kill] and [exit] make a sleeper runnable, which then leaves
    [sleep] through [kthread_exit]) are not in this module, and the word that
    [kthread_mutex_lock] reads through a null [holding] is not the id of the caller.
    [Module AllocRace] is about two threads that allocate at the same time. *)

From S2P Require Import Prelude State.

Module Handoff.

(** Where a thread is.  [L...] are the points of [kthread_mutex_lock] and of the
    [sleep] inside its loop, [U...] those of [kthread_mutex_unlock]; the flag of
    a [U] point says whether the thread was in its critical section. *)
Inductive pc : Type :=
| Out                  (* not using the mutex *)
| LWant                (* past the checks, at acquire(&m->mutexLock) *)
| LTest                (* at the xchg *)
| LSleep               (* the xchg failed: in sleep, at acquire(&ptable.lock) *)
| LSwap                (* at release(lk) in sleep *)
| LMark                (* at t->chan = chan; t->state = T_SLEEPING; sched() *)
| LAsleep              (* off the CPU *)
| LBack                (* picked again: at acquire(lk) in sleep *)
| LTaken               (* the xchg succeeded: at m->state = CLOSE; m->holding = mythread() *)
| LLeave               (* at release(&m->mutexLock) *)
| Inside               (* between lock and unlock *)
| UWant (b : bool)     (* at acquire(&m->mutexLock) *)
| UTest (b : bool)     (* at the checks of unlock *)
| UWake (k : nat)      (* the mutex is open again: in the scan of the thread table, at thread k *)
| ULeave.              (* at release(&m->mutexLock) *)

Record state : Type := mkState {
  mutexLock : option nat;     (* the thread holding m->mutexLock *)
  ptableLock : option nat;    (* the thread holding ptable.lock *)
  lock : Z;
  mstate : mutexState;
  holding : option nat;
  sleeping : nat -> bool;     (* T_SLEEPING on the channel m *)
  pcs : nat -> pc }.

Section system.
(** The process a thread belongs to; threads are numbered in table order. *)
Variable proc_of : nat -> nat.
Definition nthreads : nat := NPROC * NTHREAD.

(** The scan of [kthread_mutex_unlock] run by [i] stops at thread [k]. *)
Definition found (i : nat) (sl : nat -> bool) (k : nat) : Prop := proc_of k = proc_of i /\ sl k = true.

Inductive step : state -> state -> Prop :=
| step_lock ml pl lk st h sl f i :
    f i = Out -> st <> UNINITIALIZED -> h <> Some i ->
    step (mkState ml pl lk st h sl f) (mkState ml pl lk st h sl (<[i := LWant]> f))
| step_enter pl lk st h sl f i :
    f i = LWant ->
    step (mkState None pl lk st h sl f) (mkState (Some i) pl lk st h sl (<[i := LTest]> f))
| step_xchg_ok ml pl st h sl f i :
    f i = LTest ->
    step (mkState ml pl 0 st h sl f) (mkState ml pl 1 st h sl (<[i := LTaken]> f))
| step_xchg_fail ml pl lk st h sl f i :
    f i = LTest -> lk <> 0 ->
    step (mkState ml pl lk st h sl f) (mkState ml pl 1 st h sl (<[i := LSleep]> f))
| step_sleep ml lk st h sl f i :
    f i = LSleep ->
    step (mkState ml None lk st h sl f) (mkState ml (Some i) lk st h sl (<[i := LSwap]> f))
| step_swap ml pl lk st h sl f i :
    f i = LSwap ->
    step (mkState ml pl lk st h sl f) (mkState None pl lk st h sl (<[i := LMark]> f))
| step_mark ml pl lk st h sl f i :
    f i = LMark ->
    step (mkState ml pl lk st h sl f) (mkState ml None lk st h (<[i := true]> sl) (<[i := LAsleep]> f))
| step_pick ml lk st h sl f i :
    f i = LAsleep -> sl i = false ->
    step (mkState ml None lk st h sl f) (mkState ml None lk st h sl (<[i := LBack]> f))
| step_back pl lk st h sl f i :
    f i = LBack ->
    step (mkState None pl lk st h sl f) (mkState (Some i) pl lk st h sl (<[i := LTest]> f))
| step_take ml pl lk st h sl f i :
    f i = LTaken ->
    step (mkState ml pl lk st h sl f) (mkState ml pl lk CLOSE (Some i) sl (<[i := LLeave]> f))
| step_leave ml pl lk st h sl f i :
    f i = LLeave ->
    step (mkState ml pl lk st h sl f) (mkState None pl lk st h sl (<[i := Inside]> f))
| step_unlock ml pl lk st h sl f i (b : bool) :
    f i = (if b then Inside else Out) ->
    step (mkState ml pl lk st h sl f) (mkState ml pl lk st h sl (<[i := UWant b]> f))
| step_uenter pl lk st h sl f i b :
    f i = UWant b ->
    step (mkState None pl lk st h sl f) (mkState (Some i) pl lk st h sl (<[i := UTest b]> f))
| step_refuse ml pl lk st h sl f i (b : bool) :
    f i = UTest b -> st <> CLOSE \/ h <> Some i ->
    step (mkState ml pl lk st h sl f) (mkState None pl lk st h sl (<[i := if b then Inside else Out]> f))
| step_open ml pl lk h sl f i b :
    f i = UTest b -> h = Some i ->
    step (mkState ml pl lk CLOSE h sl f) (mkState ml pl 0 OPEN None sl (<[i := UWake 0]> f))
| step_scan ml pl lk st h sl f i k :
    f i = UWake k -> (k < nthreads)%nat -> ~ found i sl k ->
    step (mkState ml pl lk st h sl f) (mkState ml pl lk st h sl (<[i := UWake (S k)]> f))
| step_wake ml pl lk st h sl f i k :
    f i = UWake k -> (k < nthreads)%nat -> found i sl k ->
    step (mkState ml pl lk st h sl f) (mkState ml pl lk st h (<[k := false]> sl) (<[i := ULeave]> f))
| step_nobody ml pl lk st h sl f i k :
    f i = UWake k -> (nthreads <= k)%nat ->
    step (mkState ml pl lk st h sl f) (mkState ml pl lk st h sl (<[i := ULeave]> f))
| step_uleave ml pl lk st h sl f i :
    f i = ULeave ->
    step (mkState ml pl lk st h sl f) (mkState None pl lk st h sl (<[i := Out]> f)).

(** A mutex just allocated, used by nobody. *)
Definition init : state := mkState None None 0 OPEN None (fun _ => false) (fun _ => Out).

(** Points that hold the mutex: from the successful [xchg] to the store that
    clears [lock]. *)
Definition owns (p : pc) : bool :=
  match p with LTaken | LLeave | Inside | UWant true | UTest true => true | _ => false end.
(** Points at which [holding] points to the thread. *)
Definition named (p : pc) : bool :=
  match p with LLeave | Inside | UWant true | UTest true => true | _ => false end.
(** Points that hold [m->mutexLock]. *)
Definition spins (p : pc) : bool :=
  match p with
  | LTest | LSleep | LSwap | LTaken | LLeave | UTest _ | UWake _ | ULeave => true
  | _ => false
  end.

Record inv (s : state) : Prop := {
  inv_spin : forall i, spins (pcs s i) = true <-> mutexLock s = Some i;
  inv_owner : forall i j, owns (pcs s i) = true -> owns (pcs s j) = true -> i = j;
  inv_free : lock s = 0 -> forall i, owns (pcs s i) = false;
  inv_taken : lock s <> 0 -> exists i, owns (pcs s i) = true;
  inv_named : forall i, holding s = Some i <-> named (pcs s i) = true;
  inv_state : mstate s = CLOSE <-> holding s <> None;
  inv_asleep : forall i, sleeping s i = true -> pcs s i = LAsleep }.

Lemma handoff_inv_init : inv init.
Proof. split; simpl; try done; intros; split; done. Qed.

Lemma named_owns p : named p = true -> owns p = true.
Proof. by destruct p as [| | | | | | | | | | |[]|[]|?|]. Qed.

Ltac cases :=
  repeat match goal with
  | |- context [(<[?i := ?x]> ?f) ?j] =>
      destruct (decide (i = j)) as [<-|?];
      [rewrite (fn_lookup_insert f i x)|rewrite (fn_lookup_insert_ne f i j x) by done]
  | H : context [(<[?i := ?x]> ?f) ?j] |- _ =>
      destruct (decide (i = j)) as [<-|?];
      [rewrite (fn_lookup_insert f i x) in H|rewrite (fn_lookup_insert_ne f i j x) in H by done]
  end.

(** What a thread at a given point knows. *)
Ltac at_point f i :=
  match goal with
  | Hi : f i = _, H1 : forall i, spins (f i) = true <-> _, H2 : forall i j, owns (f i) = true -> _,
    H3 : _ -> forall i, owns (f i) = false, H5 : forall i, _ <-> named (f i) = true,
    H7 : forall i, _ -> f i = LAsleep |- _ =>
      pose proof (H1 i) as S1; pose proof (H2 i) as S2; pose proof (fun e => H3 e i) as S3;
      pose proof (H5 i) as S5; pose proof (H7 i) as S7; rewrite Hi in S1, S2, S3, S5, S7; simpl in S1, S2, S3, S5, S7
  end.

Lemma handoff_inv_step s s' : inv s -> step s s' -> inv s'.
Proof.
  intros [H1 H2 H3 H4 H5 H6 H7] Hs.
  destruct Hs; simpl in *; try match goal with b : bool |- _ => destruct b end; at_point f i.
  all: split; simpl; try done.
  all: try solve [intros a; cases; simpl; rewrite ?H1, ?H5; intuition congruence].
  all: try solve [intros a b; cases; simpl; eauto; intuition congruence].
  all: try solve [intros E a; cases; simpl; eauto; intuition congruence].
  all: try solve [intros a; cases; simpl; eauto; intuition congruence].
  all: try solve [intros E; destruct (H4 E) as [a Ha]; exists a; cases; try done; rewrite ?H in Ha; done].
  all: try solve [intuition congruence].
  - intros _. exists i. by rewrite fn_lookup_insert.
  - intros _. destruct (H4 H0) as [a Ha]. exists a. cases; [by rewrite H in Ha|done].
  - intros a. cases; [done|]. split; [congruence|]. intros Hn%named_owns. by rewrite (S2 a) in *.
  - intros _ a. cases; [done|]. destruct (owns (f a)) eqn:E; [|done]. by destruct (S2 a).
  - intros a. cases; [done|]. split; [done|]. intros Hn%named_owns. by destruct (S2 a).
Qed.

Lemma handoff_reachable_inv s : rtc step init s -> inv s.
Proof. apply rtc_invariant; [apply handoff_inv_step|apply handoff_inv_init]. Qed.

(** Runs, for examples: the state after each step is read off the rule. *)
Tactic Notation "run" uconstr(rule) := eapply rtc_l; [eapply rule; done|].

(** A thread asleep on a mutex nobody has, with nobody else doing anything. *)
Definition stranded (i : nat) (s : state) : Prop :=
  lock s = 0 /\ mutexLock s = None /\ ptableLock s = None /\
  pcs s i = LAsleep /\ sleeping s i = true /\ forall j, j <> i -> pcs s j = Out.

(** Such a thread can only be woken by a call somebody else makes later. *)
Lemma stranded_step i s s' :
  stranded i s -> step s s' ->
  sleeping s' i = true /\ pcs s' i = LAsleep /\ exists j, j <> i /\ (pcs s' j = LWant \/ pcs s' j = UWant false).
Proof.
  intros (Hl & Hm & Hp & Hi & Hs & Ho) Hst.
  assert (forall j p, pcs s j = p -> p <> Out -> p <> LAsleep -> False) as Hno.
  { intros j p <- H1 H2. destruct (decide (j = i)) as [->|Hne]; [done|]. by apply H1, Ho. }
  destruct Hst as [? ? ? ? ? ? f j Hj|? ? ? ? ? f j Hj|? ? ? ? ? f j Hj|? ? ? ? ? ? f j Hj|? ? ? ? ? f j Hj|
    ? ? ? ? ? ? f j Hj|? ? ? ? ? ? f j Hj|? ? ? ? ? f j Hj|? ? ? ? ? f j Hj|? ? ? ? ? ? f j Hj|? ? ? ? ? ? f j Hj|
    ? ? ? ? ? ? f j b Hj|? ? ? ? ? f j b Hj|? ? ? ? ? ? f j b Hj|? ? ? ? ? f j b Hj|? ? ? ? ? ? f j k Hj|
    ? ? ? ? ? ? f j k Hj|? ? ? ? ? ? f j k Hj|? ? ? ? ? ? f j Hj]; simpl in *.
  all: try by destruct (Hno _ _ Hj).
  - assert (j <> i) by congruence. rewrite fn_lookup_insert_ne by done. split_and!; try done.
    exists j. rewrite fn_lookup_insert. auto.
  - destruct (decide (j = i)) as [->|]; [congruence|]. by rewrite Ho in Hj.
  - destruct b; [by destruct (Hno _ _ Hj)|]. assert (j <> i) by congruence.
    rewrite fn_lookup_insert_ne by done. split_and!; try done.
    exists j. rewrite fn_lookup_insert. auto.
Qed.

(** C12. A mutex has at most one owner: no two threads are between a successful
    [xchg] and the store that clears the lock.  [holding] names the owner when
    it comes to unlock, so its [kthread_mutex_unlock] passes the checks and that
    of any other thread does not; and a thread that tries a mutex without an
    owner gets it. *)
Theorem handoff_mutual_exclusion s :
  rtc step init s ->
  (forall i j, owns (pcs s i) = true -> owns (pcs s j) = true -> i = j) /\
  (forall i, pcs s i = UTest true -> holding s = Some i /\ mstate s = CLOSE) /\
  (forall i, pcs s i = UTest false -> holding s <> Some i) /\
  (forall i, pcs s i = LTest -> (forall j, owns (pcs s j) = false) -> lock s = 0).
Proof.
  intros Hr. destruct (handoff_reachable_inv s Hr) as [H1 H2 H3 H4 H5 H6 H7]. split_and!; [done| | |].
  - intros i Hi. assert (holding s = Some i) as Hh by (by apply H5; rewrite Hi). split; [done|]. apply H6. congruence.
  - intros i Hi Hh%H5. by rewrite Hi in Hh.
  - intros i _ Hn. destruct (decide (lock s = 0)) as [|Hl]; [done|]. destruct (H4 Hl) as [j Hj]. by rewrite Hn in Hj.
Qed.

(** A scan that finds nobody goes through the table. *)
Lemma scan_all ml pl lk st h sl f i :
  f i = UWake 0 -> (forall j, sl j = false) ->
  exists f', rtc step (mkState ml pl lk st h sl f) (mkState ml pl lk st h sl f') /\
    f' i = UWake nthreads /\ forall j, j <> i -> f' j = f j.
Proof.
  intros Hf Hsl. enough (forall n, (n <= nthreads)%nat -> exists f', rtc step (mkState ml pl lk st h sl f) (mkState ml pl lk st h sl f') /\
    f' i = UWake n /\ forall j, j <> i -> f' j = f j) as Hn by by apply (Hn nthreads).
  induction n as [|n IH]; intros Hle; [by exists f; split_and!; [apply rtc_refl|..]|].
  destruct (IH ltac:(lia)) as (f' & Hr & Hi & Hj). exists (<[i := UWake (S n)]> f'). split_and!.
  - eapply rtc_r; [exact Hr|]. apply step_scan; [done|lia|]. intros [_ H]. by rewrite Hsl in H.
  - apply fn_lookup_insert.
  - intros j Hne. rewrite fn_lookup_insert_ne by done. by apply Hj.
Qed.

(** Thread 0 is about to look for sleepers while thread 1, which has released the spin
    lock of the mutex, is not yet marked. *)
Lemma overlooked :
  exists f, rtc step init (mkState (Some 0%nat) (Some 1%nat) 0 OPEN None (fun _ => false) f) /\
    f 0%nat = UWake 0 /\ f 1%nat = LMark /\ forall j, j <> 0%nat -> j <> 1%nat -> f j = Out.
Proof.
  eexists. split.
  - unfold init.
    run (step_lock _ _ _ _ _ _ _ 0). run (step_enter _ _ _ _ _ _ 0). run (step_xchg_ok _ _ _ _ _ _ 0).
    run (step_take _ _ _ _ _ _ _ 0). run (step_leave _ _ _ _ _ _ _ 0). run (step_lock _ _ _ _ _ _ _ 1).
    run (step_enter _ _ _ _ _ _ 1). run (step_xchg_fail _ _ _ _ _ _ _ 1). run (step_sleep _ _ _ _ _ _ 1).
    run (step_swap _ _ _ _ _ _ _ 1). run (step_unlock _ _ _ _ _ _ _ 0 true). run (step_uenter _ _ _ _ _ _ 0 true).
    run (step_open _ _ _ _ _ _ 0 true). apply rtc_refl.
  - split_and!; [done|done|]. by intros [|[|j]].
Qed.

(** C30. [kthread_mutex_unlock] looks for sleepers without holding [ptable.lock].
    A thread that has released the mutex's spin lock inside [sleep] and is not
    yet marked asleep is overlooked, and then sleeps on a free mutex until some
    other thread happens to use it. *)
Theorem lost_wakeup :
  exists s, rtc step init s /\ stranded 1 s /\
    forall s', step s s' ->
      sleeping s' 1%nat = true /\ exists j, j <> 1%nat /\ (pcs s' j = LWant \/ pcs s' j = UWant false).
Proof.
  destruct overlooked as (f & Hr & H0 & H1 & Hj).
  destruct (scan_all (Some 0%nat) (Some 1%nat) 0 OPEN None (fun _ => false) f 0 H0) as (f' & Hr' & H0' & Hj'); [done|].
  set (f2 := <[0%nat := Out]> (<[0%nat := ULeave]> f')).
  assert (f2 1%nat = LMark) as Hm by (unfold f2; rewrite !fn_lookup_insert_ne, Hj' by done; done).
  exists (mkState None None 0 OPEN None (<[1%nat := true]> (fun _ => false)) (<[1%nat := LAsleep]> f2)).
  assert (stranded 1 (mkState None None 0 OPEN None (<[1%nat := true]> (fun _ => false)) (<[1%nat := LAsleep]> f2))) as Hs.
  { split_and!; try done. intros j Hne. simpl. rewrite fn_lookup_insert_ne by done. unfold f2.
    destruct (decide (j = 0%nat)) as [->|Hz]; [apply fn_lookup_insert|]. rewrite !fn_lookup_insert_ne, Hj' by done. by apply Hj. }
  split_and!; [|done|].
  - etransitivity; [exact Hr|]. etransitivity; [exact Hr'|].
    eapply rtc_l; [by apply (step_nobody _ _ _ _ _ _ _ 0 nthreads)|].
    eapply rtc_l; [apply (step_uleave _ _ _ _ _ _ _ 0), fn_lookup_insert|].
    eapply rtc_l; [by apply (step_mark _ _ _ _ _ _ _ 1)|]. apply rtc_refl.
  - intros s' Hst. destruct (stranded_step _ _ _ Hs Hst) as (? & _ & ?). done.
Qed.

Lemma sleeper_step i s s' :
  (forall j, j <> i -> proc_of j <> proc_of i) -> inv s -> sleeping s i = true -> step s s' -> sleeping s' i = true.
Proof.
  intros Hp Hi Hs Hst. pose proof (inv_asleep s Hi i Hs) as Hpc. destruct Hst; simpl in *; try done.
  - cases; done.
  - match goal with H : found _ _ _ |- _ => destruct H as (Hj & _) end.
    destruct (decide (k = i)) as [->|Hne]; [|by rewrite fn_lookup_insert_ne].
    destruct (decide (i = i0)) as [<-|Hne]; [congruence|]. by destruct (Hp i0).
Qed.

(** [kthread_mutex_unlock] only looks at the threads of its own process: a
    thread that is alone in its process and goes to sleep on a mutex held by
    another process is never woken by an unlock. *)
Theorem lone_sleeper_never_woken i s s' :
  (forall j, j <> i -> proc_of j <> proc_of i) ->
  rtc step init s -> sleeping s i = true -> rtc step s s' -> sleeping s' i = true /\ pcs s' i = LAsleep.
Proof.
  intros Hp Hr Hs Hrun.
  assert (inv s' /\ sleeping s' i = true) as [Hi Hs'].
  { eapply (rtc_invariant step (fun s => inv s /\ sleeping s i = true)); [|split; [by apply handoff_reachable_inv|done]|done].
    intros a b [Ha Hsa] Hab. split; [by eapply handoff_inv_step|by eapply sleeper_step]. }
  split; [done|]. by apply (inv_asleep s' Hi).
Qed.

(** Thread 0 in its critical section, thread 1 of another process asleep. *)
Lemma sleeper_reachable :
  exists s, rtc step init s /\ owns (pcs s 0%nat) = true /\ sleeping s 1%nat = true.
Proof.
  eexists. split.
  - unfold init.
    run (step_lock _ _ _ _ _ _ _ 0). run (step_enter _ _ _ _ _ _ 0). run (step_xchg_ok _ _ _ _ _ _ 0).
    run (step_take _ _ _ _ _ _ _ 0). run (step_leave _ _ _ _ _ _ _ 0). run (step_lock _ _ _ _ _ _ _ 1).
    run (step_enter _ _ _ _ _ _ 1). run (step_xchg_fail _ _ _ _ _ _ _ 1). run (step_sleep _ _ _ _ _ _ 1).
    run (step_swap _ _ _ _ _ _ _ 1). run (step_mark _ _ _ _ _ _ _ 1). apply rtc_refl.
  - done.
Qed.

End system.

Lemma handoff_mutual_exclusion_witness :
  exists s, rtc (step id) init s /\ owns (pcs s 0%nat) = true /\ owns (pcs s 1%nat) = false.
Proof.
  destruct (sleeper_reachable id) as (s & Hr & Ho & _). exists s. split; [exact Hr|]. split; [exact Ho|].
  destruct (handoff_mutual_exclusion id s Hr) as (H & _).
  destruct (owns (pcs s 1%nat)) eqn:E; [|reflexivity]. discriminate (H 0%nat 1%nat Ho E).
Defined.

Lemma lone_sleeper_never_woken_witness :
  exists s, rtc (step id) init s /\ forall s', rtc (step id) s s' -> sleeping s' 1%nat = true.
Proof.
  destruct (sleeper_reachable id) as (s & Hr & _ & Hs). exists s. split; [exact Hr|]. intros s' Hrun.
  apply (lone_sleeper_never_woken id 1 s s'); [|exact Hr|exact Hs|exact Hrun].
  intros j Hj. exact Hj.
Defined.
End Handoff.

Module AllocRace.

(** Where a thread is in [kthread_mutex_alloc], as far as one slot is concerned. *)
Inductive pc : Type :=
| Out
| Scan                 (* holds mtable.lock, looking at the slot *)
| Found                (* the slot was unused: at acquire(&mutexLock) *)
| Got                  (* holds both locks: at release(&mtable.lock) *)
| Fill                 (* holds mutexLock: at the assignments *)
| Read                 (* released everything: at return mtable.mutex[i].mid *)
| Done (id : Z)        (* returned id *)
| Full.                (* the slot was in use: at the next slot *)

Record state : Type := mkState {
  mtableLock : option nat;
  mutexLock : option nat;
  slot : mutexState;
  mid : Z;
  nextmid : Z;
  pcs : nat -> pc }.

Inductive step : state -> state -> Prop :=
| step_call xl st m n f i :
    f i = Out -> step (mkState None xl st m n f) (mkState (Some i) xl st m n (<[i := Scan]> f))
| step_found ml xl m n f i :
    f i = Scan ->
    step (mkState ml xl UNINITIALIZED m n f) (mkState ml xl UNINITIALIZED m n (<[i := Found]> f))
| step_full ml xl st m n f i :
    f i = Scan -> st <> UNINITIALIZED ->
    step (mkState ml xl st m n f) (mkState None xl st m n (<[i := Full]> f))
| step_acquire ml st m n f i :
    f i = Found -> step (mkState ml None st m n f) (mkState ml (Some i) st m n (<[i := Got]> f))
| step_release ml xl st m n f i :
    f i = Got -> step (mkState ml xl st m n f) (mkState None xl st m n (<[i := Fill]> f))
| step_fill ml xl st m n f i :
    f i = Fill -> step (mkState ml xl st m n f) (mkState ml None OPEN n (s32 (n + 1)) (<[i := Read]> f))
| step_return ml xl st m n f i :
    f i = Read -> step (mkState ml xl st m n f) (mkState ml xl st m n (<[i := Done m]> f)).

Definition init (n : Z) : state := mkState None None UNINITIALIZED 0 n (fun _ => Out).

(** C31. [kthread_mutex_alloc] gives up [mtable.lock] before it marks the slot in
    use.  Two threads that allocate at the same time can both be given the same
    slot, and even return the same id. *)
Theorem alloc_race n :
  exists s, rtc step (init n) s /\ pcs s 0%nat = Done (s32 (n + 1)) /\ pcs s 1%nat = Done (s32 (n + 1)).
Proof.
  eexists. split.
  - unfold init.
    eapply rtc_l; [by apply (step_call _ _ _ _ _ 0)|]. eapply rtc_l; [by apply (step_found _ _ _ _ _ 0)|].
    eapply rtc_l; [by apply (step_acquire _ _ _ _ _ 0)|]. eapply rtc_l; [by apply (step_release _ _ _ _ _ _ 0)|].
    eapply rtc_l; [by apply (step_call _ _ _ _ _ 1)|]. eapply rtc_l; [by apply (step_found _ _ _ _ _ 1)|].
    eapply rtc_l; [by apply (step_fill _ _ _ _ _ _ 0)|].
    eapply rtc_l; [by apply (step_acquire _ _ _ _ _ 1)|]. eapply rtc_l; [by apply (step_release _ _ _ _ _ _ 1)|].
    eapply rtc_l; [by apply (step_fill _ _ _ _ _ _ 1)|].
    eapply rtc_l; [by apply (step_return _ _ _ _ _ _ 0)|]. eapply rtc_l; [by apply (step_return _ _ _ _ _ _ 1)|].
    apply rtc_refl.
  - done.
Qed.
End AllocRace.
