(* ===== verification/KString.v ===== *)
(** The string and memory functions of the kernel (string.c) and of user programs
    (ulib.c), on byte-addressed memory. *)

From S2P Require Import Prelude.

(** Memory as bytes; a store replaces one byte. *)
Abbreviation bytes := (Z -> Z).
Definition put (m : bytes) (a v : Z) : bytes := fun x => if x =? a then v else m x.

Lemma put_same m a v : put m a v a = v.
Proof. unfold put. by rewrite Z.eqb_refl. Qed.
Lemma put_other m a v x : x <> a -> put m a v x = m x.
Proof. unfold put. by destruct (Z.eqb_spec x a). Qed.

(** [rep stosb] and [rep stosl]. *)
Fixpoint stosb (m : bytes) (a data : Z) (cnt : nat) : bytes :=
  match cnt with O => m | S n => stosb (put m a (u8 data)) (a + 1) data n end.
Definition put_word (m : bytes) (a w : Z) : bytes :=
  put (put (put (put m a (u8 w)) (a + 1) (u8 (Z.shiftr w 8))) (a + 2) (u8 (Z.shiftr w 16))) (a + 3) (u8 (Z.shiftr w 24)).
Fixpoint stosl (m : bytes) (a data : Z) (cnt : nat) : bytes :=
  match cnt with O => m | S n => stosl (put_word m a data) (a + 4) data n end.

(** A region filled with one value. *)
Lemma stosb_at m a data n x :
  stosb m a data n x = if (a <=? x) && (x <? a + Z.of_nat n) then u8 data else m x.
Proof.
  revert m a. induction n as [|n IH]; intros m a; cbn [stosb].
  - destruct (Z.leb_spec a x), (Z.ltb_spec x (a + Z.of_nat 0)); simpl; done || lia.
  - rewrite IH. unfold put.
    destruct (Z.leb_spec (a + 1) x), (Z.ltb_spec x (a + 1 + Z.of_nat n)), (Z.leb_spec a x),
      (Z.ltb_spec x (a + Z.of_nat (S n))), (Z.eqb_spec x a); simpl; done || lia.
Qed.

Module KString.

Definition memset (m : bytes) (dst c : Z) (n : nat) : bytes :=
  if (Z.rem (s32 dst) 4 =? 0) && (n mod 4 =? 0)%nat then
    let c := Z.land c 0xFF in
    stosl m dst (Z.lor (Z.lor (Z.lor (Z.shiftl c 24) (Z.shiftl c 16)) (Z.shiftl c 8)) c) (n / 4)
  else stosb m dst c n.

Fixpoint memcmp (m : bytes) (s1 s2 : Z) (n : nat) : Z :=
  match n with
  | O => 0
  | S n' => if negb (m s1 =? m s2) then m s1 - m s2 else memcmp m (s1 + 1) (s2 + 1) n'
  end.

(** [while(n-- > 0) *--d = *--s;] and [while(n-- > 0) *d++ = *s++;] *)
Fixpoint copy_down (m : bytes) (d s : Z) (n : nat) : bytes :=
  match n with O => m | S n' => copy_down (put m (d - 1) (m (s - 1))) (d - 1) (s - 1) n' end.
Fixpoint copy_up (m : bytes) (d s : Z) (n : nat) : bytes :=
  match n with O => m | S n' => copy_up (put m d (m s)) (d + 1) (s + 1) n' end.

Definition memmove (m : bytes) (dst src : Z) (n : nat) : bytes :=
  if (src <? dst) && (dst <? src + Z.of_nat n)
  then copy_down m (dst + Z.of_nat n) (src + Z.of_nat n) n
  else copy_up m dst src n.

Definition memcpy (m : bytes) (dst src : Z) (n : nat) : bytes := memmove m dst src n.

Fixpoint strncmp (m : bytes) (p q : Z) (n : nat) : Z :=
  match n with
  | O => 0
  | S n' => if negb (m p =? 0) && (m p =? m q) then strncmp m (p + 1) (q + 1) n'
            else u8 (m p) - u8 (m q)
  end.

(** [while(n-- > 0) *s++ = 0;] *)
Fixpoint pad (m : bytes) (s : Z) (n : nat) : bytes :=
  match n with O => m | S n' => pad (put m s 0) (s + 1) n' end.

Fixpoint strncpy (m : bytes) (s t : Z) (n : nat) : bytes :=
  match n with
  | O => m
  | S n' =>
      let c := m t in
      let m := put m s c in
      if c =? 0 then pad m (s + 1) n' else strncpy m (s + 1) (t + 1) n'
  end.

(** The loop of [safestrcpy], with [--n] done: up to [n] bytes are copied, and a
    NUL is stored where the loop stops. *)
Fixpoint safestrcpy_loop (m : bytes) (s t : Z) (n : nat) : bytes :=
  match n with
  | O => put m s 0
  | S n' =>
      let c := m t in
      let m := put m s c in
      if c =? 0 then put m (s + 1) 0 else safestrcpy_loop m (s + 1) (t + 1) n'
  end.
Definition safestrcpy (m : bytes) (s t : Z) (n : Z) : bytes :=
  if n <=? 0 then m else safestrcpy_loop m s t (Z.to_nat (n - 1)).

(** [for(n = 0; s[n]; n++)]; [None] when no NUL is found within the fuel. *)
Fixpoint strlen (fuel : nat) (m : bytes) (s : Z) : option Z :=
  match fuel with
  | O => None
  | S f => if m s =? 0 then Some 0 else Z.succ <$> strlen f m (s + 1)
  end.

(** * Copying *)

Lemma copy_up_at m d s n x :
  ~ (s < d < s + Z.of_nat n) ->
  copy_up m d s n x = if (d <=? x) && (x <? d + Z.of_nat n) then m (s + (x - d)) else m x.
Proof.
  revert m d s. induction n as [|n IH]; intros m d s Hov; cbn [copy_up].
  - destruct (Z.leb_spec d x), (Z.ltb_spec x (d + Z.of_nat 0)); simpl; done || lia.
  - rewrite IH by lia.
    destruct (Z.leb_spec (d + 1) x), (Z.ltb_spec x (d + 1 + Z.of_nat n)), (Z.leb_spec d x),
      (Z.ltb_spec x (d + Z.of_nat (S n))); simpl; try lia.
    + rewrite put_other by lia. f_equal. lia.
    + by rewrite put_other by lia.
    + assert (x = d) as -> by lia. rewrite put_same. f_equal. lia.
    + by rewrite put_other by lia.
Qed.

Lemma copy_down_at m d s n x :
  ~ (d < s < d + Z.of_nat n) ->
  copy_down m (d + Z.of_nat n) (s + Z.of_nat n) n x =
    if (d <=? x) && (x <? d + Z.of_nat n) then m (s + (x - d)) else m x.
Proof.
  revert m. induction n as [|n IH]; intros m Hov; cbn [copy_down].
  - destruct (Z.leb_spec d x), (Z.ltb_spec x (d + Z.of_nat 0)); simpl; done || lia.
  - replace (d + Z.of_nat (S n) - 1) with (d + Z.of_nat n) by lia.
    replace (s + Z.of_nat (S n) - 1) with (s + Z.of_nat n) by lia. rewrite IH by lia.
    destruct (Z.leb_spec d x), (Z.ltb_spec x (d + Z.of_nat n)), (Z.ltb_spec x (d + Z.of_nat (S n))); simpl; try lia.
    + by rewrite put_other by lia.
    + assert (x = d + Z.of_nat n) as -> by lia. rewrite put_same. f_equal. lia.
    + by rewrite put_other by lia.
    + by rewrite put_other by lia.
Qed.

Lemma memmove_at m dst src n x :
  memmove m dst src n x =
    if (dst <=? x) && (x <? dst + Z.of_nat n) then m (src + (x - dst)) else m x.
Proof.
  unfold memmove. destruct (Z.ltb_spec src dst), (Z.ltb_spec dst (src + Z.of_nat n)); simpl;
    (apply copy_down_at || apply copy_up_at); lia.
Qed.

Lemma copy_up_below m d s n x : x < d -> copy_up m d s n x = m x.
Proof.
  revert m d s. induction n as [|n IH]; intros m d s Hx; simpl; [done|].
  rewrite IH by lia. apply put_other. lia.
Qed.

(** [memmove] copies the [n] bytes at [src], as they were, to [dst] and leaves
    every other byte alone, however the two regions overlap. *)
Theorem memmove_correct m dst src n x :
  memmove m dst src n x =
    if (dst <=? x) && (x <? dst + Z.of_nat n) then m (src + (x - dst)) else m x.
Proof. apply memmove_at. Qed.

(** * Filling *)

Lemma put_word_at m a w x :
  put_word m a w x =
    if (a <=? x) && (x <? a + 4) then u8 (Z.shiftr w (8 * (x - a))) else m x.
Proof.
  unfold put_word, put.
  destruct (Z.leb_spec a x), (Z.ltb_spec x (a + 4)), (Z.eqb_spec x (a + 3)), (Z.eqb_spec x (a + 2)),
    (Z.eqb_spec x (a + 1)), (Z.eqb_spec x a); simpl; try lia; try done; subst; by rewrite ?Z.sub_diag, ?Z.add_simpl_l.
Qed.

Lemma stosl_at m a data n x :
  stosl m a data n x =
    if (a <=? x) && (x <? a + 4 * Z.of_nat n) then u8 (Z.shiftr data (8 * ((x - a) mod 4))) else m x.
Proof.
  revert m a. induction n as [|n IH]; intros m a; cbn [stosl].
  - destruct (Z.leb_spec a x), (Z.ltb_spec x (a + 4 * Z.of_nat 0)); simpl; done || lia.
  - rewrite IH, put_word_at.
    destruct (Z.leb_spec (a + 4) x), (Z.ltb_spec x (a + 4 + 4 * Z.of_nat n)), (Z.leb_spec a x), (Z.ltb_spec x (a + 4)),
      (Z.ltb_spec x (a + 4 * Z.of_nat (S n))); simpl; try lia; try done.
    + replace (x - a) with (x - (a + 4) + 1 * 4) by lia. by rewrite Z.mod_add.
    + rewrite (Z.mod_small (x - a)) by lia. done.
Qed.

(** Every byte of the repeated word is the byte. *)
Lemma repeated_byte c i : 0 <= i < 4 ->
  u8 (Z.shiftr (Z.lor (Z.lor (Z.lor (Z.shiftl (Z.land c 0xFF) 24) (Z.shiftl (Z.land c 0xFF) 16))
                 (Z.shiftl (Z.land c 0xFF) 8)) (Z.land c 0xFF)) (8 * i)) = u8 c.
Proof.
  intros Hi. unfold u8. change 256 with (2 ^ 8). rewrite <- !Z.land_ones by lia. change 0xFF with (Z.ones 8).
  apply Z.bits_inj'. intros n Hn.
  rewrite !Z.land_spec, Z.shiftr_spec, !Z.lor_spec, !Z.shiftl_spec, !Z.land_spec by lia.
  destruct (decide (n < 8)) as [Hlt|Hge].
  - rewrite (Z.ones_spec_low 8 n), !andb_true_r by lia.
    assert (i = 0 \/ i = 1 \/ i = 2 \/ i = 3) as [->|[->|[->| ->]]] by lia; simpl (8 * _); rewrite ?Z.add_0_r.
    all: repeat match goal with
      | |- context [Z.testbit (Z.ones 8) ?e] =>
          first [ rewrite (Z.ones_spec_low 8 e) by lia | rewrite (Z.ones_spec_high 8 e) by lia
                | rewrite (Z.testbit_neg_r (Z.ones 8) e) by lia ]
      end.
    all: rewrite ?andb_true_r, ?andb_false_r, ?orb_false_r, ?orb_false_l; f_equal; lia.
  - rewrite (Z.ones_spec_high 8 n), !andb_false_r by lia. done.
Qed.

(** [memset] stores the low byte of [c] in exactly the [n] bytes at [dst]: the
    word-at-a-time path taken for aligned regions and the byte path agree. *)
Theorem memset_correct m dst c n x :
  memset m dst c n x = if (dst <=? x) && (x <? dst + Z.of_nat n) then u8 c else m x.
Proof.
  unfold memset. destruct (Z.rem (s32 dst) 4 =? 0); cbn [andb]; [|apply stosb_at].
  destruct (Nat.eqb_spec (n mod 4) 0) as [Hn|]; [|apply stosb_at].
  rewrite stosl_at. replace (4 * Z.of_nat (n / 4)) with (Z.of_nat n) by (pose proof (Nat.div_mod_eq n 4); lia).
  case_match; [|done]. apply repeated_byte. apply Z.mod_pos_bound. lia.
Qed.

(** * Strings *)

(** The NUL-terminated string at an address. *)
Fixpoint cstring (m : bytes) (s : Z) (l : list Z) : Prop :=
  match l with
  | [] => m s = 0
  | b :: l' => m s = b /\ 0 < b < 256 /\ cstring m (s + 1) l'
  end.

Lemma cstring_ext m m' s l :
  (forall i, 0 <= i <= Z.of_nat (length l) -> m' (s + i) = m (s + i)) -> cstring m s l -> cstring m' s l.
Proof.
  revert s. induction l as [|b l IH]; simpl; intros s Heq Hs.
  - specialize (Heq 0 ltac:(lia)). rewrite Z.add_0_r in Heq. congruence.
  - destruct Hs as (Hb & Hr & Hs). split_and!; [|lia|lia|].
    + specialize (Heq 0 ltac:(lia)). rewrite Z.add_0_r in Heq. congruence.
    + apply IH; [|done]. intros i Hi. specialize (Heq (i + 1) ltac:(lia)).
      replace (s + 1 + i) with (s + (i + 1)) by lia. done.
Qed.

Lemma cstring_at m s l i : cstring m s l -> (i <= length l)%nat -> m (s + Z.of_nat i) = nth i l 0.
Proof.
  revert s i. induction l as [|b l IH]; simpl; intros s i Hs Hi.
  - assert (i = 0%nat) as -> by lia. by rewrite Z.add_0_r.
  - destruct Hs as (Hb & _ & Hs), i as [|i]; [by rewrite Z.add_0_r|].
    rewrite <- (IH (s + 1)) by (done || lia). f_equal. lia.
Qed.

(** The order of strings that [strncmp] computes. *)
Fixpoint cmp (l1 l2 : list Z) : Z :=
  match l1, l2 with
  | [], [] => 0
  | [], b :: _ => - b
  | a :: _, [] => a
  | a :: l1', b :: l2' => if a =? b then cmp l1' l2' else a - b
  end.

Lemma strncmp_cmp m p q l1 l2 n :
  cstring m p l1 -> cstring m q l2 -> strncmp m p q n = cmp (take n l1) (take n l2).
Proof.
  revert p q l1 l2. induction n as [|n IH]; intros p q l1 l2; [done|].
  destruct l1 as [|a l1], l2 as [|b l2]; simpl.
  - intros -> ->. done.
  - intros -> (-> & Hb & _). simpl. unfold u8. rewrite !Z.mod_small by lia. lia.
  - intros (-> & Ha & _) ->. destruct (Z.eqb_spec a 0); [lia|]; simpl.
    unfold u8. rewrite !Z.mod_small by lia. lia.
  - intros (-> & Ha & H1) (-> & Hb & H2). destruct (Z.eqb_spec a 0); [lia|]; simpl.
    destruct (Z.eqb_spec a b); [by apply IH|]. unfold u8. by rewrite !Z.mod_small by lia.
Qed.

Lemma cmp_zero l1 l2 :
  (forall b, b ∈ l1 ++ l2 -> 0 < b) -> cmp l1 l2 = 0 <-> l1 = l2.
Proof.
  revert l2. induction l1 as [|a l1 IH]; intros [|b l2] Hpos; simpl; [done|..].
  - pose proof (Hpos b ltac:(by left)). split; [lia|done].
  - pose proof (Hpos a ltac:(by left)). split; [lia|done].
  - destruct (Z.eqb_spec a b) as [->|Hne].
    + rewrite IH; [split; congruence|]. intros c Hc. apply Hpos. simpl. rewrite elem_of_cons, elem_of_app in *.
      rewrite elem_of_cons. tauto.
    + split; [lia|congruence].
Qed.

Lemma cstring_pos m s l b : cstring m s l -> b ∈ l -> 0 < b.
Proof.
  revert s. induction l as [|c l IH]; simpl; intros s Hs Hb; [by apply elem_of_nil in Hb|].
  destruct Hs as (_ & Hc & Hs). apply elem_of_cons in Hb as [->|Hb]; [lia|by eapply IH].
Qed.

(** On two NUL-terminated strings [strncmp] returns the difference of the first
    unequal bytes among the first [n] (the shorter string ending in NUL), and so 0
    exactly when the strings agree up to their first [n] bytes. *)
Theorem strncmp_correct m p q l1 l2 n :
  cstring m p l1 -> cstring m q l2 ->
  strncmp m p q n = cmp (take n l1) (take n l2)
  /\ (strncmp m p q n = 0 <-> take n l1 = take n l2).
Proof.
  intros H1 H2. rewrite (strncmp_cmp m p q l1 l2 n H1 H2). split; [done|]. apply cmp_zero.
  intros b [Hb|Hb]%elem_of_app; [eapply (cstring_pos m p)|eapply (cstring_pos m q)];
    try done; by eapply subseteq_take.
Qed.

(** Memory that holds two strings, at 100 and at 200. *)
Definition two_strings : bytes := fun x =>
  match x with 100 | 200 => 97 | 101 | 201 => 98 | 102 => 99 | _ => 0 end.

Lemma strncmp_correct_witness :
  strncmp two_strings 100 200 2 = 0 /\ strncmp two_strings 100 200 3 = 99.
Proof.
  destruct (strncmp_correct two_strings 100 200 [97; 98; 99] [97; 98] 2) as (_ & H2);
    [cbn; repeat split..|].
  destruct (strncmp_correct two_strings 100 200 [97; 98; 99] [97; 98] 3) as (H3 & _);
    [cbn; repeat split..|].
  split; [by apply H2|by rewrite H3].
Defined.

Lemma safestrcpy_loop_spec m s t l n :
  cstring m t l -> s + Z.of_nat n < t \/ t + Z.of_nat (length l) < s ->
  cstring (safestrcpy_loop m s t n) s (take n l)
  /\ (forall x, ~ s <= x <= s + Z.of_nat n -> safestrcpy_loop m s t n x = m x).
Proof.
  revert m s t l. induction n as [|n IH]; intros m s t l Ht Hd; cbn [safestrcpy_loop].
  { split; [apply put_same|]. intros x Hx. apply put_other. lia. }
  destruct l as [|b l]; cbn [take cstring length] in *.
  { rewrite Ht, Z.eqb_refl. split.
    - rewrite put_other by lia. apply put_same.
    - intros x Hx. by rewrite !put_other by lia. }
  destruct Ht as (Hb & Hr & Ht). rewrite Hb. destruct (Z.eqb_spec b 0); [lia|].
  destruct (IH (put m s b) (s + 1) (t + 1) l) as (IH1 & IH2).
  { eapply cstring_ext; [|done]. intros i Hi. apply put_other. lia. }
  { lia. }
  split.
  - split_and!; [|lia|lia|done]. rewrite IH2 by lia. apply put_same.
  - intros x Hx. rewrite IH2 by lia. apply put_other. lia.
Qed.

(** [safestrcpy] leaves at [s] the longest prefix of the string at [t] that fits
    in [n] bytes with its NUL, always NUL-terminated, and writes nothing outside
    those [n] bytes. *)
Theorem safestrcpy_correct m s t l n :
  0 < n -> cstring m t l -> s + n <= t \/ t + Z.of_nat (length l) < s ->
  cstring (safestrcpy m s t n) s (take (Z.to_nat (n - 1)) l)
  /\ (forall x, ~ s <= x < s + n -> safestrcpy m s t n x = m x).
Proof.
  intros Hn Ht Hd. unfold safestrcpy. destruct (Z.leb_spec n 0); [lia|].
  destruct (safestrcpy_loop_spec m s t l (Z.to_nat (n - 1)) Ht ltac:(lia)) as (H1 & H2).
  split; [done|]. intros x Hx. apply H2. lia.
Qed.

Lemma safestrcpy_correct_witness :
  cstring (safestrcpy two_strings 300 100 3) 300 [97; 98].
Proof.
  apply (safestrcpy_correct two_strings 300 100 [97; 98; 99] 3); [lia|cbn; repeat split|].
  simpl. lia.
Defined.

Lemma strlen_spec fuel m s l :
  cstring m s l -> (length l < fuel)%nat -> strlen fuel m s = Some (Z.of_nat (length l)).
Proof.
  revert s l. induction fuel as [|fuel IH]; intros s l Hs Hf; [lia|]. simpl.
  destruct l as [|b l]; simpl in *; [by rewrite Hs|]. destruct Hs as (-> & Hb & Hs).
  destruct (Z.eqb_spec b 0); [lia|]. rewrite (IH _ l) by (done || lia). simpl. f_equal. lia.
Qed.

Lemma pad_at m s n x : pad m s n x = if (s <=? x) && (x <? s + Z.of_nat n) then 0 else m x.
Proof.
  transitivity (stosb m s 0 n x).
  - revert m s. induction n as [|n IH]; intros m s; [done|]. apply IH.
  - apply stosb_at.
Qed.

(** [strncpy] copies the string and pads with NULs: directory entries compare by
    their whole name field. *)
Lemma strncpy_spec m s t l n :
  cstring m t l -> s + Z.of_nat n <= t \/ t + Z.of_nat (length l) < s ->
  (forall i, (i < n)%nat -> strncpy m s t n (s + Z.of_nat i) = nth i l 0)
  /\ (forall x, ~ s <= x < s + Z.of_nat n -> strncpy m s t n x = m x).
Proof.
  revert m s t l. induction n as [|n IH]; intros m s t l Ht Hd; cbn [strncpy].
  { split; [lia|done]. }
  destruct l as [|b l]; cbn [cstring length] in *.
  { rewrite Ht, Z.eqb_refl. split.
    - intros i Hi. rewrite pad_at. destruct i as [|i]; simpl.
      + rewrite Z.add_0_r, put_same. by case_match.
      + destruct (Z.leb_spec (s + 1) (s + Z.of_nat (S i))), (Z.ltb_spec (s + Z.of_nat (S i)) (s + 1 + Z.of_nat n)); lia || done.
    - intros x Hx. rewrite pad_at.
      destruct (Z.leb_spec (s + 1) x), (Z.ltb_spec x (s + 1 + Z.of_nat n)); simpl; try lia; apply put_other; lia. }
  destruct Ht as (Hb & Hr & Ht). rewrite Hb. destruct (Z.eqb_spec b 0); [lia|].
  destruct (IH (put m s b) (s + 1) (t + 1) l) as (IH1 & IH2).
  { eapply cstring_ext; [|done]. intros i Hi. apply put_other. lia. }
  { lia. }
  split.
  - intros [|i] Hi; simpl; [rewrite IH2 by lia; rewrite Z.add_0_r; apply put_same|].
    rewrite <- IH1 by lia. f_equal. lia.
  - intros x Hx. rewrite IH2 by lia. apply put_other. lia.
Qed.
End KString.

(** * The user library

    Loops that end only at a NUL take a bound on the bytes they look at and
    return [None] beyond it. *)
Module Ulib.

Fixpoint strcpy (fuel : nat) (m : bytes) (s t : Z) : option bytes :=
  match fuel with
  | O => None
  | S f => let c := m t in let m := put m s c in
           if c =? 0 then Some m else strcpy f m (s + 1) (t + 1)
  end.

Fixpoint strcmp (fuel : nat) (m : bytes) (p q : Z) : option Z :=
  match fuel with
  | O => None
  | S f => if negb (m p =? 0) && (m p =? m q) then strcmp f m (p + 1) (q + 1)
           else Some (u8 (m p) - u8 (m q))
  end.

Definition memset (m : bytes) (dst c : Z) (n : nat) : bytes := stosb m dst c n.

Fixpoint strchr (fuel : nat) (m : bytes) (s c : Z) : option Z :=
  match fuel with
  | O => None
  | S f => if m s =? 0 then Some 0 else if m s =? c then Some s else strchr f m (s + 1) c
  end.

(** [gets]: [reads] are the results of the successive [read(0, &c, 1)], the value
    returned and the byte stored. *)
Fixpoint gets_loop (reads : list (Z * Z)) (m : bytes) (buf i max : Z) : option bytes :=
  if i + 1 <? max then
    match reads with
    | [] => None
    | (cc, c) :: reads' =>
        if cc <? 1 then Some (put m (buf + i) 0)
        else
          let m := put m (buf + i) c in
          if (c =? 10) || (c =? 13) then Some (put m (buf + (i + 1)) 0)
          else gets_loop reads' m buf (i + 1) max
    end
  else Some (put m (buf + i) 0).
Definition gets (reads : list (Z * Z)) (m : bytes) (buf max : Z) : option bytes :=
  gets_loop reads m buf 0 max.

Fixpoint atoi_loop (fuel : nat) (m : bytes) (s n : Z) : option Z :=
  match fuel with
  | O => None
  | S f => if (48 <=? m s) && (m s <=? 57) then atoi_loop f m (s + 1) (s32 (n * 10 + m s - 48)) else Some n
  end.
Definition atoi (fuel : nat) (m : bytes) (s : Z) : option Z := atoi_loop fuel m s 0.

Definition memmove (m : bytes) (dst src n : Z) : bytes := KString.copy_up m dst src (Z.to_nat n).

(** The user library's [memmove] copies correctly exactly where its forward loop
    does not overwrite bytes still to be read; moving a region up by one byte
    instead fills it with its first byte, unlike the kernel's [memmove]. *)
Theorem user_memmove m dst src n x :
  (~ (src < dst < src + n) -> memmove m dst src n x = KString.memmove m dst src (Z.to_nat n) x)
  /\ (0 <= x - src <= n -> memmove m (src + 1) src n x = m src).
Proof.
  unfold memmove. split.
  - intros Hd. rewrite KString.memmove_at. apply KString.copy_up_at. lia.
  - intros Hx. destruct (decide (0 <= n)) as [Hn|]; [|lia]. remember (Z.to_nat n) as k eqn:Hk.
    assert (n = Z.of_nat k) as -> by lia. clear Hk Hn. revert m src Hx.
    induction k as [|k IH]; intros m src Hx; simpl; [f_equal; lia|].
    destruct (decide (x = src)) as [->|].
    + rewrite KString.copy_up_below by lia. apply put_other. lia.
    + rewrite IH by lia. apply put_same.
Qed.
End Ulib.
