(* ===== verification/UserApi.v ===== *)
(** What user-level code asks of the system: the mutex system calls, the heap of
    the process and its memory.

    [UserOps] are the operations, [MutexLaws] and [HeapLaws] what they promise,
    stated on a view of the state: the mutexes with their holders, and the memory
    the program has allocated.  Theorems on user code are proved from the laws. *)

From S2P Require Import Prelude Monad.

Class UserOps (S : Type) := {
  kthread_mutex_alloc : M S Z;
  kthread_mutex_dealloc : Z -> M S Z;
  kthread_mutex_lock : Z -> M S Z;
  kthread_mutex_unlock : Z -> M S Z;
  kthread_id : M S Z;
  malloc : Z -> M S Z;
  free : Z -> M S unit;
  load : Z -> M S Z;
  store : Z -> Z -> M S unit }.

Record view : Type := mkView {
  v_mutex : gmap Z (option Z);    (* allocated mutexes, with the id of the holder *)
  v_room : nat;                   (* unused slots of the mutex table *)
  v_ids : Z;                      (* mutex ids not used up *)
  v_me : Z;                       (* id of the calling thread *)
  v_mem : gmap Z Z;               (* words of the allocated blocks *)
  v_blocks : gmap Z nat }.        (* allocated blocks, with their size in words *)
#[export] Instance eta_view : Eta view := fun v =>
  mkView (v_mutex v) (v_room v) (v_ids v) (v_me v) (v_mem v) (v_blocks v).

(** The words of a block. *)
Definition block (a : Z) (ws : list Z) : gmap Z Z :=
  list_to_map (imap (fun i w => (a + 4 * Z.of_nat i, w)) ws).

Lemma block_lookup a ws x :
  block a ws !! x = if decide (0 <= x - a /\ (x - a) mod 4 = 0) then ws !! Z.to_nat ((x - a) / 4) else None.
Proof.
  unfold block. revert a. induction ws as [|w ws IH]; intros a; simpl.
  - destruct (decide _); [|apply lookup_empty]. by destruct (Z.to_nat _).
  - rewrite Z.add_0_r. destruct (decide (x = a)) as [->|Hne].
    + rewrite lookup_insert_eq, Z.sub_diag, decide_True by done. done.
    + rewrite lookup_insert_ne by congruence.
      replace (imap ((fun i w => (a + 4 * Z.of_nat i, w)) ∘ S) ws) with
        (imap (fun i w => (a + 4 + 4 * Z.of_nat i, w)) ws)
        by (apply imap_ext; intros; simpl; f_equal; lia).
      rewrite IH. destruct (decide (0 <= x - a /\ (x - a) mod 4 = 0)) as [[H1 H2]|Hn].
      * pose proof (Z.div_mod (x - a) 4 ltac:(lia)).
        assert ((x - (a + 4)) / 4 = (x - a) / 4 - 1) as E.
        { replace (x - (a + 4)) with (x - a + (-1) * 4) by lia. rewrite Z.div_add by lia. lia. }
        rewrite decide_True.
        -- rewrite E. replace (Z.to_nat ((x - a) / 4)) with (S (Z.to_nat ((x - a) / 4 - 1))) by lia. done.
        -- split; [lia|]. replace (x - (a + 4)) with (x - a + (-1) * 4) by lia. rewrite Z.mod_add by lia. done.
      * rewrite decide_False; [done|]. intros [H1 H2]. apply Hn. split; [lia|].
        replace (x - a) with (x - (a + 4) + 1 * 4) by lia. rewrite Z.mod_add by lia. done.
Qed.

Lemma block_at a ws i : block a ws !! (a + 4 * Z.of_nat i) = ws !! i.
Proof.
  rewrite block_lookup. replace (a + 4 * Z.of_nat i - a) with (Z.of_nat i * 4) by lia.
  rewrite Z.mod_mul, Z.div_mul, decide_True by lia. by rewrite Nat2Z.id.
Qed.

Lemma block_dom a ws ws' m : length ws = length ws' -> block a ws ##ₘ m -> block a ws' ##ₘ m.
Proof.
  intros Hl. rewrite !map_disjoint_spec. intros Hd x y z Hx Hz.
  rewrite block_lookup in Hx. destruct (decide _) as [Hc|]; [|done].
  assert (is_Some (ws !! Z.to_nat ((x - a) / 4))) as [w Hw].
  { apply lookup_lt_is_Some. rewrite Hl. by eapply lookup_lt_Some. }
  apply (Hd x w z); [|done]. by rewrite block_lookup, decide_True.
Qed.

Lemma block_insert a ws i x : (i < length ws)%nat -> <[a + 4 * Z.of_nat i := x]> (block a ws) = block a (<[i := x]> ws).
Proof.
  intros Hi. apply map_eq. intros y. destruct (decide (a + 4 * Z.of_nat i = y)) as [<-|Hne].
  - rewrite lookup_insert_eq, block_at. by rewrite list_lookup_insert_eq.
  - rewrite lookup_insert_ne, !block_lookup by done. destruct (decide _) as [[H1 H2]|]; [|done].
    rewrite list_lookup_insert_ne; [done|]. intros ->. apply Hne.
    pose proof (Z.div_mod (y - a) 4 ltac:(lia)). rewrite Z2Nat.id by (apply Z.div_pos; lia). lia.
Qed.

Lemma block_lookup_some a ws x w : block a ws !! x = Some w -> exists i, x = a + 4 * Z.of_nat i /\ ws !! i = Some w.
Proof.
  rewrite block_lookup. destruct (decide _) as [[H1 H2]|]; [|done]. intros Hw. eexists. split; [|exact Hw].
  pose proof (Z.div_mod (x - a) 4 ltac:(lia)). rewrite Z2Nat.id by (apply Z.div_pos; lia). lia.
Qed.

(** A store into a block, and the memory left when a block is given back. *)
Lemma block_store a ws m i x :
  (i < length ws)%nat -> <[a + 4 * Z.of_nat i := x]> (block a ws ∪ m) = block a (<[i := x]> ws) ∪ m.
Proof. intros Hi. by rewrite insert_union_l, block_insert. Qed.

Lemma block_back a ws m : block a ws ##ₘ m -> (block a ws ∪ m) ∖ block a ws = m.
Proof.
  intros Hd. apply map_eq. intros x. rewrite lookup_difference.
  destruct (block a ws !! x) as [w|] eqn:E.
  - rewrite map_disjoint_spec in Hd. destruct (m !! x) eqn:Em; [|done]. exfalso. by eapply Hd.
  - by rewrite lookup_union_r.
Qed.

(** [rep s v]: the state [s] is described by the view [v].  [runs m v Q]: from any
    state described by [v] the computation returns, without waiting, in a state
    described by a view that satisfies [Q]. *)
Class View (S : Type) := rep : S -> view -> Prop.

Section runs.
Context {S : Type} `{View S}.

Definition runs {A} (m : M S A) (v : view) (Q : A -> view -> Prop) : Prop :=
  forall o s, rep s v -> exists a s' w, m o s = Ok a o s' /\ rep s' w /\ Q a w.

(** The common case: result and view are known. *)
Definition becomes {A} (m : M S A) (v : view) (a : A) (v' : view) : Prop :=
  runs m v (fun a' w => a' = a /\ w = v').

Lemma runs_bind {A B} (m : M S A) (f : A -> M S B) v Q R :
  runs m v Q -> (forall a v', Q a v' -> runs (f a) v' R) -> runs (m ≫= f) v R.
Proof.
  intros Hm Hf o s Hs. destruct (Hm o s Hs) as (a & s1 & v1 & E1 & Hs1 & HQ).
  destruct (Hf a _ HQ o s1 Hs1) as (b & s2 & v2 & E2 & Hs2 & HR).
  exists b, s2, v2. split; [|done]. by erewrite bind_ok.
Qed.

Lemma runs_ret {A} (a : A) v (Q : A -> view -> Prop) : Q a v -> runs (mret a) v Q.
Proof. intros HQ o s Hs. by exists a, s, v. Qed.

Lemma runs_weaken {A} (m : M S A) v (Q R : A -> view -> Prop) :
  runs m v Q -> (forall a v', Q a v' -> R a v') -> runs m v R.
Proof. intros Hm HQ o s Hs. destruct (Hm o s Hs) as (a & s' & w & ? & ? & ?). eauto 10. Qed.

Lemma runs_ext {A} (m m' : M S A) v Q : (forall o s, m o s = m' o s) -> runs m' v Q -> runs m v Q.
Proof. intros He Hm o s Hs. rewrite He. by apply Hm. Qed.

Lemma becomes_ret {A} (a : A) v : becomes (mret a) v a v.
Proof. by apply runs_ret. Qed.

Lemma runs_step {A B} (m : M S A) (f : A -> M S B) v a v' R :
  becomes m v a v' -> runs (f a) v' R -> runs (m ≫= f) v R.
Proof. intros Hm Hf. eapply runs_bind; [exact Hm|]. by intros a' w [-> ->]. Qed.

Lemma becomes_step {A B} (m : M S A) (f : A -> M S B) v a v' b v'' :
  becomes m v a v' -> becomes (f a) v' b v'' -> becomes (m ≫= f) v b v''.
Proof. apply runs_step. Qed.

Lemma becomes_eq {A} (m : M S A) v a v1 v2 : becomes m v a v1 -> v1 = v2 -> becomes m v a v2.
Proof. by intros Hm <-. Qed.

Lemma becomes_val {A} (m : M S A) v a b w : becomes m v a w -> a = b -> becomes m v b w.
Proof. by intros Hm <-. Qed.
End runs.

(** * What the operations promise *)

(** The mutex system calls, as long as the calling thread runs alone. *)
Class MutexLaws (S : Type) `{UserOps S, View S} := {
  law_positive (s : S) v id h : rep s v -> v_mutex v !! id = Some h -> 0 < id;
  becomes_alloc_full v :
    0 < v_ids v -> v_room v = 0%nat -> becomes kthread_mutex_alloc v (-1) v;
  runs_alloc v :
    0 < v_ids v -> v_room v <> 0%nat ->
    runs kthread_mutex_alloc v (fun id w => 0 < id /\ v_mutex v !! id = None /\
      w = v <| v_mutex ::= <[id := None]> |> <| v_room ::= Nat.pred |> <| v_ids ::= Z.pred |>);
  becomes_dealloc v id :
    v_mutex v !! id = Some None ->
    becomes (kthread_mutex_dealloc id) v 0 (v <| v_mutex ::= delete id |> <| v_room ::= Datatypes.S |>);
  becomes_dealloc_refused v id :
    id <> 0 -> (forall h, v_mutex v !! id = Some h -> h <> None) -> becomes (kthread_mutex_dealloc id) v (-1) v;
  becomes_lock v id :
    v_mutex v !! id = Some None -> becomes (kthread_mutex_lock id) v 0 (v <| v_mutex ::= <[id := Some (v_me v)]> |>);
  becomes_unlock v id :
    v_mutex v !! id = Some (Some (v_me v)) -> becomes (kthread_mutex_unlock id) v 0 (v <| v_mutex ::= <[id := None]> |>);
  becomes_unlock_refused v id :
    id <> 0 -> v_mutex v !! id <> Some (Some (v_me v)) -> becomes (kthread_mutex_unlock id) v (-1) v;
  becomes_id v : becomes kthread_id v (v_me v) v }.

(** The heap: [malloc] hands out a block of words nobody uses, or null. *)
Class HeapLaws (S : Type) `{UserOps S, View S} := {
  runs_malloc v n :
    0 <= n < 2 ^ 30 ->
    runs (malloc n) v (fun a w => (a = 0 /\ w = v) \/
      (0 < a /\ exists ws, length ws = Z.to_nat ((n + 3) / 4) /\ block a ws ##ₘ v_mem v /\ v_blocks v !! a = None /\
         w = v <| v_mem ::= union (block a ws) |> <| v_blocks ::= <[a := length ws]> |>));
  becomes_free v a ws :
    v_blocks v !! a = Some (length ws) -> block a ws ⊆ v_mem v ->
    becomes (free a) v tt (v <| v_mem ::= (fun m => m ∖ block a ws) |> <| v_blocks ::= delete a |>);
  becomes_load v a x : v_mem v !! a = Some x -> becomes (load a) v x v;
  becomes_store v a x :
    is_Some (v_mem v !! a) -> becomes (store a x) v tt (v <| v_mem ::= <[a := x]> |>) }.
