(* ===== verification/Tournament.v ===== *)
(** The tournament tree of tournament_tree.c: a user-level lock for up to
    [2^depth] threads built from a binary tree of kernel mutexes.

    [Module Tree] is the geometry of the tree, [Module Race] the threads of a process
    climbing and leaving it concurrently, with the mutex of the thread map and the
    sleep of [kthread_mutex_lock].  A kernel mutex is taken and opened in one step, as
    [MutexConc] justifies: its spin lock is held meanwhile, and a thread that has found
    it closed is overlooked by the scan of [kthread_mutex_unlock] until it is marked
    asleep.  A thread calls [trnmnt_tree_acquire] when it is not in its critical
    section, with an ID of the tree (others are refused at once); it may call
    [trnmnt_tree_release] at any time and with any ID of the tree.  The word of the
    process that [kthread_mutex_lock] reads through the null [holding] of a free mutex
    is not the id of the caller, as in [UserKernel]. *)

From S2P Require Import Prelude State.

Module Tree.

(** Nodes are numbered from the root, position 0, level by level; the leaf of
    thread [ID] in a tree of depth [d] is position [2^d - 1 + ID]. *)
Definition father (p : nat) : nat := (p - 1) / 2.
Definition leaf (d ID : nat) : nat := 2 ^ d - 1 + ID.

(** The node [h] levels above the leaf of [ID]. *)
Definition anc (d ID h : nat) : nat := (2 ^ d + ID) / 2 ^ h - 1.

(** The mutexes [ID] locks, from the leaf to the root. *)
Definition path (d ID : nat) : list nat := anc d ID <$> seq 1 d.

Lemma pow2_pos n : (0 < 2 ^ n)%nat.
Proof. induction n; simpl; lia. Qed.

(** The number of a node counted from 1 lies in the range of its level. *)
Lemma anc_range d ID h : (ID < 2 ^ d)%nat -> (h <= d)%nat ->
  (2 ^ (d - h) <= (2 ^ d + ID) / 2 ^ h < 2 ^ (d - h + 1))%nat.
Proof.
  intros Hid Hh. pose proof (pow2_pos h). pose proof (pow2_pos (d - h)).
  assert (2 ^ d = 2 ^ (d - h) * 2 ^ h)%nat as Hd by (rewrite <- Nat.pow_add_r; f_equal; lia).
  split.
  - apply Nat.div_le_lower_bound; [lia|]. lia.
  - apply Nat.Div0.div_lt_upper_bound. rewrite Nat.pow_add_r. simpl (2 ^ 1)%nat. nia.
Qed.

Lemma anc_pos d ID h : (ID < 2 ^ d)%nat -> (h <= d)%nat -> (1 <= (2 ^ d + ID) / 2 ^ h)%nat.
Proof. intros Hid Hh. pose proof (anc_range d ID h Hid Hh). pose proof (pow2_pos (d - h)). lia. Qed.

Lemma anc_leaf d ID : anc d ID 0 = leaf d ID.
Proof. unfold anc, leaf. rewrite Nat.pow_0_r, Nat.div_1_r. pose proof (pow2_pos d). lia. Qed.

Lemma anc_root d ID : (ID < 2 ^ d)%nat -> anc d ID d = 0%nat.
Proof.
  intros Hid. pose proof (anc_range d ID d Hid (le_n _)) as H.
  rewrite Nat.sub_diag in H. simpl in H. unfold anc. lia.
Qed.

Lemma half_pred x : (1 <= x)%nat -> ((x - 1 - 1) / 2 = x / 2 - 1)%nat.
Proof.
  intros Hx. destruct (decide (x = 1)%nat) as [->|]; [done|].
  replace x with (x - 2 + 1 * 2)%nat at 2 by lia. rewrite Nat.div_add by lia.
  replace (x - 1 - 1)%nat with (x - 2)%nat by lia. lia.
Qed.

(** The step of the loops: the father of a node is the next one up. *)
Lemma anc_father d ID h : (ID < 2 ^ d)%nat -> (h < d)%nat -> father (anc d ID h) = anc d ID (S h).
Proof.
  intros Hid Hh. unfold father, anc.
  rewrite half_pred by (apply anc_pos; [done|lia]).
  rewrite Nat.Div0.div_div. do 2 f_equal. simpl. lia.
Qed.

(** Two nodes at different heights are different. *)
Lemma anc_height d i j h h' :
  (i < 2 ^ d)%nat -> (j < 2 ^ d)%nat -> (h <= d)%nat -> (h' <= d)%nat -> anc d i h = anc d j h' -> h = h'.
Proof.
  intros Hi Hj Hh Hh' He.
  pose proof (anc_range d i h Hi Hh). pose proof (anc_range d j h' Hj Hh').
  pose proof (anc_pos d i h Hi Hh). pose proof (anc_pos d j h' Hj Hh'). unfold anc in He.
  destruct (Nat.lt_trichotomy h h') as [Hlt|[Heq|Hlt]]; [|done|].
  - assert (2 ^ (d - h' + 1) <= 2 ^ (d - h))%nat by (apply Nat.pow_le_mono_r; lia). lia.
  - assert (2 ^ (d - h + 1) <= 2 ^ (d - h'))%nat by (apply Nat.pow_le_mono_r; lia). lia.
Qed.

(** Where the paths of two threads meet they stay together. *)
Lemma anc_above d i j h h' :
  (i < 2 ^ d)%nat -> (j < 2 ^ d)%nat -> (h <= h')%nat -> (h' <= d)%nat ->
  anc d i h = anc d j h -> anc d i h' = anc d j h'.
Proof.
  intros Hi Hj Hh Hd He. pose proof (anc_pos d i h Hi ltac:(lia)). pose proof (anc_pos d j h Hj ltac:(lia)).
  unfold anc in *. assert ((2 ^ d + i) / 2 ^ h = (2 ^ d + j) / 2 ^ h)%nat as E by lia.
  replace h' with (h + (h' - h))%nat by lia. rewrite Nat.pow_add_r, <- !Nat.Div0.div_div. by rewrite E.
Qed.

(** A node has two sons: of three threads whose paths meet at a node, two come
    from the same son. *)
Lemma anc_sons d i j k h :
  (i < 2 ^ d)%nat -> (j < 2 ^ d)%nat -> (k < 2 ^ d)%nat -> (h < d)%nat ->
  anc d i (S h) = anc d j (S h) -> anc d j (S h) = anc d k (S h) ->
  anc d i h = anc d j h \/ anc d j h = anc d k h \/ anc d i h = anc d k h.
Proof.
  intros Hi Hj Hk Hh Hij Hjk.
  pose proof (anc_pos d i (S h) Hi ltac:(lia)). pose proof (anc_pos d j (S h) Hj ltac:(lia)).
  pose proof (anc_pos d k (S h) Hk ltac:(lia)).
  unfold anc in *. rewrite !Nat.pow_succ_r', !(Nat.mul_comm 2), <- !Nat.Div0.div_div in *.
  set (a := ((2 ^ d + i) / 2 ^ h)%nat) in *. set (b := ((2 ^ d + j) / 2 ^ h)%nat) in *.
  set (c := ((2 ^ d + k) / 2 ^ h)%nat) in *.
  pose proof (Nat.div_mod_eq a 2). pose proof (Nat.div_mod_eq b 2). pose proof (Nat.div_mod_eq c 2).
  pose proof (Nat.mod_upper_bound a 2). pose proof (Nat.mod_upper_bound b 2). pose proof (Nat.mod_upper_bound c 2).
  lia.
Qed.

Lemma anc_lt d ID h : (ID < 2 ^ d)%nat -> (1 <= h <= d)%nat -> (anc d ID h < 2 ^ d - 1)%nat.
Proof.
  intros Hid Hh. pose proof (anc_range d ID h Hid ltac:(lia)). pose proof (anc_pos d ID h Hid ltac:(lia)).
  assert (2 ^ (d - h + 1) <= 2 ^ d)%nat by (apply Nat.pow_le_mono_r; lia). unfold anc. lia.
Qed.

Lemma anc_inj_leaf d i j : anc d i 0 = anc d j 0 -> i = j.
Proof. rewrite !anc_leaf. unfold leaf. lia. Qed.
End Tree.

Module Race.
Import Tree.

(** The mutexes of a tree. *)
Inductive tree_mutex : Type := TreeLock | Node (n : nat).
#[global] Instance tree_mutex_eq_dec : EqDecision tree_mutex.
Proof. solve_decision. Defined.

(** What a thread is doing.  [A...] and [Climb] are the points of
    [trnmnt_tree_acquire] called with ID [i]: [Climb i h] has locked the first [h]
    mutexes above its leaf.  [Crit i] is between the two calls.  [R...] and [Drop]
    are the points of [trnmnt_tree_release] called with ID [i] by a thread that is
    idle ([c = None]) or in its critical section with ID [c]: [Drop i h] has still
    to unlock the first [h] mutexes, those above being unlocked already. *)
Inductive act : Type :=
| Idle
| AReq (i : nat)                       (* at kthread_mutex_lock(tree->Lock) *)
| ACheck (i : nat)                     (* at the test of threadMap[ID] *)
| ARefuse                              (* the ID is in use: at kthread_mutex_unlock(tree->Lock) *)
| ASet (i : nat)                       (* the ID is taken: at kthread_mutex_unlock(tree->Lock) *)
| Climb (i h : nat)                    (* at kthread_mutex_lock of the next node *)
| Crit (i : nat)
| RReq (c : option nat) (i : nat)      (* at kthread_mutex_lock(tree->Lock) *)
| RCheck (c : option nat) (i : nat)    (* at the test of threadMap[ID] *)
| RRefuse (c : option nat)             (* refused: at kthread_mutex_unlock(tree->Lock) *)
| Drop (i h : nat)                     (* in trnmnt_tree_release_rec: at kthread_mutex_unlock of a node *)
| RClear (i : nat)                     (* at threadMap[ID] = -1 *)
| RDone.                               (* at kthread_mutex_unlock(tree->Lock) *)
#[global] Instance act_eq_dec : EqDecision act.
Proof. solve_decision. Defined.

(** A thread that finds a mutex locked lets go of its spin lock, is not yet marked
    asleep for a while, and then is. *)
Inductive mode : Type := Awake | Falling | Asleep.
#[global] Instance mode_eq_dec : EqDecision mode.
Proof. solve_decision. Defined.

Record state : Type := mkState {
  owner : tree_mutex -> option nat;     (* the thread holding a mutex *)
  tmap : nat -> option nat;        (* threadMap: the thread using an ID *)
  acts : nat -> act;
  modes : nat -> mode }.

Section tree.
(** The depth of the tree, and the number of threads of the process. *)
Variables d nthreads : nat.

(** The mutex a thread is about to lock, and what it does next. *)
Definition wants (a : act) : option tree_mutex :=
  match a with
  | AReq _ | RReq _ _ => Some TreeLock
  | Climb i h => Some (Node (anc d i (S h)))
  | _ => None
  end.
Definition next (a : act) : act :=
  match a with
  | AReq i => ACheck i
  | RReq c i => RCheck c i
  | Climb i h => if decide (S h = d) then Crit i else Climb i (S h)
  | a => a
  end.

(** The mutex a thread is about to unlock, and what it does next: when
    [kthread_mutex_unlock] returns 0, and when it returns -1, which only
    [trnmnt_tree_release_rec] looks at. *)
Definition unlocks (a : act) : option tree_mutex :=
  match a with
  | ARefuse | ASet _ | RRefuse _ | RDone => Some TreeLock
  | Drop i (S h) => Some (Node (anc d i (S h)))
  | _ => None
  end.
Definition after (a : act) : act :=
  match a with
  | ASet i => Climb i 0
  | RRefuse (Some c) => Crit c
  | Drop i 1 => RClear i
  | Drop i (S h) => Drop i h
  | ARefuse | RRefuse None | RDone => Idle
  | a => a
  end.
Definition failed (a : act) : act :=
  match a with Drop i _ => RRefuse (Some i) | a => after a end.

(** The thread that the scan of [kthread_mutex_unlock] makes runnable: the first of the
    process that is marked asleep on the mutex, if there is one. *)
Definition sleeps_on (a : nat -> act) (md : nat -> mode) (m : tree_mutex) (y : nat) : Prop :=
  md y = Asleep /\ wants (a y) = Some m.
Inductive unlock_wakes (a : nat -> act) (md : nat -> mode) (m : tree_mutex) : (nat -> mode) -> Prop :=
| wakes_first y :
    sleeps_on a md m y -> (forall y', (y' < y)%nat -> ~ sleeps_on a md m y') -> unlock_wakes a md m (<[y := Awake]> md)
| wakes_nobody : (forall y, ~ sleeps_on a md m y) -> unlock_wakes a md m md.

Inductive step : state -> state -> Prop :=
| step_acquire o t a md x i :
    (x < nthreads)%nat -> a x = Idle -> (i < 2 ^ d)%nat ->
    step (mkState o t a md) (mkState o t (<[x := AReq i]> a) md)
| step_release o t a md x (c : option nat) i :
    (x < nthreads)%nat -> a x = (if c is Some c then Crit c else Idle) -> (i < 2 ^ d)%nat ->
    step (mkState o t a md) (mkState o t (<[x := RReq c i]> a) md)
| step_lock o t a md x m :
    wants (a x) = Some m -> md x = Awake -> o m = None ->
    step (mkState o t a md) (mkState (<[m := Some x]> o) t (<[x := next (a x)]> a) md)
| step_refused o t a md x m :
    wants (a x) = Some m -> md x = Awake -> o m = Some x ->
    step (mkState o t a md) (mkState o t (<[x := next (a x)]> a) md)
| step_busy o t a md x m y :
    wants (a x) = Some m -> md x = Awake -> o m = Some y -> y <> x ->
    step (mkState o t a md) (mkState o t a (<[x := Falling]> md))
| step_sleep o t a md x :
    md x = Falling ->
    step (mkState o t a md) (mkState o t a (<[x := Asleep]> md))
| step_in_use o t a md x i y :
    a x = ACheck i -> t i = Some y ->
    step (mkState o t a md) (mkState o t (<[x := ARefuse]> a) md)
| step_set o t a md x i :
    a x = ACheck i -> t i = None ->
    step (mkState o t a md) (mkState o (<[i := Some x]> t) (<[x := ASet i]> a) md)
| step_unlock o t a md md' x m :
    unlocks (a x) = Some m -> o m = Some x -> unlock_wakes a md m md' ->
    step (mkState o t a md) (mkState (<[m := None]> o) t (<[x := after (a x)]> a) md')
| step_failed o t a md x m :
    unlocks (a x) = Some m -> o m <> Some x ->
    step (mkState o t a md) (mkState o t (<[x := failed (a x)]> a) md)
| step_mine o t a md x c i :
    a x = RCheck c i -> t i = Some x ->
    step (mkState o t a md) (mkState o t (<[x := Drop i d]> a) md)
| step_not_mine o t a md x c i :
    a x = RCheck c i -> t i <> Some x ->
    step (mkState o t a md) (mkState o t (<[x := RRefuse c]> a) md)
| step_clear o t a md x i :
    a x = RClear i ->
    step (mkState o t a md) (mkState o (<[i := None]> t) (<[x := RDone]> a) md).

Definition init : state := mkState (fun _ => None) (fun _ => None) (fun _ => Idle) (fun _ => Awake).

(** * What a thread holds *)

(** The ID entered in the thread map, and the mutexes of its path that are locked. *)
Definition id_of (a : act) : option nat :=
  match a with
  | ASet i | Climb i _ | Crit i | Drop i _ | RClear i => Some i
  | RReq c _ | RCheck c _ | RRefuse c => c
  | _ => None
  end.
Definition level (a : act) : nat :=
  match a with
  | Climb _ h | Drop _ h => h
  | Crit _ | RReq (Some _) _ | RCheck (Some _) _ | RRefuse (Some _) => d
  | _ => 0
  end.
Definition tree_locked (a : act) : bool :=
  match a with
  | ACheck _ | ARefuse | ASet _ | RCheck _ _ | RRefuse _ | Drop _ _ | RClear _ | RDone => true
  | _ => false
  end.
Definition held (a : act) (m : tree_mutex) : Prop :=
  match m with
  | TreeLock => tree_locked a = true
  | Node n => exists i h, id_of a = Some i /\ (1 <= h <= level a)%nat /\ n = anc d i h
  end.

Definition ok (a : act) : Prop :=
  (forall i, id_of a = Some i -> (i < 2 ^ d)%nat) /\
  match a with
  | AReq i | ACheck i => (i < 2 ^ d)%nat
  | Climb _ h => (h < d)%nat
  | Drop _ h => (1 <= h <= d)%nat
  | _ => True
  end.

Record inv (s : state) : Prop := {
  inv_thread : forall x, acts s x <> Idle -> (x < nthreads)%nat;
  inv_ok : forall x, ok (acts s x);
  inv_map : forall x i, tmap s i = Some x <-> id_of (acts s x) = Some i;
  inv_owner : forall x m, owner s m = Some x <-> held (acts s x) m;
  inv_mode : forall x, modes s x <> Awake -> is_Some (wants (acts s x)) }.

(** Inside: after [trnmnt_tree_acquire] has returned 0 and until
    [trnmnt_tree_release] of that ID passes its test. *)
Definition inside (a : act) : bool :=
  match a with Crit _ | RReq (Some _) _ | RCheck (Some _) _ | RRefuse (Some _) => true | _ => false end.

(** In one of the two functions. *)
Definition in_call (a : act) : bool :=
  match a with Idle | Crit _ => false | _ => true end.

Hypothesis depth_pos : (1 <= d)%nat.

Lemma race_inv_init : inv init.
Proof.
  split; simpl; try done.
  intros x m. split; [done|]. by destruct m; [|intros (i & h & ? & _)].
Qed.

Lemma level_ok a : ok a -> (level a <= d)%nat.
Proof. intros [_ H]. destruct a as [| | | | | | |[]|[]|[]| | |]; simpl in *; lia. Qed.

(** One thread has moved. *)
Lemma inv_update o t a md o' t' md' x b :
  inv (mkState o t a md) -> (x < nthreads)%nat -> ok b ->
  (forall m, o' m = Some x <-> held b m) -> (forall m y, y <> x -> o' m = Some y <-> o m = Some y) ->
  (forall i, t' i = Some x <-> id_of b = Some i) -> (forall i y, y <> x -> t' i = Some y <-> t i = Some y) ->
  (md' x <> Awake -> is_Some (wants b)) -> (forall y, y <> x -> md' y <> Awake -> md y <> Awake) ->
  inv (mkState o' t' (<[x := b]> a) md').
Proof.
  intros [H0 H1 H2 H3 H4] Hn Hb Ho Ho' Ht Ht' Hm Hm'. simpl in *. split; simpl; intros y.
  all: destruct (decide (x = y)) as [<-|Hne]; [rewrite fn_lookup_insert; done|rewrite fn_lookup_insert_ne by done].
  - apply H0.
  - apply H1.
  - intros i. rewrite Ht' by done. apply H2.
  - intros m. rewrite Ho' by done. apply H3.
  - intros Hy. apply H4. by apply Hm'.
Qed.

(** A move that keeps the mutexes and the thread map. *)
Lemma inv_move o t a md x b :
  inv (mkState o t a md) -> (x < nthreads)%nat -> ok b -> (forall m, held b m <-> held (a x) m) -> id_of b = id_of (a x) ->
  (is_Some (wants (a x)) -> is_Some (wants b)) -> inv (mkState o t (<[x := b]> a) md).
Proof.
  intros Hinv Hn Hb Hh Hid Hw. pose proof Hinv as [H0 H1 H2 H3 H4]. apply (inv_update o t a md); try done.
  - intros m. rewrite Hh. apply (H3 x).
  - intros i. rewrite Hid. apply (H2 x).
  - intros Hm. apply Hw. by apply (H4 x).
Qed.

Lemma wants_not_held a m : ok a -> wants a = Some m -> ~ held a m.
Proof.
  intros [Hid Hok] Hw Hh. destruct a; simplify_eq/=; try done. destruct Hh as (j & h' & [= <-] & Hh & He).
  specialize (Hid i eq_refl). assert (S h = h') by (by eapply (anc_height d i i); [| |lia|lia|]). lia.
Qed.

Lemma ok_next a m : ok a -> wants a = Some m -> ok (next a).
Proof.
  intros [Hid Hok] Hw. destruct a as [|i| | | |i h| |[c|] i| | | | |]; simplify_eq/=; try done.
  case_decide; split; simpl; try done. lia.
Qed.

Lemma held_next a m m' : wants a = Some m -> ok a -> held (next a) m' <-> m' = m \/ held a m'.
Proof.
  intros Hw [_ Hok]. destruct a as [|i| | | |i h| |c i| | | | |]; simplify_eq/=.
  - destruct m'; simpl; [tauto|]. split; [by intros (? & ? & ? & _)|]. by intros [[=]|(? & ? & ? & _)].
  - destruct m' as [|n]; simpl.
    { case_decide; simpl; split; (done || by intros [|]). }
    assert (level (if decide (S h = d) then Crit i else Climb i (S h)) = S h) as -> by (case_decide; simpl; lia).
    assert (id_of (if decide (S h = d) then Crit i else Climb i (S h)) = Some i) as -> by by case_decide.
    split.
    + intros (j & h' & [= <-] & Hh & ->). destruct (decide (h' = S h)) as [->|]; [by left|]. right. exists i, h'. split_and!; (done || lia).
    + intros [[= ->]|(j & h' & [= <-] & Hh & ->)]; [exists i, (S h)|exists i, h']; split_and!; (done || lia).
  - destruct m'; simpl; [tauto|]. split; [by right|]. by intros [[=]|].
Qed.

Lemma id_next a m : wants a = Some m -> id_of (next a) = id_of a.
Proof. destruct a; simpl; try done. by case_decide. Qed.

Lemma unlocks_held a m : unlocks a = Some m -> held a m.
Proof.
  destruct a as [| | | | | | | | | |i [|h]| |]; simpl; intros; simplify_eq; try done. exists i, (S h). split_and!; (done || lia).
Qed.

Lemma ok_after a m : ok a -> unlocks a = Some m -> ok (after a).
Proof.
  intros [Hid Hok] Hu. destruct a as [| | | |i| | | | |[c|]|i [|[|h]]| |]; simplify_eq/=; split; simpl; try done; lia.
Qed.

Lemma held_after a m m' : ok a -> unlocks a = Some m -> held (after a) m' <-> m' <> m /\ held a m'.
Proof.
  intros [Hid Hok] Hu.
  assert (forall i h, a = Drop i (S h) -> m = Node (anc d i (S h)) -> tree_locked (after a) = true ->
    id_of (after a) = Some i -> level (after a) = h -> held (after a) m' <-> m' <> m /\ held a m') as Hdrop.
  { intros i h -> -> Ht Hi Hl. specialize (Hid i eq_refl). simpl in Hok. destruct m' as [|n]; cbn [held]; [rewrite Ht; naive_solver|].
    rewrite Hi, Hl. split.
    - intros (j & h' & [= <-] & Hh & ->). split; [|exists i, h'; simpl; split_and!; (done || lia)].
      intros [= E]. assert (h' = S h) by (by eapply (anc_height d i i); [| |lia|lia|]). lia.
    - intros (Hn & j & h' & [= <-] & Hh & ->). exists i, h'. simpl in Hh. split_and!; try done; [lia|].
      destruct (decide (h' = S h)) as [->|]; [done|lia]. }
  destruct a as [| | | |i| | | | |[c|]|i [|[|h]]| |]; simplify_eq/=; try (by eapply Hdrop); destruct m' as [|n]; simpl.
  all: try (split; [done|intros [? ?]; done]).
  all: try (split; [by intros (? & ? & ? & _)|by intros (_ & ? & ? & ? & _)]).
Qed.

Lemma id_after a m : unlocks a = Some m -> id_of (after a) = id_of a.
Proof. by destruct a as [| | | |i| | | | |[c|]|i [|[|h]]| |]. Qed.

Lemma wakes_awake a md m md' y : unlock_wakes a md m md' -> md' y <> Awake -> md y <> Awake.
Proof.
  intros [z _ _|_]; [|done]. destruct (decide (z = y)) as [<-|]; [by rewrite fn_lookup_insert|by rewrite fn_lookup_insert_ne].
Qed.

Lemma unlocks_wants a m : unlocks a = Some m -> ~ is_Some (wants a).
Proof. destruct a; simpl; try done; by intros _ []. Qed.

Lemma inv_lock o t a md x m :
  inv (mkState o t a md) -> wants (a x) = Some m -> md x = Awake -> o m = None ->
  inv (mkState (<[m := Some x]> o) t (<[x := next (a x)]> a) md).
Proof.
  intros Hinv Hw Hm Ho. pose proof Hinv as [H0 H1 H2 H3 H4]. apply (inv_update o t a md); try done.
  - apply (H0 x). simpl. intros E. by rewrite E in Hw.
  - eapply ok_next; [apply (H1 x)|done].
  - intros m'. rewrite (held_next _ m) by (done || apply (H1 x)). rewrite <- (H3 x m'). simpl.
    destruct (decide (m = m')) as [<-|]; [rewrite fn_lookup_insert; naive_solver|rewrite fn_lookup_insert_ne by done; naive_solver].
  - intros m' y Hy. destruct (decide (m = m')) as [<-|]; [rewrite fn_lookup_insert; naive_solver|by rewrite fn_lookup_insert_ne].
  - intros i. rewrite (id_next _ m) by done. apply (H2 x).
Qed.

Lemma inv_unlock o t a md md' x m :
  inv (mkState o t a md) -> unlocks (a x) = Some m -> o m = Some x -> unlock_wakes a md m md' ->
  inv (mkState (<[m := None]> o) t (<[x := after (a x)]> a) md').
Proof.
  intros Hinv Hu Ho Hw. pose proof Hinv as [H0 H1 H2 H3 H4]. apply (inv_update o t a md); try done.
  - apply (H0 x). simpl. intros E. by rewrite E in Hu.
  - eapply ok_after; [apply (H1 x)|done].
  - intros m'. rewrite (held_after _ m) by (done || apply (H1 x)). rewrite <- (H3 x m'). simpl.
    destruct (decide (m = m')) as [<-|]; [rewrite fn_lookup_insert; naive_solver|rewrite fn_lookup_insert_ne by done; naive_solver].
  - intros m' y Hy. destruct (decide (m = m')) as [<-|]; [rewrite fn_lookup_insert; naive_solver|by rewrite fn_lookup_insert_ne].
  - intros i. rewrite (id_after _ m) by done. apply (H2 x).
  - intros Hm. destruct (unlocks_wants _ _ Hu). apply (H4 x). by eapply wakes_awake.
  - intros y _. by eapply wakes_awake.
Qed.

(** The mode of a thread that wants a mutex may change. *)
Lemma inv_doze o t a md x w :
  inv (mkState o t a md) -> is_Some (wants (a x)) -> inv (mkState o t a (<[x := w]> md)).
Proof.
  intros [H0 H1 H2 H3 H4] Hx. split; try done. simpl in *. intros y.
  destruct (decide (x = y)) as [<-|]; [done|rewrite fn_lookup_insert_ne by done; apply H4].
Qed.

(** The entry of the thread map that is set or cleared. *)
Lemma inv_entry o t a md x i e b :
  inv (mkState o t a md) -> (x < nthreads)%nat -> ok b -> wants (a x) = None -> (forall m, held b m <-> held (a x) m) ->
  (forall y, y <> x -> t i <> Some y) -> (forall j, j <> i -> t j <> Some x) -> (e = None \/ e = Some x) ->
  id_of b = (if e then Some i else None) -> inv (mkState o (<[i := e]> t) (<[x := b]> a) md).
Proof.
  intros Hinv Hn Hb Hw Hh Hy Hx He Hid. pose proof Hinv as [H0 H1 H2 H3 H4]. apply (inv_update o t a md); try done.
  - intros m. rewrite Hh. apply (H3 x).
  - intros j. rewrite Hid. destruct (decide (i = j)) as [<-|Hne];
      [rewrite fn_lookup_insert|rewrite fn_lookup_insert_ne by done; specialize (Hx j)]; destruct He as [-> | ->]; naive_solver.
  - intros j y Hne. destruct (decide (i = j)) as [<-|];
      [rewrite fn_lookup_insert; specialize (Hy y Hne); destruct He as [-> | ->]; naive_solver|by rewrite fn_lookup_insert_ne].
  - intros Hm. specialize (H4 x Hm). simpl in H4. rewrite Hw in H4. by destruct H4.
Qed.

Lemma race_inv_step s s' : inv s -> step s s' -> inv s'.
Proof.
  intros Hi Hs. pose proof Hi as [H0 H1 H2 H3 H4].
  destruct Hs as [o t a md x i Hn Hx Hid|o t a md x c i Hn Hx Hid|o t a md x m Hw Hm Ho|o t a md x m Hw Hm Ho|o t a md x m y Hw Hm Ho Hne|
    o t a md x Hm|o t a md x i y Hx Ht|o t a md x i Hx Ht|o t a md md' x m Hu Ho Hw|o t a md x m Hu Ho|
    o t a md x c i Hx Ht|o t a md x c i Hx Ht|o t a md x i Hx]; simpl in *;
    try pose proof (H1 x) as Hok; try assert (x < nthreads)%nat as Hn by (apply H0; congruence).
  - apply inv_move; rewrite ?Hx; try done; by intros [|n].
  - destruct c as [c|]; apply inv_move; rewrite ?Hx in *; try done; by intros [|n].
  - by apply inv_lock.
  - by destruct (wants_not_held _ _ Hok Hw (proj1 (H3 x m) Ho)).
  - by apply inv_doze.
  - apply inv_doze; [done|]. apply H4. by rewrite Hm.
  - rewrite Hx in Hok. apply inv_move; rewrite ?Hx; try done; by intros [|n].
  - rewrite Hx in Hok. apply inv_entry; rewrite ?Hx; try done.
    + split; [|done]. intros j [= <-]. apply Hok.
    + intros [|n]; simpl; [done|]. split; [intros (? & ? & _ & ? & _); lia|by intros (? & ? & ? & _)].
    + intros y _. by rewrite Ht.
    + intros j _ Hj%H2. by rewrite Hx in Hj.
    + by right.
  - by apply (inv_unlock o t a md).
  - by destruct (Ho (proj2 (H3 x m) (unlocks_held _ _ Hu))).
  - apply H2 in Ht. rewrite Hx in Ht, Hok. simpl in Ht. subst c. destruct Hok as [Hok _].
    apply inv_move; rewrite ?Hx; try done; by split; simpl; lia.
  - rewrite Hx in Hok. apply inv_move; rewrite ?Hx; try done; destruct c; try done; by intros [|n].
  - assert (t i = Some x) as Ht by (apply H2; by rewrite Hx). apply inv_entry; rewrite ?Hx; try done.
    + intros [|n]; simpl; [done|]. split; [by intros (? & ? & ? & _)|intros (? & ? & _ & ? & _); lia].
    + intros y Hy. rewrite Ht. congruence.
    + intros j Hj Hj'%H2. rewrite Hx in Hj'. simpl in Hj'. congruence.
    + by left.
Qed.

Lemma race_reachable_inv s : rtc step init s -> inv s.
Proof. apply rtc_invariant; [apply race_inv_step|apply race_inv_init]. Qed.

(** C2. The tournament tree is a lock: at most one thread is between
    [trnmnt_tree_acquire] and the release of its ID. *)
Theorem tournament_mutual_exclusion s x y :
  rtc step init s -> inside (acts s x) = true -> inside (acts s y) = true -> x = y.
Proof.
  intros Hr Hx Hy. pose proof (race_reachable_inv s Hr) as Hinv.
  assert (forall z, inside (acts s z) = true -> owner s (Node 0) = Some z) as Hroot.
  { intros z Hz. apply (inv_owner s Hinv). destruct (inv_ok s Hinv z) as [Hid _]. simpl.
    destruct (id_of (acts s z)) as [i|] eqn:Ei; [|by destruct (acts s z) as [| | | | | | |[]|[]|[]| | |]].
    exists i, d. split; [done|]. split; [|symmetry; by apply anc_root, Hid].
    destruct (acts s z) as [| | | | | | |[]|[]|[]| | |]; simpl in *; (done || lia). }
  apply Hroot in Hx, Hy. congruence.
Qed.

(** A thread competes for a node: it holds it, or waits for it with the mutexes
    below locked. *)
Definition competes (s : state) (x n : nat) : Prop :=
  held (acts s x) (Node n) \/ wants (acts s x) = Some (Node n).

Lemma competes_below s x n :
  inv s -> competes s x n ->
  exists i h, (h < d)%nat /\ n = anc d i (S h) /\ (h <= level (acts s x))%nat /\ id_of (acts s x) = Some i /\ (i < 2 ^ d)%nat.
Proof.
  intros Hinv. destruct (inv_ok s Hinv x) as [Hid Hok]. pose proof (level_ok _ (inv_ok s Hinv x)) as Hl.
  intros [(i & h & Hi & Hh & ->)|Hw].
  - exists i, (h - 1)%nat. replace (S (h - 1)) with h by lia. split_and!; try done; try lia. by apply Hid.
  - destruct (acts s x) as [| | | | |i h| | | | | | |]; simplify_eq/=. exists i, h. split_and!; try done. by apply Hid.
Qed.

(** Threads that have come through the same son of a node are the same. *)
Lemma same_son s x y i j h :
  inv s -> id_of (acts s x) = Some i -> id_of (acts s y) = Some j -> (h < d)%nat ->
  (h <= level (acts s x))%nat -> (h <= level (acts s y))%nat -> anc d i h = anc d j h -> x = y.
Proof.
  intros Hinv Hi Hj Hh Hlx Hly He. destruct (decide (h = 0)%nat) as [->|Hn].
  - apply anc_inj_leaf in He as ->. apply (inv_map s Hinv) in Hi, Hj. congruence.
  - assert (owner s (Node (anc d i h)) = Some x) as Ex by (apply (inv_owner s Hinv); exists i, h; split_and!; (done || lia)).
    assert (owner s (Node (anc d j h)) = Some y) as Ey by (apply (inv_owner s Hinv); exists j, h; split_and!; (done || lia)).
    congruence.
Qed.

(** The point of the tree: never more than two threads compete for one of its
    mutexes. *)
Theorem tournament_two_competitors s n x y z :
  rtc step init s -> competes s x n -> competes s y n -> competes s z n -> x = y \/ y = z \/ x = z.
Proof.
  intros Hr Hcx Hcy Hcz. pose proof (race_reachable_inv s Hr) as Hinv.
  apply (competes_below s) in Hcx as (i & h & Hh & -> & Hlx & Hx & Hi); [|done].
  apply (competes_below s) in Hcy as (j & h1 & Hh1 & He1 & Hly & Hy & Hj); [|done].
  apply (competes_below s) in Hcz as (k & h2 & Hh2 & He2 & Hlz & Hz & Hk); [|done].
  assert (S h = S h1) as E1 by (eapply (anc_height d i j); eauto).
  assert (S h = S h2) as E2 by (eapply (anc_height d i k); eauto).
  injection E1 as <-. injection E2 as <-.
  destruct (anc_sons d i j k h) as [E|[E|E]]; [done|done|done|done|done|congruence|..].
  - left. by eapply same_son.
  - right. left. by eapply same_son.
  - right. right. by eapply same_son.
Qed.

(** * Progress *)

(** A thread in a call that can go on. *)
Definition can_go_on (s : state) (x : nat) : Prop :=
  in_call (acts s x) = true /\ exists s', step s s' /\ acts s' x <> acts s x.

(** A thread asleep, or about to be, on a mutex that nobody holds. *)
Definition wakeup_lost (s : state) (x : nat) : Prop :=
  exists m, wants (acts s x) = Some m /\ owner s m = None /\ modes s x <> Awake.

Lemma next_ne a m : wants a = Some m -> next a <> a.
Proof. destruct a as [| | | | |i h| | | | | | |]; simpl; try done. intros _. case_decide; [done|]. intros [=]. lia. Qed.

Lemma after_ne a m : unlocks a = Some m -> after a <> a.
Proof. destruct a as [| | | |i| | | | |[c|]|i [|[|h]]| |]; simpl; try done. intros _ [=]. lia. Qed.

(** The scan of [kthread_mutex_unlock] ends. *)
Lemma wakes_exists o t a md m : inv (mkState o t a md) -> exists md', unlock_wakes a md m md'.
Proof.
  intros Hinv. enough (forall n, (exists md', unlock_wakes a md m md') \/ forall y, (y < n)%nat -> ~ sleeps_on a md m y) as H.
  { destruct (H nthreads) as [|Hn]; [done|]. exists md. apply wakes_nobody. intros y [Hy Hw].
    apply (Hn y); [|done]. apply (inv_thread _ Hinv y). simpl. intros E. by rewrite E in Hw. }
  induction n as [|n [IH|IH]]; [right; lia|by left|].
  destruct (decide (md n = Asleep /\ wants (a n) = Some m)) as [Hn|Hn]; [left; eexists; by apply (wakes_first a md m n)|].
  right. intros y Hy. destruct (decide (y = n)) as [->|]; [done|]. apply IH. lia.
Qed.

(** Who does not want a mutex can go on. *)
Lemma go_on s x : inv s -> in_call (acts s x) = true -> wants (acts s x) = None -> can_go_on s x.
Proof.
  intros Hinv Hc Hw. split; [done|]. destruct s as [o t a md]. simpl in *.
  destruct (unlocks (a x)) as [m|] eqn:Eu.
  - destruct (wakes_exists o t a md m Hinv) as [md' Hmd].
    exists (mkState (<[m := None]> o) t (<[x := after (a x)]> a) md'). split.
    + apply step_unlock; [done| |done]. apply (inv_owner _ Hinv). by apply unlocks_held.
    + simpl. rewrite fn_lookup_insert. by eapply after_ne.
  - pose proof (inv_ok _ Hinv x) as [_ Hok]. simpl in Hok.
    destruct (a x) as [|i|i| | | | |c i|c i| |i [|h]|i|] eqn:Ex; simpl in *; try done; try lia.
    + destruct (t i) as [y|] eqn:Et; eexists; (split; [(by eapply step_in_use) || (by eapply step_set)|]); simpl; by rewrite fn_lookup_insert.
    + destruct (decide (t i = Some x)) as [Et|Et]; eexists; (split; [(by eapply step_mine) || (by eapply step_not_mine)|]);
        simpl; by rewrite fn_lookup_insert.
    + eexists. split; [by eapply step_clear|]. simpl. by rewrite fn_lookup_insert.
Qed.

Lemma wants_in_call a m : wants a = Some m -> in_call a = true.
Proof. by destruct a. Qed.

(** Who wants a mutex that nobody holds takes it or has missed its wakeup. *)
Lemma go_on_free s x m : wants (acts s x) = Some m -> owner s m = None -> can_go_on s x \/ wakeup_lost s x.
Proof.
  intros Hw Ho. destruct (decide (modes s x = Awake)) as [Hm|Hm]; [left|right; by exists m].
  split; [by eapply wants_in_call|]. destruct s as [o t a md]. simpl in *.
  eexists. split; [by eapply step_lock|]. simpl. rewrite fn_lookup_insert. by eapply next_ne.
Qed.

Lemma tree_locked_goes_on s x : inv s -> tree_locked (acts s x) = true -> can_go_on s x.
Proof. intros Hinv Ht. apply go_on; [done|..]; by destruct (acts s x). Qed.

Lemma go_on_tree_lock s x :
  inv s -> wants (acts s x) = Some TreeLock -> exists y, can_go_on s y \/ wakeup_lost s y.
Proof.
  intros Hinv Hw. destruct (owner s TreeLock) as [y|] eqn:Eo; [|exists x; by eapply go_on_free].
  apply (inv_owner s Hinv) in Eo. exists y. left. by apply tree_locked_goes_on.
Qed.

(** A thread that is asleep stays where it is. *)
Lemma asleep_stays s s' x : modes s x = Asleep -> is_Some (wants (acts s x)) -> step s s' -> acts s' x = acts s x.
Proof.
  intros Hm Hw Hs.
  destruct Hs as [o t a md z i Hn Hz Hid|o t a md z c i Hn Hz Hid|o t a md z m Hwz Hmz Ho|o t a md z m Hwz Hmz Ho|o t a md z m y|
    o t a md z|o t a md z i y Hz|o t a md z i Hz|o t a md md' z m Hu|o t a md z m Hu|
    o t a md z c i Hz|o t a md z c i Hz|o t a md z i Hz]; simpl in *; try done.
  all: destruct (decide (z = x)) as [->|]; [|by rewrite fn_lookup_insert_ne]; exfalso.
  all: try (by destruct (unlocks_wants _ _ Hu)).
  all: try congruence.
  all: rewrite Hz in Hw; try destruct c; by destruct Hw.
Qed.

(** C16. The tree can hang in one way only, through a wakeup that [kthread_mutex_unlock]
    loses: whenever a thread is in [trnmnt_tree_acquire] or [trnmnt_tree_release], some
    thread is in its critical section, or some thread that is in one of the functions can
    go on, or some thread sleeps, or is about to, on a mutex that nobody holds. *)
Theorem tournament_hangs_by_lost_wakeup s x :
  rtc step init s -> in_call (acts s x) = true ->
  exists y, (exists i, acts s y = Crit i) \/ can_go_on s y \/ wakeup_lost s y.
Proof.
  intros Hr. pose proof (race_reachable_inv s Hr) as Hinv. clear Hr. intros Hc.
  destruct (wants (acts s x)) as [[|n]|] eqn:Ew.
  - destruct (go_on_tree_lock s x Hinv Ew) as (y & ?). by exists y; right.
  - destruct (acts s x) as [| | | | |i h| | | | | | |] eqn:Ex; simplify_eq/=.
    remember (d - h)%nat as r eqn:Hrm. revert x i h Hrm Ex. induction (lt_wf r) as [r _ IH]. intros x i h -> Ex.
    assert (wants (acts s x) = Some (Node (anc d i (S h)))) as Hw by by rewrite Ex.
    destruct (owner s (Node (anc d i (S h)))) as [y|] eqn:Eo; [|exists x; right; by eapply go_on_free].
    pose proof (inv_ok s Hinv x) as [Hidx Hokx]. rewrite Ex in Hidx, Hokx. specialize (Hidx i eq_refl).
    pose proof (inv_ok s Hinv y) as Hoky. pose proof (level_ok _ Hoky) as Hly. destruct Hoky as [Hidy Hoky].
    apply (inv_owner s Hinv) in Eo as (j & h' & Hj & Hh' & He). specialize (Hidy j Hj). simpl in Hokx.
    assert (S h = h') as <- by (by eapply (anc_height d i j); [| |lia|lia|]).
    destruct (tree_locked (acts s y)) eqn:Et; [exists y; right; left; by apply tree_locked_goes_on|].
    destruct (acts s y) as [| | | | |j' h2|j'|c j'| | | | |] eqn:Ey; simpl in *; try done; try lia.
    + apply (IH (d - h2)%nat ltac:(lia) y j' h2); done.
    + exists y. left. by exists j'.
    + destruct (go_on_tree_lock s y Hinv) as (z & ?); [by rewrite Ey|]. by exists z; right.
  - exists x. right. left. by apply go_on.
Qed.
End tree.

(** Runs, for examples: the state after each step is read off the rule. *)
Tactic Notation "run" uconstr(rule) := eapply rtc_l; [eapply rule; (done || (simpl; lia))|].

(** The scan finds nobody asleep. *)
Tactic Notation "run_unlock" constr(x) :=
  eapply rtc_l; [eapply (step_unlock _ _ _ _ _ _ _ x); [done|done|apply wakes_nobody; by intros [|[|y]] [? ?]]|].

(** A tree of depth 1 and two threads: thread 0 is in its critical section with ID 0,
    thread 1 is about to sleep on the root. *)
Lemma raced_reachable :
  exists s, rtc (step 1 2) init s /\ acts s 0%nat = Crit 0 /\ acts s 1%nat = Climb 1 0 /\ modes s 1%nat = Falling /\
    owner s (Node 0) = Some 0%nat.
Proof.
  eexists. split.
  - unfold init.
    run (step_acquire 1 2 _ _ _ _ 0 0). run (step_lock 1 2 _ _ _ _ 0 TreeLock). run (step_set 1 2 _ _ _ _ 0 0). run_unlock 0%nat.
    run (step_lock 1 2 _ _ _ _ 0 (Node 0)). run (step_acquire 1 2 _ _ _ _ 1 1). run (step_lock 1 2 _ _ _ _ 1 TreeLock).
    run (step_set 1 2 _ _ _ _ 1 1). run_unlock 1%nat. run (step_busy 1 2 _ _ _ _ 1 (Node 0) 0). apply rtc_refl.
  - done.
Qed.

Lemma tournament_mutual_exclusion_witness :
  exists s, rtc (step 1 2) init s /\ inside (acts s 0%nat) = true /\ inside (acts s 1%nat) = false.
Proof.
  destruct raced_reachable as (s & Hr & H0 & H1 & _). exists s. split; [exact Hr|].
  assert (inside (acts s 0%nat) = true) as Hi by (rewrite H0; reflexivity). split; [exact Hi|].
  destruct (inside (acts s 1%nat)) eqn:E; [|reflexivity].
  discriminate (tournament_mutual_exclusion 1 2 (le_n _) s 0 1 Hr Hi E).
Defined.

(** The same two threads: thread 0 leaves before thread 1 is marked asleep, and nobody
    will wake it. *)
Lemma hang_reachable :
  exists s, rtc (step 1 2) init s /\ acts s 1%nat = Climb 1 0 /\ (forall y i, acts s y <> Crit i) /\
    forall y, ~ can_go_on 1 2 s y.
Proof.
  eexists. split.
  - unfold init.
    run (step_acquire 1 2 _ _ _ _ 0 0). run (step_lock 1 2 _ _ _ _ 0 TreeLock). run (step_set 1 2 _ _ _ _ 0 0). run_unlock 0%nat.
    run (step_lock 1 2 _ _ _ _ 0 (Node 0)). run (step_acquire 1 2 _ _ _ _ 1 1). run (step_lock 1 2 _ _ _ _ 1 TreeLock).
    run (step_set 1 2 _ _ _ _ 1 1). run_unlock 1%nat. run (step_busy 1 2 _ _ _ _ 1 (Node 0) 0).
    run (step_release 1 2 _ _ _ _ 0 (Some 0%nat) 0). run (step_lock 1 2 _ _ _ _ 0 TreeLock). run (step_mine 1 2 _ _ _ _ 0 (Some 0%nat) 0).
    run_unlock 0%nat. run (step_clear 1 2 _ _ _ _ 0 0). run_unlock 0%nat. run (step_sleep 1 2 _ _ _ _ 1). apply rtc_refl.
  - split; [done|]. split; [by intros [|[|y]] i|]. intros y (Hc & s' & Hs & Hne). destruct y as [|[|y]]; [done| |done].
    apply Hne. by eapply asleep_stays; [| |exact Hs].
Qed.

Lemma tournament_hangs_by_lost_wakeup_witness :
  exists s y, rtc (step 1 2) init s /\ wakeup_lost 1 s y /\ forall z, ~ can_go_on 1 2 s z.
Proof.
  destruct hang_reachable as (s & Hr & H1 & Hcrit & Hstuck).
  destruct (tournament_hangs_by_lost_wakeup 1 2 (le_n _) s 1 Hr) as (y & Hy); [rewrite H1; reflexivity|].
  exists s, y. split; [exact Hr|]. split; [|exact Hstuck].
  destruct Hy as [[i Hi]|[Hg|Hl]]; [destruct (Hcrit y i Hi)|destruct (Hstuck y Hg)|exact Hl].
Defined.
End Race.
