(* ===== verification/TournamentCode.v ===== *)
(** The functions of tournament_tree.c, over the memory of the process and the
    mutex system calls, and what they do when called by one thread. *)

From S2P Require Import Prelude Monad UserApi Tournament.

Module Trnmnt.

(** Layout of [struct trnmnt_tree]. *)
Definition sizeof_tree : Z := 16.
Definition fLock (p : Z) : Z := p.
Definition fmutextree (p : Z) : Z := p + 4.
Definition fthreadMap (p : Z) : Z := p + 8.
Definition fdepth (p : Z) : Z := p + 12.
Definition elt (a i : Z) : Z := a + 4 * i.

(** [while (exp != 0) { output *= init; exp--; }] *)
Fixpoint powordepth_loop (n : nat) (output : Z) : Z :=
  match n with O => output | S n' => powordepth_loop n' (s32 (output * 2)) end.
Definition powordepth (exp : Z) : Z := powordepth_loop (Z.to_nat (u32 exp)) 1.

Section code.
Context {U : Type} `{UserOps U}.

Definition dealloc_all (output treeSize : Z) : M U unit :=
  for_each (seqZ 0 treeSize) (fun i =>
    mt ← load (fmutextree output); m ← load (elt mt i); kthread_mutex_dealloc m;; mret tt).

(** The tail shared by the two failure branches of [trnmnt_tree_alloc]. *)
Definition alloc_undo (output treeSize : Z) : M U Z :=
  dealloc_all output treeSize;;
  lk ← load (fLock output); kthread_mutex_dealloc lk;;
  mt ← load (fmutextree output); free mt;;
  free output;;
  mret 0.

(** The loop that looks for a failed [kthread_mutex_alloc]. *)
Fixpoint init_check (output : Z) (js : list Z) (initCheck : Z) : M U Z :=
  match js with
  | [] => mret initCheck
  | i :: js' =>
      load (fmutextree output) ≫= fun mt => load (elt mt i) ≫= fun m =>
      init_check output js' (if m =? -1 then 1 else initCheck)
  end.

(** The part of [trnmnt_tree_alloc] that builds the thread map. *)
Definition alloc_map (output depth treeSize : Z) : M U Z :=
  tm ← malloc (powordepth depth * 4);
  store (fthreadMap output) tm;;
  if tm =? 0 then alloc_undo output treeSize else
  for_each (seqZ 0 (powordepth depth)) (fun i => tm ← load (fthreadMap output); store (elt tm i) (-1));;
  mret output.

(** The loops that allocate the mutexes of the nodes and look for one that failed. *)
Definition alloc_mutexes (output treeSize : Z) : M U Z :=
  for_each (seqZ 0 treeSize) (fun i =>
    m ← kthread_mutex_alloc; mt ← load (fmutextree output); store (elt mt i) m);;
  init_check output (seqZ 0 treeSize) 0.

(** The part that builds the array of the nodes. *)
Definition alloc_nodes (output depth treeSize : Z) : M U Z :=
  mt ← malloc (treeSize * 4);
  store (fmutextree output) mt;;
  if mt =? 0 then free output;; mret 0 else
  initCheck ← alloc_mutexes output treeSize;
  if negb (initCheck =? 0) then alloc_undo output treeSize else alloc_map output depth treeSize.

(** The depth and the lock of the thread map. *)
Definition alloc_lock (output depth : Z) : M U Z :=
  store (fdepth output) depth;;
  lk ← kthread_mutex_alloc;
  store (fLock output) lk;;
  mret lk.

(** The lines after the first [malloc], whose result they do not check. *)
Definition alloc_in (output depth : Z) : M U Z :=
  if (depth <=? 0) || (6 <? depth) then mret 0 else
  let treeSize := powordepth depth - 1 in
  lk ← alloc_lock output depth;
  if lk =? -1 then free output;; mret 0 else
  alloc_nodes output depth treeSize.

Definition trnmnt_tree_alloc (depth : Z) : M U Z :=
  output ← malloc sizeof_tree;
  alloc_in output depth.

(** [for (i = 0; ...; i++) if (tree->threadMap[i] != -1) ...]: the first entry
    in use, if any. *)
Fixpoint map_in_use (tree : Z) (js : list Z) : M U bool :=
  match js with
  | [] => mret false
  | i :: js' =>
      load (fthreadMap tree) ≫= fun tm => load (elt tm i) ≫= fun x =>
      if negb (x =? -1) then mret true else map_in_use tree js'
  end.

(** The loop that frees the mutexes, stopping at the first that is refused. *)
Fixpoint dealloc_until (tree : Z) (js : list Z) : M U bool :=
  match js with
  | [] => mret false
  | i :: js' =>
      load (fmutextree tree) ≫= fun mt => load (elt mt i) ≫= fun m =>
      kthread_mutex_dealloc m ≫= fun r =>
      if r =? -1 then mret true else dealloc_until tree js'
  end.

Definition unlock_tree (tree : Z) : M U unit := lk ← load (fLock tree); kthread_mutex_unlock lk;; mret tt.
Definition lock_tree (tree : Z) : M U unit := lk ← load (fLock tree); kthread_mutex_lock lk;; mret tt.

Definition trnmnt_tree_dealloc (tree : Z) : M U Z :=
  lock_tree tree;;
  dp ← load (fdepth tree);
  let treeSize := powordepth dp - 1 in
  busy ← map_in_use tree (seqZ 0 (powordepth dp));
  if (busy : bool) then unlock_tree tree;; mret (-1) else
  bad ← dealloc_until tree (seqZ 0 treeSize);
  if (bad : bool) then unlock_tree tree;; mret (-1) else
  unlock_tree tree;;
  lk ← load (fLock tree); kthread_mutex_dealloc lk;;
  tm ← load (fthreadMap tree); free tm;;
  mt ← load (fmutextree tree); free mt;;
  free tree;;
  store (fdepth tree) 0;;
  mret 0.

(** [while (treePosition != 0) ...]; positions shrink, so the first bounds the
    number of passes. *)
Fixpoint climb (n : nat) (tree treePosition fatherPosition : Z) : M U unit :=
  if treePosition =? 0 then mret tt else
  match n with
  | O => fault "climb: fuel"
  | S n' =>
      load (fmutextree tree) ≫= fun mt => load (elt mt fatherPosition) ≫= fun m =>
      kthread_mutex_lock m ≫= fun _ => climb n' tree fatherPosition (Z.quot (fatherPosition - 1) 2)
  end.

Definition trnmnt_tree_acquire (tree ID : Z) : M U Z :=
  if (ID <? 0) || (tree =? 0) then mret (-1) else
  dp ← load (fdepth tree);
  if powordepth dp - 1 <? ID then mret (-1) else
  lock_tree tree;;
  tm ← load (fthreadMap tree);
  x ← load (elt tm ID);
  if negb (x =? -1) then unlock_tree tree;; mret (-1) else
  me ← kthread_id;
  tm ← load (fthreadMap tree);
  store (elt tm ID) me;;
  unlock_tree tree;;
  dp ← load (fdepth tree);
  let treePosition := powordepth dp - 1 + ID in
  climb (Z.to_nat treePosition) tree treePosition (Z.quot (treePosition - 1) 2);;
  mret 0.

Fixpoint trnmnt_tree_release_rec (n : nat) (tree position : Z) : M U Z :=
  let fatherPosition := Z.quot (position - 1) 2 in
  match n with
  | O => fault "release: fuel"
  | S n' =>
      (if negb (fatherPosition =? 0) then trnmnt_tree_release_rec n' tree fatherPosition else mret 0) ≫= fun r =>
      if negb (fatherPosition =? 0) && (r =? -1) then mret (-1) else
      load (fmutextree tree) ≫= fun mt => load (elt mt fatherPosition) ≫= fun m => kthread_mutex_unlock m
  end.

Definition trnmnt_tree_release (tree ID : Z) : M U Z :=
  lock_tree tree;;
  tm ← load (fthreadMap tree);
  x ← load (elt tm ID);
  me ← kthread_id;
  if negb (x =? me) then unlock_tree tree;; mret (-1) else
  dp ← load (fdepth tree);
  let leaf := powordepth dp - 1 + ID in
  r ← trnmnt_tree_release_rec (Z.to_nat leaf) tree leaf;
  if r =? -1 then unlock_tree tree;; mret (-1) else
  tm ← load (fthreadMap tree);
  store (elt tm ID) (-1);;
  unlock_tree tree;;
  mret 0.
End code.

(** * The tree in memory *)

Lemma powordepth_eq d : (d <= 6)%nat -> powordepth (Z.of_nat d) = Z.of_nat (2 ^ d).
Proof. intros Hd. do 7 (destruct d as [|d]; [done|]). lia. Qed.

Definition array (m : gmap Z Z) (a : Z) (l : list Z) : Prop :=
  forall i x, l !! i = Some x -> m !! elt a (Z.of_nat i) = Some x.

Record tree_at (m : gmap Z Z) (p : Z) (d : nat) (L mt tmp : Z) (ms tm : list Z) : Prop := {
  ta_nonnull : p <> 0;
  ta_range : (1 <= d <= 6)%nat;
  ta_lock : m !! fLock p = Some L;
  ta_mutextree : m !! fmutextree p = Some mt;
  ta_threadMap : m !! fthreadMap p = Some tmp;
  ta_depth : m !! fdepth p = Some (Z.of_nat d);
  ta_ms : array m mt ms;
  ta_tm : array m tmp tm;
  ta_ms_len : length ms = (2 ^ d - 1)%nat;
  ta_tm_len : length tm = (2 ^ d)%nat;
  ta_apart : forall i, (i < 2 ^ d)%nat ->
    (elt tmp (Z.of_nat i) ∉ [fLock p; fmutextree p; fthreadMap p; fdepth p]) /\
    forall j, (j < 2 ^ d - 1)%nat -> elt tmp (Z.of_nat i) <> elt mt (Z.of_nat j) }.

(** Entries of the thread map may change. *)
Lemma tree_at_store m p d L mt tmp ms tm i x :
  tree_at m p d L mt tmp ms tm -> (i < 2 ^ d)%nat ->
  tree_at (<[elt tmp (Z.of_nat i) := x]> m) p d L mt tmp ms (<[i := x]> tm).
Proof.
  intros [? ? ? ? ? ? Hms Htm Hl1 Hl2 Hap] Hi. destruct (Hap i Hi) as [Hf Hj].
  rewrite !not_elem_of_cons in Hf. destruct Hf as (? & ? & ? & ? & _).
  split; try done; try by rewrite lookup_insert_ne.
  - intros j y Hy. rewrite lookup_insert_ne; [by apply Hms|]. apply Hj. rewrite <- Hl1. by eapply lookup_lt_Some.
  - intros j y Hy. apply list_lookup_insert_Some in Hy as [(<- & -> & _)|[Hne Hy]]; [apply lookup_insert_eq|].
    rewrite lookup_insert_ne; [by apply Htm|]. unfold elt. lia.
  - by rewrite length_insert.
Qed.

(** Views that differ in the mutexes only. *)
Lemma view_mutex_id v : v <| v_mutex ::= id |> = v.
Proof. by destruct v. Qed.

Definition set_up (x : option Z) (l : list Z) (m : gmap Z (option Z)) : gmap Z (option Z) :=
  foldl (fun m i => <[i := x]> m) m l.
Definition set_down (x : option Z) (l : list Z) (m : gmap Z (option Z)) : gmap Z (option Z) :=
  foldr (fun i m => <[i := x]> m) m l.

Lemma lookup_set_up x l m i : set_up x l m !! i = if decide (i ∈ l) then Some x else m !! i.
Proof.
  revert m. induction l as [|a l IH]; intros m.
  - rewrite decide_False; [done|]. apply not_elem_of_nil.
  - change (set_up x (a :: l) m) with (set_up x l (<[a := x]> m)). rewrite IH.
    destruct (decide (i ∈ l)) as [Hl|Hl].
    + rewrite decide_True; [done|]. by apply elem_of_cons; right.
    + destruct (decide (a = i)) as [->|Hne].
      * rewrite lookup_insert_eq, decide_True; [done|]. by apply elem_of_cons; left.
      * rewrite lookup_insert_ne, decide_False; [done| |done]. rewrite elem_of_cons. by intros [->|].
Qed.

Lemma lookup_set_down x l m i : set_down x l m !! i = if decide (i ∈ l) then Some x else m !! i.
Proof.
  induction l as [|a l IH].
  - rewrite decide_False; [done|]. apply not_elem_of_nil.
  - change (set_down x (a :: l) m) with (<[a := x]> (set_down x l m)). destruct (decide (a = i)) as [->|Hne].
    + rewrite lookup_insert_eq, decide_True; [done|]. by apply elem_of_cons; left.
    + rewrite lookup_insert_ne, IH by done.
      destruct (decide (i ∈ l)) as [Hl|Hl].
      * rewrite decide_True; [done|]. by apply elem_of_cons; right.
      * rewrite decide_False; [done|]. rewrite elem_of_cons. by intros [->|].
Qed.

(** The father computed by the code. *)
Lemma quot_father d ID (Hid : (ID < 2 ^ d)%nat) h : (h < d)%nat ->
  Z.quot (Z.of_nat (Tree.anc d ID h) - 1) 2 = Z.of_nat (Tree.anc d ID (S h)) /\ Z.of_nat (Tree.anc d ID h) <> 0.
Proof.
  intros Hh. pose proof (Tree.anc_range d ID h Hid ltac:(lia)) as [Hlo _].
  assert (2 ^ 1 <= 2 ^ (d - h))%nat by (apply Nat.pow_le_mono_r; lia). simpl (2 ^ 1)%nat in *.
  assert (1 <= Tree.anc d ID h)%nat by (unfold Tree.anc; lia). split; [|lia].
  rewrite <- Tree.anc_father by done. unfold Tree.father. rewrite Nat2Z.inj_div, Nat2Z.inj_sub by lia.
  apply Z.quot_div_nonneg; lia.
Qed.

Section path.
Context (d ID : nat) (Hid : (ID < 2 ^ d)%nat) (ms : list Z).
Hypothesis (Hlen : length ms = (2 ^ d - 1)%nat).

(** The mutex [h] levels above the leaf, and those above level [h]. *)
Definition node (h : nat) : Z := ms !!! Tree.anc d ID h.
Definition nodes_above (h k : nat) : list Z := node <$> seq (S h) k.

Lemma node_at h : (1 <= h <= d)%nat -> ms !! Tree.anc d ID h = Some (node h).
Proof.
  intros Hh. apply list_lookup_lookup_total_lt. rewrite Hlen. by apply Tree.anc_lt.
Qed.

Lemma node_inj h h' : NoDup ms -> (1 <= h <= d)%nat -> (1 <= h' <= d)%nat -> node h = node h' -> h = h'.
Proof.
  intros Hnd Hh Hh' He. eapply (Tree.anc_height d ID ID); [done|done|lia|lia|].
  eapply (NoDup_lookup ms); [done|by apply node_at|]. rewrite He. by apply node_at.
Qed.

Lemma elem_of_nodes_above h k x :
  x ∈ nodes_above h k <-> exists h', (h < h' <= h + k)%nat /\ x = node h'.
Proof.
  clear Hid Hlen. unfold nodes_above. rewrite list_elem_of_fmap. split.
  - intros (h' & -> & Hh%elem_of_seq). exists h'. split; [lia|done].
  - intros (h' & Hh & ->). exists h'. split; [done|]. apply elem_of_seq. lia.
Qed.
End path.

Section calls.
Context {U : Type} `{MutexLaws U, !HeapLaws U}.
Context (p : Z) (d : nat) (L mt tmp : Z) (ms : list Z).

(** The tree's own mutexes: distinct, and distinct from the lock of the map. *)
Hypothesis (Hnd : NoDup (L :: ms)).

Lemma lock_tree_becomes v tm :
  tree_at (v_mem v) p d L mt tmp ms tm -> v_mutex v !! L = Some None ->
  becomes (lock_tree p) v tt (v <| v_mutex ::= <[L := Some (v_me v)]> |>).
Proof.
  intros Ht HL. unfold lock_tree. eapply becomes_step; [apply becomes_load, Ht|].
  eapply becomes_step; [by apply becomes_lock|]. apply becomes_ret.
Qed.

Lemma unlock_tree_becomes v tm :
  tree_at (v_mem v) p d L mt tmp ms tm -> v_mutex v !! L = Some (Some (v_me v)) ->
  becomes (unlock_tree p) v tt (v <| v_mutex ::= <[L := None]> |>).
Proof.
  intros Ht HL. unfold unlock_tree. eapply becomes_step; [apply becomes_load, Ht|].
  eapply becomes_step; [by apply becomes_unlock|]. apply becomes_ret.
Qed.

Section climb.
Context (ID : nat) (Hid : (ID < 2 ^ d)%nat).

(** The loop of [trnmnt_tree_acquire] locks the mutexes above its position. *)
Lemma climb_becomes k h v tm n :
  tree_at (v_mem v) p d L mt tmp ms tm -> (h + k = d)%nat -> (k <= n)%nat ->
  (forall h', (h < h' <= d)%nat -> v_mutex v !! node d ID ms h' = Some None) ->
  becomes (climb n p (Z.of_nat (Tree.anc d ID h)) (Z.quot (Z.of_nat (Tree.anc d ID h) - 1) 2)) v tt
    (v <| v_mutex ::= set_up (Some (v_me v)) (nodes_above d ID ms h k) |>).
Proof.
  revert h v n. induction k as [|k IH]; intros h v n Ht Hk Hn Hfree.
  - assert (h = d) as -> by lia. rewrite Tree.anc_root by done.
    unfold nodes_above. simpl seq. change (set_up _ (_ <$> [])) with (fun m : gmap Z (option Z) => m).
    replace (v <| v_mutex ::= (fun m => m) |>) with v by by destruct v. destruct n; apply becomes_ret.
  - destruct (quot_father d ID Hid h ltac:(lia)) as [Hq Hz]. rewrite Hq.
    destruct n as [|n]; [lia|]. cbn [climb]. destruct (Z.eqb_spec (Z.of_nat (Tree.anc d ID h)) 0); [done|].
    pose proof (node_at d ID Hid ms (ta_ms_len _ _ _ _ _ _ _ _ Ht) (S h) ltac:(lia)) as Hms.
    eapply becomes_step; [apply becomes_load, Ht|].
    eapply becomes_step; [apply becomes_load; by apply (ta_ms _ _ _ _ _ _ _ _ Ht)|].
    eapply becomes_step; [apply becomes_lock, Hfree; lia|].
    apply (IH (S h)); [done|lia|lia|]. intros h' Hh'. rsimpl. rewrite lookup_insert_ne; [apply Hfree; lia|].
    intros He. apply NoDup_cons in Hnd as [_ Hnd'].
    apply (node_inj d ID Hid ms (ta_ms_len _ _ _ _ _ _ _ _ Ht)) in He; [lia|done|lia|lia].
Qed.

(** [trnmnt_tree_release_rec] unlocks them, from the root down. *)
Lemma release_rec_becomes k h v tm n :
  tree_at (v_mem v) p d L mt tmp ms tm -> (h + S k = d)%nat -> (k < n)%nat ->
  (forall h', (h < h' <= d)%nat -> v_mutex v !! node d ID ms h' = Some (Some (v_me v))) ->
  becomes (trnmnt_tree_release_rec n p (Z.of_nat (Tree.anc d ID h))) v 0
    (v <| v_mutex ::= set_down None (nodes_above d ID ms h (S k)) |>).
Proof.
  revert h n. induction k as [|k IH]; intros h n Ht Hk Hn Hheld; (destruct n as [|n]; [lia|]);
    cbn [trnmnt_tree_release_rec];
    destruct (quot_father d ID Hid h ltac:(lia)) as [Hq _]; rewrite Hq;
    pose proof (node_at d ID Hid ms (ta_ms_len _ _ _ _ _ _ _ _ Ht) (S h) ltac:(lia)) as Hms.
  - assert (Tree.anc d ID (S h) = 0%nat) as Ha.
    { replace (S h) with d by lia. by apply Tree.anc_root. }
    rewrite Ha in *. cbn [Z.of_nat Z.eqb negb andb].
    eapply becomes_step; [apply becomes_ret|].
    eapply becomes_step; [apply becomes_load, Ht|].
    eapply becomes_step; [apply becomes_load; by apply (ta_ms _ _ _ _ _ _ _ _ Ht)|].
    apply becomes_unlock, Hheld. lia.
  - destruct (quot_father d ID Hid (S h) ltac:(lia)) as [_ Hz].
    destruct (Z.eqb_spec (Z.of_nat (Tree.anc d ID (S h))) 0); [done|]. cbn [negb andb].
    eapply becomes_step; [apply (IH (S h)); [done|lia|lia|intros h' Hh'; apply Hheld; lia]|].
    cbn [Z.eqb]. eapply becomes_step; [apply becomes_load, Ht|].
    eapply becomes_step; [apply becomes_load; by apply (ta_ms _ _ _ _ _ _ _ _ Ht)|].
    eapply becomes_eq; [apply becomes_unlock|done].
    rsimpl. rewrite lookup_set_down, decide_False; [apply Hheld; lia|].
    intros (h' & Hh' & He)%elem_of_nodes_above. apply NoDup_cons in Hnd as [_ Hnd'].
    apply (node_inj d ID Hid ms (ta_ms_len _ _ _ _ _ _ _ _ Ht)) in He; [lia|done|lia|lia].
Qed.
End climb.

Lemma node_not_lock ID h :
  (ID < 2 ^ d)%nat -> length ms = (2 ^ d - 1)%nat -> (1 <= h <= d)%nat -> node d ID ms h <> L.
Proof.
  intros Hid Hlen Hh He. pose proof (node_at d ID Hid ms Hlen h Hh) as Hn. rewrite He in Hn.
  apply NoDup_cons in Hnd as [Hnl _]. by apply Hnl, (list_elem_of_lookup_2 _ _ _ Hn).
Qed.

(** [trnmnt_tree_acquire] of an unused ID of a tree whose mutexes are free. *)
Lemma acquire_becomes v tm ID :
  tree_at (v_mem v) p d L mt tmp ms tm -> (ID < 2 ^ d)%nat -> tm !! ID = Some (-1) ->
  v_mutex v !! L = Some None -> (forall h, (1 <= h <= d)%nat -> v_mutex v !! node d ID ms h = Some None) ->
  becomes (trnmnt_tree_acquire p (Z.of_nat ID)) v 0
    (v <| v_mem ::= <[elt tmp (Z.of_nat ID) := v_me v]> |>
       <| v_mutex ::= set_up (Some (v_me v)) (nodes_above d ID ms 0 d) |>).
Proof.
  intros Ht Hid Htm HL Hfree. pose proof (ta_range _ _ _ _ _ _ _ _ Ht) as Hr. unfold trnmnt_tree_acquire.
  destruct (Z.ltb_spec (Z.of_nat ID) 0); [lia|]. destruct (Z.eqb_spec p 0); [by destruct Ht|]. cbn [orb].
  eapply becomes_step; [apply becomes_load, Ht|]. rewrite powordepth_eq by lia.
  destruct (Z.ltb_spec (Z.of_nat (2 ^ d) - 1) (Z.of_nat ID)); [lia|].
  eapply becomes_step; [by eapply lock_tree_becomes|].
  eapply becomes_step; [apply becomes_load, Ht|].
  eapply becomes_step; [apply becomes_load; by apply (ta_tm _ _ _ _ _ _ _ _ Ht)|]. cbn [Z.eqb negb Pos.eqb].
  eapply becomes_step; [apply becomes_id|].
  eapply becomes_step; [apply becomes_load, Ht|].
  eapply becomes_step; [apply becomes_store; eexists; by apply (ta_tm _ _ _ _ _ _ _ _ Ht)|].
  pose proof (tree_at_store _ _ _ _ _ _ _ _ ID (v_me v) Ht Hid) as Ht'.
  eapply becomes_step; [eapply unlock_tree_becomes; [exact Ht'|rsimpl; apply lookup_insert_eq]|].
  eapply becomes_step; [apply becomes_load, Ht'|]. rewrite powordepth_eq by lia.
  assert (Z.of_nat (2 ^ d) - 1 + Z.of_nat ID = Z.of_nat (Tree.anc d ID 0)) as ->.
  { rewrite Tree.anc_leaf. unfold Tree.leaf. pose proof (Tree.pow2_pos d). lia. }
  eapply becomes_step; [eapply (climb_becomes ID Hid d 0)|].
  - exact Ht'.
  - lia.
  - rewrite Tree.anc_leaf. unfold Tree.leaf. pose proof (Nat.pow_gt_lin_r 2 d). lia.
  - intros h Hh. rsimpl. pose proof (node_not_lock ID h Hid (ta_ms_len _ _ _ _ _ _ _ _ Ht) ltac:(lia)).
    rewrite !lookup_insert_ne by done. apply Hfree. lia.
  - apply runs_ret. split; [done|]. destruct v as [mx rm ids me mem bl]; unfold setf; simpl in *. f_equal.
    apply map_eq. intros i. rewrite !lookup_set_up. destruct (decide (i ∈ _)); [done|].
    destruct (decide (L = i)) as [<-|]; [by rewrite lookup_insert_eq|by rewrite !lookup_insert_ne].
Qed.

(** [trnmnt_tree_release] by the thread that acquired the ID. *)
Lemma release_becomes v tm ID :
  tree_at (v_mem v) p d L mt tmp ms tm -> (ID < 2 ^ d)%nat -> tm !! ID = Some (v_me v) ->
  v_mutex v !! L = Some None ->
  (forall h, (1 <= h <= d)%nat -> v_mutex v !! node d ID ms h = Some (Some (v_me v))) ->
  becomes (trnmnt_tree_release p (Z.of_nat ID)) v 0
    (v <| v_mem ::= <[elt tmp (Z.of_nat ID) := -1]> |>
       <| v_mutex ::= set_down None (nodes_above d ID ms 0 d) |>).
Proof.
  intros Ht Hid Htm HL Hheld. pose proof (ta_range _ _ _ _ _ _ _ _ Ht) as Hr. unfold trnmnt_tree_release.
  eapply becomes_step; [by eapply lock_tree_becomes|].
  eapply becomes_step; [apply becomes_load, Ht|].
  eapply becomes_step; [apply becomes_load; by apply (ta_tm _ _ _ _ _ _ _ _ Ht)|].
  eapply becomes_step; [apply becomes_id|]. rsimpl. rewrite Z.eqb_refl. cbn [negb].
  eapply becomes_step; [apply becomes_load, Ht|]. rewrite powordepth_eq by lia.
  assert (Z.of_nat (2 ^ d) - 1 + Z.of_nat ID = Z.of_nat (Tree.anc d ID 0)) as ->.
  { rewrite Tree.anc_leaf. unfold Tree.leaf. pose proof (Tree.pow2_pos d). lia. }
  eapply becomes_step; [eapply (release_rec_becomes ID Hid (d - 1) 0)|].
  - exact Ht.
  - lia.
  - rewrite Tree.anc_leaf. unfold Tree.leaf. pose proof (Nat.pow_gt_lin_r 2 d). lia.
  - intros h Hh. rsimpl. pose proof (node_not_lock ID h Hid (ta_ms_len _ _ _ _ _ _ _ _ Ht) ltac:(lia)).
    rewrite !lookup_insert_ne by done. apply Hheld. lia.
  - cbn [Z.eqb]. eapply becomes_step; [apply becomes_load, Ht|].
    eapply becomes_step; [apply becomes_store; eexists; by apply (ta_tm _ _ _ _ _ _ _ _ Ht)|].
    pose proof (tree_at_store _ _ _ _ _ _ _ _ ID (-1) Ht Hid) as Ht'.
    replace (S (d - 1)) with d by lia.
    assert (L ∉ nodes_above d ID ms 0 d) as HnL.
    { intros (h & Hh & He)%elem_of_nodes_above.
      by apply (node_not_lock ID h Hid (ta_ms_len _ _ _ _ _ _ _ _ Ht) ltac:(lia)). }
    eapply becomes_step; [eapply unlock_tree_becomes; [exact Ht'|]|].
    + rsimpl. by rewrite lookup_set_down, decide_False, lookup_insert_eq by done.
    + apply runs_ret. split; [done|]. destruct v as [mx rm ids me mem bl]; unfold setf; simpl in *. f_equal.
      apply map_eq. intros i. destruct (decide (L = i)) as [<-|].
      * by rewrite lookup_insert_eq, lookup_set_down, decide_False.
      * rewrite lookup_insert_ne, !lookup_set_down by done. destruct (decide _); [done|]. by rewrite lookup_insert_ne.
Qed.

Lemma lock_unlock_same v x :
  v_mutex v !! L = Some None -> v <| v_mutex ::= <[L := x]> |> <| v_mutex ::= <[L := None]> |> = v.
Proof.
  intros HL. destruct v as [mx rm ids me mem bl]; unfold setf; simpl in *. f_equal.
  rewrite insert_insert_eq. by apply insert_id.
Qed.

Lemma acquire_in_use v tm ID x :
  tree_at (v_mem v) p d L mt tmp ms tm -> (ID < 2 ^ d)%nat -> tm !! ID = Some x -> x <> -1 ->
  v_mutex v !! L = Some None -> becomes (trnmnt_tree_acquire p (Z.of_nat ID)) v (-1) v.
Proof.
  intros Ht Hid Htm Hx HL. pose proof (ta_range _ _ _ _ _ _ _ _ Ht) as Hr. unfold trnmnt_tree_acquire.
  destruct (Z.ltb_spec (Z.of_nat ID) 0); [lia|]. destruct (Z.eqb_spec p 0); [by destruct Ht|]. cbn [orb].
  eapply becomes_step; [apply becomes_load, Ht|]. rewrite powordepth_eq by lia.
  destruct (Z.ltb_spec (Z.of_nat (2 ^ d) - 1) (Z.of_nat ID)); [lia|].
  eapply becomes_step; [by eapply lock_tree_becomes|].
  eapply becomes_step; [apply becomes_load, Ht|].
  eapply becomes_step; [apply becomes_load; by apply (ta_tm _ _ _ _ _ _ _ _ Ht)|].
  destruct (Z.eqb_spec x (-1)); [done|]. cbn [negb].
  eapply becomes_step; [eapply unlock_tree_becomes; [exact Ht|rsimpl; apply lookup_insert_eq]|].
  apply runs_ret. split; [done|]. by apply lock_unlock_same.
Qed.

Lemma acquire_out_of_range v tm (ID : Z) :
  tree_at (v_mem v) p d L mt tmp ms tm -> ~ (0 <= ID < Z.of_nat (2 ^ d)) ->
  becomes (trnmnt_tree_acquire p ID) v (-1) v.
Proof.
  intros Ht Hid. pose proof (ta_range _ _ _ _ _ _ _ _ Ht) as Hr. unfold trnmnt_tree_acquire.
  destruct (Z.ltb_spec ID 0); [apply becomes_ret|]. destruct (Z.eqb_spec p 0); [apply becomes_ret|]. cbn [orb].
  eapply becomes_step; [apply becomes_load, Ht|]. rewrite powordepth_eq by lia.
  destruct (Z.ltb_spec (Z.of_nat (2 ^ d) - 1) ID); [apply becomes_ret|lia].
Qed.

Lemma release_not_mine v tm ID x :
  tree_at (v_mem v) p d L mt tmp ms tm -> tm !! ID = Some x -> x <> v_me v ->
  v_mutex v !! L = Some None -> becomes (trnmnt_tree_release p (Z.of_nat ID)) v (-1) v.
Proof.
  intros Ht Htm Hx HL. unfold trnmnt_tree_release.
  eapply becomes_step; [by eapply lock_tree_becomes|].
  eapply becomes_step; [apply becomes_load, Ht|].
  eapply becomes_step; [apply becomes_load; by apply (ta_tm _ _ _ _ _ _ _ _ Ht)|].
  eapply becomes_step; [apply becomes_id|]. rsimpl. destruct (Z.eqb_spec x (v_me v)); [done|]. cbn [negb].
  eapply becomes_step; [eapply unlock_tree_becomes; [exact Ht|rsimpl; apply lookup_insert_eq]|].
  apply runs_ret. split; [done|]. by apply lock_unlock_same.
Qed.
End calls.

(** * Building a tree *)

Section alloc.
Context {U : Type} `{MutexLaws U, !HeapLaws U}.

(** ** The mutexes of the nodes *)

(** [w] is [v] after the loop of allocations wrote [ids]: fresh mutexes for as
    long as the table had room, -1 after that. *)
Record allocated (v : view) (fresh : list Z) (n : nat) (w : view) : Prop := {
  al_pos : Forall (fun x => 0 < x) fresh;
  al_nodup : NoDup fresh;
  al_new : forall x, x ∈ fresh -> v_mutex v !! x = None;
  al_mutex : v_mutex w = set_up None fresh (v_mutex v);
  al_room : v_room v = (length fresh + v_room w)%nat;
  al_full : n <> 0%nat -> v_room w = 0%nat;
  al_ids : v_ids w = v_ids v - Z.of_nat (length fresh);
  al_me : v_me w = v_me v;
  al_blocks : v_blocks w = v_blocks v }.

Lemma take_S_insert {A} (l : list A) i x : (i < length l)%nat -> take (S i) (<[i := x]> l) = take i l ++ [x].
Proof.
  intros Hi. rewrite (take_S_r _ _ x) by by apply list_lookup_insert_eq.
  by rewrite take_insert_ge by lia.
Qed.

Lemma load_past a ws m x y : block a ws ##ₘ m -> m !! x = Some y -> (block a ws ∪ m) !! x = Some y.
Proof. intros Hd Hx. by apply lookup_union_Some_r. Qed.

Lemma alloc_loop_runs p mt m0 k i ws v :
  v_mem v = block mt ws ∪ m0 -> block mt ws ##ₘ m0 -> m0 !! fmutextree p = Some mt ->
  (i + k = length ws)%nat -> Z.of_nat k <= v_ids v ->
  runs (for_each (seqZ (Z.of_nat i) (Z.of_nat k)) (fun i =>
          m ← kthread_mutex_alloc; mt ← load (fmutextree p); store (elt mt i) m)) v
    (fun _ w => exists fresh n, (length fresh + n = k)%nat /\ allocated v fresh n w /\
       v_mem w = block mt (take i ws ++ fresh ++ replicate n (-1)) ∪ m0).
Proof.
  revert i ws v. induction k as [|k IH]; intros i ws v Hm Hd Hp Hi Hids.
  { simpl. apply runs_ret. exists [], 0%nat. split; [done|]. rewrite app_nil_r, take_ge by lia. split; [|done].
    split; simpl; try done; [apply NoDup_nil_2|by intros x ?%elem_of_nil|lia]. }
  rewrite seqZ_cons by lia. cbn [for_each]. replace (Z.succ (Z.of_nat i)) with (Z.of_nat (S i)) by lia.
  replace (Z.pred (Z.of_nat (S k))) with (Z.of_nat k) by lia.
  assert (forall x v1, v_mem v1 = v_mem v ->
    becomes (load (fmutextree p) ≫= fun mt => store (elt mt (Z.of_nat i)) x) v1 tt
      (v1 <| v_mem := block mt (<[i := x]> ws) ∪ m0 |>)) as Hstore.
  { intros x v1 Hv1. eapply becomes_step; [apply becomes_load; rewrite Hv1, Hm; by apply load_past|].
    eapply becomes_eq; [apply becomes_store; rewrite Hv1, Hm|].
    - destruct (lookup_lt_is_Some_2 ws i) as [y Hy]; [lia|]. exists y. apply lookup_union_Some_l. unfold elt. by rewrite block_at.
    - destruct v1; unfold setf; simpl in *. f_equal. subst. unfold elt. rewrite Hm. apply block_store. lia. }
  assert (forall x, block mt (<[i := x]> ws) ##ₘ m0) as Hd'
    by (intros x; eapply block_dom; [|exact Hd]; by rewrite length_insert).
  assert (forall x l, take (S i) (<[i := x]> ws) ++ l = take i ws ++ x :: l) as Htake.
  { intros x l. rewrite take_S_insert by lia. by rewrite <- app_assoc. }
  destruct (decide (v_room v = 0%nat)) as [Hr|Hr].
  - eapply runs_step; [eapply becomes_step; [apply becomes_alloc_full; [lia|done]|by apply Hstore]|].
    eapply runs_weaken; [apply (IH (S i) (<[i := -1]> ws)); rsimpl; try done; rewrite ?length_insert; lia|].
    intros [] w (fresh & n & Hn & [Ha1 Ha2 Ha3 Ha4 Ha5 Ha6 Ha7 Ha8 Ha9] & Hw). rsimpl.
    assert (fresh = []) as -> by (destruct fresh; [done|simpl in *; lia]).
    exists [], (S n). split; [simpl in *; lia|]. split.
    + split; rsimpl; try done; simpl in *; lia.
    + rewrite Hw. simpl. by rewrite Htake.
  - apply (runs_bind _ _ _ (fun _ w => exists id, 0 < id /\ v_mutex v !! id = None /\
      w = v <| v_mutex ::= <[id := None]> |> <| v_room ::= Nat.pred |> <| v_ids ::= Z.pred |>
            <| v_mem := block mt (<[i := id]> ws) ∪ m0 |>)).
    { eapply runs_bind; [apply runs_alloc; [lia|done]|]. intros id v1 (Hid & Hnew & ->).
      eapply runs_weaken; [by apply Hstore|]. intros [] w [_ ->]. by exists id. }
    intros [] w (id & Hid & Hnew & Hw).
    eapply runs_weaken; [apply (IH (S i) (<[i := id]> ws)); subst; rsimpl; try done; rewrite ?length_insert; lia|].
    intros [] w' (fresh & n & Hn & [Ha1 Ha2 Ha3 Ha4 Ha5 Ha6 Ha7 Ha8 Ha9] & Hw'). subst w. rsimpl.
    assert (id ∉ fresh) as Hnin by (intros Hin; specialize (Ha3 id Hin); by rewrite lookup_insert_eq in Ha3).
    exists (id :: fresh), n. split; [simpl; lia|]. split.
    + split; rsimpl; try done; simpl.
      * by constructor.
      * by apply NoDup_cons.
      * intros x [->|Hx]%elem_of_cons; [done|]. specialize (Ha3 x Hx).
        destruct (decide (id = x)) as [->|]; [done|by rewrite lookup_insert_ne in Ha3].
      * lia.
      * lia.
    + rewrite Hw'. simpl. by rewrite Htake.
Qed.

Lemma init_check_becomes p mt l i c v :
  v_mem v !! fmutextree p = Some mt ->
  (forall j x, l !! j = Some x -> v_mem v !! elt mt (Z.of_nat (i + j)) = Some x) ->
  becomes (init_check p (seqZ (Z.of_nat i) (Z.of_nat (length l))) c) v
    (if existsb (fun x => x =? -1) l then 1 else c) v.
Proof.
  revert i c. induction l as [|x l IH]; intros i c Hp Hl; [apply becomes_ret|].
  rewrite seqZ_cons by (simpl; lia). cbn [init_check].
  eapply becomes_step; [by apply becomes_load|].
  eapply becomes_step; [apply becomes_load; rewrite <- (Hl 0%nat x) by done; do 2 f_equal; lia|].
  replace (Z.succ (Z.of_nat i)) with (Z.of_nat (S i)) by lia.
  replace (Z.pred (Z.of_nat (length (x :: l)))) with (Z.of_nat (length l)) by (simpl; lia).
  simpl existsb. eapply becomes_val; [apply IH; [done|]|].
  - intros j y Hj. rewrite <- (Hl (S j) y) by done. do 2 f_equal. lia.
  - by destruct (x =? -1), (existsb _ l).
Qed.

Lemma existsb_fresh fresh n :
  Forall (fun x => 0 < x) fresh -> existsb (fun x => x =? -1) (fresh ++ replicate n (-1)) = negb (n =? 0)%nat.
Proof.
  intros Hf. rewrite existsb_app.
  assert (existsb (fun x => x =? -1) fresh = false) as ->.
  { induction Hf as [|x l Hx _ IH]; simpl; [done|]. rewrite IH. destruct (Z.eqb_spec x (-1)); [lia|done]. }
  by destruct n.
Qed.

(** ** Giving everything back *)

Definition drop_all (l : list Z) (m : gmap Z (option Z)) : gmap Z (option Z) :=
  foldl (fun m i => delete i m) m l.

Lemma drop_all_set_up l m : (forall x, x ∈ l -> m !! x = None) -> drop_all l (set_up None l m) = m.
Proof.
  intros Hn. assert (forall m' i, drop_all l m' !! i = if decide (i ∈ l) then None else m' !! i) as Hd.
  { clear. induction l as [|a l IH]; intros m' i.
    - rewrite decide_False; [done|]. apply not_elem_of_nil.
    - change (drop_all (a :: l) m') with (drop_all l (delete a m')). rewrite IH.
      destruct (decide (i ∈ l)) as [Hl|Hl]; [rewrite decide_True; [done|by apply elem_of_cons; right]|].
      destruct (decide (a = i)) as [->|Hne].
      + rewrite lookup_delete_eq, decide_True; [done|]. by apply elem_of_cons; left.
      + rewrite lookup_delete_ne, decide_False; [done| |done]. rewrite elem_of_cons. by intros [->|]. }
  apply map_eq. intros i. rewrite Hd, lookup_set_up. destruct (decide _); [|done]. symmetry. by apply Hn.
Qed.

Lemma dealloc_fresh_becomes p mt l i v :
  v_mem v !! fmutextree p = Some mt -> NoDup l -> (forall x, x ∈ l -> v_mutex v !! x = Some None) ->
  (forall j x, l !! j = Some x -> v_mem v !! elt mt (Z.of_nat (i + j)) = Some x) ->
  becomes (for_each (seqZ (Z.of_nat i) (Z.of_nat (length l))) (fun i =>
      mt ← load (fmutextree p); m ← load (elt mt i); kthread_mutex_dealloc m;; mret tt)) v tt
    (v <| v_mutex ::= drop_all l |> <| v_room ::= Nat.add (length l) |>).
Proof.
  revert i v. induction l as [|x l IH]; intros i v Hp Hnd Hm Hl.
  { simpl. eapply becomes_eq; [apply becomes_ret|]. by destruct v. }
  rewrite seqZ_cons by (simpl; lia). cbn [for_each]. apply NoDup_cons in Hnd as [Hx Hnd].
  replace (Z.succ (Z.of_nat i)) with (Z.of_nat (S i)) by lia.
  replace (Z.pred (Z.of_nat (length (x :: l)))) with (Z.of_nat (length l)) by (simpl; lia).
  eapply becomes_step.
  { eapply becomes_step; [by apply becomes_load|].
    eapply becomes_step; [apply becomes_load; rewrite <- (Hl 0%nat x) by done; do 2 f_equal; lia|].
    eapply becomes_step; [apply becomes_dealloc, Hm; by constructor|]. apply becomes_ret. }
  eapply becomes_eq; [apply IH|].
  - done.
  - done.
  - intros y Hy. rsimpl. rewrite lookup_delete_ne by congruence. apply Hm. by constructor.
  - intros j y Hj. rsimpl. rewrite <- (Hl (S j) y) by done. do 2 f_equal. lia.
  - destruct v; unfold setf; simpl. f_equal. lia.
Qed.

Lemma dealloc_failed_becomes p mt n i v :
  v_mem v !! fmutextree p = Some mt -> v_mutex v !! (-1) = None ->
  (forall j, (j < n)%nat -> v_mem v !! elt mt (Z.of_nat (i + j)) = Some (-1)) ->
  becomes (for_each (seqZ (Z.of_nat i) (Z.of_nat n)) (fun i =>
      mt ← load (fmutextree p); m ← load (elt mt i); kthread_mutex_dealloc m;; mret tt)) v tt v.
Proof.
  revert i. induction n as [|n IH]; intros i Hp Hm Hl; [apply becomes_ret|].
  rewrite seqZ_cons by lia. cbn [for_each].
  replace (Z.succ (Z.of_nat i)) with (Z.of_nat (S i)) by lia.
  replace (Z.pred (Z.of_nat (S n))) with (Z.of_nat n) by lia.
  eapply becomes_step.
  { eapply becomes_step; [by apply becomes_load|].
    eapply becomes_step; [apply becomes_load; rewrite <- (Hl 0%nat) by lia; do 2 f_equal; lia|].
    eapply becomes_step; [apply becomes_dealloc_refused; [done|by rewrite Hm]|]. apply becomes_ret. }
  apply IH; [done|done|]. intros j Hj. rewrite <- (Hl (S j)) by lia. do 2 f_equal. lia.
Qed.

(** [free] of a block on top of the memory. *)
Lemma free_top v a ws m :
  v_mem v = block a ws ∪ m -> block a ws ##ₘ m -> v_blocks v !! a = Some (length ws) ->
  becomes (free a) v tt (v <| v_mem := m |> <| v_blocks ::= delete a |>).
Proof.
  intros Hm Hd Hb. eapply becomes_eq; [apply (becomes_free _ _ ws); [done|]|].
  - rewrite Hm. apply map_union_subseteq_l.
  - destruct v; unfold setf; simpl in *. f_equal. rewrite Hm. by apply block_back.
Qed.

(** The failure branches: every mutex and every block is given back. *)
Lemma alloc_undo_becomes v p L mt fresh n wp m0 :
  v_mem v = block mt (fresh ++ replicate n (-1)) ∪ (block p wp ∪ m0) ->
  block mt (fresh ++ replicate n (-1)) ##ₘ block p wp ∪ m0 -> block p wp ##ₘ m0 ->
  (block p wp ∪ m0) !! fLock p = Some L -> (block p wp ∪ m0) !! fmutextree p = Some mt ->
  v_blocks v !! mt = Some (length fresh + n)%nat -> v_blocks v !! p = Some (length wp) -> p <> mt ->
  NoDup (L :: fresh) -> (forall x, x ∈ L :: fresh -> v_mutex v !! x = Some None) -> v_mutex v !! (-1) = None ->
  becomes (alloc_undo p (Z.of_nat (length fresh + n))) v 0
    (v <| v_mutex ::= (fun m => delete L (drop_all fresh m)) |> <| v_room ::= Nat.add (S (length fresh)) |>
       <| v_mem := m0 |> <| v_blocks ::= (fun b => delete p (delete mt b)) |>).
Proof.
  intros Hm Hd1 Hd2 HL Hmt Hb1 Hb2 Hne Hnd Hfree Hneg. apply NoDup_cons in Hnd as [HnL Hnd].
  assert (v_mem v !! fmutextree p = Some mt) as Hmt' by (rewrite Hm; by apply load_past).
  assert (forall j x, (fresh ++ replicate n (-1)) !! j = Some x -> v_mem v !! elt mt (Z.of_nat j) = Some x) as Hel.
  { intros j x Hj. rewrite Hm. apply lookup_union_Some_l. unfold elt. by rewrite block_at. }
  set (v1 := v <| v_mutex ::= drop_all fresh |> <| v_room ::= Nat.add (length fresh) |>).
  assert (forall y, y ∉ fresh -> v_mutex v1 !! y = v_mutex v !! y) as Hv1.
  { intros y Hy. unfold v1. rsimpl. clear -Hy. generalize (v_mutex v). induction fresh as [|a l IH]; intros m; [done|].
    apply not_elem_of_cons in Hy as [Hya Hyl]. change (drop_all (a :: l) m) with (drop_all l (delete a m)).
    rewrite IH by done. by rewrite lookup_delete_ne. }
  unfold alloc_undo, dealloc_all. eapply becomes_step.
  { rewrite Nat2Z.inj_add, seqZ_app by lia. eapply runs_ext; [intros; apply for_each_app|].
    eapply becomes_step; [apply (dealloc_fresh_becomes p mt fresh 0); try done|].
    - intros x Hx. apply Hfree. by apply elem_of_cons; right.
    - intros j x Hj. simpl. apply Hel. by apply lookup_app_l_Some.
    - fold v1. rewrite Z.add_0_l. apply (dealloc_failed_becomes p mt n (length fresh)); try done.
      + rewrite Hv1; [done|]. intros Hin. specialize (Hfree (-1) ltac:(by apply elem_of_cons; right)). congruence.
      + intros j Hj. apply Hel. rewrite lookup_app_r by lia. apply lookup_replicate. split; [done|lia]. }
  eapply becomes_step; [apply becomes_load; unfold v1; rsimpl; rewrite Hm; by apply load_past|].
  eapply becomes_step; [apply becomes_dealloc; rewrite Hv1 by done; apply Hfree; by constructor|].
  eapply becomes_step; [apply becomes_load; done|].
  eapply becomes_step; [eapply (free_top _ mt); [exact Hm|exact Hd1|]|].
  { unfold v1. rsimpl. rewrite Hb1. f_equal. by rewrite length_app, length_replicate. }
  eapply becomes_step; [eapply (free_top _ p); [by rsimpl|exact Hd2|]|].
  { unfold v1. rsimpl. by rewrite lookup_delete_ne. }
  apply runs_ret. split; [done|]. destruct v; done.
Qed.

Lemma store_top v a ws m i x y :
  v_mem v = block a ws ∪ m -> (i < length ws)%nat -> y = a + 4 * Z.of_nat i ->
  becomes (store y x) v tt (v <| v_mem := block a (<[i := x]> ws) ∪ m |>).
Proof.
  intros Hm Hi ->. eapply becomes_eq; [apply becomes_store|].
  - destruct (lookup_lt_is_Some_2 ws i Hi) as [z Hz]. exists z. rewrite Hm. apply lookup_union_Some_l. by rewrite block_at.
  - destruct v; unfold setf; simpl in *. f_equal. rewrite Hm. by apply block_store.
Qed.

Lemma store_below v (u : gmap Z Z) a ws m i x y :
  v_mem v = u ∪ (block a ws ∪ m) -> u ##ₘ block a ws ∪ m ->
  (i < length ws)%nat -> y = a + 4 * Z.of_nat i ->
  becomes (store y x) v tt (v <| v_mem := u ∪ (block a (<[i := x]> ws) ∪ m) |>).
Proof.
  intros Hm Hd Hi ->. destruct (lookup_lt_is_Some_2 ws i Hi) as [z Hz].
  assert ((block a ws ∪ m) !! (a + 4 * Z.of_nat i) = Some z) as Hl by (apply lookup_union_Some_l; by rewrite block_at).
  eapply becomes_eq; [apply becomes_store|].
  - exists z. rewrite Hm. by apply lookup_union_Some_r.
  - destruct v; unfold setf; simpl in *. f_equal. rewrite Hm, insert_union_r.
    + f_equal. by apply block_store.
    + rewrite map_disjoint_spec in Hd. destruct (u !! _) eqn:E; [|done]. exfalso. by eapply Hd.
Qed.

Lemma map_fill_becomes p tmp m0 k i ws v :
  v_mem v = block tmp ws ∪ m0 -> block tmp ws ##ₘ m0 -> m0 !! fthreadMap p = Some tmp -> (i + k = length ws)%nat ->
  becomes (for_each (seqZ (Z.of_nat i) (Z.of_nat k)) (fun i =>
      tm ← load (fthreadMap p); store (elt tm i) (-1))) v tt
    (v <| v_mem := block tmp (take i ws ++ replicate k (-1)) ∪ m0 |>).
Proof.
  revert i ws v. induction k as [|k IH]; intros i ws v Hm Hd Hp Hi.
  { simpl. eapply becomes_eq; [apply becomes_ret|]. rewrite app_nil_r, take_ge by lia. rewrite <- Hm. by destruct v. }
  rewrite seqZ_cons by lia. cbn [for_each].
  replace (Z.succ (Z.of_nat i)) with (Z.of_nat (S i)) by lia.
  replace (Z.pred (Z.of_nat (S k))) with (Z.of_nat k) by lia.
  eapply becomes_step.
  { eapply becomes_step; [apply becomes_load; rewrite Hm; by apply load_past|].
    eapply (store_top _ tmp ws m0 i); [done|lia|done]. }
  eapply becomes_eq; [apply (IH (S i) (<[i := -1]> ws)); rsimpl; try done|].
  - eapply block_dom; [|exact Hd]. by rewrite length_insert.
  - rewrite length_insert. lia.
  - rewrite take_S_insert, <- app_assoc by lia. by destruct v.
Qed.

(** The memory of a finished tree. *)
Lemma tree_at_blocks p d L mt tmp ms tm m0 :
  p <> 0 -> (1 <= d <= 6)%nat -> length ms = (2 ^ d - 1)%nat -> length tm = (2 ^ d)%nat ->
  block mt ms ##ₘ block p [L; mt; tmp; Z.of_nat d] ∪ m0 ->
  block tmp tm ##ₘ block mt ms ∪ (block p [L; mt; tmp; Z.of_nat d] ∪ m0) ->
  tree_at (block tmp tm ∪ (block mt ms ∪ (block p [L; mt; tmp; Z.of_nat d] ∪ m0))) p d L mt tmp ms tm.
Proof.
  intros Hp Hd Hl1 Hl2 Hd1 Hd2.
  set (mp := block p [L; mt; tmp; Z.of_nat d] ∪ m0) in *. set (mm := block mt ms ∪ mp) in *.
  assert (forall i x y, [L; mt; tmp; Z.of_nat d] !! i = Some x -> y = p + 4 * Z.of_nat i -> mp !! y = Some x) as Hf.
  { intros i x y Hx ->. apply lookup_union_Some_l. by rewrite block_at. }
  assert (forall i x y, [L; mt; tmp; Z.of_nat d] !! i = Some x -> y = p + 4 * Z.of_nat i -> mm !! y = Some x) as Hg.
  { intros i x y Hx Hy. apply load_past; [done|]. by eapply Hf. }
  assert (array mm mt ms) as Hms by (intros i x Hx; apply lookup_union_Some_l; unfold elt; by rewrite block_at).
  assert (forall i, (i < 2 ^ d)%nat -> mm !! elt tmp (Z.of_nat i) = None) as Hnone.
  { intros i Hi. destruct (mm !! _) eqn:E; [|done]. exfalso. rewrite map_disjoint_spec in Hd2.
    destruct (lookup_lt_is_Some_2 tm i) as [x Hx]; [lia|]. eapply Hd2; [|exact E]. unfold elt. by rewrite block_at. }
  split; try done.
  - apply load_past; [done|]. apply (Hg 0%nat); [done|unfold fLock; lia].
  - apply load_past; [done|]. apply (Hg 1%nat); [done|unfold fmutextree; lia].
  - apply load_past; [done|]. apply (Hg 2%nat); [done|unfold fthreadMap; lia].
  - apply load_past; [done|]. apply (Hg 3%nat); [done|unfold fdepth; lia].
  - intros i x Hx. apply load_past; [done|]. by apply Hms.
  - intros i x Hx. apply lookup_union_Some_l. unfold elt. by rewrite block_at.
  - intros i Hi. specialize (Hnone i Hi). split.
    + rewrite !not_elem_of_cons. split_and!; try apply not_elem_of_nil; intros He; rewrite He in Hnone.
      * by rewrite (Hg 0%nat L) in Hnone by (unfold fLock; done || lia).
      * by rewrite (Hg 1%nat mt) in Hnone by (unfold fmutextree; done || lia).
      * by rewrite (Hg 2%nat tmp) in Hnone by (unfold fthreadMap; done || lia).
      * by rewrite (Hg 3%nat (Z.of_nat d)) in Hnone by (unfold fdepth; done || lia).
    + intros j Hj He. destruct (lookup_lt_is_Some_2 ms j) as [x Hx]; [lia|].
      rewrite He, (Hms j x Hx) in Hnone. done.
Qed.

(** A view in which the mutexes of the nodes have been allocated. *)
Record nodes_built (v : view) (p : Z) (d : nat) (L mt x : Z) (ms : list Z) (m0 : gmap Z Z) : Prop := {
  nb_mem : v_mem v = block mt ms ∪ (block p [L; mt; x; Z.of_nat d] ∪ m0);
  nb_apart : block mt ms ##ₘ block p [L; mt; x; Z.of_nat d] ∪ m0;
  nb_apart0 : block p [L; mt; x; Z.of_nat d] ##ₘ m0;
  nb_mt : v_blocks v !! mt = Some (length ms);
  nb_p : v_blocks v !! p = Some 4%nat;
  nb_ne : p <> mt;
  nb_neg : v_mutex v !! (-1) = None }.

Lemma nodes_built_undo v p d L mt x fresh n m0 :
  nodes_built v p d L mt x (fresh ++ replicate n (-1)) m0 -> NoDup (L :: fresh) ->
  (forall y, y ∈ L :: fresh -> v_mutex v !! y = Some None) -> length (fresh ++ replicate n (-1)) = (2 ^ d - 1)%nat ->
  becomes (alloc_undo p (Z.of_nat (2 ^ d - 1))) v 0
    (v <| v_mutex ::= (fun m => delete L (drop_all fresh m)) |> <| v_room ::= Nat.add (S (length fresh)) |>
       <| v_mem := m0 |> <| v_blocks ::= (fun b => delete p (delete mt b)) |>).
Proof.
  intros [Hm Hd1 Hd2 Hb1 Hb2 Hne Hneg] Hnd Hfree Hlen. rewrite <- Hlen, length_app, length_replicate.
  rewrite length_app, length_replicate in Hb1.
  eapply (alloc_undo_becomes v p L mt fresh n [L; mt; x; Z.of_nat d] m0); try done.
  - apply lookup_union_Some_l. replace (fLock p) with (p + 4 * Z.of_nat 0) by (unfold fLock; lia). by rewrite block_at.
  - apply lookup_union_Some_l. replace (fmutextree p) with (p + 4 * Z.of_nat 1) by (unfold fmutextree; lia). by rewrite block_at.
Qed.

(** The fields of the tree may change without the blocks moving. *)
Lemma map_fields p L mt x y d m0 (u : gmap Z Z) :
  u ##ₘ block p [L; mt; x; Z.of_nat d] ∪ m0 -> u ##ₘ block p [L; mt; y; Z.of_nat d] ∪ m0.
Proof.
  rewrite !map_disjoint_union_r. intros [Hu Hm]. split; [|done].
  apply map_disjoint_sym. eapply (block_dom p [L; mt; x; Z.of_nat d]); [done|]. by apply map_disjoint_sym.
Qed.

Lemma small_tree d : (d <= 6)%nat -> (2 ^ d <= 64)%nat.
Proof. intros Hd. by apply (Nat.pow_le_mono_r 2 d 6). Qed.

(** ** The calls of [malloc] *)

(** The lines of a call up to the [malloc] of the array of mutexes, and up to that of
    the thread map, with its result. *)
Definition array_malloc (depth : Z) : M U Z :=
  output ← malloc sizeof_tree;
  alloc_lock output depth;;
  malloc ((powordepth depth - 1) * 4).

Definition nodes_to_map (output mt depth : Z) : M U Z :=
  store (fmutextree output) mt;;
  alloc_mutexes output (powordepth depth - 1);;
  malloc (powordepth depth * 4).

Definition map_malloc (depth : Z) : M U Z :=
  output ← malloc sizeof_tree;
  alloc_lock output depth;;
  mt ← malloc ((powordepth depth - 1) * 4);
  nodes_to_map output mt depth.

(** The view of a state that a computation has reached. *)
Ltac from_state H u := match type of H with rep _ ?w => set (u := w) in H end.

Lemma words_of n : Z.to_nat ((Z.of_nat n * 4 + 3) / 4) = n.
Proof.
  replace (Z.of_nat n * 4 + 3) with (3 + Z.of_nat n * 4) by lia. rewrite Z.div_add by lia. change (3 / 4) with 0. lia.
Qed.

(** ** The thread map *)

(** The tree is there, and nothing else has changed. *)
Definition map_made (v : view) (p : Z) (d : nat) (L mt : Z) (ms : list Z) (m0 : gmap Z Z) (w : view) : Prop :=
  v_mutex w = v_mutex v /\ v_room w = v_room v /\ v_me w = v_me v /\ m0 ⊆ v_mem w /\
  exists tmp, tree_at (v_mem w) p d L mt tmp ms (replicate (2 ^ d) (-1)).

Lemma map_made_runs v p d L mt x ms m0 tmp ws :
  nodes_built v p d L mt x ms m0 -> p <> 0 -> (1 <= d <= 6)%nat -> length ms = (2 ^ d - 1)%nat ->
  0 < tmp -> length ws = (2 ^ d)%nat -> block tmp ws ##ₘ v_mem v ->
  runs (store (fthreadMap p) tmp;;
        if tmp =? 0 then alloc_undo p (Z.of_nat (2 ^ d - 1)) else
        for_each (seqZ 0 (Z.of_nat (2 ^ d))) (fun i => tm ← load (fthreadMap p); store (elt tm i) (-1));;
        mret p)
    (v <| v_mem ::= union (block tmp ws) |> <| v_blocks ::= <[tmp := length ws]> |>)
    (fun a w => a = p /\ map_made v p d L mt ms m0 w).
Proof.
  intros [Hm Hd1 Hd2 Hb1 Hb2 Hne Hneg] Hp Hd Hlen Htp Hlw Hdt.
  pose proof (map_fields p L mt x tmp d m0 (block mt ms) Hd1) as Hd1'. rewrite Hm in Hdt.
  pose proof (proj1 (map_disjoint_union_r _ _ _) Hdt) as [Hdt1 Hdt2].
  pose proof (map_fields p L mt x tmp d m0 (block tmp ws) Hdt2) as Hdt2'.
  eapply runs_step.
  { eapply (store_below _ (block tmp ws ∪ block mt ms) p [L; mt; x; Z.of_nat d] m0 2).
    - rsimpl. by rewrite Hm, (assoc_L (∪)).
    - by apply map_disjoint_union_l.
    - simpl; lia.
    - unfold fthreadMap. lia. }
  destruct (Z.eqb_spec tmp 0); [lia|]. simpl insert.
  eapply runs_step; [eapply (map_fill_becomes p tmp (block mt ms ∪ (block p [L; mt; tmp; Z.of_nat d] ∪ m0)) _ 0 ws)|].
  - rsimpl. symmetry. apply (assoc_L (∪)).
  - by apply map_disjoint_union_r.
  - apply load_past; [done|]. apply lookup_union_Some_l.
    replace (fthreadMap p) with (p + 4 * Z.of_nat 2) by (unfold fthreadMap; lia). by rewrite block_at.
  - by rewrite Hlw.
  - assert (block tmp (replicate (2 ^ d) (-1)) ##ₘ block mt ms ∪ (block p [L; mt; tmp; Z.of_nat d] ∪ m0)) as Hdf.
    { eapply (block_dom tmp ws); [by rewrite length_replicate|]. by apply map_disjoint_union_r. }
    apply runs_ret. split; [done|]. unfold map_made. rsimpl. split_and!; try done.
    + etransitivity; [|apply map_union_subseteq_r; exact Hdf]. etransitivity; [|by apply map_union_subseteq_r].
      apply map_union_subseteq_r. by eapply (block_dom p [L; mt; x; Z.of_nat d]).
    + exists tmp. apply tree_at_blocks; try done. by rewrite length_replicate.
Qed.

Lemma alloc_map_result v p d L mt x ms m0 o s :
  nodes_built v p d L mt x ms m0 -> p <> 0 -> (1 <= d <= 6)%nat -> length ms = (2 ^ d - 1)%nat ->
  NoDup (L :: ms) -> (forall y, y ∈ L :: ms -> v_mutex v !! y = Some None) -> rep s v ->
  exists tmp s1 a s' w, malloc (Z.of_nat (2 ^ d) * 4) o s = Ok tmp o s1 /\
    alloc_map p (Z.of_nat d) (Z.of_nat (2 ^ d - 1)) o s = Ok a o s' /\ rep s' w /\
    if tmp =? 0
    then a = 0 /\ w = v <| v_mutex ::= (fun m => delete L (drop_all ms m)) |> <| v_room ::= Nat.add (S (length ms)) |>
                        <| v_mem := m0 |> <| v_blocks ::= (fun b => delete p (delete mt b)) |>
    else a = p /\ map_made v p d L mt ms m0 w.
Proof.
  intros Hb Hp Hd Hlen Hnd Hfree Hs. unfold alloc_map. rewrite powordepth_eq by lia.
  destruct (runs_malloc v (Z.of_nat (2 ^ d) * 4) ltac:(pose proof (small_tree d); lia) o s Hs)
    as (tmp & s1 & v1 & E & Hs1 & [[-> ->]|(Htp & ws & Hws & Hdt & Hbt & ->)]); eexists _, s1; setoid_rewrite (bind_ok _ _ _ _ _ _ _ E).
  - edestruct (store_below v (block mt ms) p [L; mt; x; Z.of_nat d] m0 2 0 (fthreadMap p)) as ([] & s2 & w & E2 & Hs2 & _ & ->);
      [apply Hb|apply Hb|simpl; lia|done|exact Hs1|]. rewrite (bind_ok _ _ _ _ _ _ _ E2). cbn [Z.eqb].
    from_state Hs2 u. edestruct (nodes_built_undo u p d L mt 0 ms 0 m0) as (a & s3 & w & E3 & Hs3 & -> & ->); [..|exact Hs2|]; subst u.
    + rewrite app_nil_r. destruct Hb. split; try done; rsimpl; [by eapply map_fields|by eapply (block_dom p [L; mt; x; Z.of_nat d])].
    + done.
    + done.
    + by rewrite app_nil_r.
    + eexists _, _, _. split_and!; [done|exact E3|exact Hs3|]. split; [done|]. by destruct v.
  - rewrite words_of in Hws. destruct (map_made_runs v p d L mt x ms m0 tmp ws Hb Hp Hd Hlen Htp Hws Hdt o s1 Hs1)
      as (a & s2 & w & E2 & Hs2 & HQ).
    exists a, s2, w. split_and!; [done|exact E2|done|]. destruct (Z.eqb_spec tmp 0); [lia|done].
Qed.

(** ** The nodes *)

Lemma set_up_fresh L fresh m y :
  y ∈ L :: fresh -> m !! L = Some None -> set_up None fresh m !! y = Some None.
Proof.
  intros Hy HL. rewrite lookup_set_up. destruct (decide (y ∈ fresh)) as [|Hn]; [done|].
  apply elem_of_cons in Hy as [->|]; done.
Qed.

Lemma alloc_mutexes_runs v p d L mt x ws m0 :
  nodes_built v p d L mt x ws m0 -> length ws = (2 ^ d - 1)%nat -> Z.of_nat (2 ^ d - 1) <= v_ids v ->
  v_mutex v !! L = Some None ->
  runs (alloc_mutexes p (Z.of_nat (2 ^ d - 1))) v (fun c w => exists fresh n,
    c = (if (n =? 0)%nat then 0 else 1) /\ (length fresh + n = 2 ^ d - 1)%nat /\ allocated v fresh n w /\
    nodes_built w p d L mt x (fresh ++ replicate n (-1)) m0 /\ NoDup (L :: fresh) /\
    (forall y, y ∈ L :: fresh -> v_mutex w !! y = Some None)).
Proof.
  intros [Hm Hd1 Hd2 Hb1 Hb2 Hne Hneg] Hlw Hids HL. unfold alloc_mutexes.
  assert ((block p [L; mt; x; Z.of_nat d] ∪ m0) !! fmutextree p = Some mt) as Hmt.
  { apply lookup_union_Some_l. replace (fmutextree p) with (p + 4 * Z.of_nat 1) by (unfold fmutextree; lia). by rewrite block_at. }
  eapply runs_bind; [by apply (alloc_loop_runs p mt (block p [L; mt; x; Z.of_nat d] ∪ m0) _ 0 ws)|].
  intros [] w (fresh & n & Hn & Ha & Hw). pose proof Ha as [Ha1 Ha2 Ha3 Ha4 _ _ _ _ Ha9]. simpl in Hw.
  set (ms := fresh ++ replicate n (-1)) in *.
  assert (length ms = (2 ^ d - 1)%nat) as Hlm by (unfold ms; rewrite length_app, length_replicate; lia).
  assert (nodes_built w p d L mt x ms m0) as Hb.
  { split; try done.
    - eapply (block_dom mt ws); [congruence|done].
    - rewrite Ha9, Hb1. congruence.
    - by rewrite Ha9.
    - rewrite Ha4, lookup_set_up, decide_False; [done|]. intros Hin. rewrite Forall_forall in Ha1. specialize (Ha1 _ Hin). lia. }
  eapply runs_weaken; [rewrite <- Hlm; apply (init_check_becomes p mt ms 0); rewrite Hw|].
  - apply load_past; [apply Hb|done].
  - intros j y Hj. apply lookup_union_Some_l. unfold elt. simpl. by rewrite block_at.
  - intros c w' [-> ->]. exists fresh, n. unfold ms at 1. rewrite existsb_fresh by done. split_and!; try done.
    + by destruct n.
    + apply NoDup_cons. split; [|done]. intros Hin. specialize (Ha3 L Hin). congruence.
    + intros y Hy. rewrite Ha4. by eapply set_up_fresh.
Qed.

(** The tree and its lock are given back, or the tree has been built. *)
Definition nodes_undone (v : view) (p L : Z) (m0 : gmap Z Z) (a : Z) (w : view) : Prop :=
  a = 0 /\ v_mem w = m0 /\ v_blocks w = delete p (v_blocks v) /\ v_mutex w = delete L (v_mutex v) /\
  v_room w = S (v_room v) /\ v_me w = v_me v.

Definition nodes_made (v : view) (p : Z) (d : nat) (L : Z) (m0 : gmap Z Z) (a : Z) (w : view) : Prop :=
  a = p /\ v_me w = v_me v /\ m0 ⊆ v_mem w /\
  exists mt tmp ms, tree_at (v_mem w) p d L mt tmp ms (replicate (2 ^ d) (-1)) /\ NoDup (L :: ms) /\
    (forall y, y ∈ ms -> v_mutex v !! y = None) /\ v_mutex w = set_up None ms (v_mutex v) /\
    v_room v = (2 ^ d - 1 + v_room w)%nat.

(** With the array of the nodes in place. *)
Lemma nodes_filled v p d L mt x ws m0 o s :
  nodes_built v p d L mt x ws m0 -> length ws = (2 ^ d - 1)%nat -> p <> 0 -> (1 <= d <= 6)%nat ->
  Z.of_nat (2 ^ d - 1) <= v_ids v -> v_mutex v !! L = Some None -> rep s v ->
  exists a s' w,
    (alloc_mutexes p (Z.of_nat (2 ^ d - 1)) ≫= fun initCheck =>
     if negb (initCheck =? 0) then alloc_undo p (Z.of_nat (2 ^ d - 1)) else alloc_map p (Z.of_nat d) (Z.of_nat (2 ^ d - 1))) o s
      = Ok a o s' /\ rep s' w /\
    if decide (v_room v < 2 ^ d - 1)%nat then nodes_undone (v <| v_blocks ::= delete mt |>) p L m0 a w else
    exists tmp s2, (alloc_mutexes p (Z.of_nat (2 ^ d - 1));; malloc (Z.of_nat (2 ^ d) * 4)) o s = Ok tmp o s2 /\
      if tmp =? 0 then nodes_undone (v <| v_blocks ::= delete mt |>) p L m0 a w else nodes_made v p d L m0 a w.
Proof.
  intros Hb Hlw Hp Hd Hids HL Hs.
  destruct (alloc_mutexes_runs v p d L mt x ws m0 Hb Hlw Hids HL o s Hs)
    as (c & s1 & v1 & E & Hs1 & fresh & n & -> & Hn & [Ha1 Ha2 Ha3 Ha4 Ha5 Ha6 Ha7 Ha8 Ha9] & Hb1 & Hnd & Hfree).
  setoid_rewrite (bind_ok _ _ _ _ _ _ _ E). destruct n as [|n]; cbn [Nat.eqb Z.eqb negb].
  - rewrite app_nil_r in Hb1.
    destruct (alloc_map_result v1 p d L mt x fresh m0 o s1 Hb1 Hp Hd ltac:(lia) Hnd Hfree Hs1)
      as (tmp & s2 & a & s3 & w & E2 & E3 & Hs3 & HQ).
    exists a, s3, w. split_and!; [exact E3|done|]. rewrite decide_False by lia. exists tmp, s2. split; [by rewrite (bind_ok _ _ _ _ _ _ _ E)|]. destruct (tmp =? 0).
    + destruct HQ as [-> ->]. unfold nodes_undone. rsimpl. split_and!; try done; [by rewrite Ha9|by rewrite Ha4, drop_all_set_up|lia].
    + destruct HQ as (-> & Hmx & Hrm & Hme & Hsub & tm & Ht). unfold nodes_made. split_and!; [done|congruence|done|].
      exists mt, tm, fresh. split_and!; try done; [congruence|lia].
  - destruct (nodes_built_undo v1 p d L mt x fresh (S n) m0 Hb1 Hnd Hfree ltac:(rewrite length_app, length_replicate; lia) o s1 Hs1)
      as (a & s2 & w & E2 & Hs2 & -> & ->).
    eexists _, _, _. split_and!; [exact E2|exact Hs2|]. rewrite decide_True by (specialize (Ha6 ltac:(done)); lia).
    unfold nodes_undone. rsimpl.
    split_and!; try done; [by rewrite Ha9|by rewrite Ha4, drop_all_set_up|lia].
Qed.

Lemma alloc_nodes_result v p d L x1 x2 m0 o s :
  v_mem v = block p [L; x1; x2; Z.of_nat d] ∪ m0 -> block p [L; x1; x2; Z.of_nat d] ##ₘ m0 ->
  v_blocks v !! p = Some 4%nat -> p <> 0 -> (1 <= d <= 6)%nat -> Z.of_nat (2 ^ d - 1) <= v_ids v ->
  v_mutex v !! L = Some None -> v_mutex v !! (-1) = None -> rep s v ->
  exists mt s1 a s' w, malloc (Z.of_nat (2 ^ d - 1) * 4) o s = Ok mt o s1 /\
    alloc_nodes p (Z.of_nat d) (Z.of_nat (2 ^ d - 1)) o s = Ok a o s' /\ rep s' w /\
    if mt =? 0 then a = 0 /\ w = v <| v_mem := m0 |> <| v_blocks ::= delete p |> else
    if decide (v_room v < 2 ^ d - 1)%nat then nodes_undone v p L m0 a w else
    exists tmp s2, nodes_to_map p mt (Z.of_nat d) o s1 = Ok tmp o s2 /\
      if tmp =? 0 then nodes_undone v p L m0 a w else nodes_made v p d L m0 a w.
Proof.
  intros Hm Hd0 Hbp Hp Hd Hids HL Hneg Hs. unfold alloc_nodes.
  destruct (runs_malloc v (Z.of_nat (2 ^ d - 1) * 4) ltac:(pose proof (small_tree d); lia) o s Hs)
    as (mt & s1 & v1 & E & Hs1 & [[-> ->]|(Hmt & ws & Hws & Hdm & Hbm & ->)]); eexists _, s1; setoid_rewrite (bind_ok _ _ _ _ _ _ _ E).
  - destruct (store_top v p [L; x1; x2; Z.of_nat d] m0 1 0 (fmutextree p) Hm ltac:(simpl; lia) eq_refl o s1 Hs1)
      as ([] & s2 & w & E2 & Hs2 & _ & ->).
    rewrite (bind_ok _ _ _ _ _ _ _ E2). cbn [Z.eqb]. simpl insert in Hs2.
    from_state Hs2 u. edestruct (free_top u p [L; 0; x2; Z.of_nat d] m0) as ([] & s3 & w & E3 & Hs3 & _ & ->);
      [done|by eapply (block_dom p [L; x1; x2; Z.of_nat d])|done|exact Hs2|subst u].
    rewrite (bind_ok _ _ _ _ _ _ _ E3). eexists _, _, _. by split_and!.
  - rewrite words_of in Hws. assert (p <> mt) as Hne by congruence. rewrite Hm in Hdm.
    assert (block mt ws ##ₘ block p [L; mt; x2; Z.of_nat d] ∪ m0) as Hdm'.
    { apply map_disjoint_union_r in Hdm as [Ha Hb]. apply map_disjoint_union_r. split; [|done].
      apply map_disjoint_sym. eapply (block_dom p [L; x1; x2; Z.of_nat d]); [done|by apply map_disjoint_sym]. }
    from_state Hs1 u. edestruct (store_below u (block mt ws) p [L; x1; x2; Z.of_nat d] m0 1 mt (fmutextree p)) as ([] & s2 & v2 & E2 & Hs2 & _ & ->);
      [unfold u; rsimpl; by rewrite Hm|exact Hdm|simpl; lia|done|exact Hs1|subst u]. simpl insert in Hs2.
    rewrite (bind_ok _ _ _ _ _ _ _ E2). assert (mt =? 0 = false) as Hz by (apply Z.eqb_neq; lia). rewrite Hz.
    from_state Hs2 u. edestruct (nodes_filled u p d L mt x2 ws m0 o s2) as (a & s3 & w & E3 & Hs3 & HQ); [|done|done|done|..|exact Hs2|]; subst u; rsimpl; try done.
    { split; rsimpl; try done; [by eapply (block_dom p [L; x1; x2; Z.of_nat d])|apply lookup_insert_eq|by rewrite lookup_insert_ne]. }
    exists a, s3, w. rewrite Hz. split_and!; [done|done|done|]. unfold nodes_undone, nodes_made in *. rsimpl.
    rewrite (delete_insert_id _ _ _ Hbm) in HQ. destruct (decide _); [done|]. destruct HQ as (tmp & s4 & E4 & HQ).
    exists tmp, s4. split; [|done]. unfold nodes_to_map. rewrite powordepth_eq by lia.
    replace (Z.of_nat (2 ^ d) - 1) with (Z.of_nat (2 ^ d - 1)) by (pose proof (Tree.pow2_pos d); lia).
    by rewrite (bind_ok _ _ _ _ _ _ _ E2).
Qed.

(** ** What [trnmnt_tree_alloc] leaves behind, from [v] to [w] *)

(** A tree of fresh, free mutexes. *)
Definition tree_made (v : view) (d : nat) (a : Z) (w : view) : Prop :=
  exists L mt tmp ms, tree_at (v_mem w) a d L mt tmp ms (replicate (2 ^ d) (-1)) /\
    NoDup (L :: ms) /\ (forall y, y ∈ L :: ms -> v_mutex v !! y = None) /\
    v_mutex w = set_up None (L :: ms) (v_mutex v) /\ v_room v = (2 ^ d + v_room w)%nat /\ v_mem v ⊆ v_mem w /\
    v_me w = v_me v.

(** Everything is given back. *)
Definition given_back (v w : view) : Prop :=
  v_mem w = v_mem v /\ v_blocks w = v_blocks v /\ v_mutex w = v_mutex v /\ v_room w = v_room v.

(** The memory is given back; a mutex is not. *)
Definition lock_lost (v w : view) : Prop :=
  v_mem w = v_mem v /\ v_blocks w = v_blocks v /\
  exists L, v_mutex v !! L = None /\ v_mutex w = <[L := None]> (v_mutex v) /\ v_room v = S (v_room w).

(** The result [a] and the view [w] of a call in the state [s], described by [v], in which
    the first [malloc] returns a block. *)
Definition alloc_result (d : nat) (o : list (U -> U)) (s : U) (v : view) (a : Z) (w : view) : Prop :=
  if decide (v_room v = 0%nat) then a = 0 /\ given_back v w else
  exists array s1, array_malloc (Z.of_nat d) o s = Ok array o s1 /\
  if array =? 0 then a = 0 /\ lock_lost v w else
  if decide (v_room v < 2 ^ d)%nat then a = 0 /\ given_back v w else
  exists map s2, map_malloc (Z.of_nat d) o s = Ok map o s2 /\
  if map =? 0 then a = 0 /\ given_back v w else a <> 0 /\ tree_made v d a w.

(** The block of the tree with its lock. *)
Lemma alloc_lock_runs d v p ws :
  v_room v <> 0%nat -> 0 < v_ids v -> length ws = 4%nat ->
  runs (alloc_lock p (Z.of_nat d)) (v <| v_mem ::= union (block p ws) |> <| v_blocks ::= <[p := length ws]> |>)
    (fun L w => 0 < L /\ v_mutex v !! L = None /\ exists x1 x2,
       w = v <| v_mem ::= union (block p [L; x1; x2; Z.of_nat d]) |> <| v_blocks ::= <[p := 4%nat]> |>
             <| v_mutex ::= <[L := None]> |> <| v_room ::= Nat.pred |> <| v_ids ::= Z.pred |>).
Proof.
  intros Hr Hids Hws. unfold alloc_lock. destruct ws as [|w0 [|w1 [|w2 [|w3 [|? ?]]]]]; try done.
  eapply runs_step; [eapply (store_top _ p [w0; w1; w2; w3] (v_mem v) 3); [done|simpl; lia|done]|]. simpl insert.
  eapply runs_bind; [apply runs_alloc; rsimpl; [lia|done]|]. intros L v2 (HL & Hnew & ->). rsimpl.
  eapply runs_step; [eapply (store_top _ p [w0; w1; w2; Z.of_nat d] (v_mem v) 0); [done|simpl; lia|unfold fLock; lia]|].
  apply runs_ret. split_and!; [done|done|]. exists w1, w2. by destruct v.
Qed.

Lemma alloc_lock_full d v p ws :
  v_room v = 0%nat -> 0 < v_ids v -> length ws = 4%nat -> block p ws ##ₘ v_mem v -> v_blocks v !! p = None ->
  becomes (alloc_lock p (Z.of_nat d) ≫= fun lk => if lk =? -1 then free p;; mret 0 else alloc_nodes p (Z.of_nat d) (Z.of_nat (2 ^ d - 1)))
    (v <| v_mem ::= union (block p ws) |> <| v_blocks ::= <[p := length ws]> |>) 0 v.
Proof.
  intros Hr Hids Hws Hdp Hbp. unfold alloc_lock. destruct ws as [|w0 [|w1 [|w2 [|w3 [|? ?]]]]]; try done.
  eapply becomes_step.
  { eapply becomes_step; [eapply (store_top _ p [w0; w1; w2; w3] (v_mem v) 3); [done|simpl; lia|done]|]. simpl insert.
    eapply becomes_step; [by apply becomes_alloc_full; rsimpl; [lia|]|].
    eapply becomes_step; [eapply (store_top _ p [w0; w1; w2; Z.of_nat d] (v_mem v) 0); [done|simpl; lia|unfold fLock; lia]|].
    apply becomes_ret. }
  cbn [Z.eqb Pos.eqb]. simpl insert. eapply becomes_step.
  - eapply (free_top _ p); [by rsimpl|by eapply (block_dom p [w0; w1; w2; w3])|rsimpl; apply lookup_insert_eq].
  - apply runs_ret. split; [done|]. destruct v; unfold setf; simpl in *. f_equal. by apply delete_insert_id.
Qed.

Lemma alloc_in_result d v p ws o s s1 :
  (1 <= d <= 6)%nat -> Z.of_nat (2 ^ d) <= v_ids v -> (forall id h, v_mutex v !! id = Some h -> 0 < id) ->
  malloc sizeof_tree o s = Ok p o s1 ->
  rep s1 (v <| v_mem ::= union (block p ws) |> <| v_blocks ::= <[p := length ws]> |>) ->
  0 < p -> length ws = 4%nat -> block p ws ##ₘ v_mem v -> v_blocks v !! p = None ->
  exists a s' w, trnmnt_tree_alloc (Z.of_nat d) o s = Ok a o s' /\ rep s' w /\ alloc_result d o s v a w.
Proof.
  intros Hd Hids Hpos E Hs1 Hpp Hws Hdp Hbp. assert (p <> 0) as Hp by lia. pose proof (Tree.pow2_pos d).
  unfold trnmnt_tree_alloc, alloc_result, array_malloc, map_malloc. setoid_rewrite (bind_ok _ _ _ _ _ _ _ E). unfold alloc_in.
  destruct (Z.leb_spec (Z.of_nat d) 0); [lia|]. destruct (Z.ltb_spec 6 (Z.of_nat d)); [lia|]. cbn [orb].
  rewrite powordepth_eq by lia. replace (Z.of_nat (2 ^ d) - 1) with (Z.of_nat (2 ^ d - 1)) by lia.
  destruct (decide (v_room v = 0%nat)) as [Hr|Hr].
  { destruct (alloc_lock_full d v p ws Hr ltac:(lia) Hws Hdp Hbp o s1 Hs1) as (a & s2 & w & E2 & Hs2 & -> & ->).
    exists 0, s2, v. by split_and!. }
  destruct (alloc_lock_runs d v p ws Hr ltac:(lia) Hws o s1 Hs1) as (L & s2 & w & E2 & Hs2 & HL & Hnew & x1 & x2 & ->).
  setoid_rewrite (bind_ok _ _ _ _ _ _ _ E2). destruct (Z.eqb_spec L (-1)) as [|_]; [lia|].
  from_state Hs2 u. edestruct (alloc_nodes_result u p d L x1 x2 (v_mem v) o s2) as (mt & s3 & a & s4 & w & E3 & E4 & Hs4 & HQ);
    [..|exact Hs2|]; subst u; rsimpl; try done; try apply lookup_insert_eq; try lia.
  - by eapply (block_dom p ws).
  - rewrite lookup_insert_ne by lia. destruct (v_mutex v !! (-1)) as [h|] eqn:E'; [|done]. specialize (Hpos _ _ E'). lia.
  - exists a, s4, w. split_and!; [done|done|]. exists mt, s3.
    split; [by rewrite (bind_ok _ _ _ _ _ _ _ E), (bind_ok _ _ _ _ _ _ _ E2)|].
    assert (forall b w', nodes_undone (v <| v_mem ::= union (block p [L; x1; x2; Z.of_nat d]) |> <| v_blocks ::= <[p := 4%nat]> |>
              <| v_mutex ::= <[L := None]> |> <| v_room ::= Nat.pred |> <| v_ids ::= Z.pred |>) p L (v_mem v) b w' ->
              b = 0 /\ given_back v w') as Hun.
    { intros b w' (-> & Hm & Hbl & Hmx & Hrm & _). rsimpl. split; [done|]. split_and!; [done| | |lia].
      - rewrite Hbl. by apply delete_insert_id.
      - rewrite Hmx. by apply delete_insert_id. }
    destruct (mt =? 0).
    + destruct HQ as [-> ->]. split; [done|]. unfold lock_lost. rsimpl. split_and!; [done|by apply delete_insert_id|].
      exists L. split_and!; [done|done|lia].
    + destruct (decide (v_room v < 2 ^ d)%nat); [rewrite decide_True in HQ by lia; by apply Hun|]. rewrite decide_False in HQ by lia.
      destruct HQ as (tmp & s5 & E5 & HQ). exists tmp, s5. 
      split; [by rewrite (bind_ok _ _ _ _ _ _ _ E), (bind_ok _ _ _ _ _ _ _ E2), (bind_ok _ _ _ _ _ _ _ E3)|].
      destruct (tmp =? 0); [by apply Hun|]. destruct HQ as (-> & Hme & Hsub & mt' & tm & ms & Ht & Hnd & Hnew' & Hmx & Hrm). rsimpl.
      split; [done|]. exists L, mt', tm, ms. split_and!; try done; [|lia].
      intros y [->|Hy]%elem_of_cons; [done|]. specialize (Hnew' y Hy).
      destruct (decide (L = y)) as [->|]; [done|by rewrite lookup_insert_ne in Hnew'].
Qed.

End alloc.

Section properties.
Context {U : Type} `{MutexLaws U, !HeapLaws U}.

(** C15. [trnmnt_tree_alloc] on a depth of 1 to 6, with a block for the tree: when the
    mutex table is full it returns null with everything given back; otherwise, when the
    [malloc] of the array of mutexes returns null, it returns null with the memory given
    back and the lock of the map lost; otherwise, when there are fewer than [2^depth]
    unused mutexes, or when the [malloc] of the thread map returns null, it returns null
    with the memory and every mutex, the lock too, given back; otherwise it returns a tree
    whose [2^depth] mutexes are fresh, distinct and free and whose thread map is empty.
    The exception is a first [malloc] that fails, whose null result the code writes
    through. *)
Theorem trnmnt_tree_alloc_spec d v o s :
  (1 <= d <= 6)%nat -> Z.of_nat (2 ^ d) <= v_ids v -> rep s v ->
  (exists s', malloc sizeof_tree o s = Ok 0 o s' /\ rep s' v) \/
  (exists a s' w, trnmnt_tree_alloc (Z.of_nat d) o s = Ok a o s' /\ rep s' w /\ alloc_result d o s v a w).
Proof.
  intros Hd Hids Hs. destruct (runs_malloc v sizeof_tree ltac:(done) o s Hs)
    as (p & s1 & v1 & E & Hs1 & [[-> ->]|(Hpp & ws & Hws & Hdp & Hbp & ->)]); [left; eauto|right].
  by apply (alloc_in_result d v p ws o s s1 Hd Hids (fun id h => law_positive s v id h Hs)).
Qed.

(** C13. [trnmnt_tree_acquire] of an ID nobody uses, with the mutexes on its path
    free, returns 0 with the caller entered in the thread map and holding
    exactly the mutexes from its leaf to the root; an ID in use or out of range
    is refused with -1 and nothing changes. *)
Theorem trnmnt_tree_acquire_spec v p d L mt tmp ms tm :
  tree_at (v_mem v) p d L mt tmp ms tm -> NoDup (L :: ms) -> v_mutex v !! L = Some None ->
  (forall ID, (ID < 2 ^ d)%nat -> tm !! ID = Some (-1) ->
     (forall n, n ∈ Tree.path d ID -> v_mutex v !! (ms !!! n) = Some None) ->
     becomes (trnmnt_tree_acquire p (Z.of_nat ID)) v 0
       (v <| v_mem ::= <[elt tmp (Z.of_nat ID) := v_me v]> |>
          <| v_mutex ::= set_up (Some (v_me v)) ((fun n => ms !!! n) <$> Tree.path d ID) |>)) /\
  (forall ID x, (ID < 2 ^ d)%nat -> tm !! ID = Some x -> x <> -1 ->
     becomes (trnmnt_tree_acquire p (Z.of_nat ID)) v (-1) v) /\
  (forall ID, ~ (0 <= ID < Z.of_nat (2 ^ d)) -> becomes (trnmnt_tree_acquire p ID) v (-1) v).
Proof.
  intros Ht Hnd HL. split_and!.
  - intros ID Hid Htm Hfree. unfold Tree.path. rewrite <- list_fmap_compose.
    eapply acquire_becomes; try done. intros h Hh. apply Hfree. apply list_elem_of_fmap. exists h.
    split; [done|]. apply elem_of_seq. lia.
  - intros ID x Hid Htm Hx. by eapply acquire_in_use.
  - intros ID Hid. by eapply acquire_out_of_range.
Qed.

(** C14. [trnmnt_tree_release] by the thread that acquired the ID undoes
    [trnmnt_tree_acquire]: every mutex of the path is unlocked and the entry of
    the thread map is free again.  A thread that does not own the ID is refused
    with -1 and nothing changes. *)
Theorem trnmnt_tree_release_spec v p d L mt tmp ms tm ID :
  tree_at (v_mem v) p d L mt tmp ms tm -> NoDup (L :: ms) -> v_mutex v !! L = Some None -> (ID < 2 ^ d)%nat ->
  (tm !! ID = Some (-1) ->
     (forall n, n ∈ Tree.path d ID -> v_mutex v !! (ms !!! n) = Some None) ->
     becomes (trnmnt_tree_acquire p (Z.of_nat ID) ≫= fun r => trnmnt_tree_release p (Z.of_nat ID) ≫= fun r' => mret (r, r'))
       v (0, 0) v) /\
  (forall x, tm !! ID = Some x -> x <> v_me v -> becomes (trnmnt_tree_release p (Z.of_nat ID)) v (-1) v).
Proof.
  intros Ht Hnd HL Hid. split; [|intros x Hx Hne; by eapply release_not_mine]. intros Htm Hfree.
  assert (forall h, (1 <= h <= d)%nat -> v_mutex v !! node d ID ms h = Some None) as Hfree'.
  { intros h Hh. apply Hfree. apply list_elem_of_fmap. exists h. split; [done|]. apply elem_of_seq. lia. }
  pose proof (ta_ms_len _ _ _ _ _ _ _ _ Ht) as Hlen. pose proof (ta_tm _ _ _ _ _ _ _ _ Ht ID _ Htm) as Hcell.
  eapply becomes_step; [by eapply acquire_becomes|].
  eapply becomes_step; [eapply release_becomes; rsimpl; try done|].
  - by apply tree_at_store.
  - apply list_lookup_insert_eq. rewrite (ta_tm_len _ _ _ _ _ _ _ _ Ht). done.
  - rewrite lookup_set_up, decide_False; [done|]. intros (h & Hh & He)%elem_of_nodes_above.
    by eapply (node_not_lock d L ms Hnd ID h Hid Hlen); [lia|].
  - intros h Hh. rewrite lookup_set_up, decide_True; [done|]. apply elem_of_nodes_above. exists h. split; [lia|done].
  - eapply becomes_eq; [apply becomes_ret|]. destruct v as [mx rm ids me mem bl]; unfold setf; simpl in *. f_equal.
    + apply map_eq. intros i. rewrite lookup_set_down, lookup_set_up. destruct (decide _) as [Hin|]; [|done].
      apply elem_of_nodes_above in Hin as (h & Hh & ->). symmetry. apply Hfree'. lia.
    + rewrite insert_insert_eq. by apply insert_id.
Qed.
End properties.
End Trnmnt.
