(* ===== verification/UserKernel.v ===== *)
(** The kernel's mutex system calls keep the promises that user code relies on:
    the laws of [MutexLaws] hold of the kernel of this development, whatever
    allocator the process uses. *)

From S2P Require Import Prelude Monad State Sched Mmu Mutex UserApi.

Module UserKernel.

(** Loads and stores of the program's data. *)
Definition uload (a : Z) : K Z := deref "load" (fun k => umem k !! a).
Definition ustore (a x : Z) : K unit :=
  uload a;; modify (fun k => k <| umem ::= <[a := x]> |>).

(** [myproc()->sz]. *)
Definition proc_sz (k : kernel) : option Z := p ← cpu_proc k; p_sz <$> ptable k !! p.

(** The allocator, with its own description of how it lays out the program's data:
    the words and the blocks in use. *)
Class Heap := {
  heap_malloc : Z -> K Z;
  heap_free : Z -> K unit;
  heap_rep : kernel -> gmap Z Z -> gmap Z nat -> Prop;
  heap_frame k k' m b : umem k = umem k' -> proc_sz k = proc_sz k' -> heap_rep k m b -> heap_rep k' m b }.

(** Changes that concern the memory of the running process only. *)
Record same_control (k k' : kernel) : Prop := {
  sc_locks : locks k' = locks k;
  sc_mtable : mtable k' = mtable k;
  sc_nextmid : nextmid k' = nextmid k;
  sc_proc : cpu_proc k' = cpu_proc k;
  sc_thread : cpu_thread k' = cpu_thread k;
  sc_ptable : forall p, is_Some (ptable k !! p) -> is_Some (ptable k' !! p);
  sc_at : forall t, thread_at k' t = thread_at k t;
  sc_word : user_word k' Mutex.offsetof_tid = user_word k Mutex.offsetof_tid }.

Lemma same_control_refl k : same_control k k.
Proof. by split. Qed.

Lemma same_control_trans k1 k2 k3 : same_control k1 k2 -> same_control k2 k3 -> same_control k1 k3.
Proof. intros [] []. split; try congruence; auto. Qed.

Section laws.
Context `{Layout, Heap}.

#[export] Instance kernel_ops : UserOps kernel := {
  kthread_mutex_alloc := Mutex.kthread_mutex_alloc;
  kthread_mutex_dealloc := Mutex.kthread_mutex_dealloc;
  kthread_mutex_lock := Mutex.kthread_mutex_lock;
  kthread_mutex_unlock := Mutex.kthread_mutex_unlock;
  kthread_id := Mutex.kthread_id;
  malloc := heap_malloc;
  free := heap_free;
  load := uload;
  store := ustore }.

(** The id of the thread that holds a mutex. *)
Definition holder_of (k : kernel) (m : mutex) : option Z :=
  if bool_decide (m_state m = CLOSE) then Mutex.holder_tid k (m_holding m) else None.

Definition unused (ms : list mutex) : nat := length (filter (fun m => m_state m = UNINITIALIZED) ms).

(** A thread runs; the word read in place of a null holder's id is not its id. *)
Definition runs_as (k : kernel) (me : Z) : Prop :=
  exists p pr t th w, Mutex.running k p pr t th /\ t_tid th = me /\
    user_word k Mutex.offsetof_tid = Some w /\ w <> me.

Record kernel_rep (k : kernel) (v : view) : Prop := {
  kr_quiet : Mutex.quiet k;
  kr_inv : Mutex.mutex_inv k;
  kr_runs : runs_as k (v_me v);
  kr_mutex : forall id h, v_mutex v !! id = Some h <->
    exists i m, mtable k !! i = Some m /\ m_mid m = id /\ id <> 0 /\ holder_of k m = h;
  kr_room : v_room v = unused (mtable k);
  kr_ids : v_ids v = 2 ^ 31 - 1 - nextmid k;
  kr_heap : heap_rep k (v_mem v) (v_blocks v) }.
#[export] Instance kernel_view : View kernel := kernel_rep.

Lemma unused_insert ms i m m' :
  ms !! i = Some m ->
  (unused (<[i := m']> ms) + (if decide (m_state m = UNINITIALIZED) then 1 else 0) =
   unused ms + (if decide (m_state m' = UNINITIALIZED) then 1 else 0))%nat.
Proof.
  intros Hm. unfold unused. rewrite insert_take_drop by by eapply lookup_lt_Some.
  rewrite <- (take_drop_middle ms i m Hm) at 3. rewrite !filter_app, !length_app, !filter_cons.
  repeat case_decide; simpl; lia.
Qed.

(** The slot behind an id of the view. *)
Lemma view_slot k v id h :
  kernel_rep k v -> v_mutex v !! id = Some h ->
  exists i m, mtable k !! i = Some m /\ m_mid m = id /\ id <> 0 /\
    match h with
    | None => m_state m = OPEN
    | Some ht => m_state m = CLOSE /\ Mutex.holder_tid k (m_holding m) = Some ht
    end.
Proof.
  intros Hr Hid. apply (kr_mutex k v Hr) in Hid as (i & m & Hm & Hmid & Hz & Hh).
  exists i, m. split_and!; [done..|].
  pose proof (Mutex.mi_slot k (kr_inv k v Hr) i m Hm) as Hok.
  assert (m_state m <> UNINITIALIZED) as Hu by (eapply Mutex.slot_used; [done|congruence]).
  unfold holder_of in Hh. unfold Mutex.slot_ok in Hok. destruct (m_state m) eqn:Es; [done|..]; simpl in Hh; subst h; [done|].
  destruct Hok as (_ & _ & _ & t & Ht & [th Hth]). rewrite Ht. simpl. by rewrite Hth.
Qed.

Lemma view_no_slot k v id :
  kernel_rep k v -> id <> 0 -> v_mutex v !! id = None -> Forall (fun m => m_mid m <> id) (mtable k).
Proof.
  intros Hr Hz Hn. apply Forall_lookup. intros i m Hm Hid.
  assert (v_mutex v !! id = Some (holder_of k m)) by (apply (kr_mutex k v Hr); eauto 10). congruence.
Qed.

(** A slot changes its holder: so does the view. *)
Lemma rep_set_slot k v i m m' h :
  kernel_rep k v -> mtable k !! i = Some m -> m_mid m <> 0 -> m_mid m' = m_mid m ->
  m_state m <> UNINITIALIZED -> m_state m' <> UNINITIALIZED ->
  Mutex.mutex_inv (Mutex.set_slot i m' k) -> holder_of k m' = h ->
  kernel_rep (Mutex.set_slot i m' k) (v <| v_mutex ::= <[m_mid m := h]> |>).
Proof.
  intros Hr Hm Hz Hmid Hs Hs' Hinv Hh. split; rsimpl.
  - apply Hr.
  - done.
  - destruct (kr_runs k v Hr) as (p & pr & t & th & w & [] & ? & ? & ?). exists p, pr, t, th, w. split_and!; done.
  - intros id x. unfold Mutex.set_slot. rsimpl. destruct (decide (m_mid m = id)) as [<-|Hne].
    + rewrite lookup_insert_eq. split.
      * intros [= <-]. exists i, m'. split_and!; [|done|done|done]. apply list_lookup_insert_eq. by eapply lookup_lt_Some.
      * intros (j & n & Hj & Hjm & _ & <-). f_equal.
        apply list_lookup_insert_Some in Hj as [(-> & <- & _)|[Hne Hj]]; [done|].
        destruct Hne. eapply (Mutex.mi_unique k (kr_inv k v Hr)); eauto; congruence.
    + rewrite lookup_insert_ne, (kr_mutex k v Hr) by done. split.
      * intros (j & n & Hj & Hjm & Hjz & Hjh). exists j, n. split_and!; try done.
        rewrite list_lookup_insert_ne; [done|]. intros ->. congruence.
      * intros (j & n & Hj & Hjm & Hjz & Hjh).
        apply list_lookup_insert_Some in Hj as [(-> & <- & _)|[_ Hj]]; [congruence|]. by exists j, n.
  - rewrite (kr_room k v Hr). unfold Mutex.set_slot. rsimpl. pose proof (unused_insert (mtable k) i m m' Hm).
    rewrite !decide_False in * by done. lia.
  - apply Hr.
  - eapply heap_frame; [..|apply Hr]; done.
Qed.

(** Waking a thread changes nothing the view shows. *)
Lemma rep_wake_first k v p pr i :
  ptable k !! p = Some pr -> Mutex.mutex_inv (Mutex.wake_first p pr i k) ->
  kernel_rep k v -> kernel_rep (Mutex.wake_first p pr i k) v.
Proof.
  intros Hpr Hinv Hr. destruct (Mutex.wake_first_frame p pr i k) as [Hf1 Hf2].
  assert (forall q th, thread_at k q = Some th ->
    exists th', thread_at (Mutex.wake_first p pr i k) q = Some th' /\ t_tid th' = t_tid th) as Hat.
  { intros q th Hq. rewrite Mutex.thread_at_wake_first by done. destruct (list_find _ _) as [[j tj]|] eqn:E; [|eauto].
    apply list_find_Some in E as (Hj & _ & _). destruct (decide (q = (p, j))) as [->|]; [|eauto].
    unfold thread_at in Hq. simpl in Hq. rewrite Hpr in Hq. simpl in Hq. rewrite Hj in Hq.
    injection Hq as <-. eexists. split; [done|]. by rsimpl. }
  assert (forall q pq, ptable k !! q = Some pq ->
    exists pq', ptable (Mutex.wake_first p pr i k) !! q = Some pq' /\ p_pgdir pq' = p_pgdir pq /\ p_sz pq' = p_sz pq) as Hpt.
  { intros q pq Hq. unfold Mutex.wake_first, alter_thread. destruct (list_find _ _) as [[j tj]|]; [|eauto].
    rsimpl. simpl. rewrite list_lookup_alter. case_decide as Epq; [|eauto]. rewrite Epq, Hq. simpl. eexists. split; [reflexivity|]. by split; rsimpl. }
  assert (cpu_proc (Mutex.wake_first p pr i k) = cpu_proc k /\ cpu_thread (Mutex.wake_first p pr i k) = cpu_thread k
    /\ pages (Mutex.wake_first p pr i k) = pages k) as (Hc1 & Hc2 & Hc3)
    by (unfold Mutex.wake_first; by destruct (list_find _ _) as [[j tj]|]).
  destruct (kr_runs k v Hr) as (p1 & pr1 & t & th & w & [Hp1 Hpr1 Ht Hth] & Hme & Hu & Hne).
  destruct (Hat t th Hth) as (th' & Hth' & Htid). destruct (Hpt p1 pr1 Hpr1) as (pr1' & Hpr1' & Hpg & Hsz).
  split.
  - unfold Mutex.wake_first. destruct (list_find _ _) as [[? ?]|]; apply Hr.
  - done.
  - exists p1, pr1', t, th', w. split_and!; [split; congruence|congruence| |done].
    rewrite <- Hu. unfold user_word, mbind, option_bind. by rewrite Hc1, Hc3, Hp1, Hpr1, Hpr1', Hpg.
  - intros id h. rewrite (kr_mutex k v Hr), Hf1.
    assert (forall j m, mtable k !! j = Some m -> holder_of (Mutex.wake_first p pr i k) m = holder_of k m) as Hho.
    { intros j m Hm. unfold holder_of. case_bool_decide; [|done].
      pose proof (Mutex.mi_slot k (kr_inv k v Hr) j m Hm) as Hok. unfold Mutex.slot_ok in Hok.
      destruct (m_state m); try done. destruct Hok as (_ & _ & _ & q & -> & [tq Hq]). simpl.
      destruct (Hat q tq Hq) as (tq' & -> & Htq). by rewrite Hq; simpl; rewrite Htq. }
    split; intros (j & m & Hj & Hmid & Hz & Hh); exists j, m; (split_and!; [done|done|done|]); rewrite <- Hh;
      [|symmetry]; by eapply Hho.
  - rewrite Hf1. apply Hr.
  - rewrite Hf2. apply Hr.
  - eapply heap_frame; [..|apply Hr].
    + unfold Mutex.wake_first. by destruct (list_find _ _) as [[? ?]|].
    + unfold proc_sz, mbind, option_bind. rewrite Hc1, Hp1, Hpr1, Hpr1'. simpl. by rewrite Hsz.
Qed.

(** The slot found by [kthread_mutex_alloc] joins the view. *)
Lemma rep_alloc k v i pid :
  kernel_rep k v -> mtable k !! i = Some zero_mutex ->
  let k' := Mutex.set_slot i (Mutex.opened (nextmid k) pid) k <| nextmid := nextmid k + 1 |> in
  Mutex.mutex_inv k' ->
  v_mutex v !! nextmid k = None /\
  kernel_rep k' (v <| v_mutex ::= <[nextmid k := None]> |> <| v_room ::= Nat.pred |> <| v_ids ::= Z.pred |>).
Proof.
  intros Hr Hm k' Hinv. pose proof (Mutex.mi_next k (kr_inv k v Hr)) as Hnext.
  assert (forall j m, mtable k !! j = Some m -> m_mid m <> nextmid k) as Hfresh.
  { intros j m Hj. pose proof (Mutex.slot_mid k m (Mutex.mi_slot k (kr_inv k v Hr) j m Hj)). lia. }
  split.
  { destruct (v_mutex v !! nextmid k) as [h|] eqn:E; [|done].
    apply (kr_mutex k v Hr) in E as (j & m & Hj & Hmid & _). by destruct (Hfresh j m Hj). }
  split; rsimpl; try apply Hr; try done.
  - destruct (kr_runs k v Hr) as (p & pr & t & th & w & [] & ? & ? & ?). exists p, pr, t, th, w. split_and!; done.
  - intros id x. unfold k', Mutex.set_slot. rsimpl. destruct (decide (nextmid k = id)) as [<-|Hne].
    + rewrite lookup_insert_eq. split.
      * intros [= <-]. exists i. eexists. split_and!; [apply list_lookup_insert_eq; by eapply lookup_lt_Some|done|lia|done].
      * intros (j & n & Hj & Hjm & _ & <-). f_equal.
        apply list_lookup_insert_Some in Hj as [(-> & <- & _)|[Hne Hj]]; [done|]. by destruct (Hfresh j n Hj).
    + rewrite lookup_insert_ne, (kr_mutex k v Hr) by done. split.
      * intros (j & n & Hj & Hjm & Hjz & Hjh). exists j, n. split_and!; try done.
        rewrite list_lookup_insert_ne; [done|]. intros ->. rewrite Hm in Hj. injection Hj as <-. by destruct Hjz.
      * intros (j & n & Hj & Hjm & Hjz & Hjh).
        apply list_lookup_insert_Some in Hj as [(-> & <- & _)|[_ Hj]]; [done|]. by exists j, n.
  - rewrite (kr_room k v Hr). unfold k', Mutex.set_slot. rsimpl.
    pose proof (unused_insert (mtable k) i zero_mutex (Mutex.opened (nextmid k) pid) Hm) as Hu.
    rewrite decide_True, decide_False in Hu by done. lia.
  - rewrite (kr_ids k v Hr). unfold k'. rsimpl. lia.
  - eapply heap_frame; [..|apply Hr]; done.
Qed.

(** The slot [kthread_mutex_dealloc] clears leaves it. *)
Lemma rep_dealloc k v i m :
  kernel_rep k v -> mtable k !! i = Some m -> m_mid m <> 0 -> m_state m <> UNINITIALIZED ->
  Mutex.mutex_inv (Mutex.set_slot i zero_mutex k) ->
  kernel_rep (Mutex.set_slot i zero_mutex k) (v <| v_mutex ::= delete (m_mid m) |> <| v_room ::= S |>).
Proof.
  intros Hr Hm Hz Hs Hinv. split; rsimpl; try apply Hr; try done.
  - destruct (kr_runs k v Hr) as (p & pr & t & th & w & [] & ? & ? & ?). exists p, pr, t, th, w. split_and!; done.
  - intros id x. unfold Mutex.set_slot. rsimpl. destruct (decide (m_mid m = id)) as [<-|Hne].
    + rewrite lookup_delete_eq. split; [done|]. intros (j & n & Hj & Hjm & Hjz & _).
      apply list_lookup_insert_Some in Hj as [(-> & <- & _)|[Hne Hj]]; [by destruct Hz|].
      destruct Hne. eapply (Mutex.mi_unique k (kr_inv k v Hr)); eauto.
    + rewrite lookup_delete_ne, (kr_mutex k v Hr) by done. split.
      * intros (j & n & Hj & Hjm & Hjz & Hjh). exists j, n. split_and!; try done.
        rewrite list_lookup_insert_ne; [done|]. intros ->. congruence.
      * intros (j & n & Hj & Hjm & Hjz & Hjh).
        apply list_lookup_insert_Some in Hj as [(-> & <- & _)|[_ Hj]]; [by destruct Hjz|]. by exists j, n.
  - rewrite (kr_room k v Hr). unfold Mutex.set_slot. rsimpl.
    pose proof (unused_insert (mtable k) i m zero_mutex Hm) as Hu.
    rewrite decide_False, decide_True in Hu by done. lia.
  - eapply heap_frame; [..|apply Hr]; done.
Qed.

(** The memory of the process changes, and with it what the view shows of it. *)
Lemma rep_memory k k' v m b :
  same_control k k' -> kernel_rep k v -> heap_rep k' m b -> kernel_rep k' (v <| v_mem := m |> <| v_blocks := b |>).
Proof.
  intros Hc Hr Hh. destruct Hc as [Hl Hmt Hn Hp Ht Hpt Hat Hw].
  assert (forall x, Mutex.slot_ok k x -> Mutex.slot_ok k' x) as Hslot.
  { intros x. unfold Mutex.slot_ok. rewrite Hn. destruct (m_state x); [done..|].
    intros (? & ? & ? & t & ? & ?). split_and!; try done; try lia. exists t. by rewrite Hat. }
  split; rsimpl; try done.
  - destruct (kr_quiet k v Hr) as [H1 H2]. unfold Mutex.quiet, unlocked in *. by rewrite Hl.
  - destruct (kr_inv k v Hr) as [H1 H2 H3]. split; rewrite ?Hn, ?Hmt; [done| |done]. intros i x Hx. eauto.
  - destruct (kr_runs k v Hr) as (p & pr & t & th & w & [] & ? & ? & ?).
    destruct (Hpt p) as [pr' Hpr']; [eauto|]. exists p, pr', t, th, w. split_and!; try done; [|by rewrite Hw].
    split; [by rewrite Hp|done|by rewrite Ht|by rewrite Hat].
  - intros id h. rewrite (kr_mutex k v Hr), Hmt.
    assert (forall j x, mtable k !! j = Some x -> holder_of k' x = holder_of k x) as Hho.
    { intros j x Hx. unfold holder_of. case_bool_decide as Ec; [|done].
      pose proof (Mutex.mi_slot k (kr_inv k v Hr) j x Hx) as Hok. unfold Mutex.slot_ok in Hok. rewrite Ec in Hok.
      destruct Hok as (_ & _ & _ & q & -> & _). simpl. by rewrite Hat. }
    split; intros (j & x & Hj & ? & ? & Hx); exists j, x; (split_and!; [done..|]); rewrite <- Hx; [|symmetry]; by eapply Hho.
  - rewrite Hmt. apply Hr.
  - rewrite Hn. apply Hr.
Qed.

(** The laws, one by one. *)
Ltac open_rep Hr := destruct (kr_runs _ _ Hr) as (p & pr & t & th & w & Hrun & Hme & Hw & Hne).

Lemma kernel_alloc_full v :
  0 < v_ids v -> v_room v = 0%nat -> becomes Mutex.kthread_mutex_alloc v (-1) v.
Proof.
  intros _ Hroom o k Hr. open_rep Hr. exists (-1), k, v. split_and!; try done.
  rewrite (Mutex.alloc_eq o k p pr) by (apply Hr || apply Hrun).
  rewrite (kr_room k v Hr) in Hroom. apply length_zero_iff_nil in Hroom.
  rewrite (proj2 (list_find_None _ _)); [done|]. apply Forall_forall. intros m Hm Hs.
  assert (m ∈ filter (fun m => m_state m = UNINITIALIZED) (mtable k)) as Hin by by apply list_elem_of_filter.
  rewrite Hroom in Hin. by apply elem_of_nil in Hin.
Qed.

Lemma kernel_alloc v :
  0 < v_ids v -> v_room v <> 0%nat ->
  runs Mutex.kthread_mutex_alloc v (fun id w => 0 < id /\ v_mutex v !! id = None /\
    w = v <| v_mutex ::= <[id := None]> |> <| v_room ::= Nat.pred |> <| v_ids ::= Z.pred |>).
Proof.
  intros Hids Hroom o k Hr. open_rep Hr. rewrite (kr_room k v Hr) in Hroom. rewrite (kr_ids k v Hr) in Hids.
  destruct (list_find (fun m => m_state m = UNINITIALIZED) (mtable k)) as [[i m]|] eqn:E.
  2:{ destruct Hroom. unfold unused. apply list_find_None in E.
      rewrite (elem_of_nil_inv (filter _ _)); [done|]. intros m [Hs Hm]%list_elem_of_filter.
      by apply (proj1 (Forall_forall _ _) E m). }
  pose proof E as (Hm & Hs & _)%list_find_Some. pose proof (Mutex.mi_slot k (kr_inv k v Hr) i m Hm) as Hok.
  unfold Mutex.slot_ok in Hok. rewrite Hs in Hok. subst m.
  destruct (Mutex.alloc_slot o k p pr i) as [Ha Hi']; try done; try apply Hr; try apply Hrun; [lia|].
  destruct (rep_alloc k v i (p_pid pr) Hr Hm Hi') as [Hnone Hr'].
  eexists _, _, _. split; [exact Ha|]. split; [exact Hr'|]. split_and!; try done.
  pose proof (Mutex.mi_next k (kr_inv k v Hr)). lia.
Qed.

Lemma kernel_dealloc v id :
  v_mutex v !! id = Some None ->
  becomes (Mutex.kthread_mutex_dealloc id) v 0 (v <| v_mutex ::= delete id |> <| v_room ::= S |>).
Proof.
  intros Hid o k Hr. destruct (view_slot k v id None Hr Hid) as (i & m & Hm & <- & Hz & Hs).
  assert (Mutex.mutex_inv (Mutex.set_slot i zero_mutex k)) as Hi'
    by (eapply Mutex.mutex_inv_set; [apply Hr|done|done|by right]).
  exists 0. eexists _, _. split_and!; [|by apply rep_dealloc; try done; congruence|done|done].
  rewrite (Mutex.dealloc_slot k i m) by (apply Hr || done). by rewrite bool_decide_false by congruence.
Qed.

Lemma kernel_dealloc_refused v id :
  id <> 0 -> (forall h, v_mutex v !! id = Some h -> h <> None) -> becomes (Mutex.kthread_mutex_dealloc id) v (-1) v.
Proof.
  intros Hz Hh o k Hr. exists (-1), k, v. split_and!; try done.
  destruct (v_mutex v !! id) as [h|] eqn:E.
  - destruct (view_slot k v id h Hr E) as (i & m & Hm & <- & _ & Hs).
    destruct h as [h|]; [|by destruct (Hh None)]. destruct Hs as [Hs _].
    rewrite (Mutex.dealloc_slot k i m) by (apply Hr || done). by rewrite bool_decide_true.
  - rewrite Mutex.dealloc_eq by apply Hr. by rewrite (proj2 (list_find_None _ _) (view_no_slot k v id Hr Hz E)).
Qed.

Lemma kernel_lock v id :
  v_mutex v !! id = Some None -> becomes (Mutex.kthread_mutex_lock id) v 0 (v <| v_mutex ::= <[id := Some (v_me v)]> |>).
Proof.
  intros Hid o k Hr. open_rep Hr. destruct (view_slot k v id None Hr Hid) as (i & m & Hm & <- & Hz & Hs).
  destruct (Mutex.lock_open k p pr t th i m) with (o := o) (w := w) as [Hl Hi']; try done; try apply Hr; [congruence|].
  exists 0. eexists _, _. split_and!; [exact Hl| |done|done].
  apply (rep_set_slot k v i m); try done; try congruence.
  unfold holder_of, Mutex.taken. rsimpl. simpl. rewrite (Mutex.rn_at _ _ _ _ _ Hrun). simpl. congruence.
Qed.

Lemma kernel_unlock v id :
  v_mutex v !! id = Some (Some (v_me v)) -> becomes (Mutex.kthread_mutex_unlock id) v 0 (v <| v_mutex ::= <[id := None]> |>).
Proof.
  intros Hid o k Hr. open_rep Hr. destruct (view_slot k v id _ Hr Hid) as (i & m & Hm & <- & Hz & Hs & Hh).
  destruct (Mutex.unlock_own k p pr t th i m) with (o := o) as [Hu Hi']; try done; try apply Hr; [congruence|].
  exists 0. eexists _, _. split_and!; [exact Hu| |done|done].
  apply rep_wake_first; [apply Hrun|exact Hi'|].
  apply (rep_set_slot k v i m); try done; try congruence.
  eapply Mutex.mutex_inv_set; [apply Hr|done| |by left].
  pose proof (Mutex.mi_slot k (kr_inv k v Hr) i m Hm) as Hok. unfold Mutex.slot_ok in Hok. rewrite Hs in Hok.
  unfold Mutex.slot_ok, Mutex.given_back. rsimpl. split_and!; try done; lia.
Qed.

Lemma kernel_unlock_refused v id :
  id <> 0 -> v_mutex v !! id <> Some (Some (v_me v)) -> becomes (Mutex.kthread_mutex_unlock id) v (-1) v.
Proof.
  intros Hz Hh o k Hr. open_rep Hr. exists (-1), k, v. split_and!; try done.
  destruct (v_mutex v !! id) as [h|] eqn:E; [|by eapply Mutex.unlock_unknown; [apply Hr|done|eapply view_no_slot]].
  destruct (view_slot k v id h Hr E) as (i & m & Hm & <- & _ & Hs). destruct h as [h|].
  - destruct Hs as [Hs Hho]. eapply (Mutex.unlock_refused k p pr t th i m); try done; try apply Hr.
    right. congruence.
  - pose proof (Mutex.mi_slot k (kr_inv k v Hr) i m Hm) as Hok. unfold Mutex.slot_ok in Hok. rewrite Hs in Hok.
    destruct Hok as (_ & _ & _ & Hhold).
    eapply (Mutex.unlock_refused k p pr t th i m) with (ht := w); try done; try apply Hr.
    + by rewrite Hhold.
    + left. congruence.
Qed.

#[export] Instance kernel_mutex_laws : MutexLaws kernel.
Proof.
  split.
  - intros k v id h Hr Hid. destruct (view_slot k v id h Hr Hid) as (i & m & Hm & <- & Hz & _).
    pose proof (Mutex.slot_mid k m (Mutex.mi_slot k (kr_inv k v Hr) i m Hm) (Mutex.mi_next k (kr_inv k v Hr))). lia.
  - exact kernel_alloc_full.
  - exact kernel_alloc.
  - exact kernel_dealloc.
  - exact kernel_dealloc_refused.
  - exact kernel_lock.
  - exact kernel_unlock.
  - exact kernel_unlock_refused.
  - intros v o k Hr. open_rep Hr. exists (v_me v), k, v. split_and!; try done.
    simpl. rewrite (Mutex.kthread_id_eq t th) by apply Hrun. congruence.
Qed.
End laws.
End UserKernel.
