(* ===== verification/Umalloc.v ===== *)
(** The allocator of user programs (umalloc.c): Kernighan and Ritchie's circular
    free list, kept sorted by address, over the data of the running program. *)

From S2P Require Import Prelude Monad State Sched Mmu Mutex UserApi UserKernel.
Import UserKernel.

(** [sbrk]: the break is the size of the process; growing it adds zeroed words.  It is an
    argument with this law: [growproc] ([Threads]) finds pages and maps them, while the
    allocator works on [umem], the words of the running program. *)
Record grown (n : Z) (k k' : kernel) : Prop := {
  gr_control : same_control k k';
  gr_sz : forall sz, proc_sz k = Some sz -> proc_sz k' = Some (sz + n);
  gr_mem : forall sz x, proc_sz k = Some sz ->
    umem k' !! x = if decide (sz <= x < sz + n /\ x mod 4 = 0) then Some 0 else umem k !! x }.

Class Sbrk := {
  sbrk : Z -> K Z;
  sbrk_law n sz o k : proc_sz k = Some sz -> 0 < n < 2 ^ 31 ->
    exists r k', sbrk n o k = Ok r o k' /\
      ((r = -1 /\ grown 0 k k') \/ (r = sz /\ sz + n <= KERNBASE /\ grown n k k')) }.

(** Where the linker puts [base] and [freep], and the end of the static data. *)
Class HeapLayout := {
  sym_base : Z;
  sym_freep : Z;
  sym_brk : Z;
  base_pos : 0 < sym_base;
  base_low : sym_base + 8 <= sym_brk;
  freep_low : sym_freep + 4 <= sym_brk;
  freep_apart : sym_freep + 4 <= sym_base \/ sym_base + 8 <= sym_freep }.

Module Umalloc.
Section code.
Context `{Sbrk, HeapLayout}.

(** [union header]: the pointer, then the size in units of [sizeof(Header)]. *)
Definition sizeof_Header : Z := 8.
Definition s_ptr (p : Z) : K Z := uload p.
Definition s_size (p : Z) : K Z := uload (p + 4).
Definition set_s_ptr (p x : Z) : K unit := ustore p x.
Definition set_s_size (p x : Z) : K unit := ustore (p + 4) x.
(** Pointer arithmetic on [Header *]. *)
Definition hplus (p n : Z) : Z := u32 (p + sizeof_Header * n).

(** [for(p = freep; !(bp > p && bp < p->s.ptr); p = p->s.ptr)] *)
Fixpoint free_loop (n : nat) (bp p : Z) : K Z :=
  match n with
  | O => fault "free: fuel"
  | S n' =>
      s_ptr p ≫= fun nx =>
      if (p <? bp) && (bp <? nx) then mret p else
      if (nx <=? p) && ((p <? bp) || (bp <? nx)) then mret p else
      free_loop n' bp nx
  end.

(** The freed block joins the next one, if they touch; then the previous one. *)
Definition join_upper (bp p : Z) : K unit :=
  bsz ← s_size bp;
  nx ← s_ptr p;
  if hplus bp bsz =? nx then
    nsz ← s_size nx;
    set_s_size bp (u32 (bsz + nsz));;
    nnx ← s_ptr nx;
    set_s_ptr bp nnx
  else set_s_ptr bp nx.
Definition join_lower (bp p : Z) : K unit :=
  psz ← s_size p;
  if hplus p psz =? bp then
    bsz ← s_size bp;
    set_s_size p (u32 (psz + bsz));;
    bnx ← s_ptr bp;
    set_s_ptr p bnx
  else set_s_ptr p bp.

Definition free (ap : Z) : K unit :=
  let bp := hplus ap (-1) in
  fp ← uload sym_freep;
  words ← gets (fun k => size (umem k));
  p ← free_loop words bp fp;
  join_upper bp p;;
  join_lower bp p;;
  ustore sym_freep p.

Definition morecore (nu : Z) : K Z :=
  let nu := if nu <? 4096 then 4096 else nu in
  p ← sbrk (s32 (nu * sizeof_Header));
  if p =? -1 then mret 0 else
  set_s_size p nu;;
  free (hplus p 1);;
  uload sym_freep.

(** The body of the loop once a block [p] of [sz] units is big enough: the whole
    block, or its tail end. *)
Definition carve (nunits prevp p sz : Z) : K Z :=
  p ← (if sz =? nunits then
         nx ← s_ptr p;
         set_s_ptr prevp nx;;
         mret p
       else
         set_s_size p (u32 (sz - nunits));;
         set_s_size (hplus p (u32 (sz - nunits))) nunits;;
         mret (hplus p (u32 (sz - nunits))));
  ustore sym_freep prevp;;
  mret (hplus p 1).

Fixpoint malloc_loop (n : nat) (nunits prevp p : Z) : K Z :=
  match n with
  | O => fault "malloc: fuel"
  | S n' =>
      s_size p ≫= fun sz =>
      if nunits <=? sz then carve nunits prevp p sz else
      uload sym_freep ≫= fun fp =>
      if p =? fp then
        morecore nunits ≫= fun p =>
        if p =? 0 then mret 0 else
        s_ptr p ≫= fun nx => malloc_loop n' nunits p nx
      else s_ptr p ≫= fun nx => malloc_loop n' nunits p nx
  end.

Definition malloc (nbytes : Z) : K Z :=
  let nunits := u32 (u32 (nbytes + sizeof_Header - 1) / sizeof_Header + 1) in
  fp ← uload sym_freep;
  prevp ← (if fp =? 0 then
             ustore sym_freep sym_base;;
             set_s_ptr sym_base sym_base;;
             set_s_size sym_base 0;;
             mret sym_base
           else mret fp);
  p ← s_ptr prevp;
  words ← gets (fun k => size (umem k));
  malloc_loop (2 * words + 2) nunits prevp p.

(** * Memory *)

Definition with_mem (k : kernel) (m : gmap Z Z) : kernel := k <| umem := m |>.

Lemma with_mem_id k : with_mem k (umem k) = k.
Proof. unfold with_mem. kernel_eq. Qed.

Lemma load_mem k m a x o : m !! a = Some x -> uload a o (with_mem k m) = Ok x o (with_mem k m).
Proof. intros Hx. by apply deref_some. Qed.

Lemma store_mem k m a x o :
  is_Some (m !! a) -> ustore a x o (with_mem k m) = Ok tt o (with_mem k (<[a := x]> m)).
Proof.
  intros [y Hy]. unfold ustore. erewrite bind_ok by by apply load_mem. unfold modify, with_mem. done.
Qed.

(** * Lists of free blocks *)

(** The address of the first block of a list. *)
Definition first (l : list (Z * Z)) (e : Z) : Z := match l with [] => e | (a, _) :: _ => a end.

(** The blocks [l] are linked in memory, each header holding its size; the last
    one points to [e]. *)
Fixpoint chain (m : gmap Z Z) (l : list (Z * Z)) (e : Z) : Prop :=
  match l with
  | [] => True
  | (a, s) :: r => m !! a = Some (first r e) /\ m !! (a + 4) = Some s /\ chain m r e
  end.

Lemma first_app l1 l2 e : first (l1 ++ l2) e = first l1 (first l2 e).
Proof. by destruct l1 as [|[a s] r]. Qed.

Lemma chain_app m l1 l2 e : chain m (l1 ++ l2) e <-> chain m l1 (first l2 e) /\ chain m l2 e.
Proof.
  induction l1 as [|[a s] r IH]; simpl; [tauto|]. rewrite IH, first_app. tauto.
Qed.

Lemma chain_frame m m' l e :
  (forall a s, (a, s) ∈ l -> m' !! a = m !! a /\ m' !! (a + 4) = m !! (a + 4)) -> chain m l e -> chain m' l e.
Proof.
  induction l as [|[a s] r IH]; simpl; [done|]. intros Hf (Ha & Hs & Hr).
  destruct (Hf a s) as [-> ->]; [by left|]. split_and!; [done|done|].
  apply IH; [|done]. intros b t Hb. apply (Hf b t). by right.
Qed.

(** The blocks of [l] lie between [lo] and [hi], one after the other. *)
Fixpoint laid (lo : Z) (l : list (Z * Z)) (hi : Z) : Prop :=
  match l with
  | [] => lo <= hi
  | (a, s) :: r => lo <= a /\ 1 <= s /\ a mod 8 = 0 /\ laid (a + 8 * s) r hi
  end.

Lemma laid_le lo l hi : laid lo l hi -> lo <= hi.
Proof. revert lo. induction l as [|[a s] r IH]; simpl; intros lo; [done|]. intros (? & ? & _ & ?%IH). lia. Qed.

Lemma laid_weaken lo lo' l hi hi' : lo' <= lo -> hi <= hi' -> laid lo l hi -> laid lo' l hi'.
Proof.
  revert lo lo'. induction l as [|[a s] r IH]; simpl; intros lo lo' Hlo Hhi; [lia|].
  intros (? & ? & ? & Hr). split_and!; [lia|done|done|]. by eapply (IH (a + 8 * s)).
Qed.

Lemma laid_raise lo lo' l hi : laid lo l hi -> lo' <= hi -> (forall a t, (a, t) ∈ l -> lo' <= a) -> laid lo' l hi.
Proof.
  destruct l as [|[a s] l]; simpl; [done|]. intros (? & ? & ? & ?) ? Ha. split_and!; try done. apply (Ha a s). by left.
Qed.

Lemma laid_app lo l1 l2 hi : laid lo (l1 ++ l2) hi <-> exists mid, laid lo l1 mid /\ laid mid l2 hi.
Proof.
  revert lo. induction l1 as [|[a s] r IH]; simpl; intros lo.
  - split.
    + intros Hl. exists lo. done.
    + intros (mid & ? & ?). by eapply laid_weaken.
  - rewrite IH. split.
    + intros (? & ? & ? & mid & ? & ?). eauto 10.
    + intros (mid & (? & ? & ? & ?) & ?). eauto 10.
Qed.

Lemma laid_elem lo l hi a s : laid lo l hi -> (a, s) ∈ l -> lo <= a /\ 1 <= s /\ a mod 8 = 0 /\ a + 8 * s <= hi.
Proof.
  intros Hl (l1 & l2 & ->)%list_elem_of_split. apply laid_app in Hl as (mid & H1 & H2).
  simpl in H2. destruct H2 as (? & ? & ? & ?%laid_le). apply laid_le in H1. split_and!; lia || done.
Qed.

(** * Walking round the list *)

Fixpoint linked (m : gmap Z Z) (p : Z) (r : list Z) : Prop :=
  match r with [] => True | q :: r' => m !! p = Some q /\ linked m q r' end.

Lemma linked_app m p r1 q r2 : linked m p (r1 ++ [q]) -> linked m q r2 -> linked m p (r1 ++ q :: r2).
Proof. revert p. induction r1 as [|x r1 IH]; simpl; intros p; [tauto|]. intros [? ?] ?. eauto. Qed.

Lemma chain_linked m a s l e : chain m ((a, s) :: l) e -> linked m a (l.*1 ++ [e]).
Proof.
  revert a s. induction l as [|[b t] l IH]; intros a s; simpl; [tauto|].
  intros (Ha & _ & Hl). split; [done|]. by eapply IH.
Qed.

(** From any block the pointers lead through all the others and back. *)
Lemma chain_round m b0 s0 l l1 p s l2 :
  chain m ((b0, s0) :: l) b0 -> (b0, s0) :: l = l1 ++ (p, s) :: l2 ->
  linked m p (l2.*1 ++ l1.*1 ++ [p]).
Proof.
  intros Hc Hl. rewrite Hl in Hc. apply chain_app in Hc as [H1 H2]. apply chain_linked in H2.
  destruct l1 as [|[a t] l1]; simplify_eq/=; [done|]. apply linked_app; [done|]. apply chain_linked in H1. done.
Qed.

(** The tests of the loop of [free]: [bp] belongs between [p] and [nx]. *)
Definition gap (bp p nx : Z) : bool :=
  ((p <? bp) && (bp <? nx)) || ((nx <=? p) && ((p <? bp) || (bp <? nx))).

Lemma free_loop_walk r n bp p o k :
  linked (umem k) p r -> (length r <= n)%nat ->
  (exists x q nx y, p :: r = x ++ q :: nx :: y /\ gap bp q nx = true) ->
  exists x q nx y, p :: r = x ++ q :: nx :: y /\ gap bp q nx = true /\ free_loop n bp p o k = Ok q o k.
Proof.
  revert n p. induction r as [|q r IH]; intros n p Hr Hn (x & q' & nx & y & Heq & Hg).
  { exfalso. apply (f_equal length) in Heq. rewrite length_app in Heq. simpl in Heq. lia. }
  destruct n as [|n]; simpl in Hn; [lia|]. destruct Hr as [Hp Hr].
  assert (s_ptr p o k = Ok q o k) as Hload by by apply deref_some.
  destruct (gap bp p q) eqn:Eg.
  - exists [], p, q, r. split_and!; [done|done|]. cbn [free_loop]. erewrite bind_ok by exact Hload.
    unfold gap in Eg. destruct ((p <? bp) && (bp <? q)); [done|]. simpl in Eg. by rewrite Eg.
  - destruct (IH n q) as (x1 & q1 & nx1 & y1 & Heq1 & Hg1 & Hl1); [done|lia| |].
    + destruct x as [|a x]; simplify_eq/=; [congruence|]. eauto 10.
    + exists (p :: x1), q1, nx1, y1. split_and!; [by rewrite Heq1|done|].
      cbn [free_loop]. erewrite bind_ok by exact Hload. unfold gap in Eg. apply orb_false_iff in Eg as [-> ->]. done.
Qed.

(** Neighbours in a list, and in the list walked round from one of its elements. *)
Definition adj (q nx : Z) (l : list Z) : Prop := exists x y, l = x ++ q :: nx :: y.

Lemma adj_app q nx l1 l2 :
  adj q nx (l1 ++ l2) <-> adj q nx l1 \/ (exists x y, l1 = x ++ [q] /\ l2 = nx :: y) \/ adj q nx l2.
Proof.
  unfold adj. split.
  - intros (x & y & Heq). apply app_eq_inv in Heq as [(k & -> & Hk)|(k & -> & ->)].
    + destruct k as [|c [|c' k]]; simplify_eq/=; [right; right; by exists [], y|right; left; by exists x, y|].
      left. eauto.
    + right; right. eauto.
  - intros [(x & y & ->)|[(x & y & -> & ->)|(x & y & ->)]].
    + exists x, (y ++ l2). by rewrite <- app_assoc.
    + exists x, y. by rewrite <- app_assoc.
    + exists (l1 ++ x), y. by rewrite <- app_assoc.
Qed.

Lemma adj_round q nx b l l1 p l2 :
  b :: l = l1 ++ p :: l2 ->
  adj q nx (p :: l2 ++ l1 ++ [p]) <-> adj q nx (b :: l) \/ (nx = b /\ exists x, b :: l = x ++ [q]).
Proof.
  intros Hl. rewrite Hl. change (p :: l2 ++ l1 ++ [p]) with ((p :: l2) ++ (l1 ++ [p])). rewrite !adj_app.
  assert (~ adj q nx [p]) as Hone.
  { intros (x & y & Heq). apply (f_equal length) in Heq. rewrite length_app in Heq. simpl in Heq. lia. }
  split.
  - intros [H1|[(x & y & H1 & H2)|[H1|[(x & y & H1 & H2)|H1]]]]; try tauto.
    + right. split; [destruct l1; simpl in *; congruence|]. exists (l1 ++ x). by rewrite H1, app_assoc.
    + left. right. left. exists x, l2. split; [done|]. congruence.
  - intros [[H1|[(x & y & H1 & H2)|H1]]|[-> [x Hx]]]; try tauto.
    + right. right. right. left. exists x, []. split; [done|]. congruence.
    + right. left. destruct (exists_last (l := p :: l2)) as (x' & q' & Hq); [done|].
      assert (q' = q) as -> by (rewrite Hq, app_assoc in Hx; by apply app_inj_tail in Hx as [_ ->]).
      destruct l1 as [|c l1]; simplify_eq/=; [by exists x', []|]. by exists x', (l1 ++ [p]).
Qed.

Lemma linked_adj m a r q nx : linked m a r -> adj q nx (a :: r) -> m !! q = Some nx.
Proof.
  revert a. induction r as [|b r IH]; intros a Hr (x & y & Heq).
  - apply (f_equal length) in Heq. rewrite length_app in Heq. simpl in Heq. lia.
  - destruct Hr as [Ha Hr]. destruct x as [|c x]; simplify_eq/=; [done|]. eapply IH; [done|]. by exists x, y.
Qed.

(** * The heap *)

(** The free blocks [fl] and the blocks in use [used] (by the address of their
    header, with their size) share the words between the static data and [top];
    [freep] points to one of the free blocks or to [base]. *)
Record heap_ok (m : gmap Z Z) (top : Z) (fl : list (Z * Z)) (fp : Z) (used : gmap Z Z) : Prop := {
  ho_freep : m !! sym_freep = Some fp;
  ho_fp : exists l1 s l2, (sym_base, 0) :: fl = l1 ++ (fp, s) :: l2;
  ho_chain : chain m ((sym_base, 0) :: fl) sym_base;
  ho_laid : laid sym_brk fl top;
  ho_top : top <= KERNBASE;
  ho_used : forall u s, used !! u = Some s ->
    sym_brk <= u /\ 1 <= s /\ u mod 8 = 0 /\ u + 8 * s <= top /\ m !! (u + 4) = Some s;
  ho_uf : forall u s a t, used !! u = Some s -> (a, t) ∈ fl -> u + 8 * s <= a \/ a + 8 * t <= u;
  ho_uu : forall u s u' s', used !! u = Some s -> used !! u' = Some s' -> u <> u' ->
    u + 8 * s <= u' \/ u' + 8 * s' <= u;
  ho_words : forall a s x, (a, s) ∈ fl \/ used !! a = Some s -> a <= x < a + 8 * s -> x mod 4 = 0 -> is_Some (m !! x) }.

(** The headers of the list do not overlap. *)
Lemma nodes_split fl top l1 q s l2 :
  laid sym_brk fl top -> (sym_base, 0) :: fl = l1 ++ (q, s) :: l2 ->
  (forall a t, (a, t) ∈ l1 -> a + 8 <= q /\ (a = sym_base \/ a + 8 * t <= q)) /\
  (forall a t, (a, t) ∈ l2 -> q + 8 <= a /\ q + 8 * s <= a /\ (a, t) ∈ fl) /\
  ((q = sym_base /\ s = 0 /\ l1 = [] /\ l2 = fl) \/
   ((q, s) ∈ fl /\ exists l1', l1 = (sym_base, 0) :: l1' /\ fl = l1' ++ (q, s) :: l2)).
Proof.
  pose proof base_low as Hbase. intros Hl Heq. destruct l1 as [|[b t] l1]; simplify_eq/=.
  - split; [intros a t Ha; by apply elem_of_nil in Ha|]. split; [|by left].
    intros a t Ha. pose proof (laid_elem _ _ _ _ _ Hl Ha). split_and!; lia || done.
  - apply laid_app in Hl as (mid & Hl1 & Hq & Hs & Hm & Hl2). split_and!.
    + intros a t [[= -> ->]|Ha]%elem_of_cons; [apply laid_le in Hl1; lia|].
      pose proof (laid_elem _ _ _ _ _ Hl1 Ha). lia.
    + intros a t Ha. pose proof (laid_elem _ _ _ _ _ Hl2 Ha). split_and!; [lia|lia|].
      apply elem_of_app. right. by right.
    + right. split; [apply elem_of_app; right; by left|]. eauto.
Qed.

Lemma laid_tail fl top l1 q s l2 :
  laid sym_brk fl top -> (sym_base, 0) :: fl = l1 ++ (q, s) :: l2 -> exists lo, laid lo l2 top.
Proof.
  intros Hl Heq. destruct l1 as [|[b t] l1]; simplify_eq/=; [eauto|].
  apply laid_app in Hl as (mid & _ & _ & _ & _ & Hl2). eauto.
Qed.

(** The place of an address in a sorted list. *)
Lemma place bp (l : list (Z * Z)) lo hi b0 s0 :
  laid lo l hi -> b0 < bp -> (forall a t, (a, t) ∈ l -> a <> bp) ->
  exists l1 q s l2, (b0, s0) :: l = l1 ++ (q, s) :: l2 /\ q < bp /\ (forall a t, (a, t) ∈ l2 -> bp < a).
Proof.
  revert lo b0 s0. induction l as [|[a s] l IH]; intros lo b0 s0 Hl Hb Hne.
  - exists [], b0, s0, []. split_and!; [done|done|]. intros ? ? Ha. by apply elem_of_nil in Ha.
  - destruct Hl as (Hl1 & Hl2 & _ & Hl). destruct (decide (a < bp)).
    + destruct (IH (a + 8 * s) a s) as (l1 & q & s' & l2 & -> & ? & ?); try done.
      { intros ? ? Ha. apply (Hne _ t). by right. }
      exists ((b0, s0) :: l1), q, s', l2. done.
    + exists [], b0, s0, ((a, s) :: l). split_and!; [done|done|].
      assert (a <> bp) by (apply (Hne a s); by left).
      intros c t [[= -> ->]|Hc]%elem_of_cons; [lia|]. pose proof (laid_elem _ _ _ _ _ Hl Hc). lia.
Qed.

Lemma NoDup_size (m : gmap Z Z) (l : list Z) :
  NoDup l -> (forall x, x ∈ l -> is_Some (m !! x)) -> (length l <= size m)%nat.
Proof.
  intros Hnd Hin. rewrite <- (size_list_to_set (C := gset Z) l), <- (size_dom (D := gset Z) m) by done.
  apply subseteq_size. intros x Hx%elem_of_list_to_set. apply elem_of_dom. by apply Hin.
Qed.

Lemma chain_elem m l e a s : chain m l e -> (a, s) ∈ l -> is_Some (m !! a) /\ m !! (a + 4) = Some s.
Proof.
  induction l as [|[b t] l IH]; simpl; [intros _ Ha; by apply elem_of_nil in Ha|].
  intros (Hb & Ht & Hl) [[= -> ->]|Ha]%elem_of_cons; [eauto|by apply IH].
Qed.

Lemma nodes_size m top fl fp used :
  heap_ok m top fl fp used -> (S (length fl) <= size m)%nat.
Proof.
  intros Hh. rewrite <- (length_fmap fst). change (S (length fl.*1)) with (length (((sym_base, 0) :: fl).*1)).
  apply NoDup_size.
  - pose proof (ho_laid _ _ _ _ _ Hh) as Hl. pose proof base_low as Hb. clear Hh. simpl. apply NoDup_cons. split.
    + intros ([a t] & He & Ha)%list_elem_of_fmap. pose proof (laid_elem _ _ _ _ _ Hl Ha) as Hr. simpl in *. lia.
    + revert Hl. generalize sym_brk. induction fl as [|[a t] fl IH]; intros lo Hl; simpl; [by apply NoDup_nil_2|].
      destruct Hl as (_ & Ht & _ & Hl). apply NoDup_cons. split; [|by eapply IH].
      intros ([c u] & He & Hc)%list_elem_of_fmap. pose proof (laid_elem _ _ _ _ _ Hl Hc). simpl in *. lia.
  - intros x ([a t] & -> & Ha)%list_elem_of_fmap. by apply (chain_elem _ _ _ _ _ (ho_chain _ _ _ _ _ Hh)) in Ha as [? _].
Qed.

(** Where two blocks of the list are. *)
Lemma nodes_order fl top l1 q s l2 a :
  laid sym_brk fl top -> (sym_base, 0) :: fl = l1 ++ (q, s) :: l2 -> a ∈ sym_base :: fl.*1 ->
  a < q \/ a = q \/ (q < a /\ exists t, (a, t) ∈ l2).
Proof.
  intros Hl Heq Ha. destruct (nodes_split fl top l1 q s l2 Hl Heq) as (Hb & Haf & _).
  change (sym_base :: fl.*1) with (((sym_base, 0) :: fl).*1) in Ha. rewrite Heq in Ha.
  apply list_elem_of_fmap in Ha as ([a' t] & -> & [Ha|[[= -> ->]|Ha]%elem_of_cons]%elem_of_app); simpl.
  - apply Hb in Ha. lia.
  - auto.
  - right. right. pose proof (Haf _ _ Ha). split; [lia|eauto].
Qed.

(** The gap is unique. *)
Lemma gap_unique fl top l1 q s l2 bp q1 nx :
  laid sym_brk fl top -> (sym_base, 0) :: fl = l1 ++ (q, s) :: l2 -> q < bp -> sym_brk <= bp ->
  (forall a t, (a, t) ∈ l2 -> bp < a) ->
  adj q1 nx (sym_base :: fl.*1) \/ (nx = sym_base /\ exists x, sym_base :: fl.*1 = x ++ [q1]) ->
  gap bp q1 nx = true -> q1 = q.
Proof.
  intros Hl Heq Hq Hlo Hgt Hadj Hg. pose proof base_low as Hbl.
  assert (q ∈ sym_base :: fl.*1) as Hin.
  { change (sym_base :: fl.*1) with (((sym_base, 0) :: fl).*1). rewrite Heq, fmap_app. apply elem_of_app. right. by left. }
  assert (q1 ∈ sym_base :: fl.*1) as Hin1.
  { destruct Hadj as [(x & y & ->)|[_ [x ->]]]; apply elem_of_app; right; by left. }
  assert (exists x s1 y, (sym_base, 0) :: fl = x ++ (q1, s1) :: y /\ nx = first y sym_base) as (x & s1 & y & Hx & Hnx).
  { change (sym_base :: fl.*1) with (((sym_base, 0) :: fl).*1) in Hadj.
    destruct Hadj as [(x & y & Hxy)|[-> [x Hxy]]]; apply fmap_app_inv in Hxy as (z1 & z2 & -> & Hz & ->).
    - destruct z2 as [|[c1 t1] [|[c2 t2] z2]]; simplify_eq/=. by eexists z1, t1, ((_, t2) :: z2).
    - destruct z2 as [|[c1 t1] [|[c2 t2] z2]]; simplify_eq/=. by exists z1, t1, []. }
  destruct (nodes_order _ _ _ _ _ _ q1 Hl Heq Hin1) as [Hlt|[->|[Hlt [t Ht]]]]; [exfalso|done|exfalso].
  - destruct (nodes_order _ _ _ _ _ _ q Hl Hx Hin) as [?|[?|[_ [t Ht]]]]; [lia|lia|].
    destruct (nodes_split _ _ _ _ _ _ Hl Hx) as (_ & Haf & _). destruct y as [|[c u] y]; [by apply elem_of_nil in Ht|].
    simpl in Hnx. subst c. assert (nx <= q).
    { apply elem_of_cons in Ht as [[= -> ->]|Ht]; [lia|].
      assert ((sym_base, 0) :: fl = (x ++ [(q1, s1)]) ++ (nx, u) :: y) as Hx' by (by rewrite Hx, <- app_assoc).
      apply (nodes_split _ _ _ _ _ _ Hl Hx') in Ht as [? _]. lia. }
    pose proof (Haf nx u ltac:(by left)). unfold gap in Hg.
    destruct (Z.ltb_spec q1 bp), (Z.ltb_spec bp nx), (Z.leb_spec nx q1); simpl in Hg; done || lia.
  - apply Hgt in Ht. unfold gap in Hg.
    destruct (Z.ltb_spec q1 bp), (Z.ltb_spec bp nx), (Z.leb_spec nx q1); simpl in Hg; try done; try lia.
    destruct y as [|[c u] y]; simpl in Hnx; [lia|]. subst c.
    destruct (nodes_split _ _ _ _ _ _ Hl Hx) as (_ & Haf & _). pose proof (Haf nx u ltac:(by left)). lia.
Qed.

(** The loop of [free] stops at the block after which the freed block belongs. *)
Lemma free_finds m top fl fp used bp :
  heap_ok m top fl fp used -> sym_brk <= bp -> (forall a t, (a, t) ∈ fl -> a <> bp) ->
  exists l1 q s l2, (sym_base, 0) :: fl = l1 ++ (q, s) :: l2 /\ q < bp /\ (forall a t, (a, t) ∈ l2 -> bp < a) /\
    forall o k, free_loop (size m) bp fp o (with_mem k m) = Ok q o (with_mem k m).
Proof.
  intros Hh Hlo Hne. pose proof base_low as Hb. pose proof (ho_laid _ _ _ _ _ Hh) as Hl.
  destruct (ho_fp _ _ _ _ _ Hh) as (l1 & s & l2 & Hfp).
  pose proof (chain_round _ _ _ _ _ _ _ _ (ho_chain _ _ _ _ _ Hh) Hfp) as Hround.
  assert (sym_base :: fl.*1 = l1.*1 ++ fp :: l2.*1) as Hfp'.
  { change (sym_base :: fl.*1) with (((sym_base, 0) :: fl).*1). by rewrite Hfp, fmap_app. }
  assert (sym_base < bp) as Hbb by lia.
  destruct (place bp fl sym_brk top sym_base 0 Hl Hbb Hne) as (x1 & q & sq & x2 & Hq & Hlt & Hgt).
  assert (sym_base :: fl.*1 = x1.*1 ++ q :: x2.*1) as Hq'.
  { change (sym_base :: fl.*1) with (((sym_base, 0) :: fl).*1). by rewrite Hq, fmap_app. }
  exists x1, q, sq, x2. split_and!; try done. intros o k.
  destruct (free_loop_walk (l2.*1 ++ l1.*1 ++ [fp]) (size m) bp fp o (with_mem k m)) as (x & q1 & nx & y & Hadj & Hg & Hloop).
  - done.
  - pose proof (nodes_size _ _ _ _ _ Hh) as Hn. apply (f_equal length) in Hfp.
    rewrite !length_app, !length_fmap. rewrite length_app in Hfp. simpl in *. lia.
  - assert (adj q (first x2 sym_base) (fp :: l2.*1 ++ l1.*1 ++ [fp])) as (x & y & Hxy).
    { apply (adj_round _ _ _ _ _ _ _ Hfp'). destruct x2 as [|[c u] x2]; simpl.
      - right. split; [done|]. by exists (x1.*1).
      - left. by exists (x1.*1), (x2.*1). }
    exists x, q, (first x2 sym_base), y. split; [done|]. unfold gap. destruct (Z.ltb_spec q bp); [|lia]. simpl.
    destruct x2 as [|[c u] x2]; simpl.
    + assert (sym_base <= q).
      { destruct (nodes_order _ _ _ _ _ _ sym_base Hl Hq ltac:(by left)) as [?|[?|[_ [t Ht]]]]; [lia|lia|].
        by apply elem_of_nil in Ht. }
      destruct (Z.leb_spec sym_base q); [|lia]. by rewrite orb_true_r.
    + pose proof (Hgt c u ltac:(by left)). destruct (Z.ltb_spec bp c); [done|lia].
  - rewrite Hloop. f_equal. eapply (gap_unique fl top x1 q sq x2 bp q1 nx); try done.
    apply (adj_round _ _ _ _ _ _ _ Hfp'). by exists x, y.
Qed.

(** Every word of the blocks [l'] is one of the blocks [l]. *)
Definition covers (l l' : list (Z * Z)) : Prop :=
  forall a s x, (a, s) ∈ l' -> a <= x < a + 8 * s -> exists a' s', (a', s') ∈ l /\ a' <= x < a' + 8 * s'.

Lemma covers_refl l : covers l l.
Proof. intros a s x. eauto. Qed.

Lemma covers_app l1 l1' l2 l2' : covers l1 l1' -> covers l2 l2' -> covers (l1 ++ l2) (l1' ++ l2').
Proof.
  intros Hc1 Hc2 a s x [Ha|Ha]%elem_of_app Hx.
  - destruct (Hc1 a s x Ha Hx) as (a' & s' & ? & ?). exists a', s'. split; [|done]. apply elem_of_app. by left.
  - destruct (Hc2 a s x Ha Hx) as (a' & s' & ? & ?). exists a', s'. split; [|done]. apply elem_of_app. by right.
Qed.

Lemma covers_trans l1 l2 l3 : covers l1 l2 -> covers l2 l3 -> covers l1 l3.
Proof. intros Hc1 Hc2 a s x Ha Hx. destruct (Hc2 a s x Ha Hx) as (a' & s' & ? & ?). eauto. Qed.

Lemma covers_subset l l' : l' ⊆ l -> covers l l'.
Proof. intros Hs a s x Ha Hx. eauto. Qed.

Lemma covers_join a s t l : covers ((a, s) :: (a + 8 * s, t) :: l) ((a, s + t) :: l).
Proof.
  intros b u x [[= -> ->]|Hb]%elem_of_cons Hx.
  - destruct (decide (x < a + 8 * s)).
    + exists a, s. split; [by left|lia].
    + exists (a + 8 * s), t. split; [by right; left|lia].
  - exists b, u. split; [by right; right|done].
Qed.

(** What is apart from all the blocks is apart from blocks they cover. *)
Lemma covers_apart l l' a s u t :
  covers l l' -> (a, s) ∈ l' -> 1 <= s -> 1 <= t ->
  (forall a' s', (a', s') ∈ l -> u + 8 * t <= a' \/ a' + 8 * s' <= u) -> u + 8 * t <= a \/ a + 8 * s <= u.
Proof.
  intros Hc Ha Hs Ht Hap. destruct (decide (u + 8 * t <= a)); [by left|]. destruct (decide (a + 8 * s <= u)); [by right|].
  destruct (Hc a s (Z.max u a) Ha ltac:(lia)) as (a' & s' & Hin & Hx). specialize (Hap a' s' Hin). lia.
Qed.

Lemma hplus_small p n : 0 <= p + 8 * n < 2 ^ 32 -> hplus p n = p + 8 * n.
Proof. intros. by apply u32_small. Qed.

Ltac mload := erewrite bind_ok by (apply load_mem; (eassumption || (rewrite ?lookup_insert_ne by lia; eassumption))); cbv beta.
Ltac mstore := erewrite bind_ok by (apply store_mem; (eassumption || (rewrite ?lookup_insert_is_Some by lia; eauto))); cbv beta.

Lemma join_upper_spec k m o bp bs p l2 top :
  m !! (bp + 4) = Some bs -> m !! p = Some (first l2 sym_base) -> is_Some (m !! bp) ->
  chain m l2 sym_base -> laid (bp + 8 * bs) l2 top -> top <= KERNBASE -> sym_brk <= bp -> 1 <= bs ->
  exists m1 bs' l2', join_upper bp p o (with_mem k m) = Ok tt o (with_mem k m1) /\
    chain m1 ((bp, bs') :: l2') sym_base /\
    (forall x, x <> bp -> x <> bp + 4 -> m1 !! x = m !! x) /\ (forall x, is_Some (m !! x) -> is_Some (m1 !! x)) /\
    laid (bp + 8 * bs') l2' top /\ bs <= bs' /\ covers ((bp, bs) :: l2) ((bp, bs') :: l2') /\
    (length l2' <= length l2)%nat.
Proof.
  intros Hsz Hp [y Hbp] Hc Hl Htop Hlo Hbs. pose proof base_low as Hbl. pose proof base_pos as Hbpos.
  pose proof (laid_le _ _ _ Hl) as Hle. unfold KERNBASE in Htop.
  assert (forall a t, (a, t) ∈ l2 -> bp + 8 * bs <= a) as Hab by (intros a t Ha; apply (laid_elem _ _ _ _ _ Hl Ha)).
  unfold join_upper, s_size, s_ptr, set_s_size, set_s_ptr. mload. mload. rewrite hplus_small by lia.
  destruct (Z.eqb_spec (bp + 8 * bs) (first l2 sym_base)) as [He|Hne].
  - destruct l2 as [|[nx ns] l2]; simpl in *; [lia|]. subst nx. destruct Hc as (Hc1 & Hc2 & Hc), Hl as (_ & Hns & _ & Hl).
    pose proof (laid_le _ _ _ Hl).
    mload. rewrite (u32_small (bs + ns)) by (unfold is_u32; lia). mstore. mload.
    exists (<[bp := first l2 sym_base]> (<[bp + 4 := bs + ns]> m)), (bs + ns), l2. split_and!.
    + apply store_mem. rewrite lookup_insert_ne by lia. eauto.
    + apply lookup_insert_eq.
    + rewrite lookup_insert_ne by lia. apply lookup_insert_eq.
    + eapply chain_frame; [|exact Hc]. intros a t Ha. pose proof (laid_elem _ _ _ _ _ Hl Ha).
      by rewrite !lookup_insert_ne by lia.
    + intros x ? ?. by rewrite !lookup_insert_ne by done.
    + intros x Hx. by rewrite !lookup_insert_is_Some'; auto.
    + by replace (bp + 8 * (bs + ns)) with (bp + 8 * bs + 8 * ns) by lia.
    + lia.
    + apply covers_join.
    + simpl. lia.
  - exists (<[bp := first l2 sym_base]> m), bs, l2. cbn [chain]. split_and!.
    + apply store_mem. eauto.
    + apply lookup_insert_eq.
    + by rewrite lookup_insert_ne by lia.
    + eapply chain_frame; [|exact Hc]. intros a t Ha. specialize (Hab a t Ha). by rewrite !lookup_insert_ne by lia.
    + intros x ? ?. by rewrite !lookup_insert_ne by done.
    + intros x Hx. by rewrite !lookup_insert_is_Some'; auto.
    + done.
    + lia.
    + apply covers_refl.
    + done.
Qed.

Lemma join_lower_spec k m o bp bs q s l1 l2 lo top :
  chain m l1 q -> m !! (q + 4) = Some s -> is_Some (m !! q) -> chain m ((bp, bs) :: l2) sym_base ->
  (forall a t, (a, t) ∈ l1 -> a + 8 <= q) -> 0 < q -> q + 8 <= bp -> 0 <= s -> q + 8 * s <= bp -> 1 <= bs ->
  laid (bp + 8 * bs) l2 top -> top <= KERNBASE -> lo <= bp -> bp mod 8 = 0 ->
  exists m2 r, join_lower bp q o (with_mem k m) = Ok tt o (with_mem k m2) /\
    chain m2 (l1 ++ r) sym_base /\
    (forall x, x <> q -> x <> q + 4 -> m2 !! x = m !! x) /\ (forall x, is_Some (m !! x) -> is_Some (m2 !! x)) /\
    ((r = (q, s) :: (bp, bs) :: l2) \/ (1 <= s /\ q + 8 * s = bp /\ r = (q, s + bs) :: l2)).
Proof.
  intros Hl1 Hs [y Hq] (Hb1 & Hb2 & Hl2) Hlt Hqp Hqb Hs0 Hqs Hbs Hl Htop Hlo Hmod.
  pose proof (laid_le _ _ _ Hl) as Hle. unfold KERNBASE in Htop.
  assert (forall a t, (a, t) ∈ l2 -> bp + 8 * bs <= a) as Hab by (intros a t Ha; apply (laid_elem _ _ _ _ _ Hl Ha)).
  unfold join_lower, s_size, s_ptr, set_s_size, set_s_ptr. mload. rewrite hplus_small by lia.
  destruct (Z.eqb_spec (q + 8 * s) bp) as [He|Hne].
  - mload. rewrite (u32_small (s + bs)) by (unfold is_u32; lia). mstore. mload.
    exists (<[q := first l2 sym_base]> (<[q + 4 := s + bs]> m)), ((q, s + bs) :: l2). rewrite chain_app. cbn [chain]. split_and!.
    + apply store_mem. rewrite lookup_insert_ne by lia. eauto.
    + eapply chain_frame; [|exact Hl1]. intros a t Ha. specialize (Hlt a t Ha). by rewrite !lookup_insert_ne by lia.
    + apply lookup_insert_eq.
    + rewrite lookup_insert_ne by lia. apply lookup_insert_eq.
    + eapply chain_frame; [|exact Hl2]. intros a t Ha. specialize (Hab a t Ha). by rewrite !lookup_insert_ne by lia.
    + intros x ? ?. by rewrite !lookup_insert_ne by done.
    + intros x Hx. by rewrite !lookup_insert_is_Some'; auto.
    + right. split_and!; [lia|done|done].
  - exists (<[q := bp]> m), ((q, s) :: (bp, bs) :: l2). rewrite chain_app. cbn [chain]. split_and!.
    + apply store_mem. eauto.
    + eapply chain_frame; [|exact Hl1]. intros a t Ha. specialize (Hlt a t Ha). by rewrite !lookup_insert_ne by lia.
    + apply lookup_insert_eq.
    + by rewrite lookup_insert_ne by lia.
    + by rewrite lookup_insert_ne by lia.
    + by rewrite lookup_insert_ne by lia.
    + eapply chain_frame; [|exact Hl2]. intros a t Ha. specialize (Hab a t Ha). by rewrite !lookup_insert_ne by lia.
    + intros x ? ?. by rewrite !lookup_insert_ne by done.
    + intros x Hx. by rewrite !lookup_insert_is_Some'; auto.
    + by left.
Qed.

(** The list of free blocks after a block has joined it. *)
Lemma joined_list fl top l1 q s l2 bp bs bs' l2' r :
  laid sym_brk fl top -> (sym_base, 0) :: fl = l1 ++ (q, s) :: l2 ->
  sym_brk <= bp -> bp mod 8 = 0 -> 0 <= s -> q + 8 * s <= bp -> 1 <= bs' ->
  laid (bp + 8 * bs') l2' top -> covers ((bp, bs) :: l2) ((bp, bs') :: l2') ->
  r = (q, s) :: (bp, bs') :: l2' \/ (1 <= s /\ q + 8 * s = bp /\ r = (q, s + bs') :: l2') ->
  (length l2' <= length l2)%nat ->
  exists fl', l1 ++ r = (sym_base, 0) :: fl' /\ laid sym_brk fl' top /\ covers ((bp, bs) :: fl) fl' /\
    (length fl' <= S (length fl))%nat /\ exists a t, (a, t) ∈ fl' /\ bs' <= t.
Proof.
  intros Hl Heq Hlo Hmod Hs Hq Hbs Hl2 Hcov Hr Hlen.
  assert (covers ((q, s) :: (bp, bs) :: l2) r) as Hcr.
  { destruct Hr as [->|(_ & <- & ->)].
    - by apply (covers_app [(q, s)] [(q, s)]); [apply covers_refl|].
    - eapply covers_trans; [|apply covers_join]. by apply (covers_app [(q, s)] [(q, s)]); [apply covers_refl|]. }
  assert (exists a t, (a, t) ∈ r /\ a <> sym_base /\ bs' <= t \/ (a, t) = (q, s + bs') /\ (a, t) ∈ r /\ 1 <= s) as (a & t & Hat).
  { pose proof base_low. destruct Hr as [->|(? & <- & ->)].
    - exists bp, bs'. left. split_and!; [by right; left|lia|lia].
    - exists q, (s + bs'). right. split_and!; [done|by left|done]. }
  destruct (nodes_split _ _ _ _ _ _ Hl Heq) as (_ & _ & [(-> & -> & -> & ->)|(Hin & l1' & -> & ->)]).
  - destruct Hr as [->|(? & _)]; [|lia]. exists ((bp, bs') :: l2'). split_and!; [done| |done| |].
    + simpl. split_and!; done.
    + simpl. lia.
    + exists bp, bs'. split; [by left|lia].
  - exists (l1' ++ r). split_and!; [done| | | |].
    + apply laid_app in Hl as (mid & Hl1 & Hmid & ? & ? & _). apply laid_app. exists mid. split; [done|].
      destruct Hr as [->|(? & <- & ->)]; simpl; split_and!; try done; try lia.
      by replace (q + 8 * (s + bs')) with (q + 8 * s + 8 * bs') by lia.
    + eapply covers_trans; [|by apply covers_app; [apply covers_refl|exact Hcr]].
      apply covers_subset. intros x. rewrite elem_of_cons, !elem_of_app, !elem_of_cons. tauto.
    + rewrite !length_app. destruct Hr as [->|(_ & _ & ->)]; simpl; lia.
    + exists a, t. split; [apply elem_of_app; right; tauto|]. destruct Hat as [(_ & _ & ?)|([= -> ->] & _ & ?)]; lia.
Qed.

(** [free] moves a block from those in use to the free ones, which it may merge;
    the other blocks in use keep their contents. *)
Lemma free_spec k m top fl fp used bp bs o :
  heap_ok m top fl fp used -> used !! bp = Some bs ->
  exists m' fl' fp', free (bp + 8) o (with_mem k m) = Ok tt o (with_mem k m') /\
    heap_ok m' top fl' fp' (delete bp used) /\
    (forall u t x, used !! u = Some t -> u <> bp -> u <= x < u + 8 * t -> m' !! x = m !! x) /\
    (forall x, is_Some (m !! x) -> is_Some (m' !! x)) /\
    (length fl' <= S (length fl))%nat /\ exists a s, (a, s) ∈ fl' /\ bs <= s.
Proof.
  intros Hh Hbp. pose proof base_low as Hbl. pose proof base_pos as Hbpos. pose proof freep_low as Hfl.
  pose proof freep_apart as Hfa.
  destruct (ho_used _ _ _ _ _ Hh _ _ Hbp) as (Hlo & Hbs & Hmod & Hend & Hsz).
  pose proof (ho_laid _ _ _ _ _ Hh) as Hl. pose proof (ho_top _ _ _ _ _ Hh) as Htop. unfold KERNBASE in Htop.
  destruct (free_finds m top fl fp used bp Hh Hlo) as (l1 & q & s & l2 & Heq & Hq & Hgt & Hloop).
  { intros a t Ha ->. pose proof (laid_elem _ _ _ _ _ Hl Ha). pose proof (ho_uf _ _ _ _ _ Hh _ _ _ _ Hbp Ha). lia. }
  destruct (nodes_split _ _ _ _ _ _ Hl Heq) as (Hb1 & Hb2 & Hpos).
  assert (q + 8 <= bp /\ 0 <= s /\ q + 8 * s <= bp) as (Hq1 & Hq2 & Hq3).
  { destruct Hpos as [(-> & -> & _)|(Hin & _)]; [lia|]. pose proof (laid_elem _ _ _ _ _ Hl Hin).
    pose proof (ho_uf _ _ _ _ _ Hh _ _ _ _ Hbp Hin). lia. }
  pose proof (ho_chain _ _ _ _ _ Hh) as Hc. rewrite Heq in Hc. apply chain_app in Hc as [Hc1 (Hc2 & Hc3 & Hc4)].
  destruct (join_upper_spec k m o bp bs q l2 top) as (m1 & bs' & l2' & Hup & Hch1 & Hfr1 & Hdom1 & Hl2' & Hbs' & Hcov & Hlen); try done.
  { apply (ho_words _ _ _ _ _ Hh bp bs); [by right|lia|]. pose proof (Z.div_mod bp 8). rewrite (Z.div_mod bp 8), Hmod by lia.
    replace (8 * (bp / 8) + 0) with (2 * (bp / 8) * 4) by lia. apply Z.mod_mul. lia. }
  { destruct (laid_tail _ _ _ _ _ _ Hl Heq) as [lo' Hl2]. eapply laid_raise; [exact Hl2|lia|].
    intros a t Ha. destruct (Hb2 a t Ha) as (_ & _ & Ha'). pose proof (ho_uf _ _ _ _ _ Hh _ _ _ _ Hbp Ha').
    specialize (Hgt a t Ha). pose proof (laid_elem _ _ _ _ _ Hl Ha'). lia. }
  destruct (join_lower_spec k m1 o bp bs' q s l1 l2' bp top) as (m2 & r & Hlow & Hch2 & Hfr2 & Hdom2 & Hr); try done; try lia.
  { eapply chain_frame; [|exact Hc1]. intros a t Ha. specialize (Hb1 a t Ha). split; apply Hfr1; lia. }
  { rewrite Hfr1 by lia. done. }
  { rewrite Hfr1 by lia. eauto. }
  { intros a t Ha. apply (Hb1 a t Ha). }
  { destruct Hpos as [(-> & _)|(Hin & _)]; [done|]. pose proof (laid_elem _ _ _ _ _ Hl Hin). lia. }
  destruct (joined_list fl top l1 q s l2 bp bs bs' l2' r) as (fl' & Hfl' & Hlaid' & Hcov' & Hlen' & a & t & Hat & Ht); try done; try lia.
  assert (sym_freep <> q /\ sym_freep <> q + 4) as [Hn1 Hn2].
  { destruct Hpos as [(-> & _)|(Hin & _)]; [lia|]. pose proof (laid_elem _ _ _ _ _ Hl Hin). lia. }
  assert (forall u w x, used !! u = Some w -> u <> bp -> u <= x < u + 8 * w -> <[sym_freep := q]> m2 !! x = m !! x) as Hframe.
  { intros u w x Hu Hne Hx. pose proof (ho_used _ _ _ _ _ Hh _ _ Hu).
    pose proof (ho_uu _ _ _ _ _ Hh _ _ _ _ Hu Hbp Hne).
    assert (x <> q /\ x <> q + 4) as [? ?].
    { destruct Hpos as [(-> & _)|(Hin & _)]; [lia|]. pose proof (ho_uf _ _ _ _ _ Hh _ _ _ _ Hu Hin).
      pose proof (laid_elem _ _ _ _ _ Hl Hin). lia. }
    rewrite lookup_insert_ne, Hfr2, Hfr1 by lia. done. }
  assert (forall x, is_Some (m !! x) -> is_Some (<[sym_freep := q]> m2 !! x)) as Hdom.
  { intros x Hx. rewrite lookup_insert_is_Some'. auto. }
  exists (<[sym_freep := q]> m2), fl', q. split_and!; [| |done|done|done|exists a, t; split; [done|lia]].
  - unfold free. rewrite hplus_small by lia. replace (bp + 8 + 8 * -1) with bp by lia.
    erewrite bind_ok by (apply load_mem; apply Hh). mbind_step. erewrite bind_ok by apply Hloop.
    erewrite bind_ok by exact Hup. erewrite bind_ok by exact Hlow. apply store_mem.
    apply Hdom2, Hdom1. rewrite (ho_freep _ _ _ _ _ Hh). eauto.
  - split.
    + apply lookup_insert_eq.
    + rewrite <- Hfl'. destruct Hr as [->|(_ & _ & ->)]; eauto.
    + rewrite <- Hfl'. eapply chain_frame; [|exact Hch2]. intros b w Hb. rewrite Hfl' in Hb.
      apply elem_of_cons in Hb as [[= -> ->]|Hb]; [|pose proof (laid_elem _ _ _ _ _ Hlaid' Hb)];
        by rewrite !lookup_insert_ne by lia.
    + done.
    + apply Hh.
    + intros u w [Hne Hu]%lookup_delete_Some. destruct (ho_used _ _ _ _ _ Hh _ _ Hu) as (? & ? & ? & ? & Hw).
      split_and!; try done. rewrite <- Hw. apply (Hframe u w); [done|done|lia].
    + intros u w b c [Hne Hu]%lookup_delete_Some Hb. pose proof (laid_elem _ _ _ _ _ Hlaid' Hb).
      pose proof (ho_used _ _ _ _ _ Hh _ _ Hu).
      eapply (covers_apart ((bp, bs) :: fl)); [done|done|lia|lia|].
      intros a' s' [[= -> ->]|Ha']%elem_of_cons; [by eapply (ho_uu _ _ _ _ _ Hh)|by eapply (ho_uf _ _ _ _ _ Hh)].
    + intros u w u' w' [_ Hu]%lookup_delete_Some [_ Hu']%lookup_delete_Some. by apply (ho_uu _ _ _ _ _ Hh).
    + intros b c x Hbc Hx Hx4. apply Hdom. destruct Hbc as [Hb|[_ Hu]%lookup_delete_Some].
      * destruct (Hcov' b c x Hb Hx) as (a' & s' & [[= -> ->]|Ha']%elem_of_cons & Hx').
        -- apply (ho_words _ _ _ _ _ Hh bp bs); auto.
        -- apply (ho_words _ _ _ _ _ Hh a' s'); auto.
      * apply (ho_words _ _ _ _ _ Hh b c); auto.
Qed.

(** A block leaves the free list. *)
Lemma heap_take m m' top fl fl' fp fp' used h nu :
  heap_ok m top fl fp used ->
  m' !! sym_freep = Some fp' -> (exists l1 s l2, (sym_base, 0) :: fl' = l1 ++ (fp', s) :: l2) ->
  chain m' ((sym_base, 0) :: fl') sym_base -> laid sym_brk fl' top -> covers fl ((h, nu) :: fl') ->
  (forall a t, (a, t) ∈ fl' -> h + 8 * nu <= a \/ a + 8 * t <= h) ->
  1 <= nu -> sym_brk <= h -> h mod 8 = 0 -> h + 8 * nu <= top -> m' !! (h + 4) = Some nu ->
  (forall u t x, used !! u = Some t -> u <= x < u + 8 * t -> m' !! x = m !! x) ->
  (forall x, is_Some (m !! x) -> is_Some (m' !! x)) ->
  heap_ok m' top fl' fp' (<[h := nu]> used) /\ used !! h = None.
Proof.
  intros Hh Hf Hfp Hc Hl Hcov Hap Hnu Hlo Hmod Hend Hsz Hframe Hdom.
  assert (forall u t, used !! u = Some t -> u + 8 * t <= h \/ h + 8 * nu <= u) as Hhu.
  { intros u t Hu. pose proof (ho_used _ _ _ _ _ Hh _ _ Hu).
    eapply (covers_apart fl ((h, nu) :: fl')); [done|by left|lia|lia|]. intros a' s'. by apply (ho_uf _ _ _ _ _ Hh). }
  split.
  - split; try done.
    + apply Hh.
    + intros u t [[<- <-]|[Hne Hu]]%lookup_insert_Some; [done|].
      destruct (ho_used _ _ _ _ _ Hh _ _ Hu) as (? & ? & ? & ? & Hu4). split_and!; try done.
      rewrite <- Hu4. apply (Hframe u t); [done|lia].
    + intros u t a c [[<- <-]|[Hne Hu]]%lookup_insert_Some Ha; [by apply Hap|].
      pose proof (ho_used _ _ _ _ _ Hh _ _ Hu). pose proof (laid_elem _ _ _ _ _ Hl Ha).
      eapply (covers_apart fl ((h, nu) :: fl')); [done|by right|lia|lia|]. intros a' s'. by apply (ho_uf _ _ _ _ _ Hh).
    + intros u t u' t' [[<- <-]|[Hne Hu]]%lookup_insert_Some [[<- <-]|[Hne' Hu']]%lookup_insert_Some Hd; [done|..].
      * specialize (Hhu _ _ Hu'). lia.
      * specialize (Hhu _ _ Hu). lia.
      * by apply (ho_uu _ _ _ _ _ Hh).
    + intros a t x Hat Hx Hx4. apply Hdom.
      assert ((a, t) ∈ (h, nu) :: fl' \/ used !! a = Some t) as [Ha|Hu].
      { destruct Hat as [?|[[<- <-]|[_ ?]]%lookup_insert_Some]; [left; by right|left; by left|by right]. }
      * destruct (Hcov a t x Ha Hx) as (a' & s' & Ha' & Hx'). apply (ho_words _ _ _ _ _ Hh a' s'); auto.
      * apply (ho_words _ _ _ _ _ Hh a t); auto.
  - destruct (used !! h) as [t|] eqn:Eh; [|done]. specialize (Hhu h t Eh). pose proof (ho_used _ _ _ _ _ Hh _ _ Eh). lia.
Qed.

Lemma nodes_freep fl top a t :
  laid sym_brk fl top -> (a, t) ∈ (sym_base, 0) :: fl -> a <> sym_freep /\ a + 4 <> sym_freep.
Proof.
  pose proof freep_low. pose proof freep_apart. intros Hl [[= -> ->]|Ha]%elem_of_cons; [lia|].
  pose proof (laid_elem _ _ _ _ _ Hl Ha). lia.
Qed.

Lemma after_prev (fl l1 l2 : list (Z * Z)) prevp ps p s :
  (sym_base, 0) :: fl = l1 ++ (prevp, ps) :: (p, s) :: l2 ->
  exists x, fl = x ++ (p, s) :: l2 /\ forall mid, l1 ++ (prevp, ps) :: mid ++ l2 = (sym_base, 0) :: x ++ mid ++ l2.
Proof.
  destruct l1 as [|[b t] l1]; intros Heq; simplify_eq/=; [by exists []|].
  exists (l1 ++ [(prevp, ps)]). split; [by rewrite <- app_assoc|]. intros mid. by rewrite <- app_assoc.
Qed.

(** Taking a block from the free list. *)
Lemma carve_spec k m top fl fp used l1 prevp ps p s l2 nu o :
  heap_ok m top fl fp used -> (sym_base, 0) :: fl = l1 ++ (prevp, ps) :: (p, s) :: l2 -> 1 <= nu <= s ->
  exists h m' fl', carve nu prevp p s o (with_mem k m) = Ok (h + 8) o (with_mem k m') /\
    heap_ok m' top fl' prevp (<[h := nu]> used) /\ used !! h = None /\
    (forall u t x, used !! u = Some t -> u <= x < u + 8 * t -> m' !! x = m !! x) /\
    (forall x, is_Some (m !! x) -> is_Some (m' !! x)).
Proof.
  intros Hh Heq Hnu. pose proof base_low as Hbl. pose proof base_pos as Hbpos. pose proof freep_low as Hfl.
  pose proof freep_apart as Hfa. pose proof (ho_laid _ _ _ _ _ Hh) as Hl. pose proof (ho_top _ _ _ _ _ Hh) as Htop.
  unfold KERNBASE in Htop.
  assert ((sym_base, 0) :: fl = (l1 ++ [(prevp, ps)]) ++ (p, s) :: l2) as Heq' by by rewrite <- app_assoc.
  destruct (nodes_split _ _ _ _ _ _ Hl Heq) as (Hb1 & Hb2 & Hpos).
  destruct (nodes_split _ _ _ _ _ _ Hl Heq') as (Hp1 & Hp2 & Hpos').
  assert ((p, s) ∈ fl) as Hpin by (destruct Hpos' as [(_ & _ & Hnil & _)|[? _]]; [by destruct l1|done]).
  pose proof (laid_elem _ _ _ _ _ Hl Hpin) as (Hplo & Hps & Hpm & Hpe).
  assert (prevp + 8 <= p /\ (prevp = sym_base \/ (prevp, ps) ∈ fl)) as [Hpp Hprev].
  { split; [apply (Hp1 prevp ps); apply elem_of_app; right; by left|]. destruct Hpos as [(? & _)|[? _]]; auto. }
  pose proof (ho_chain _ _ _ _ _ Hh) as Hc. rewrite Heq in Hc.
  apply chain_app in Hc as [Hc1 (Hc2 & Hc3 & Hc4 & Hc5 & Hc6)]. simpl in Hc1, Hc2.
  assert (0 < prevp) as Hpv by (destruct Hprev as [->|Hin]; [lia|pose proof (laid_elem _ _ _ _ _ Hl Hin); lia]).
  assert (forall u t x, used !! u = Some t -> u <= x < u + 8 * t ->
    x <> prevp /\ x <> prevp + 4 /\ x <> sym_freep /\ ~ (p <= x < p + 8 * s)) as Hout.
  { intros u t x Hu Hx. pose proof (ho_used _ _ _ _ _ Hh _ _ Hu). pose proof (ho_uf _ _ _ _ _ Hh _ _ _ _ Hu Hpin).
    destruct Hprev as [->|Hin]; [lia|]. pose proof (ho_uf _ _ _ _ _ Hh _ _ _ _ Hu Hin).
    pose proof (laid_elem _ _ _ _ _ Hl Hin). lia. }
  assert (sym_freep <> prevp /\ sym_freep <> prevp + 4) as [Hn1 Hn2].
  { destruct Hprev as [->|Hin]; [lia|pose proof (laid_elem _ _ _ _ _ Hl Hin); lia]. }
  destruct (after_prev fl l1 l2 prevp ps p s Heq) as (x & Hx & Hmid).
  assert (forall a t, (a, t) ∈ l1 -> a + 8 <= prevp) as Hb1' by (intros a t Ha; apply (Hb1 a t Ha)).
  assert (forall a t, (a, t) ∈ l2 -> p + 8 * s <= a) as Hp2' by (intros a t Ha; apply (Hp2 a t Ha)).
  pose proof Hl as Hl'. rewrite Hx in Hl'. apply laid_app in Hl' as (mp & Hlx & Hmp & _ & _ & Hll2).
  assert (forall a t, (a, t) ∈ x -> a + 8 * t <= p) as Hxp by (intros a t Ha; pose proof (laid_elem _ _ _ _ _ Hlx Ha); lia).
  unfold carve, s_ptr, set_s_ptr, set_s_size. destruct (Z.eqb_spec s nu) as [->|Hne].
  - set (m' := <[sym_freep := prevp]> (<[prevp := first l2 sym_base]> m)).
    exists p, m', (x ++ l2). specialize (Hmid []). simpl in Hmid.
    assert (forall u t x0, used !! u = Some t -> u <= x0 < u + 8 * t -> m' !! x0 = m !! x0) as Hfr.
    { intros u t y Hu Hy. destruct (Hout u t y Hu Hy) as (? & ? & ? & ?). unfold m'. by rewrite !lookup_insert_ne by done. }
    assert (forall y, is_Some (m !! y) -> is_Some (m' !! y)) as Hdom
      by (intros y Hy; unfold m'; rewrite !lookup_insert_is_Some'; auto).
    split.
    { erewrite bind_ok; [|by mload; mstore]. erewrite bind_ok; [|apply store_mem; rewrite lookup_insert_is_Some'; right;
        rewrite (ho_freep _ _ _ _ _ Hh); eauto]. unfold mret, M_ret. by rewrite hplus_small by lia. }
    apply and_assoc. split; [|done]. eapply (heap_take m m' top fl (x ++ l2)); try done; try lia.
    + apply lookup_insert_eq.
    + rewrite <- Hmid. eauto.
    + rewrite <- Hmid. apply chain_app. cbn [chain]. split_and!.
      * eapply chain_frame; [|exact Hc1]. intros a t Ha. specialize (Hb1' a t Ha). unfold m'.
        assert (a <> sym_freep /\ a + 4 <> sym_freep) as [? ?] by (apply (nodes_freep fl top a t); [done|rewrite Heq; apply elem_of_app; by left]).
        by rewrite !lookup_insert_ne by lia.
      * unfold m'. rewrite lookup_insert_ne by done. apply lookup_insert_eq.
      * unfold m'. by rewrite !lookup_insert_ne by lia.
      * eapply chain_frame; [|exact Hc6]. intros a t Ha. specialize (Hp2' a t Ha). unfold m'. by rewrite !lookup_insert_ne by lia.
    + apply laid_app. exists p. split; [eapply laid_weaken; [| |exact Hlx]; lia|eapply laid_weaken; [| |exact Hll2]; lia].
    + apply covers_subset. rewrite Hx. intros y. rewrite elem_of_cons, !elem_of_app, elem_of_cons. tauto.
    + intros a t [Ha|Ha]%elem_of_app; [specialize (Hxp a t Ha)|specialize (Hp2' a t Ha)]; lia.
    + unfold m'. by rewrite !lookup_insert_ne by lia.
  - assert (u32 (s - nu) = s - nu) as -> by (apply u32_small; unfold is_u32; lia).
    rewrite hplus_small by lia. set (h := p + 8 * (s - nu)).
    set (m' := <[sym_freep := prevp]> (<[h + 4 := nu]> (<[p + 4 := s - nu]> m))).
    exists h, m', (x ++ (p, s - nu) :: l2). specialize (Hmid [(p, s - nu)]). cbn [app] in Hmid.
    assert (h mod 4 = 0 /\ h mod 8 = 0) as [Hh4 Hh8].
    { pose proof (Z.div_mod p 8). unfold h. rewrite (Z.div_mod p 8), Hpm by lia. split.
      - replace (8 * (p / 8) + 0 + 8 * (s - nu)) with ((2 * (p / 8 + (s - nu))) * 4) by lia. apply Z.mod_mul. lia.
      - replace (8 * (p / 8) + 0 + 8 * (s - nu)) with ((p / 8 + (s - nu)) * 8) by lia. apply Z.mod_mul. lia. }
    assert (forall u t x0, used !! u = Some t -> u <= x0 < u + 8 * t -> m' !! x0 = m !! x0) as Hfr.
    { intros u t y Hu Hy. destruct (Hout u t y Hu Hy) as (? & ? & ? & ?). unfold m', h. by rewrite !lookup_insert_ne by lia. }
    assert (forall y, is_Some (m !! y) -> is_Some (m' !! y)) as Hdom
      by (intros y Hy; unfold m'; rewrite !lookup_insert_is_Some'; auto).
    split.
    { erewrite bind_ok; [|mstore; erewrite bind_ok; [reflexivity|apply store_mem]].
      2:{ rewrite lookup_insert_is_Some'. right. apply (ho_words _ _ _ _ _ Hh p s); [by left|unfold h; lia|].
          rewrite Z.add_mod, Hh4 by lia. done. }
      erewrite bind_ok; [|apply store_mem; rewrite !lookup_insert_is_Some'; right; right;
        rewrite (ho_freep _ _ _ _ _ Hh); eauto]. unfold mret, M_ret. by rewrite hplus_small by (unfold h; lia). }
    apply and_assoc. split; [|done]. eapply (heap_take m m' top fl (x ++ (p, s - nu) :: l2)); try done; try (unfold h; lia).
    + apply lookup_insert_eq.
    + rewrite <- Hmid. eauto.
    + rewrite <- Hmid. apply chain_app. cbn [chain]. split_and!.
      * eapply chain_frame; [|exact Hc1]. intros a t Ha. specialize (Hb1' a t Ha). unfold m', h.
        assert (a <> sym_freep /\ a + 4 <> sym_freep) as [? ?] by (apply (nodes_freep fl top a t); [done|rewrite Heq; apply elem_of_app; by left]).
        by rewrite !lookup_insert_ne by lia.
      * unfold m', h. by rewrite !lookup_insert_ne by lia.
      * unfold m', h. by rewrite !lookup_insert_ne by lia.
      * unfold m', h. by rewrite !lookup_insert_ne by lia.
      * unfold m', h. rewrite !lookup_insert_ne by lia. apply lookup_insert_eq.
      * eapply chain_frame; [|exact Hc6]. intros a t Ha. specialize (Hp2' a t Ha). unfold m', h. by rewrite !lookup_insert_ne by lia.
    + apply laid_app. exists mp. split; [done|]. simpl. split_and!; try done; try lia. eapply laid_weaken; [| |exact Hll2]; lia.
    + intros a t y [[= -> ->]|[Ha|[[= -> ->]|Ha]%elem_of_cons]%elem_of_app]%elem_of_cons Hy; rewrite Hx.
      * exists p, s. split; [apply elem_of_app; right; by left|unfold h in Hy; lia].
      * exists a, t. split; [apply elem_of_app; by left|done].
      * exists p, s. split; [apply elem_of_app; right; by left|lia].
      * exists a, t. split; [apply elem_of_app; right; by right|done].
    + intros a t [Ha|[[= -> ->]|Ha]%elem_of_cons]%elem_of_app; unfold h; [specialize (Hxp a t Ha)| |specialize (Hp2' a t Ha)]; lia.
    + unfold m'. rewrite lookup_insert_ne by (unfold h; lia). apply lookup_insert_eq.
Qed.

(** One round of the loop of [malloc], from [freep] back to it. *)
Section round.
Context (k : kernel) (top : Z) (fl : list (Z * Z)) (fp : Z) (used : gmap Z Z) (nu : Z) (o : list (kernel -> kernel)).
Context (l1 : list (Z * Z)) (s0 : Z) (l2 : list (Z * Z)).
Hypotheses (Hh : heap_ok (umem k) top fl fp used) (Hnu : 1 <= nu).
Hypothesis Hfp : (sym_base, 0) :: fl = l1 ++ (fp, s0) :: l2.

(** A block was found. *)
Definition found (m : M kernel Z) : Prop :=
  exists h m' fl' fp', m o k = Ok (h + 8) o (with_mem k m') /\ heap_ok m' top fl' fp' (<[h := nu]> used) /\
    used !! h = None /\ (forall u t x, used !! u = Some t -> u <= x < u + 8 * t -> m' !! x = umem k !! x).

Lemma round_names : sym_base :: fl.*1 = l1.*1 ++ fp :: l2.*1.
Proof. change (sym_base :: fl.*1) with (((sym_base, 0) :: fl).*1). by rewrite Hfp, fmap_app. Qed.

Lemma round_in a : a ∈ fp :: l2.*1 ++ l1.*1 ++ [fp] -> exists t, (a, t) ∈ (sym_base, 0) :: fl.
Proof.
  intros Ha. assert (a ∈ sym_base :: fl.*1) as Hin.
  { rewrite round_names. rewrite elem_of_cons, !elem_of_app, elem_of_cons, elem_of_nil in Ha.
    rewrite elem_of_app, elem_of_cons. tauto. }
  change (sym_base :: fl.*1) with (((sym_base, 0) :: fl).*1) in Hin.
  apply list_elem_of_fmap in Hin as ([b t] & -> & Hin). eauto.
Qed.

Lemma round_last pre r : fp :: (l2.*1 ++ l1.*1 ++ [fp]) = (fp :: pre) ++ fp :: r -> r = [].
Proof.
  intros Heq. pose proof (ho_laid _ _ _ _ _ Hh) as Hl. destruct (nodes_split _ _ _ _ _ _ Hl Hfp) as (Hb & Ha & _).
  injection Heq as Heq. rewrite app_assoc in Heq.
  destruct (exists_last (l := fp :: r)) as (r' & z & Hr); [done|]. rewrite Hr, app_assoc in Heq.
  apply app_inj_tail in Heq as [Heq <-]. destruct r' as [|c r']; simplify_eq/=; [done|]. exfalso.
  assert (c ∈ l2.*1 ++ l1.*1) as Hin by (rewrite Heq; apply elem_of_app; right; by left).
  apply elem_of_app in Hin as [([b t] & He & Hin)%list_elem_of_fmap|([b t] & He & Hin)%list_elem_of_fmap];
    [apply Ha in Hin|apply Hb in Hin]; simpl in *; lia.
Qed.

Lemma fit_found pre prevp p r s :
  fp :: (l2.*1 ++ l1.*1 ++ [fp]) = pre ++ prevp :: p :: r -> (p, s) ∈ (sym_base, 0) :: fl -> nu <= s ->
  found (carve nu prevp p s).
Proof.
  intros Heq Hs Hfit. pose proof (ho_chain _ _ _ _ _ Hh) as Hc.
  assert (adj prevp p (fp :: (l2.*1 ++ l1.*1 ++ [fp]))) as Hadj by (by exists pre, r).
  apply (adj_round _ _ _ _ _ _ _ round_names) in Hadj as [(x & y & Hxy)|[-> _]].
  - change (sym_base :: fl.*1) with (((sym_base, 0) :: fl).*1) in Hxy.
    apply fmap_app_inv in Hxy as (z1 & z2 & -> & Hz & Hnl).
    destruct z2 as [|[c1 t1] [|[c2 t2] z2]]; simplify_eq/=.
    assert (t2 = s) as ->.
    { clear Hc. pose proof (ho_chain _ _ _ _ _ Hh) as Hc. apply (chain_elem _ _ _ _ _ Hc) in Hs as [_ Hs]. rewrite Hnl in Hc.
      apply chain_app in Hc as [_ (_ & _ & _ & Ht & _)]. congruence. }
    destruct (carve_spec k (umem k) top fl fp used z1 c1 t1 c2 s z2 nu o Hh Hnl ltac:(lia))
      as (h & m' & fl' & Hcarve & Hok & Hnew & Hfr & _).
    rewrite with_mem_id in Hcarve. exists h, m', fl', c1. done.
  - apply (chain_elem _ _ _ _ _ Hc) in Hs as [_ Hs]. destruct Hc as (_ & Hb & _). rewrite Hb in Hs.
    injection Hs as <-. lia.
Qed.

Lemma malloc_walk r n pre prevp p :
  fp :: (l2.*1 ++ l1.*1 ++ [fp]) = pre ++ prevp :: p :: r -> (S (length r) <= n)%nat ->
  found (malloc_loop n nu prevp p) \/
  ((forall a t, (a, t) ∈ (sym_base, 0) :: fl -> a ∈ p :: r -> t < nu) /\
   malloc_loop n nu prevp p o k =
     (morecore nu ≫= fun p => if p =? 0 then mret 0 else
      s_ptr p ≫= fun nx => malloc_loop (n - S (length r)) nu p nx) o k).
Proof.
  revert n pre prevp p. induction r as [|p' r IH]; intros n pre prevp p Heq Hn; (destruct n as [|n]; [lia|]).
  all: pose proof (ho_chain _ _ _ _ _ Hh) as Hc.
  all: destruct (round_in p) as [s Hs]; [rewrite Heq; apply elem_of_app; right; by right; left|].
  all: destruct (chain_elem _ _ _ _ _ Hc Hs) as [[nx Hnx] Hsz]; cbn [malloc_loop].
  all: (erewrite bind_ok by (by apply deref_some)); cbv beta; destruct (Z.leb_spec nu s) as [Hfit|Hfit].
  1,3: left; unfold found; cbn [malloc_loop]; (erewrite bind_ok by (by apply deref_some));
    cbv beta; destruct (Z.leb_spec nu s); [|lia]; eapply fit_found; done.
  - right. erewrite bind_ok by (apply deref_some; apply Hh). cbv beta.
    assert (p = fp) as ->.
    { assert (fp :: l2.*1 ++ l1.*1 ++ [fp] = (fp :: l2.*1 ++ l1.*1) ++ [fp]) as E by (simpl; by rewrite <- app_assoc).
      rewrite E in Heq. change (prevp :: [p]) with ([prevp] ++ [p]) in Heq. rewrite app_assoc in Heq.
      by apply app_inj_tail in Heq as [_ ->]. }
    rewrite Z.eqb_refl. split; [|by rewrite Nat.sub_succ, Nat.sub_0_r].
    intros a t Ha ->%list_elem_of_singleton. apply (chain_elem _ _ _ _ _ Hc) in Ha as [_ Ha]. congruence.
  - erewrite bind_ok by (apply deref_some; apply Hh). cbv beta. destruct (Z.eqb_spec p fp) as [->|Hne].
    { exfalso. assert (p' :: r = []); [|done]. destruct pre as [|c pre]; [apply (round_last [])|apply (round_last (pre ++ [prevp]))];
        rewrite Heq; injection Heq as <- _; [done|]. simpl. by rewrite <- app_assoc. }
    pose proof (chain_round _ _ _ _ _ _ _ _ Hc Hfp) as Hround.
    assert (umem k !! p = Some p') as Hp'.
    { eapply linked_adj; [exact Hround|]. exists (pre ++ [prevp]), r. by rewrite Heq, <- app_assoc. }
    erewrite bind_ok by (by apply deref_some). cbv beta.
    destruct (IH n (pre ++ [prevp]) p p') as [Hfound|[Hno Hmore]]; [by rewrite Heq, <- app_assoc|simpl in Hn; lia| |].
    + left. unfold found. cbn [malloc_loop]. erewrite bind_ok by (by apply deref_some). cbv beta.
      destruct (Z.leb_spec nu s); [lia|]. erewrite bind_ok by (apply deref_some; apply Hh). cbv beta.
      destruct (Z.eqb_spec p fp); [done|]. by erewrite bind_ok by (by apply deref_some).
    + right. split; [|exact Hmore]. intros a t Ha [->|Hin]%elem_of_cons; [|by eapply Hno].
      apply (chain_elem _ _ _ _ _ Hc) in Ha as [_ Ha]. congruence.
Qed.
End round.

(** New memory is a block in use until it is freed. *)
Lemma heap_grow k k' top fl fp used nu :
  heap_ok (umem k) top fl fp used -> proc_sz k = Some top -> top mod 8 = 0 -> sym_brk <= top ->
  grown (8 * nu) k k' -> 1 <= nu -> top + 8 * nu <= KERNBASE ->
  heap_ok (<[top + 4 := nu]> (umem k')) (top + 8 * nu) fl fp (<[top := nu]> used) /\ used !! top = None /\
  is_Some (umem k' !! (top + 4)) /\
  (forall u t x, used !! u = Some t -> u <= x < u + 8 * t -> <[top + 4 := nu]> (umem k') !! x = umem k !! x).
Proof.
  intros Hh Hsz Hmod Hlo Hg Hnu Hk. pose proof base_low as Hbl. pose proof freep_low as Hfl.
  assert (forall x, x < top -> <[top + 4 := nu]> (umem k') !! x = umem k !! x) as Hold.
  { intros x Hx. rewrite lookup_insert_ne, (gr_mem _ _ _ Hg top x Hsz) by lia. by rewrite decide_False by lia. }
  assert (forall x, is_Some (umem k !! x) -> is_Some (<[top + 4 := nu]> (umem k') !! x)) as Hdom.
  { intros x Hx. rewrite lookup_insert_is_Some', (gr_mem _ _ _ Hg top x Hsz). case_decide; eauto. }
  assert (used !! top = None) as Hnone.
  { destruct (used !! top) as [t|] eqn:E; [|done]. pose proof (ho_used _ _ _ _ _ Hh _ _ E). lia. }
  split_and!; [|done| |].
  - split.
    + rewrite Hold by lia. apply Hh.
    + apply Hh.
    + eapply chain_frame; [|apply Hh]. intros a t [[= -> ->]|Ha]%elem_of_cons; [by rewrite !Hold by lia|].
      pose proof (laid_elem _ _ _ _ _ (ho_laid _ _ _ _ _ Hh) Ha). by rewrite !Hold by lia.
    + eapply laid_weaken; [| |apply Hh]; lia.
    + done.
    + intros u t [[<- <-]|[Hne Hu]]%lookup_insert_Some; [split_and!; try done; try lia; apply lookup_insert_eq|].
      destruct (ho_used _ _ _ _ _ Hh _ _ Hu) as (? & ? & ? & ? & ?). split_and!; try done; try lia. by rewrite Hold by lia.
    + intros u t a c [[<- <-]|[Hne Hu]]%lookup_insert_Some Ha; [|by apply (ho_uf _ _ _ _ _ Hh)].
      pose proof (laid_elem _ _ _ _ _ (ho_laid _ _ _ _ _ Hh) Ha). lia.
    + intros u t u' t' [[<- <-]|[Hne Hu]]%lookup_insert_Some [[<- <-]|[Hne' Hu']]%lookup_insert_Some Hd; [done|..].
      * pose proof (ho_used _ _ _ _ _ Hh _ _ Hu'). lia.
      * pose proof (ho_used _ _ _ _ _ Hh _ _ Hu). lia.
      * by apply (ho_uu _ _ _ _ _ Hh).
    + intros a t x [Ha|[[<- <-]|[Hne Hu]]%lookup_insert_Some] Hx Hx4.
      * apply Hdom. apply (ho_words _ _ _ _ _ Hh a t); auto.
      * rewrite lookup_insert_is_Some', (gr_mem _ _ _ Hg top x Hsz), decide_True by (done || lia). eauto.
      * apply Hdom. apply (ho_words _ _ _ _ _ Hh a t); auto.
  - rewrite (gr_mem _ _ _ Hg top _ Hsz), decide_True; [eauto|]. split; [lia|].
    pose proof (Z.div_mod top 8). rewrite (Z.div_mod top 8), Hmod by lia.
    replace (8 * (top / 8) + 0 + 4) with ((2 * (top / 8) + 1) * 4) by lia. apply Z.mod_mul. lia.
  - intros u t x Hu Hx. pose proof (ho_used _ _ _ _ _ Hh _ _ Hu). apply Hold. lia.
Qed.

Lemma grown_none k k' top : proc_sz k = Some top -> grown 0 k k' -> umem k' = umem k.
Proof.
  intros Hsz Hg. apply map_eq. intros x. rewrite (gr_mem _ _ _ Hg top x Hsz). by rewrite decide_False by lia.
Qed.

Lemma with_mem_control k k' m : same_control k k' -> same_control k (with_mem k' m).
Proof. intros []. by split. Qed.

(** [morecore] returns null and changes nothing, or adds a block that is large
    enough and returns [freep]. *)
Lemma morecore_spec k top fl fp used nu o :
  heap_ok (umem k) top fl fp used -> proc_sz k = Some top -> top mod 8 = 0 -> sym_brk <= top -> 1 <= nu <= 2 ^ 27 + 1 ->
  exists r k', morecore nu o k = Ok r o k' /\ same_control k k' /\
    (forall u t x, used !! u = Some t -> u <= x < u + 8 * t -> umem k' !! x = umem k !! x) /\
    ((r = 0 /\ umem k' = umem k /\ proc_sz k' = Some top) \/
     (r <> 0 /\ exists top' fl', proc_sz k' = Some top' /\ top' mod 8 = 0 /\ sym_brk <= top' /\
        heap_ok (umem k') top' fl' r used /\ (length fl' <= S (length fl))%nat /\ exists a s, (a, s) ∈ fl' /\ nu <= s)).
Proof.
  intros Hh Hsz Hmod Hlo Hnu. pose proof base_low as Hbl. pose proof base_pos as Hbp. unfold morecore, sizeof_Header.
  set (nu' := if nu <? 4096 then 4096 else nu).
  assert (nu <= nu' /\ 1 <= nu' <= 2 ^ 27 + 1) as [Hle Hnu'] by (unfold nu'; destruct (Z.ltb_spec nu 4096); lia).
  rewrite s32_small by (unfold is_s32; lia).
  destruct (sbrk_law (nu' * 8) top o k Hsz ltac:(lia)) as (r & k1 & Hs & [[-> Hg]|(-> & Hk & Hg)]).
  - exists 0, k1. erewrite bind_ok by exact Hs. split_and!; [done|apply Hg| |].
    + intros. by rewrite (grown_none k k1 top).
    + left. split_and!; [done|by eapply grown_none|]. rewrite (gr_sz _ _ _ Hg top Hsz). f_equal. lia.
  - replace (nu' * 8) with (8 * nu') in * by lia.
    destruct (heap_grow k k1 top fl fp used nu' Hh Hsz Hmod Hlo Hg ltac:(lia) Hk) as (Hh1 & Hnone & Hex & Hfr1).
    destruct (free_spec k1 _ _ fl fp _ top nu' o Hh1 (lookup_insert_eq _ _ _)) as (m2 & fl' & fp' & Hfree & Hh2 & Hfr2 & _ & Hlen & a & s & Has & Hs').
    rewrite (delete_insert_id used) in Hh2 by done.
    exists fp', (with_mem k1 m2). split_and!.
    + erewrite bind_ok by exact Hs. destruct (Z.eqb_spec top (-1)); [lia|].
      rewrite <- (with_mem_id k1) at 1. erewrite bind_ok by (by apply store_mem). unfold KERNBASE in Hk.
      rewrite hplus_small by lia. erewrite bind_ok by exact Hfree. apply load_mem. apply Hh2.
    + apply with_mem_control. apply Hg.
    + intros u t x Hu Hx. change (umem (with_mem k1 m2)) with m2. rewrite <- (Hfr1 u t x Hu Hx).
      assert (u <> top) by congruence. apply (Hfr2 u t); [by rewrite lookup_insert_ne|done|done].
    + right. split.
      * destruct (ho_fp _ _ _ _ _ Hh2) as (l1 & t & l2 & Heq).
        destruct (nodes_split _ _ _ _ _ _ (ho_laid _ _ _ _ _ Hh2) Heq) as (_ & _ & [(-> & _)|(Hin & _)]); [lia|].
        pose proof (laid_elem _ _ _ _ _ (ho_laid _ _ _ _ _ Hh2) Hin). lia.
      * exists (top + 8 * nu'), fl'. split_and!; [|..|exists a, s; split; [done|lia]]; try done; try lia.
        -- apply (gr_sz _ _ _ Hg top Hsz).
        -- replace (top + 8 * nu') with (top + nu' * 8) by lia. by rewrite Z.mod_add.
Qed.

(** What a call of [malloc] leaves: null, or a block of [nu] units that was not in
    use; the blocks in use keep their contents. *)
Record malloced (k : kernel) (used : gmap Z Z) (nu r : Z) (k' : kernel) : Prop := {
  ma_control : same_control k k';
  ma_frame : forall u t x, used !! u = Some t -> u <= x < u + 8 * t -> umem k' !! x = umem k !! x;
  ma_heap : exists top fl fp, proc_sz k' = Some top /\ top mod 8 = 0 /\ sym_brk <= top /\
    ((r = 0 /\ heap_ok (umem k') top fl fp used) \/
     (exists h, r = h + 8 /\ used !! h = None /\ heap_ok (umem k') top fl fp (<[h := nu]> used))) }.

(** A round from [freep] finds a block, unless there is none to be found. *)
Lemma malloc_round k top fl fp used nu n o :
  heap_ok (umem k) top fl fp used -> 1 <= nu -> (S (length fl) <= n)%nat ->
  found k top used nu o (s_ptr fp ≫= fun p => malloc_loop n nu fp p) \/
  ((forall a t, (a, t) ∈ fl -> t < nu) /\
   (s_ptr fp ≫= fun p => malloc_loop n nu fp p) o k =
     (morecore nu ≫= fun p => if p =? 0 then mret 0 else
      s_ptr p ≫= fun nx => malloc_loop (n - S (length fl)) nu p nx) o k).
Proof.
  intros Hh Hnu Hn. destruct (ho_fp _ _ _ _ _ Hh) as (l1 & s & l2 & Hfp).
  pose proof (chain_round _ _ _ _ _ _ _ _ (ho_chain _ _ _ _ _ Hh) Hfp) as Hround.
  assert (length (l2.*1 ++ l1.*1 ++ [fp]) = S (length fl)) as Hlen.
  { apply (f_equal length) in Hfp. rewrite !length_app, !length_fmap in *. simpl in *. lia. }
  destruct (l2.*1 ++ l1.*1 ++ [fp]) as [|p r] eqn:Er; [simpl in Hlen; lia|]. destruct Hround as [Hp _].
  assert (s_ptr fp o k = Ok p o k) as Hload by by apply deref_some.
  assert (fp :: l2.*1 ++ l1.*1 ++ [fp] = [] ++ fp :: p :: r) as Hpre by (by rewrite Er).
  destruct (malloc_walk k top fl fp used nu o l1 s l2 Hh Hnu Hfp r n [] fp p Hpre) as [Hf|[Hno Hmore]].
  - simpl in Hlen. lia.
  - left. unfold found. by erewrite bind_ok by exact Hload.
  - right. split.
    + intros a t Ha. apply (Hno a t); [by right|]. rewrite <- Er.
      assert (a ∈ sym_base :: fl.*1) as Hin by (right; apply list_elem_of_fmap; by exists (a, t)).
      rewrite (round_names fl fp l1 s l2 Hfp), elem_of_app, elem_of_cons in Hin.
      rewrite !elem_of_app, list_elem_of_singleton. tauto.
    + erewrite bind_ok by exact Hload. rewrite Hmore. simpl in Hlen. by rewrite Hlen.
Qed.

Lemma found_malloced k top used nu o m : 
  proc_sz k = Some top -> top mod 8 = 0 -> sym_brk <= top -> found k top used nu o m ->
  exists r k', m o k = Ok r o k' /\ malloced k used nu r k'.
Proof.
  intros Hsz Hmod Hlo (h & m' & fl' & fp' & Hm & Hh & Hnone & Hfr). exists (h + 8), (with_mem k m'). split; [done|].
  split; [apply with_mem_control, same_control_refl|done|]. exists top, fl', fp'. split_and!; try done. right. eauto.
Qed.

Lemma malloc_from k top fl fp used nu n o :
  heap_ok (umem k) top fl fp used -> proc_sz k = Some top -> top mod 8 = 0 -> sym_brk <= top ->
  1 <= nu <= 2 ^ 27 + 1 -> (2 * S (length fl) + 1 <= n)%nat ->
  exists r k', (s_ptr fp ≫= fun p => malloc_loop n nu fp p) o k = Ok r o k' /\ malloced k used nu r k'.
Proof.
  intros Hh Hsz Hmod Hlo Hnu Hn.
  destruct (malloc_round k top fl fp used nu n o Hh ltac:(lia) ltac:(lia)) as [Hf|[Hno ->]]; [by eapply found_malloced|].
  destruct (morecore_spec k top fl fp used nu o Hh Hsz Hmod Hlo Hnu) as (r & k1 & Hmore & Hc1 & Hfr1 & Hcase).
  erewrite bind_ok by exact Hmore. destruct Hcase as [(-> & Hm & Hsz1)|(Hr & top1 & fl1 & Hsz1 & Hmod1 & Hlo1 & Hh1 & Hlen & a & s & Has & Hs)].
  - exists 0, k1. split; [done|]. split; [done|done|]. exists top, fl, fp. split_and!; try done. left. by rewrite Hm.
  - destruct (Z.eqb_spec r 0); [done|].
    destruct (malloc_round k1 top1 fl1 r used nu (n - S (length fl)) o Hh1 ltac:(lia) ltac:(lia)) as [Hf|[Hno1 _]].
    + destruct (found_malloced k1 top1 used nu o _ Hsz1 Hmod1 Hlo1 Hf) as (r' & k2 & Hm2 & [Hc2 Hfr2 Hh2]).
      exists r', k2. split; [exact Hm2|]. split; [by eapply same_control_trans| |done].
      intros u t x Hu Hx. by rewrite (Hfr2 u t x Hu Hx), (Hfr1 u t x Hu Hx).
    + specialize (Hno1 a s Has). lia.
Qed.

(** A program that has not called [malloc] yet. *)
Definition untouched (m : gmap Z Z) : Prop :=
  m !! sym_freep = Some 0 /\ is_Some (m !! sym_base) /\ is_Some (m !! (sym_base + 4)).

Definition heap_state (m : gmap Z Z) (top : Z) (used : gmap Z Z) : Prop :=
  (untouched m /\ used = ∅ /\ top <= KERNBASE) \/ exists fl fp, heap_ok m top fl fp used.

Lemma heap_init m top :
  untouched m -> sym_brk <= top -> top <= KERNBASE ->
  let m' := <[sym_base + 4 := 0]> (<[sym_base := sym_base]> (<[sym_freep := sym_base]> m)) in
  heap_ok m' top [] sym_base ∅.
Proof.
  intros (Hf & Hb & Hb4) Hlo Htop m'. pose proof freep_apart. split; try done.
  - unfold m'. rewrite !lookup_insert_ne by lia. apply lookup_insert_eq.
  - by exists [], 0, [].
  - simpl. unfold m'. split_and!; [|apply lookup_insert_eq|done]. rewrite lookup_insert_ne by lia. apply lookup_insert_eq.
  - intros ? ? ? [Ha|Ha]; [by apply elem_of_nil in Ha|done].
Qed.

Lemma load_then_count a (g : nat -> Z -> K Z) o k :
  (s_ptr a ≫= fun p => gets (fun k => size (umem k)) ≫= fun words => g words p) o k =
  (s_ptr a ≫= fun p => g (size (umem k)) p) o k.
Proof. unfold s_ptr, uload, deref, mbind, M_bind. by destruct (umem k !! a). Qed.

Definition units (n : Z) : Z := (n + 7) / 8 + 1.

Lemma malloc_spec k top used n o :
  heap_state (umem k) top used -> proc_sz k = Some top -> top mod 8 = 0 -> sym_brk <= top -> 0 <= n < 2 ^ 30 ->
  exists r k', malloc n o k = Ok r o k' /\ malloced k used (units n) r k'.
Proof.
  intros Hst Hsz Hmod Hlo Hn. unfold malloc, sizeof_Header.
  assert (1 <= units n <= 2 ^ 27 + 1) as Hu.
  { unfold units. pose proof (Z.div_pos (n + 7) 8). pose proof (Z.div_lt_upper_bound (n + 7) 8 (2 ^ 27 + 1)). lia. }
  assert (u32 (u32 (n + 8 - 1) / 8 + 1) = units n) as ->.
  { replace (n + 8 - 1) with (n + 7) by lia. rewrite (u32_small (n + 7)) by (unfold is_u32; lia).
    unfold units in *. apply u32_small. unfold is_u32. lia. }
  destruct Hst as [(Hun & -> & Htop)|(fl & fp & Hh)].
  - pose proof Hun as (Hf & Hb & Hb4). pose proof base_low. pose proof freep_apart.
    pose proof (heap_init (umem k) top Hun Hlo Htop) as Hh. cbv zeta in Hh. set (m' := <[sym_base + 4 := 0]> _) in Hh.
    erewrite bind_ok by (by apply deref_some). cbn [Z.eqb].
    erewrite bind_ok.
    2:{ rewrite <- (with_mem_id k) at 1. erewrite bind_ok by (apply store_mem; eauto).
        erewrite bind_ok by (apply store_mem; by rewrite lookup_insert_is_Some'; auto).
        erewrite bind_ok by (apply store_mem; rewrite !lookup_insert_is_Some'; auto). reflexivity. }
    destruct (malloc_from (with_mem k m') top [] sym_base ∅ (units n) (2 * size m' + 2) o Hh Hsz Hmod Hlo Hu)
      as (r & k' & Hm & [Hc Hfr Hheap]); [pose proof (nodes_size _ _ _ _ _ Hh); lia|].
    exists r, k'. rewrite (load_then_count _ (fun words => malloc_loop (2 * words + 2) (units n) sym_base)).
    split; [exact Hm|]. split; [| |done].
    + eapply same_control_trans; [|exact Hc]. apply with_mem_control, same_control_refl.
    + intros u t x Hu0. by rewrite lookup_empty in Hu0.
  - assert (fp <> 0) as Hfp0.
    { pose proof base_pos. pose proof base_low. destruct (ho_fp _ _ _ _ _ Hh) as (l1 & t & l2 & Heq).
      destruct (nodes_split _ _ _ _ _ _ (ho_laid _ _ _ _ _ Hh) Heq) as (_ & _ & [(-> & _)|(Hin & _)]); [lia|].
      pose proof (laid_elem _ _ _ _ _ (ho_laid _ _ _ _ _ Hh) Hin). lia. }
    erewrite bind_ok by (apply deref_some; apply Hh). destruct (Z.eqb_spec fp 0); [done|]. mbind_step.
    destruct (malloc_from k top fl fp used (units n) (2 * size (umem k) + 2) o Hh Hsz Hmod Hlo Hu) as (r & k' & Hm & Hmal).
    { pose proof (nodes_size _ _ _ _ _ Hh). lia. }
    exists r, k'. by rewrite (load_then_count _ (fun words => malloc_loop (2 * words + 2) (units n) fp)).
Qed.

(** * The heap as its user sees it *)

Definition heap_view (k : kernel) (m : gmap Z Z) (b : gmap Z nat) : Prop :=
  exists top used, proc_sz k = Some top /\ top mod 8 = 0 /\ sym_brk <= top /\ heap_state (umem k) top used /\
    (forall a n, b !! a = Some n -> exists s, used !! (a - 8) = Some s /\ 8 + 4 * Z.of_nat n <= 8 * s) /\
    (forall x y, m !! x = Some y -> umem k !! x = Some y /\
       exists a n i, b !! a = Some n /\ (i < n)%nat /\ x = a + 4 * Z.of_nat i).

#[export] Instance umalloc_heap : Heap := {
  heap_malloc := malloc;
  heap_free := free;
  heap_rep := heap_view;
  heap_frame k k' m b := ltac:(unfold heap_view; by intros -> ->) }.

(** A store into a block in use does not touch the headers. *)
Lemma heap_store m top fl fp used u s x y :
  heap_ok m top fl fp used -> used !! u = Some s -> u + 8 <= x < u + 8 * s -> heap_ok (<[x := y]> m) top fl fp used.
Proof.
  intros Hh Hu Hx. destruct (ho_used _ _ _ _ _ Hh _ _ Hu) as (Hlo & _). pose proof freep_low. pose proof base_low.
  split; try apply Hh.
  - rewrite lookup_insert_ne by lia. apply Hh.
  - eapply chain_frame; [|apply Hh]. intros a t [[= -> ->]|Ha]%elem_of_cons; [by rewrite !lookup_insert_ne by lia|].
    pose proof (ho_uf _ _ _ _ _ Hh _ _ _ _ Hu Ha). pose proof (laid_elem _ _ _ _ _ (ho_laid _ _ _ _ _ Hh) Ha).
    by rewrite !lookup_insert_ne by lia.
  - intros u' s' Hu'. destruct (ho_used _ _ _ _ _ Hh _ _ Hu') as (? & ? & ? & ? & ?). split_and!; try done.
    rewrite lookup_insert_ne; [done|]. destruct (decide (u = u')) as [->|Hne]; [lia|].
    pose proof (ho_uu _ _ _ _ _ Hh _ _ _ _ Hu Hu' Hne). lia.
  - intros a t z Hat Hz Hz4. rewrite lookup_insert_is_Some'. right. by eapply (ho_words _ _ _ _ _ Hh).
Qed.

Section laws.
Context `{Layout}.

(** The words a new block happens to contain. *)
Lemma block_words (m : gmap Z Z) a n :
  (forall i, (i < n)%nat -> is_Some (m !! (a + 4 * Z.of_nat i))) ->
  exists ws, length ws = n /\ forall i w, ws !! i = Some w -> m !! (a + 4 * Z.of_nat i) = Some w.
Proof.
  induction n as [|n IH]; intros Hex; [by exists []|].
  destruct IH as (ws & Hlen & Hws); [intros i Hi; apply Hex; lia|]. destruct (Hex n ltac:(lia)) as [w Hw].
  exists (ws ++ [w]). rewrite length_app. simpl. split; [lia|].
  intros i x [Hi|[Hi Hx]]%lookup_app_Some; [by apply Hws|].
  apply list_lookup_singleton_Some in Hx as [Hi' <-]. by replace i with n by lia.
Qed.

Lemma view_memory v : v <| v_mem := v_mem v |> <| v_blocks := v_blocks v |> = v.
Proof. by destruct v. Qed.

(** The words of the view lie in blocks in use. *)
Lemma view_word (b : gmap Z nat) (used : gmap Z Z) a n i :
  (forall a n, b !! a = Some n -> exists s, used !! (a - 8) = Some s /\ 8 + 4 * Z.of_nat n <= 8 * s) ->
  b !! a = Some n -> (i < n)%nat ->
  exists s, used !! (a - 8) = Some s /\ (a - 8) + 8 <= a + 4 * Z.of_nat i < (a - 8) + 8 * s.
Proof. intros Hb Ha Hi. destruct (Hb a n Ha) as (s & Hs & Hle). exists s. split; [done|lia]. Qed.

Lemma kernel_malloc v n :
  0 <= n < 2 ^ 30 ->
  runs (malloc n) v (fun a w => (a = 0 /\ w = v) \/
    (0 < a /\ exists ws, length ws = Z.to_nat ((n + 3) / 4) /\ block a ws ##ₘ v_mem v /\ v_blocks v !! a = None /\
       w = v <| v_mem ::= union (block a ws) |> <| v_blocks ::= <[a := length ws]> |>)).
Proof.
  intros Hn o k Hr. destruct (kr_heap k v Hr) as (top & used & Hsz & Hmod & Hlo & Hst & Hb & Hm).
  destruct (malloc_spec k top used n o Hst Hsz Hmod Hlo Hn) as (r & k' & Hmal & [Hc Hfr (top' & fl & fp & Hsz' & Hmod' & Hlo' & Hcase)]).
  assert (forall x y, v_mem v !! x = Some y -> umem k' !! x = Some y) as Hkeep.
  { intros x y Hx. destruct (Hm x y Hx) as [Hy (a & nw & i & Ha & Hi & ->)].
    destruct (view_word _ _ _ _ _ Hb Ha Hi) as (s & Hs & Hin). rewrite <- Hy. eapply Hfr; [done|lia]. }
  destruct Hcase as [[-> Hh]|(h & -> & Hnone & Hh)].
  - exists 0, k', v. split; [done|]. split; [|by left]. rewrite <- (view_memory v).
    apply (rep_memory k); [done|done|]. exists top', used. split_and!; try done; [right; eauto|].
    intros x y Hx. split; [by apply Hkeep|]. apply (Hm x y Hx).
  - assert (units n * 8 >= 8 + 4 * ((n + 3) / 4) /\ 0 <= (n + 3) / 4) as [Hroom Hpos].
    { unfold units. Z.to_euclidean_division_equations. lia. }
    pose proof (ho_used _ _ _ _ _ Hh h (units n) (lookup_insert_eq _ _ _)) as (Hhlo & _ & Hh8 & Hhend & _).
    pose proof base_low. pose proof base_pos.
    destruct (block_words (umem k') (h + 8) (Z.to_nat ((n + 3) / 4))) as (ws & Hlen & Hws).
    { intros i Hi. eapply (ho_words _ _ _ _ _ Hh h (units n)); [right; apply lookup_insert_eq|lia|].
      Z.to_euclidean_division_equations. lia. }
    exists (h + 8), k'. eexists. split; [done|].
    assert (v_blocks v !! (h + 8) = None) as Hnew.
    { destruct (v_blocks v !! (h + 8)) as [x|] eqn:E; [|done]. destruct (Hb _ _ E) as (s & Hs & _).
      replace (h + 8 - 8) with h in Hs by lia. congruence. }
    assert (forall x y, v_mem v !! x = Some y -> block (h + 8) ws !! x = None) as Hdis.
    { intros x y Hx. destruct (Hm x y Hx) as [_ (a & nw & i & Ha & Hi & ->)].
      destruct (view_word _ _ _ _ _ Hb Ha Hi) as (s & Hs & Hin).
      destruct (block (h + 8) ws !! (a + 4 * Z.of_nat i)) as [w|] eqn:E; [|done].
      apply block_lookup_some in E as (j & Hj & Hjw%lookup_lt_Some).
      assert (h <> a - 8) as Hne by congruence.
      pose proof (ho_uu _ _ _ _ _ Hh h (units n) (a - 8) s (lookup_insert_eq _ _ _) ltac:(by rewrite lookup_insert_ne) Hne). lia. }
    split; [|right; split; [lia|]; exists ws; split_and!; try done].
    2:{ apply map_disjoint_spec. intros x y z Hx Hz. specialize (Hdis x z Hz). congruence. }
    replace (v <| v_mem ::= union (block (h + 8) ws) |> <| v_blocks ::= <[h + 8 := length ws]> |>) with
      (v <| v_mem := block (h + 8) ws ∪ v_mem v |> <| v_blocks := <[h + 8 := length ws]> (v_blocks v) |>) by (by destruct v).
    apply (rep_memory k); [done|done|]. exists top', (<[h := units n]> used). split_and!; try done; [right; eauto| |].
    + intros a nw [[<- <-]|[Hne Ha]]%lookup_insert_Some.
      * exists (units n). replace (h + 8 - 8) with h by lia. split; [apply lookup_insert_eq|lia].
      * destruct (Hb a nw Ha) as (s & Hs & ?). exists s. split; [|done]. rewrite lookup_insert_ne; [done|].
        intros ->. congruence.
    + intros x y [Hx|[_ Hx]]%lookup_union_Some_raw.
      * apply block_lookup_some in Hx as (i & -> & Hi). split; [by apply Hws|].
        exists (h + 8), (length ws), i. split_and!; [apply lookup_insert_eq|by eapply lookup_lt_Some|done].
      * split; [by apply Hkeep|]. destruct (Hm x y Hx) as [_ (a & nw & i & Ha & Hi & ->)]. exists a, nw, i.
        split_and!; try done. rewrite lookup_insert_ne; [done|]. intros <-. congruence.
Qed.

Lemma kernel_free v a ws :
  v_blocks v !! a = Some (length ws) -> block a ws ⊆ v_mem v ->
  becomes (free a) v tt (v <| v_mem ::= (fun m => m ∖ block a ws) |> <| v_blocks ::= delete a |>).
Proof.
  intros Ha Hsub o k Hr. destruct (kr_heap k v Hr) as (top & used & Hsz & Hmod & Hlo & Hst & Hb & Hm).
  destruct (Hb a _ Ha) as (s & Hs & _). destruct Hst as [(_ & -> & _)|(fl & fp & Hh)]; [done|].
  destruct (free_spec k (umem k) top fl fp used (a - 8) s o Hh Hs) as (m' & fl' & fp' & Hfree & Hh' & Hfr & _).
  rewrite with_mem_id in Hfree. replace (a - 8 + 8) with a in Hfree by lia.
  exists tt, (with_mem k m'). eexists. split; [done|]. split; [|done].
  replace (v <| v_mem ::= (fun m => m ∖ block a ws) |> <| v_blocks ::= delete a |>) with
    (v <| v_mem := v_mem v ∖ block a ws |> <| v_blocks := delete a (v_blocks v) |>) by (by destruct v).
  apply (rep_memory k); [apply with_mem_control, same_control_refl|done|].
  exists top, (delete (a - 8) used). split_and!; try done; [right; eauto| |].
  - intros b nw [Hne Hbn]%lookup_delete_Some. destruct (Hb b nw Hbn) as (t & Ht & ?). exists t.
    split; [|done]. rewrite lookup_delete_ne by lia. done.
  - intros x y [Hx Hout]%lookup_difference_Some. destruct (Hm x y Hx) as [Hy (b & nw & i & Hbn & Hi & ->)].
    assert (a <> b) as Hne.
    { intros <-. rewrite block_at in Hout. rewrite Ha in Hbn. injection Hbn as <-.
      apply lookup_ge_None in Hout. lia. }
    destruct (view_word _ _ _ _ _ Hb Hbn Hi) as (t & Ht & Hin). split.
    + change (umem (with_mem k m')) with m'. rewrite <- Hy. eapply (Hfr (b - 8)); [done|lia|lia].
    + exists b, nw, i. split_and!; try done. by rewrite lookup_delete_ne.
Qed.

#[export] Instance kernel_heap_laws : HeapLaws kernel.
Proof.
  split.
  - exact kernel_malloc.
  - exact kernel_free.
  - intros v a x Hx o k Hr. exists x, k, v. split_and!; try done.
    destruct (kr_heap k v Hr) as (top & used & _ & _ & _ & _ & _ & Hm). apply deref_some. by apply (Hm a x).
  - intros v a x [y Hy] o k Hr. destruct (kr_heap k v Hr) as (top & used & Hsz & Hmod & Hlo & Hst & Hb & Hm).
    destruct (Hm a y Hy) as [Hk (b & nw & i & Hbn & Hi & ->)].
    destruct (view_word _ _ _ _ _ Hb Hbn Hi) as (s & Hs & Hin).
    destruct Hst as [(_ & -> & _)|(fl & fp & Hh)]; [done|].
    set (z := b + 4 * Z.of_nat i) in *.
    exists tt, (with_mem k (<[z := x]> (umem k))). eexists. split_and!; [| |done|done].
    + simpl. rewrite <- (with_mem_id k) at 1. apply store_mem. eauto.
    + replace (v <| v_mem ::= <[z := x]> |>) with (v <| v_mem := <[z := x]> (v_mem v) |> <| v_blocks := v_blocks v |>) by (by destruct v).
      apply (rep_memory k); [apply with_mem_control, same_control_refl|done|].
      exists top, used. split_and!; try done; [right; exists fl, fp; by eapply heap_store|].
      intros x0 y0 [[<- <-]|[Hne Hx0]]%lookup_insert_Some; change (umem (with_mem k ?m)) with m.
      * split; [apply lookup_insert_eq|]. exists b, nw, i. done.
      * destruct (Hm x0 y0 Hx0) as [? ?]. split; [|done]. by rewrite lookup_insert_ne.
Qed.

(** C24. The kernel of this development, with its mutex system calls and the
    allocator of umalloc.c, keeps every promise user code is verified against. *)
Theorem kernel_implements_user_api : MutexLaws kernel /\ HeapLaws kernel.
Proof. split; [apply kernel_mutex_laws|apply kernel_heap_laws]. Qed.
End laws.

(** C25. [malloc] always returns: null, or the address of a block of the size asked
    for, rounded up to whole units and one unit for its header, that overlaps no
    block in use.  The free list stays circular, sorted by address and disjoint
    from the blocks in use, which keep their contents. *)
Theorem malloc_block k top used n o :
  heap_state (umem k) top used -> proc_sz k = Some top -> top mod 8 = 0 -> sym_brk <= top -> 0 <= n < 2 ^ 30 ->
  exists r k', malloc n o k = Ok r o k' /\ malloced k used (units n) r k' /\ n <= 8 * (units n - 1).
Proof.
  intros Hst Hsz Hmod Hlo Hn. destruct (malloc_spec k top used n o Hst Hsz Hmod Hlo Hn) as (r & k' & Hm & Hmal).
  exists r, k'. split_and!; [done|done|]. unfold units. Z.to_euclidean_division_equations. lia.
Qed.

(** [free] of a block in use always returns, with the block on the free list,
    joined with the free blocks it touches, and the invariant of the heap kept;
    all other blocks in use keep their contents. *)
Theorem free_block k top fl fp used u s o :
  heap_ok (umem k) top fl fp used -> used !! u = Some s ->
  exists m' fl' fp', free (u + 8) o k = Ok tt o (with_mem k m') /\ heap_ok m' top fl' fp' (delete u used) /\
    (forall u' t x, used !! u' = Some t -> u' <> u -> u' <= x < u' + 8 * t -> m' !! x = umem k !! x) /\
    (length fl' <= S (length fl))%nat.
Proof.
  intros Hh Hu. destruct (free_spec k (umem k) top fl fp used u s o Hh Hu)
    as (m' & fl' & fp' & Hf & Hok & Hfr & _ & Hlen & _).
  rewrite with_mem_id in Hf. eauto 10.
Qed.
End code.
End Umalloc.
