(* ===== verification/UserExample.v ===== *)
(** A small system on which the theorems about user code are run: one process
    with one thread, an empty mutex table and an untouched heap. *)

From S2P Require Import Prelude Monad State Kalloc Sched Mmu Mutex UserApi UserKernel Umalloc Tournament TournamentCode.
Import UserKernel.

#[local] Existing Instance Kalloc.small_layout.

(** Growing the process without looking for pages. *)
Fixpoint zero_words (n : nat) (a : Z) : gmap Z Z :=
  match n with O => ∅ | S n' => <[a := 0]> (zero_words n' (a + 4)) end.
Definition zeros (a n : Z) : gmap Z Z :=
  zero_words (Z.to_nat ((a + n + 3) / 4 - (a + 3) / 4)) (4 * ((a + 3) / 4)).

Definition grow_by (n : Z) : K Z := fun o k =>
  match cpu_proc k, proc_sz k with
  | Some p, Some sz =>
      if sz + n <=? KERNBASE
      then Ok sz o (k <| umem ::= union (zeros sz n) |> <| ptable ::= alter (fun pr => pr <| p_sz := sz + n |>) p |>)
      else Ok (-1) o k
  | _, _ => Ok (-1) o k
  end.

Lemma zero_words_lookup n a x :
  a mod 4 = 0 ->
  zero_words n a !! x = if decide (a <= x < a + 4 * Z.of_nat n /\ x mod 4 = 0) then Some 0 else None.
Proof.
  revert a. induction n as [|n IH]; intros a Ha; cbn [zero_words].
  - rewrite decide_False by lia. done.
  - assert ((a + 4) mod 4 = 0) as Ha4 by (Z.to_euclidean_division_equations; lia).
    destruct (decide (x = a)) as [->|Hne].
    + rewrite lookup_insert_eq, decide_True by (split; [lia|done]). done.
    + rewrite lookup_insert_ne, IH by congruence. apply decide_ext. Z.to_euclidean_division_equations. lia.
Qed.

Lemma zeros_lookup a n x :
  zeros a n !! x = if decide (a <= x < a + n /\ x mod 4 = 0) then Some 0 else None.
Proof.
  unfold zeros. rewrite zero_words_lookup by (rewrite Z.mul_comm; by apply Z.mod_mul).
  apply decide_ext. Z.to_euclidean_division_equations. lia.
Qed.

Lemma grown_zero k : grown 0 k k.
Proof.
  split; [apply same_control_refl| |].
  - intros sz ->. f_equal. lia.
  - intros sz x _. by rewrite decide_False by lia.
Qed.

#[local] Instance example_sbrk : Sbrk.
Proof.
  refine {| sbrk := grow_by |}. intros n sz o k Hsz Hn. unfold grow_by. rewrite Hsz.
  unfold proc_sz in Hsz. destruct (cpu_proc k) as [p|] eqn:Ep; [|done]. simpl in Hsz.
  apply fmap_Some in Hsz as (pr & Hpr & ->).
  destruct (Z.leb_spec (p_sz pr + n) KERNBASE) as [Hle|]; [|eexists _, _; split; [done|]; left; split; [done|apply grown_zero]].
  eexists _, _. split; [done|]. right. split_and!; [done|done|]. split.
  - split; rsimpl; try done.
    + intros q [pq Hq]. rewrite list_lookup_alter. rewrite Hq. case_decide; simpl; [|eauto]. subst. rewrite Hq. simpl. eauto.
    + intros [q t]. unfold thread_at. rsimpl. simpl. rewrite list_lookup_alter. case_decide as E; [|done]. subst.
      destruct (ptable k !! q); simpl; [by rsimpl|done].
    + unfold user_word, mbind, option_bind. rsimpl. rewrite Ep, list_lookup_alter_eq, Hpr. simpl. by rsimpl.
  - intros sz. unfold proc_sz, mbind, option_bind. rsimpl. rewrite Ep, list_lookup_alter_eq, Hpr. simpl. rsimpl. congruence.
  - intros sz x. unfold proc_sz, mbind, option_bind. rewrite Ep, Hpr. simpl. intros [= <-]. rsimpl.
    rewrite lookup_union, zeros_lookup. case_decide; by destruct (umem k !! x).
Defined.

#[local] Instance example_layout : HeapLayout.
Proof. by refine {| sym_base := 0x1000; sym_freep := 0x1010; sym_brk := 0x2000 |}; try lia. Defined.

#[local] Existing Instances Umalloc.umalloc_heap Umalloc.kernel_heap_laws.

Definition small_user : kernel :=
  Mutex.small_mutexes <| mtable := replicate 4 zero_mutex |> <| nextmid := 1 |>
    <| ptable ::= alter (fun pr => pr <| p_sz := 0x2000 |>) 0%nat |>
    <| umem := <[0x1000 := 0]> (<[0x1004 := 0]> {[0x1010 := 0]}) |>.

Definition small_view : view := mkView ∅ 4 (2 ^ 31 - 2) 1 ∅ ∅.

Lemma small_user_rep : rep small_user small_view.
Proof.
  split.
  - by split.
  - split; [done| |].
    + intros i m (-> & _)%lookup_replicate_1. done.
    + intros i j m m' (-> & _)%lookup_replicate_1 _ Hz. by destruct Hz.
  - exists 0%nat. eexists _, (0, 0)%nat, _, 0x90909090. split_and!; [by split|done|done|done].
  - intros id h. split; [done|]. intros (i & m & (-> & _)%lookup_replicate_1 & Hid & Hz & _). by destruct Hz.
  - done.
  - done.
  - exists 0x2000, ∅. split_and!; try done. left. unfold Umalloc.untouched. split_and!; try done; by eexists.
Qed.

Definition result_of {A} (r : outcome kernel A) : option A := match r with Ok a _ _ => Some a | _ => None end.

Lemma small_malloc : result_of (malloc Trnmnt.sizeof_tree [] small_user) = Some 0x9ff0.
Proof. vm_compute. reflexivity. Qed.

(** With four unused mutexes and memory for the three blocks the tree is built. *)
Lemma small_result a w :
  Trnmnt.alloc_result 1 [] small_user small_view a w -> a <> 0 /\ Trnmnt.tree_made small_view 1 a w.
Proof.
  unfold Trnmnt.alloc_result. rewrite decide_False by done. intros (array & s1 & E1 & H).
  assert (result_of (Trnmnt.array_malloc 1 [] small_user) = Some 0x9fe0) as E1' by (vm_compute; reflexivity).
  change (Z.of_nat 1) with 1 in E1. rewrite E1 in E1'. injection E1' as ->. cbn [Z.eqb] in H.
  rewrite decide_False in H by (simpl; lia). destruct H as (map & s2 & E2 & H).
  assert (result_of (Trnmnt.map_malloc 1 [] small_user) = Some 0x9fd0) as E2' by (vm_compute; reflexivity).
  change (Z.of_nat 1) with 1 in E2. rewrite E2 in E2'. injection E2' as ->. exact H.
Qed.

Lemma trnmnt_tree_alloc_spec_witness :
  exists a s' w, Trnmnt.trnmnt_tree_alloc 1 [] small_user = Ok a [] s' /\ rep s' w /\
    a <> 0 /\ Trnmnt.tree_made small_view 1 a w.
Proof.
  destruct (Trnmnt.trnmnt_tree_alloc_spec 1 small_view [] small_user) as [(s' & H & _)|(a & s' & w & H & Hs & Hr)];
    [split; lia|vm_compute; discriminate|exact small_user_rep| |].
  - exfalso. pose proof small_malloc as E. rewrite H in E. discriminate.
  - exists a, s', w. split_and!; [exact H|exact Hs|apply (small_result a w Hr)|apply (small_result a w Hr)].
Defined.

(** The state in which a tree of depth 1 has been built, at [0x9ff0]. *)
Definition with_tree : kernel :=
  match Trnmnt.trnmnt_tree_alloc 1 [] small_user with Ok _ _ k => k | _ => small_user end.

Lemma with_tree_rep : exists w, rep with_tree w /\ Trnmnt.tree_made small_view 1 0x9ff0 w.
Proof.
  destruct (runs_malloc small_view Trnmnt.sizeof_tree ltac:(done) [] small_user small_user_rep)
    as (p & s1 & v1 & E & Hs1 & Hp).
  pose proof small_malloc as E'. rewrite E in E'. injection E' as ->.
  destruct Hp as [[[=] _]|(Hpp & ws & Hws & Hdp & Hbp & ->)].
  destruct (Trnmnt.alloc_in_result 1 small_view 0x9ff0 ws [] small_user s1) as (a & s' & w & E2 & Hs' & Hr);
    [lia|vm_compute; discriminate|by intros id h|exact E|exact Hs1|exact Hpp|exact Hws|exact Hdp|exact Hbp|].
  assert (result_of (Trnmnt.trnmnt_tree_alloc 1 [] small_user) = Some 0x9ff0) as E3 by (vm_compute; reflexivity).
  change (Z.of_nat 1) with 1 in E2. rewrite E2 in E3. injection E3 as ->.
  exists w. split; [|apply (small_result _ _ Hr)]. unfold with_tree. by rewrite E2.
Qed.

(** The tree of that state: its lock [L], its only node [m], and nobody in its map. *)
Lemma with_tree_at : exists w L mt tmp m,
  rep with_tree w /\ v_me w = 1 /\ Trnmnt.tree_at (v_mem w) 0x9ff0 1 L mt tmp [m] [-1; -1] /\ NoDup [L; m] /\
  v_mutex w !! L = Some None /\ v_mutex w !! m = Some None.
Proof.
  destruct with_tree_rep as (w & Hw & L & mt & tmp & ms & Ht & Hnd & _ & Hmx & _ & _ & Hme).
  pose proof (Trnmnt.ta_ms_len _ _ _ _ _ _ _ _ Ht) as Hlen. destruct ms as [|m [|? ?]]; try done.
  exists w, L, mt, tmp, m. split_and!; try done; rewrite Hmx, Trnmnt.lookup_set_up, decide_True; try done; set_solver.
Qed.

(** On that tree ID 0 is acquired, with the node locked by thread 1; acquired again, and
    with an ID that is too large, it is refused. *)
Lemma trnmnt_tree_acquire_spec_witness :
  exists k1 w m, Trnmnt.trnmnt_tree_acquire 0x9ff0 0 [] with_tree = Ok 0 [] k1 /\ rep k1 w /\ v_mutex w !! m = Some (Some 1) /\
    (exists k2, Trnmnt.trnmnt_tree_acquire 0x9ff0 0 [] k1 = Ok (-1) [] k2 /\ rep k2 w) /\
    (exists k2, Trnmnt.trnmnt_tree_acquire 0x9ff0 2 [] k1 = Ok (-1) [] k2 /\ rep k2 w).
Proof.
  destruct with_tree_at as (v & L & mt & tmp & m & Hv & Hme & Ht & Hnd & HL & Hm).
  assert (m <> L) as HmL by (intros ->; apply NoDup_cons in Hnd as [Hn _]; apply Hn; by constructor).
  destruct (Trnmnt.trnmnt_tree_acquire_spec v 0x9ff0 1 L mt tmp [m] [-1; -1] Ht Hnd HL) as (H1 & _ & _).
  destruct (H1 0%nat) with (o := @nil (kernel -> kernel)) (s := with_tree) as (r & k1 & w & E1 & Hk1 & -> & Hw);
    [simpl; lia|reflexivity| |exact Hv|].
  { intros n Hn. apply list_elem_of_singleton in Hn as ->. exact Hm. }
  set (w1 := v <| v_mem ::= _ |> <| v_mutex ::= _ |>) in Hw. rewrite Hw in Hk1.
  pose proof (Trnmnt.tree_at_store _ _ _ _ _ _ _ _ 0%nat (v_me v) Ht ltac:(simpl; lia)) as Ht1.
  assert (v_mutex w1 !! L = Some None) as HL1.
  { unfold w1. rsimpl. change (<[m := Some (v_me v)]> (v_mutex v) !! L = Some None). by rewrite lookup_insert_ne. }
  destruct (Trnmnt.trnmnt_tree_acquire_spec w1 0x9ff0 1 L mt tmp [m] [v_me v; -1] Ht1 Hnd HL1) as (_ & H2 & H3).
  exists k1, w1, m. split_and!; [exact E1|exact Hk1| | |].
  - unfold w1. rsimpl. rewrite Hme. change (<[m := Some 1]> (v_mutex v) !! m = Some (Some 1)). apply lookup_insert_eq.
  - destruct (H2 0%nat (v_me v) ltac:(simpl; lia) eq_refl ltac:(rewrite Hme; done) [] k1 Hk1) as (r & k2 & w2 & E2 & Hk2 & -> & ->).
    exists k2. split; [exact E2|exact Hk2].
  - destruct (H3 2 ltac:(simpl; lia) [] k1 Hk1) as (r & k2 & w2 & E2 & Hk2 & -> & ->). exists k2. split; [exact E2|exact Hk2].
Defined.

(** Acquired and released the tree is as before; ID 1, which nobody owns, is not released. *)
Lemma trnmnt_tree_release_spec_witness :
  exists w, rep with_tree w /\
    (exists k1, (Trnmnt.trnmnt_tree_acquire 0x9ff0 0 ≫= fun r => Trnmnt.trnmnt_tree_release 0x9ff0 0 ≫= fun r' => mret (r, r'))
       [] with_tree = Ok (0, 0) [] k1 /\ rep k1 w) /\
    (exists k1, Trnmnt.trnmnt_tree_release 0x9ff0 1 [] with_tree = Ok (-1) [] k1 /\ rep k1 w).
Proof.
  destruct with_tree_at as (v & L & mt & tmp & m & Hv & Hme & Ht & Hnd & HL & Hm). exists v. split_and!; [exact Hv| |].
  - destruct (Trnmnt.trnmnt_tree_release_spec v 0x9ff0 1 L mt tmp [m] [-1; -1] 0 Ht Hnd HL) as [H _]; [simpl; lia|].
    destruct H with (o := @nil (kernel -> kernel)) (s := with_tree) as (r & k1 & w & E & Hk & -> & ->); [reflexivity| |exact Hv|].
    + intros n Hn. apply list_elem_of_singleton in Hn as ->. exact Hm.
    + exists k1. split; [exact E|exact Hk].
  - destruct (Trnmnt.trnmnt_tree_release_spec v 0x9ff0 1 L mt tmp [m] [-1; -1] 1 Ht Hnd HL) as [_ H]; [simpl; lia|].
    destruct (H (-1) eq_refl ltac:(rewrite Hme; done) [] with_tree Hv) as (r & k1 & w & E & Hk & -> & ->).
    exists k1. split; [exact E|exact Hk].
Defined.

Lemma kernel_implements_user_api_witness : MutexLaws kernel /\ HeapLaws kernel.
Proof. exact Umalloc.kernel_implements_user_api. Defined.


Lemma malloc_block_witness :
  exists k', Umalloc.malloc 16 [] small_user = Ok 0x9ff0 [] k' /\ Umalloc.malloced small_user ∅ 3 0x9ff0 k'.
Proof.
  destruct (Umalloc.malloc_block small_user 0x2000 ∅ 16 []) as (r & k' & H & Hm & _);
    [left; unfold Umalloc.untouched; split_and!; (reflexivity || by eexists || done)|reflexivity|reflexivity|done|done|].
  assert (result_of (Umalloc.malloc 16 [] small_user) = Some 0x9ff0) as E by (vm_compute; reflexivity).
  rewrite H in E. injection E as ->. exists k'. split; [exact H|exact Hm].
Defined.

(** A heap with one block of two units in use, between two free ones. *)
Definition three_blocks : kernel :=
  small_user <| umem := list_to_map
    [(0x1000, 0x2000); (0x1004, 0); (0x1010, 0x1000);
     (0x2000, 0x2018); (0x2004, 1); (0x2008, 0); (0x200c, 2); (0x2010, 7); (0x2014, 8);
     (0x2018, 0x1000); (0x201c, 1)] |>.

Lemma in_two (a t a1 t1 a2 t2 : Z) :
  (a, t) ∈ [(a1, t1); (a2, t2)] -> (a = a1 /\ t = t1) \/ (a = a2 /\ t = t2).
Proof. intros [[= -> ->]|[= -> ->]%list_elem_of_singleton]%elem_of_cons; auto. Qed.

Lemma three_blocks_ok :
  Umalloc.heap_ok (umem three_blocks) 0x2020 [(0x2000, 1); (0x2018, 1)] 0x1000 {[0x2008 := 2]}.
Proof.
  split.
  - reflexivity.
  - by exists [], 0, [(0x2000, 1); (0x2018, 1)].
  - by split_and!.
  - by split_and!.
  - done.
  - intros u s [<- <-]%lookup_singleton_Some. by split_and!.
  - intros u s a t [<- <-]%lookup_singleton_Some Ha. apply in_two in Ha as [[-> ->]|[-> ->]]; lia.
  - intros u s u' s' [<- <-]%lookup_singleton_Some [<- <-]%lookup_singleton_Some. done.
  - intros a s x Has Hx Hm.
    assert (x = 0x2000 \/ x = 0x2004 \/ x = 0x2008 \/ x = 0x200c \/ x = 0x2010 \/ x = 0x2014 \/ x = 0x2018 \/ x = 0x201c) as Hcase.
    { assert (0x2000 <= x < 0x2020).
      { destruct Has as [[[-> ->]|[-> ->]]%in_two|[<- <-]%lookup_singleton_Some]; lia. }
      Z.to_euclidean_division_equations. lia. }
    destruct Hcase as [->|[->|[->|[->|[->|[->|[->| ->]]]]]]]; by eexists.
Qed.

(** The three blocks become one. *)
Lemma free_block_witness :
  exists m', Umalloc.free 0x2010 [] three_blocks = Ok tt [] (Umalloc.with_mem three_blocks m') /\
    m' !! 0x2000 = Some 0x1000 /\ m' !! 0x2004 = Some 4.
Proof.
  destruct (Umalloc.free_block three_blocks 0x2020 [(0x2000, 1); (0x2018, 1)] 0x1000 {[0x2008 := 2]} 0x2008 2 []
    three_blocks_ok) as (m' & fl' & fp' & H & _); [reflexivity|].
  exists m'. split; [exact H|].
  assert ((fun r => match r with Ok _ _ k => (umem k !! 0x2000, umem k !! 0x2004) | _ => (None, None) end)
    (Umalloc.free 0x2010 [] three_blocks) = (Some 0x1000, Some 4)) as E by (vm_compute; reflexivity).
  cbv beta in E. change (0x2008 + 8) with 0x2010 in H. rewrite H in E. injection E as E1 E2. split; [exact E1|exact E2].
Defined.
