(* ===== verification/Sleeplock.v ===== *)
(** Sleep locks (sleeplock.c): long-term locks whose waiters give up the CPU. *)

From S2P Require Import Prelude Monad State Sched.

Module Sleeplock.

(** The sleep lock inside a buffer or an inode. *)
Definition sleeplock_at (s : slid) (k : kernel) : option sleeplock :=
  match s with
  | SBuf i => b_lock <$> bcache (fs k) !! i
  | SInode i => i_lock <$> icache (fs k) !! i
  end.

Definition set_sleeplock (s : slid) (l : sleeplock) (k : kernel) : kernel :=
  match s with
  | SBuf i => k <| fs ::= fun f => f <| bcache ::= alter (fun b => b <| b_lock := l |>) i |> |>
  | SInode i => k <| fs ::= fun f => f <| icache ::= alter (fun b => b <| i_lock := l |>) i |> |>
  end.

Definition get_sl (s : slid) : K sleeplock := deref "sleeplock" (sleeplock_at s).
Definition put_sl (s : slid) (l : sleeplock) : K unit := modify (set_sleeplock s l).

Definition initsleeplock (s : slid) : K unit :=
  modify (fun k => k <| locks ::= delete (LSleep s) |>);;   (* initlock *)
  put_sl s (mkSleeplock 0 0).

Section with_layout.
Context `{Layout}.

(** [myproc()->pid] *)
Definition mypid : K Z :=
  p ← curproc;
  pr ← get_proc p;
  mret (p_pid pr).

(** [while (lk->locked) sleep(lk, &lk->lk);] *)
Definition await_unlocked (s : slid) : K unit :=
  repeat_until (l ← get_sl s;
                if sl_locked l =? 0 then mret (Some tt)
                else Sched.sleep (CSleep s) (Some (LSleep s));; mret None).

Definition acquiresleep (s : slid) : K unit :=
  acquire (LSleep s);;
  await_unlocked s;;
  l ← get_sl s;
  put_sl s (l <| sl_locked := 1 |>);;
  pid ← mypid;
  l ← get_sl s;
  put_sl s (l <| sl_pid := pid |>);;
  release (LSleep s).

Definition releasesleep (s : slid) : K unit :=
  acquire (LSleep s);;
  get_sl s;;
  put_sl s (mkSleeplock 0 0);;
  Sched.wakeup (CSleep s);;
  release (LSleep s).

Definition holdingsleep (s : slid) : K bool :=
  acquire (LSleep s);;
  l ← get_sl s;
  r ← (if sl_locked l =? 0 then mret false else
       pid ← mypid; mret (sl_pid l =? pid));
  release (LSleep s);;
  mret r.

(** * What each operation does

    when no other CPU is inside the same lock. *)

(** A process with the id is running. *)
Definition runs (k : kernel) (pid : Z) : Prop :=
  exists p pr, cpu_proc k = Some p /\ ptable k !! p = Some pr /\ p_pid pr = pid.

Lemma mypid_eq pid o k : runs k pid -> mypid o k = Ok pid o k.
Proof.
  intros (p & pr & Hp & Hpr & <-). unfold mypid, curproc, get_proc.
  do 2 (erewrite bind_ok by (by apply deref_some)). done.
Qed.

Lemma get_sl_eq s l o k : sleeplock_at s k = Some l -> get_sl s o k = Ok l o k.
Proof. apply deref_some. Qed.

(** Updates of a sleep lock concern the file system's tables only. *)
Definition fs_set_sl (s : slid) (l : sleeplock) (f : fsys) : fsys :=
  match s with
  | SBuf i => f <| bcache ::= alter (fun b => b <| b_lock := l |>) i |>
  | SInode i => f <| icache ::= alter (fun b => b <| i_lock := l |>) i |>
  end.
Definition fs_sl (s : slid) (f : fsys) : option sleeplock :=
  match s with
  | SBuf i => b_lock <$> bcache f !! i
  | SInode i => i_lock <$> icache f !! i
  end.

Lemma set_sleeplock_fs s l k : set_sleeplock s l k = k <| fs ::= fs_set_sl s l |>.
Proof. by destruct s. Qed.

Lemma fs_sl_set s l f : is_Some (fs_sl s f) -> fs_sl s (fs_set_sl s l f) = Some l.
Proof.
  destruct s as [i|i]; simpl; intros [x (b & Hb & _)%fmap_Some]; rsimpl; rewrite list_lookup_alter_eq, Hb; by simpl; rsimpl.
Qed.

Lemma fs_set_sl_set s l l' f : fs_set_sl s l (fs_set_sl s l' f) = fs_set_sl s l f.
Proof.
  destruct s as [i|i]; simpl.
  - transitivity (f <| bcache ::= fun bs => alter (fun b => b <| b_lock := l |>) i (alter (fun b => b <| b_lock := l' |>) i bs) |>); [done|].
    destruct f as [? ? bs ? ? ? ? ? ?]. unfold setf. simpl. f_equal. rewrite list_alter_alter_eq. by apply list_alter_ext.
  - destruct f as [? ? ? ? ? bs ? ? ?]. unfold setf. simpl. f_equal. rewrite list_alter_alter_eq. by apply list_alter_ext.
Qed.

Lemma acquiresleep_free s l pid o k :
  sleeplock_at s k = Some l -> sl_locked l = 0 -> unlocked (LSleep s) k -> runs k pid ->
  acquiresleep s o k = Ok tt o (k <| fs ::= fs_set_sl s (mkSleeplock 1 pid) |>).
Proof.
  intros Hs Hl Hu Hr. unfold acquiresleep. mbind_step.
  assert (forall g, sleeplock_at s (g k) = fs_sl s (fs (g k))) as Hat by (intros; by destruct s).
  set (k1 := k <| locks ::= <[LSleep s := Me]> |>).
  assert (get_sl s o k1 = Ok l o k1) as Hg by (apply get_sl_eq; by destruct s).
  unfold await_unlocked. erewrite bind_ok.
  2:{ apply repeat_once. erewrite bind_ok by exact Hg. by rewrite Hl. }
  erewrite bind_ok by exact Hg. unfold put_sl. mbind_step. rewrite set_sleeplock_fs.
  erewrite bind_ok by (apply (mypid_eq pid); destruct Hr as (p & pr & ?); exists p, pr; by rsimpl).
  erewrite bind_ok.
  2:{ apply get_sl_eq. transitivity (fs_sl s (fs_set_sl s (l <| sl_locked := 1 |>) (fs k))); [by destruct s|].
      apply fs_sl_set. exists l. by destruct s. }
  mbind_step. rewrite set_sleeplock_fs. rewrite release_locked by (unfold k1; solve_lock). f_equal.
  unfold k1. kernel_eq. by rewrite fs_set_sl_set.
Qed.

Lemma holdingsleep_mine s pid o k :
  sleeplock_at s k = Some (mkSleeplock 1 pid) -> unlocked (LSleep s) k -> runs k pid ->
  holdingsleep s o k = Ok true o k.
Proof.
  intros Hs Hu Hr. unfold holdingsleep. mbind_step.
  erewrite bind_ok by (apply get_sl_eq; destruct s; exact Hs). cbn [sl_locked sl_pid Z.eqb].
  rewrite bind_assoc. erewrite bind_ok by (apply (mypid_eq pid); destruct Hr as (p & pr & ?); exists p, pr; by rsimpl).
  mbind_step. rewrite Z.eqb_refl. erewrite bind_ok by (apply release_locked; solve_lock).
  unfold mret, M_ret. f_equal. kernel_eq.
Qed.

Lemma holdingsleep_free s o k :
  (exists l, sleeplock_at s k = Some l /\ sl_locked l = 0) -> unlocked (LSleep s) k ->
  holdingsleep s o k = Ok false o k.
Proof.
  intros (l & Hs & Hl) Hu. unfold holdingsleep. mbind_step.
  erewrite bind_ok by (apply get_sl_eq; destruct s; exact Hs). rewrite Hl. cbn [Z.eqb].
  mbind_step. erewrite bind_ok by (apply release_locked; solve_lock).
  unfold mret, M_ret. f_equal. kernel_eq.
Qed.

Lemma releasesleep_eq s l o k :
  sleeplock_at s k = Some l -> unlocked (LSleep s) k -> unlocked LPtable k ->
  releasesleep s o k = Ok tt o (k <| fs ::= fs_set_sl s (mkSleeplock 0 0) |>
                                  <| ptable ::= fmap (Sched.wakeup1_proc (CSleep s)) |>).
Proof.
  intros Hs Hu Hp. unfold releasesleep. mbind_step.
  erewrite bind_ok by (apply get_sl_eq; destruct s; exact Hs).
  unfold put_sl. mbind_step. rewrite set_sleeplock_fs.
  erewrite bind_ok by (apply Sched.wakeup_eq; solve_lock).
  rewrite release_locked by solve_lock. f_equal. kernel_eq.
Qed.

End with_layout.
End Sleeplock.
