(* ===== verification/Held.v ===== *)
(** A sleep lock that is not released: what a sleeping thread keeps of the state, and
    that [acquiresleep] of a held lock does not return while it is held. *)

From S2P Require Import Prelude Monad State Spinlock Console Kalloc Sched Sleeplock.

Module Held.
Import Sleeplock.

(** The steps of the other threads keep [P]. *)
Definition calm (P : kernel -> Prop) : list (kernel -> kernel) -> Prop := Forall (fun f => forall k, P k -> P (f k)).

(** Then the computation keeps [P] too, until it returns. *)
Definition keeps (P : kernel -> Prop) {A} (m : K A) : Prop :=
  forall o k, calm P o -> P k -> match m o k with Ok _ o' k' => calm P o' /\ P k' | _ => True end.

Create HintDb keeps.

Section combinators.
Context (P : kernel -> Prop).

Lemma keeps_ret {A} (a : A) : keeps P (mret a).
Proof. by intros o k. Qed.
Lemma keeps_gets {A} (f : kernel -> A) : keeps P (gets f).
Proof. by intros o k. Qed.
Lemma keeps_panic {A} msg : keeps P (panic (A := A) msg).
Proof. by intros o k. Qed.
Lemma keeps_fault {A} msg : keeps P (fault (A := A) msg).
Proof. by intros o k. Qed.
Lemma keeps_exiting {A} : keeps P (exiting (A := A)).
Proof. by intros o k. Qed.
Lemma keeps_deref {A} msg (f : kernel -> option A) : keeps P (deref msg f).
Proof. intros o k Ho Hk. unfold deref. by destruct (f k). Qed.
Lemma keeps_modify g : (forall k, P k -> P (g k)) -> keeps P (modify g).
Proof. intros Hg o k Ho Hk. split; [done|by apply Hg]. Qed.
Lemma keeps_bind {A B} (m : K A) (f : A -> K B) : keeps P m -> (forall a, keeps P (f a)) -> keeps P (m ≫= f).
Proof.
  intros Hm Hf o k Ho Hk. specialize (Hm o k Ho Hk). unfold mbind, M_bind. revert Hm. destruct (m o k); try done. intros [? ?]. by apply Hf.
Qed.
Lemma keeps_when b (m : K unit) : keeps P m -> keeps P (when b m).
Proof. intros Hm. destruct b; [done|apply keeps_ret]. Qed.

End combinators.

#[export] Hint Resolve keeps_ret keeps_gets keeps_panic keeps_fault keeps_exiting keeps_deref keeps_bind keeps_when : keeps.
#[export] Hint Extern 1 (keeps _ (modify _)) => (apply keeps_modify; intros ? ?; assumption) : keeps.
#[export] Hint Extern 2 (keeps _ (if ?b then _ else _)) => destruct b : keeps.
#[export] Hint Extern 2 (keeps _ (match ?x with Some _ => _ | None => _ end)) => destruct x : keeps.

(** What depends on the file system's state only is kept by locks and by sleep. *)
Section files.
Context `{Layout} (Q : fsys -> Prop).
Abbreviation P := (fun k => Q (fs k)).

Lemma keeps_acquire l : keeps P (acquire l).
Proof.
  unfold acquire, holding. apply keeps_bind; [apply keeps_gets|]. intros []; [apply keeps_panic|]. intros o. induction o as [|f o IH]; intros k Ho Hk; simpl.
  - by destruct (locks k !! l).
  - destruct (locks k !! l); [|done]. apply Forall_cons in Ho as [Hf Ho]. apply IH; [done|by apply Hf].
Qed.
Lemma keeps_release l : keeps P (release l).
Proof. unfold release, holding. eauto with keeps. Qed.

Lemma keeps_dispatch t : keeps P (Sched.dispatch t).
Proof.
  unfold Sched.dispatch, Sched.switchuvm, Sched.upd_thread, Sched.upd_proc, alter_thread, Sched.get_thread, Sched.get_proc. repeat (apply keeps_bind; [|intros ?]); eauto 8 with keeps.
Qed.

Lemma keeps_resume t : keeps P (Sched.resume t).
Proof.
  intros o. induction o as [|f o IH]; intros k Ho Hk; simpl; [done|]. apply Forall_cons in Ho as [Hf Ho]. pose proof (Hf k Hk) as Hk'.
  destruct (Sched.sched_ready t (f k)); [|by apply IH]. by apply (keeps_dispatch t o (f k)).
Qed.

Lemma keeps_sched : keeps P Sched.sched.
Proof.
  unfold Sched.sched, holding, Sched.curthread, Sched.get_thread. repeat (apply keeps_bind; [eauto with keeps|intros ?]; try destruct (negb _); eauto with keeps).
  destruct (bool_decide _); [eauto with keeps|]. apply keeps_bind; [eauto with keeps|]. intros [|]; [eauto with keeps|apply keeps_resume].
Qed.

Lemma keeps_sleep ch lk : keeps P (Sched.sleep ch lk).
Proof.
  pose proof keeps_acquire. pose proof keeps_release. pose proof keeps_sched.
  unfold Sched.sleep, Sched.myproc, Sched.mythread, Sched.upd_thread, alter_thread, Sched.get_thread.
  apply keeps_bind; [eauto with keeps|]. intros [p|]; (apply keeps_bind; [eauto with keeps|]); intros [t|]; try apply keeps_panic.
  destruct lk as [lk|]; [|apply keeps_panic]. repeat first [apply keeps_sched|simple apply keeps_bind; [|intros ?]]; eauto 8 with keeps.
Qed.

End files.

(** * A lock that stays held *)

Section held.
Context `{Layout} (s : slid).

Definition is_held (f : fsys) : Prop := exists l, fs_sl s f = Some l /\ sl_locked l <> 0.

Lemma held_at k : is_held (fs k) -> exists l, sleeplock_at s k = Some l /\ sl_locked l <> 0.
Proof. intros (l & ? & ?). exists l. by destruct s. Qed.

(** [acquiresleep] does not return. *)
Lemma acquiresleep_hangs o k : calm (fun k => is_held (fs k)) o -> is_held (fs k) -> forall o' k', acquiresleep s o k <> Ok tt o' k'.
Proof.
  assert (forall n o k, calm (fun k => is_held (fs k)) o -> is_held (fs k) -> forall o' k',
    repeat_fuel n (l ← get_sl s; if sl_locked l =? 0 then mret (Some tt) else Sched.sleep (CSleep s) (Some (LSleep s));; mret None) o k <> Ok tt o' k') as Hloop.
  { intros n. induction n as [|n IH]; intros o1 k1 Ho Hk o' k'; [done|]. simpl. destruct (held_at _ Hk) as (l & Hl & Hn).
    rewrite bind_assoc. erewrite bind_ok by (by apply get_sl_eq). destruct (Z.eqb_spec (sl_locked l) 0); [done|]. rewrite bind_assoc.
    pose proof (keeps_sleep is_held (CSleep s) (Some (LSleep s)) o1 k1 Ho Hk) as Hs. unfold mbind, M_bind.
    destruct (Sched.sleep (CSleep s) (Some (LSleep s)) o1 k1) as [[] o2 k2| | | |]; try done. destruct Hs as [Ho2 Hk2]. cbn. by apply IH. }
  intros Ho Hk o' k' E. unfold acquiresleep in E. apply bind_ok_inv in E as ([] & o1 & k1 & E1 & E).
  pose proof (keeps_acquire is_held (LSleep s) o k Ho Hk) as Ha. rewrite E1 in Ha. destruct Ha as [Ho1 Hk1].
  apply bind_ok_inv in E as ([] & o2 & k2 & E2 & _). by eapply Hloop in E2.
Qed.

End held.
End Held.
