(* ===== verification/Bytes.v ===== *)
(** Little-endian integers in byte arrays: the layout of the structures that disk
    blocks hold. *)

From S2P Require Import Prelude.

(** C's [short]. *)
Definition s16 (z : Z) : Z := let u := z mod 2 ^ 16 in if u <? 2 ^ 15 then u else u - 2 ^ 16.

(** The [n] low bytes of [z], least significant first, and the number they denote. *)
Fixpoint le_bytes (n : nat) (z : Z) : list Z :=
  match n with
  | O => []
  | S n' => z mod 256 :: le_bytes n' (z / 256)
  end.
Fixpoint le_value (bs : list Z) : Z :=
  match bs with
  | [] => 0
  | b :: bs' => b + 256 * le_value bs'
  end.

(** The [n] bytes at [off], and the array with [bs] stored at [off]. *)
Definition slice (off n : nat) (d : list Z) : list Z := take n (drop off d).
Definition splice (off : nat) (bs d : list Z) : list Z := take off d ++ bs ++ drop (off + length bs) d.

Definition get_u16 (off : nat) (d : list Z) : Z := le_value (slice off 2 d).
Definition get_u32 (off : nat) (d : list Z) : Z := le_value (slice off 4 d).
Definition put_u16 (off : nat) (z : Z) (d : list Z) : list Z := splice off (le_bytes 2 z) d.
Definition put_u32 (off : nat) (z : Z) (d : list Z) : list Z := splice off (le_bytes 4 z) d.

Definition is_byte (b : Z) : Prop := 0 <= b < 256.

Lemma length_le_bytes n z : length (le_bytes n z) = n.
Proof. revert z. induction n as [|n IH]; intros z; simpl; [done|]. by rewrite IH. Qed.

Lemma le_bytes_range n z : Forall is_byte (le_bytes n z).
Proof.
  revert z. induction n as [|n IH]; intros z; simpl; constructor; [|apply IH].
  apply Z.mod_pos_bound. lia.
Qed.

Lemma le_value_bytes n z : le_value (le_bytes n z) = z mod 256 ^ Z.of_nat n.
Proof.
  revert z. induction n as [|n IH]; intros z; [by rewrite Z.mod_1_r|].
  cbn [le_bytes le_value]. rewrite IH, Nat2Z.inj_succ, Z.pow_succ_r by lia.
  rewrite (Z.rem_mul_r z 256) by (try apply Z.pow_pos_nonneg; lia). done.
Qed.

Lemma le_value_range bs : Forall is_byte bs -> 0 <= le_value bs < 256 ^ Z.of_nat (length bs).
Proof.
  induction 1 as [|b bs Hb Hbs IH]; [simpl; lia|]. cbn [le_value length].
  rewrite Nat2Z.inj_succ, Z.pow_succ_r by lia. unfold is_byte in Hb. lia.
Qed.

Lemma le_bytes_value bs : Forall is_byte bs -> le_bytes (length bs) (le_value bs) = bs.
Proof.
  induction 1 as [|b bs Hb Hbs IH]; [done|]. cbn [le_bytes le_value length].
  unfold is_byte in Hb. f_equal.
  - rewrite Z.mul_comm, Z_mod_plus_full. apply Z.mod_small. lia.
  - assert ((b + 256 * le_value bs) / 256 = le_value bs) as ->; [|done].
    rewrite Z.mul_comm, Z_div_plus_full by lia. rewrite Z.div_small by lia. lia.
Qed.

Lemma length_splice off bs d : (off + length bs <= length d)%nat -> length (splice off bs d) = length d.
Proof. intros. unfold splice. rewrite !length_app, length_take, length_drop. lia. Qed.

Lemma splice_lookup off bs d i : (off + length bs <= length d)%nat ->
  splice off bs d !! i = if decide (off <= i < off + length bs)%nat then bs !! (i - off)%nat else d !! i.
Proof.
  intros Hl. unfold splice. assert (length (take off d) = off) as Ht by (rewrite length_take; lia).
  case_decide as Hi.
  - rewrite lookup_app_r by lia. rewrite Ht. by rewrite lookup_app_l by lia.
  - destruct (decide (i < off)%nat).
    + rewrite lookup_app_l by lia. by rewrite lookup_take_lt by lia.
    + rewrite lookup_app_r by lia. rewrite Ht, lookup_app_r by lia.
      rewrite lookup_drop. f_equal. lia.
Qed.

Lemma slice_splice off bs d : (off + length bs <= length d)%nat -> slice off (length bs) (splice off bs d) = bs.
Proof.
  intros Hl. unfold slice, splice. assert (length (take off d) = off) as Ht by (rewrite length_take; lia).
  rewrite <- Ht at 1. rewrite drop_app_length, take_app_length. done.
Qed.

Lemma slice_lookup off n d i : slice off n d !! i = if decide (i < n)%nat then d !! (off + i)%nat else None.
Proof.
  unfold slice. case_decide; [by rewrite lookup_take_lt, lookup_drop by lia|].
  apply lookup_take_ge. lia.
Qed.

Lemma slice_splice_ne off n off' bs d : (off' + length bs <= length d)%nat ->
  (off + n <= off' \/ off' + length bs <= off)%nat -> slice off n (splice off' bs d) = slice off n d.
Proof.
  intros Hl Hd. apply list_eq. intros i. rewrite !slice_lookup. case_decide; [|done].
  rewrite splice_lookup by done. case_decide; [lia|done].
Qed.

Lemma splice_all bs d : length bs = length d -> splice 0 bs d = bs.
Proof. intros Hl. unfold splice. simpl. rewrite drop_ge by lia. apply app_nil_r. Qed.

Lemma splice_range off bs d : Forall is_byte bs -> Forall is_byte d -> Forall is_byte (splice off bs d).
Proof.
  intros Hb Hd. unfold splice. rewrite !Forall_app. split_and!; [by apply Forall_take|done|by apply Forall_drop].
Qed.

Lemma length_slice off n d : (off + n <= length d)%nat -> length (slice off n d) = n.
Proof. intros. unfold slice. rewrite length_take, length_drop. lia. Qed.

Lemma get_put_u32 off z d : (off + 4 <= length d)%nat -> get_u32 off (put_u32 off z d) = u32 z.
Proof.
  intros Hl. unfold get_u32, put_u32.
  rewrite <- (length_le_bytes 4 z) at 1. rewrite slice_splice by (by rewrite length_le_bytes).
  by rewrite le_value_bytes.
Qed.

Lemma get_put_u32_ne off off' z d : (off' + 4 <= length d)%nat -> (off + 4 <= off' \/ off' + 4 <= off)%nat ->
  get_u32 off (put_u32 off' z d) = get_u32 off d.
Proof. intros. unfold get_u32, put_u32. rewrite slice_splice_ne; rewrite ?length_le_bytes; done. Qed.

Lemma length_put_u32 off z d : (off + 4 <= length d)%nat -> length (put_u32 off z d) = length d.
Proof. intros. apply length_splice. by rewrite length_le_bytes. Qed.

Lemma get_u32_range off d : Forall is_byte d -> is_u32 (get_u32 off d).
Proof.
  intros Hd. unfold get_u32.
  pose proof (le_value_range (slice off 4 d) ltac:(by apply Forall_take, Forall_drop)) as Hr.
  pose proof (Z.pow_le_mono_r 256 (Z.of_nat (length (slice off 4 d))) 4) as Hp.
  unfold slice in *. rewrite length_take in *. unfold is_u32. lia.
Qed.
