(* ===== verification/Bio.v ===== *)
(** The buffer cache (bio.c) over the memory disk (memide.c). *)

From S2P Require Import Prelude Monad State Sched Sleeplock.

(** The contents of the disk: the image with the writes made so far. *)
Definition write_block (d : list (list Z)) (w : nat * list Z) : list (list Z) := <[w.1 := w.2]> d.
Definition disk (f : fsys) : list (list Z) := foldl write_block (d_image f) (d_trace f).

Definition has_bits (x m : Z) : bool := negb (Z.land x m =? 0).

Definition upd_fs (f : fsys -> fsys) : K unit := modify (fun k => k <| fs ::= f |>).

Definition get_buf (i : nat) : K buf := deref "buf" (fun k => bcache (fs k) !! i).
Definition upd_buf (i : nat) (g : buf -> buf) : K unit := upd_fs (fun f => f <| bcache ::= alter g i |>).

Module Memide.
Section with_layout.
Context `{Layout}.
Import Sleeplock.

Definition ideinit (img : list (list Z)) : K unit :=
  upd_fs (fun f => f <| d_image := img |> <| d_trace := [] |>).

Definition ideintr : K unit := mret tt.

Definition iderw (i : nat) : K unit :=
  h ← holdingsleep (SBuf i);
  if negb h then panic "iderw: buf not locked" else
  b ← get_buf i;
  if Z.land (b_flags b) (Z.lor B_VALID B_DIRTY) =? B_VALID then panic "iderw: nothing to do" else
  if negb (b_dev b =? 1) then panic "iderw: request not for disk 1" else
  d ← gets (fun k => disk (fs k));
  if Z.of_nat (length d) <=? b_blockno b then panic "iderw: block out of range" else
  let p := Z.to_nat (b_blockno b) in
  (if has_bits (b_flags b) B_DIRTY then
     upd_buf i (fun b => b <| b_flags ::= fun x => Z.land x (Z.lnot B_DIRTY) |>);;
     upd_fs (fun f => f <| d_trace ::= fun t => t ++ [(p, b_data b)] |>)
   else
     data ← deref "memdisk" (fun k => disk (fs k) !! p);
     upd_buf i (fun b => b <| b_data := data |>));;
  upd_buf i (fun b => b <| b_flags ::= fun x => Z.lor x B_VALID |>).

End with_layout.
End Memide.

Module Bio.
Section with_layout.
Context `{Layout}.
Import Sleeplock.

(** The index of [bcache.head]. *)
Definition head : nat := NBUF.

Definition binit : K unit :=
  modify (fun k => k <| locks ::= delete LBcache |>);;   (* initlock *)
  upd_buf head (fun b => b <| b_prev := head |>);;
  upd_buf head (fun b => b <| b_next := head |>);;
  for_each (seq 0 NBUF) (fun b =>
    h ← get_buf head;
    upd_buf b (fun b => b <| b_next := b_next h |>);;
    upd_buf b (fun b => b <| b_prev := head |>);;
    initsleeplock (SBuf b);;
    h ← get_buf head;
    upd_buf (b_next h) (fun n => n <| b_prev := b |>);;
    upd_buf head (fun h => h <| b_next := b |>)).

(** [for(b = ...; b != &bcache.head; b = step(b)) if(test(b)) ...]: the first buffer
    that passes the test, following the links. *)
Fixpoint scan (fuel : nat) (step : buf -> nat) (test : buf -> bool) (i : nat) : K (option nat) :=
  if (i =? head)%nat then mret None else
  match fuel with
  | O => fault "bcache list"
  | S n =>
      get_buf i ≫= fun b =>
      if test b then mret (Some i) else scan n step test (step b)
  end.

Definition is_block (dev blockno : Z) (b : buf) : bool := (b_dev b =? dev) && (b_blockno b =? blockno).
Definition is_free (b : buf) : bool := (b_refcnt b =? 0) && negb (has_bits (b_flags b) B_DIRTY).

Definition bget (dev blockno : Z) : K nat :=
  acquire LBcache;;
  h ← get_buf head;
  hit ← scan NBUF b_next (is_block dev blockno) (b_next h);
  match hit with
  | Some b =>
      upd_buf b (fun b => b <| b_refcnt ::= fun n => u32 (n + 1) |>);;
      release LBcache;;
      acquiresleep (SBuf b);;
      mret b
  | None =>
      h ← get_buf head;
      free ← scan NBUF b_prev is_free (b_prev h);
      match free with
      | Some b =>
          upd_buf b (fun b => b <| b_dev := dev |>);;
          upd_buf b (fun b => b <| b_blockno := blockno |>);;
          upd_buf b (fun b => b <| b_flags := 0 |>);;
          upd_buf b (fun b => b <| b_refcnt := 1 |>);;
          release LBcache;;
          acquiresleep (SBuf b);;
          mret b
      | None => panic "bget: no buffers"
      end
  end.

Definition bread (dev blockno : Z) : K nat :=
  i ← bget dev blockno;
  b ← get_buf i;
  when (negb (has_bits (b_flags b) B_VALID)) (Memide.iderw i);;
  mret i.

Definition bwrite (i : nat) : K unit :=
  h ← holdingsleep (SBuf i);
  if negb h then panic "bwrite" else
  upd_buf i (fun b => b <| b_flags ::= fun x => Z.lor x B_DIRTY |>);;
  Memide.iderw i.

Definition brelse (i : nat) : K unit :=
  h ← holdingsleep (SBuf i);
  if negb h then panic "brelse" else
  releasesleep (SBuf i);;
  acquire LBcache;;
  upd_buf i (fun b => b <| b_refcnt ::= fun n => u32 (n - 1) |>);;
  b ← get_buf i;
  when (b_refcnt b =? 0) (
    upd_buf (b_next b) (fun n => n <| b_prev := b_prev b |>);;
    b ← get_buf i;
    upd_buf (b_prev b) (fun p => p <| b_next := b_next b |>);;
    h ← get_buf head;
    upd_buf i (fun b => b <| b_next := b_next h |>);;
    upd_buf i (fun b => b <| b_prev := head |>);;
    h ← get_buf head;
    upd_buf (b_next h) (fun n => n <| b_prev := i |>);;
    upd_buf head (fun h => h <| b_next := i |>));;
  release LBcache.

End with_layout.
End Bio.
