(* ===== verification/Log.v ===== *)
(** The write-ahead log (log.c): transactions on disk blocks that survive a crash
    entirely or not at all. *)

From S2P Require Import Prelude Monad State Sched Sleeplock Bytes Bio.

(** [readsb] of fs.c: the super block is the seven words at the start of block 1. *)
Definition superblock_of (d : list Z) : superblock :=
  mkSuperblock (get_u32 0 d) (get_u32 4 d) (get_u32 8 d) (get_u32 12 d)
    (get_u32 16 d) (get_u32 20 d) (get_u32 24 d).

Definition readsb `{Layout} (dev : Z) : K superblock :=
  bp ← Bio.bread dev 1;
  b ← get_buf bp;
  Bio.brelse bp;;
  mret (superblock_of (b_data b)).

Module Log.
Section with_layout.
Context `{Layout}.
Import Bio.

Definition get_log {A} (f : log -> A) : K A := gets (fun k => f (slog (fs k))).
Definition upd_log (g : log -> log) : K unit := upd_fs (fun f => f <| slog ::= g |>).

(** [sizeof(struct logheader)] *)
Definition sizeof_logheader : Z := 4 + 4 * LOGSIZE.

(** [log.lh.block[i]] *)
Definition get_lh (i : nat) : K Z := deref "log.lh.block" (fun k => lh_block (slog (fs k)) !! i).
Definition set_lh (i : nat) (x : Z) : K unit :=
  get_lh i;; upd_log (fun l => l <| lh_block ::= <[i := x]> |>).

(** [for (i = 0; i < log.lh.n; i++)]: the bodies access [log.lh.block[i]], so a
    pass with [i] past the array is a wild access. *)
Fixpoint lh_loop (fuel : nat) (i : nat) (body : nat -> K unit) : K unit :=
  get_log lh_n ≫= fun n =>
  if Z.of_nat i <? n then
    match fuel with
    | O => fault "log.lh.block"
    | S f => body i ≫= fun _ => lh_loop f (S i) body
    end
  else mret tt.
Definition for_lh (body : nat -> K unit) : K unit := lh_loop (S (Z.to_nat LOGSIZE)) 0 body.

Definition install_trans : K unit :=
  for_lh (fun tail =>
    dev ← get_log lg_dev;
    start ← get_log lg_start;
    lbuf ← bread dev (u32 (start + Z.of_nat tail + 1));
    blk ← get_lh tail;
    dbuf ← bread dev (u32 blk);
    l ← get_buf lbuf;
    upd_buf dbuf (fun d => d <| b_data := b_data l |>);;
    bwrite dbuf;;
    brelse lbuf;;
    brelse dbuf).

Definition read_head : K unit :=
  dev ← get_log lg_dev;
  start ← get_log lg_start;
  buf ← bread dev (u32 start);
  b ← get_buf buf;
  upd_log (fun l => l <| lh_n := s32 (get_u32 0 (b_data b)) |>);;
  for_lh (fun i => set_lh i (s32 (get_u32 (4 + 4 * i) (b_data b))));;
  brelse buf.

Definition write_head : K unit :=
  dev ← get_log lg_dev;
  start ← get_log lg_start;
  buf ← bread dev (u32 start);
  n ← get_log lh_n;
  upd_buf buf (fun b => b <| b_data ::= put_u32 0 n |>);;
  for_lh (fun i =>
    x ← get_lh i;
    upd_buf buf (fun b => b <| b_data ::= put_u32 (4 + 4 * i) x |>));;
  bwrite buf;;
  brelse buf.

Definition recover_from_log : K unit :=
  read_head;;
  install_trans;;
  upd_log (fun l => l <| lh_n := 0 |>);;
  write_head.

Definition initlog (dev : Z) : K unit :=
  if BSIZE <=? sizeof_logheader then panic "initlog: too big logheader" else
  modify (fun k => k <| locks ::= delete LLog |>);;   (* initlock *)
  s ← readsb dev;
  upd_log (fun l => l <| lg_start := s32 (sb_logstart s) |>);;
  upd_log (fun l => l <| lg_size := s32 (sb_nlog s) |>);;
  upd_log (fun l => l <| lg_dev := dev |>);;
  recover_from_log.

Definition begin_op : K unit :=
  acquire LLog;;
  repeat_until (
    l ← get_log id;
    if negb (lg_committing l =? 0) then
      Sched.sleep CLog (Some LLog);; mret None
    else if LOGSIZE <? s32 (lh_n l + (lg_outstanding l + 1) * MAXOPBLOCKS) then
      Sched.sleep CLog (Some LLog);; mret None
    else
      upd_log (fun l => l <| lg_outstanding ::= fun n => s32 (n + 1) |>);;
      release LLog;;
      mret (Some tt)).

Definition write_log : K unit :=
  for_lh (fun tail =>
    dev ← get_log lg_dev;
    start ← get_log lg_start;
    to ← bread dev (u32 (start + Z.of_nat tail + 1));
    blk ← get_lh tail;
    from ← bread dev (u32 blk);
    f ← get_buf from;
    upd_buf to (fun t => t <| b_data := b_data f |>);;
    bwrite to;;
    brelse from;;
    brelse to).

Definition commit : K unit :=
  n ← get_log lh_n;
  when (0 <? n) (
    write_log;;
    write_head;;
    install_trans;;
    upd_log (fun l => l <| lh_n := 0 |>);;
    write_head).

Definition end_op : K unit :=
  acquire LLog;;
  upd_log (fun l => l <| lg_outstanding ::= fun n => s32 (n - 1) |>);;
  l ← get_log id;
  if negb (lg_committing l =? 0) then panic "log.committing" else
  do_commit ← (if lg_outstanding l =? 0
               then upd_log (fun l => l <| lg_committing := 1 |>);; mret true
               else Sched.wakeup CLog;; mret false);
  release LLog;;
  when do_commit (
    commit;;
    acquire LLog;;
    upd_log (fun l => l <| lg_committing := 0 |>);;
    Sched.wakeup CLog;;
    release LLog).

(** The first entry of the header with the block number, or the end. *)
Definition lh_index (blockno : Z) (l : log) : nat :=
  match list_find (fun x => u32 x = blockno) (take (Z.to_nat (lh_n l)) (lh_block l)) with
  | Some (i, _) => i
  | None => Z.to_nat (lh_n l)
  end.

Definition log_write (bp : nat) : K unit :=
  l ← get_log id;
  if (LOGSIZE <=? lh_n l) || (lg_size l - 1 <=? lh_n l) then panic "too big a transaction" else
  if lg_outstanding l <? 1 then panic "log_write outside of trans" else
  acquire LLog;;
  b ← get_buf bp;
  l ← get_log id;
  let i := lh_index (b_blockno b) l in
  set_lh i (s32 (b_blockno b));;
  when (Z.of_nat i =? lh_n l) (upd_log (fun l => l <| lh_n ::= fun n => s32 (n + 1) |>));;
  upd_buf bp (fun b => b <| b_flags ::= fun x => Z.lor x B_DIRTY |>);;
  release LLog.

End with_layout.
End Log.
