(* ===== verification/Fs.v ===== *)
(** The file system (fs.c): block allocation, inodes, directories and path names,
    over the log and the buffer cache. *)

From S2P Require Import Prelude Monad State Console Sched Sleeplock Bytes Bio Log.

(** * On-disk formats (fs.h, stat.h) *)

Definition T_DIR : Z := 1.
Definition T_FILE : Z := 2.
Definition T_DEV : Z := 3.
Definition ROOTDEV : Z := 1.
Definition ROOTINO : Z := 1.
Definition NDEV : Z := 10.
Definition NINDIRECT : Z := 128.
Definition MAXFILE : Z := 12 + NINDIRECT.
Definition sizeof_dinode : nat := 64.
Definition IPB : Z := 8.
Definition BPB : Z := BSIZE * 8.
Definition DIRSIZ : nat := 14.
Definition sizeof_dirent : Z := 16.

Definition IBLOCK (i : Z) (s : superblock) : Z := u32 (i / IPB + sb_inodestart s).
Definition BBLOCK (b : Z) (s : superblock) : Z := u32 (b / BPB + sb_bmapstart s).

(** [struct dinode]: its place in the block and its fields. *)
Definition dinode_off (inum : Z) : nat := sizeof_dinode * Z.to_nat (inum mod IPB).

Definition addrs_of (off : nat) (d : list Z) : list Z :=
  (fun i => get_u32 (off + 12 + 4 * i) d) <$> seq 0 (NDIRECT + 1).

(** The copies [ilock] makes of the fields of the disk inode at [off]. *)
Definition read_dinode (off : nat) (d : list Z) (ip : inode) : inode :=
  ip <| i_type := s16 (get_u16 off d) |>
     <| i_major := s16 (get_u16 (off + 2) d) |>
     <| i_minor := s16 (get_u16 (off + 4) d) |>
     <| i_nlink := s16 (get_u16 (off + 6) d) |>
     <| i_size := get_u32 (off + 8) d |>
     <| i_addrs := addrs_of off d |>.

(** The stores [iupdate] makes to the disk inode at [off]. *)
Definition write_dinode (off : nat) (ip : inode) (d : list Z) : list Z :=
  let d := put_u16 off (i_type ip) d in
  let d := put_u16 (off + 2) (i_major ip) d in
  let d := put_u16 (off + 4) (i_minor ip) d in
  let d := put_u16 (off + 6) (i_nlink ip) d in
  let d := put_u32 (off + 8) (i_size ip) d in
  splice (off + 12) (i_addrs ip ≫= le_bytes 4) d.

(** [struct dirent]: the inode number and the name. *)
Definition de_inum (d : list Z) : Z := get_u16 0 d.
Definition de_name (d : list Z) : list Z := slice 2 DIRSIZ d.
Definition dirent (inum : Z) (name : list Z) : list Z := le_bytes 2 inum ++ name.

(** * Names

    A name is the list of its characters: the array that holds it has a NUL after
    them unless they fill it. *)

(** [strncmp] and [strncpy] on such arrays. *)
Fixpoint strncmp (n : nat) (p q : list Z) : Z :=
  match n with
  | O => 0
  | S n' =>
      let a := default 0 (p !! 0%nat) in
      let b := default 0 (q !! 0%nat) in
      if negb (a =? 0) && (a =? b) then strncmp n' (tail p) (tail q) else a - b
  end.
Fixpoint strncpy (n : nat) (t : list Z) : list Z :=
  match n with
  | O => []
  | S n' =>
      match t with
      | [] => replicate n 0
      | c :: t' => if c =? 0 then replicate n 0 else c :: strncpy n' t'
      end
  end.

Definition namecmp (s t : list Z) : Z := strncmp DIRSIZ s t.

(** [while( *path == '/') path++;] *)
Fixpoint skip_slashes (path : list Z) : list Z :=
  match path with
  | c :: path' => if c =? 47 then skip_slashes path' else path
  | [] => []
  end.
(** [while( *path != '/' && *path != 0) path++;]: what it passes over and where it
    stops. *)
Fixpoint span_elem (path : list Z) : list Z * list Z :=
  match path with
  | c :: path' => if c =? 47 then ([], path)
                  else let '(e, r) := span_elem path' in (c :: e, r)
  | [] => ([], [])
  end.

(** The rest of the path and the name; [None] when there is no element left. *)
Definition skipelem (path : list Z) : option (list Z * list Z) :=
  let path := skip_slashes path in
  match path with
  | [] => None
  | _ =>
      let '(s, path) := span_elem path in
      let name := if (DIRSIZ <=? length s)%nat then take DIRSIZ s else s in
      Some (skip_slashes path, name)
  end.

Definition get_ino (ip : nat) : K inode := deref "inode" (fun k => icache (fs k) !! ip).
Definition upd_ino (ip : nat) (g : inode -> inode) : K unit := upd_fs (fun f => f <| icache ::= alter g ip |>).

(** Where [readi] puts bytes and where [writei] gets them: the memory the pointer
    argument designates, by offset. *)
Abbreviation sink := (Z -> list Z -> K unit).
Abbreviation source := (Z -> Z -> K (list Z)).
(** A local structure of the caller, which takes the bytes [readi] reports. *)
Definition local : sink := fun _ _ => mret tt.
Definition bytes_at (bs : list Z) : source := fun off n => mret (slice (Z.to_nat off) (Z.to_nat n) bs).

(** The functions of [devsw], by major number.  A read returns its result and the
    bytes it stored. *)
Class Devsw := {
  dev_read : Z -> option (nat -> sink -> Z -> K (Z * list Z));
  dev_write : Z -> option (nat -> source -> Z -> K Z) }.

Module Fs.
Section with_layout.
Context `{Layout}.
Import Sleeplock Bio Log.

Definition get_sb : K superblock := gets (fun k => sb (fs k)).

(** * Blocks *)

Definition bzero (dev bno : Z) : K unit :=
  bp ← bread dev bno;
  upd_buf bp (fun b => b <| b_data := replicate (Z.to_nat BSIZE) 0 |>);;
  log_write bp;;
  brelse bp.

Definition bit_mask (bi : Z) : Z := Z.shiftl 1 (bi mod 8).
Definition bit_set (d : list Z) (bi : Z) : bool :=
  has_bits (default 0 (d !! Z.to_nat (bi / 8))) (bit_mask bi).

(** [for(; bi < BPB && b + bi < sb.size; bi++)]: the first clear bit. *)
Fixpoint find_clear (n : nat) (d : list Z) (b bi size : Z) : option Z :=
  match n with
  | O => None
  | S n' =>
      if (bi <? BPB) && (b + bi <? size) then
        if bit_set d bi then find_clear n' d b (bi + 1) size else Some bi
      else None
  end.

(** [for(b = 0; b < sb.size; b += BPB)] *)
Fixpoint balloc_loop (n : nat) (dev b : Z) : K Z :=
  get_sb ≫= fun s =>
  if b <? sb_size s then
    match n with
    | O => fault "balloc: fuel"
    | S n' =>
        bread dev (BBLOCK b s) ≫= fun bp =>
        get_buf bp ≫= fun bb =>
        match find_clear (Z.to_nat BPB) (b_data bb) b 0 (sb_size s) with
        | Some bi =>
            upd_buf bp (fun x => x <| b_data ::= alter (fun c => Z.lor c (bit_mask bi)) (Z.to_nat (bi / 8)) |>) ≫= fun _ =>
            log_write bp ≫= fun _ =>
            brelse bp ≫= fun _ =>
            bzero dev (b + bi) ≫= fun _ =>
            mret (b + bi)
        | None => brelse bp ≫= fun _ => balloc_loop n' dev (b + BPB)
        end
    end
  else panic "balloc: out of blocks".
Definition balloc (dev : Z) : K Z :=
  s ← get_sb;
  balloc_loop (S (Z.to_nat (sb_size s / BPB))) dev 0.

Definition bfree (dev b : Z) : K unit :=
  s ← readsb dev;
  upd_fs (fun f => f <| sb := s |>);;
  bp ← bread dev (BBLOCK b s);
  bb ← get_buf bp;
  let bi := b mod BPB in
  if negb (bit_set (b_data bb) bi) then panic "freeing free block" else
  upd_buf bp (fun x => x <| b_data ::= alter (fun c => Z.land c (Z.lnot (bit_mask bi))) (Z.to_nat (bi / 8)) |>);;
  log_write bp;;
  brelse bp.

(** * Inodes *)

Definition iinit (dev : Z) : K unit :=
  modify (fun k => k <| locks ::= delete LIcache |>);;   (* initlock *)
  for_each (seq 0 NINODE) (fun i => initsleeplock (SInode i));;
  s ← readsb dev;
  upd_fs (fun f => f <| sb := s |>);;
  Console.cprintf "sb: size %d nblocks %d ninodes %d nlog %d logstart %d inodestart %d bmap start %d
" (Console.AInt <$> [sb_size s; sb_nblocks s; sb_ninodes s; sb_nlog s; sb_logstart s; sb_inodestart s; sb_bmapstart s]).

Definition iget (dev inum : Z) : K nat :=
  acquire LIcache;;
  cached ← gets (fun k => icache (fs k));
  match list_find (fun ip => 0 < i_ref ip /\ i_dev ip = dev /\ i_inum ip = inum) cached with
  | Some (ip, _) =>
      upd_ino ip (fun i => i <| i_ref ::= fun n => s32 (n + 1) |>);;
      release LIcache;;
      mret ip
  | None =>
      match list_find (fun ip => i_ref ip = 0) cached with
      | None => panic "iget: no inodes"
      | Some (ip, _) =>
          upd_ino ip (fun i => i <| i_dev := dev |> <| i_inum := inum |> <| i_ref := 1 |> <| i_valid := 0 |>);;
          release LIcache;;
          mret ip
      end
  end.

Fixpoint ialloc_loop (n : nat) (dev inum type : Z) : K nat :=
  get_sb ≫= fun s =>
  if inum <? sb_ninodes s then
    match n with
    | O => fault "ialloc: fuel"
    | S n' =>
        bread dev (IBLOCK inum s) ≫= fun bp =>
        get_buf bp ≫= fun b =>
        let off := dinode_off inum in
        if get_u16 off (b_data b) =? 0 then
          upd_buf bp (fun b => b <| b_data ::= fun d =>
            put_u16 off type (splice off (replicate sizeof_dinode 0) d) |>) ≫= fun _ =>
          log_write bp ≫= fun _ =>
          brelse bp ≫= fun _ =>
          iget dev inum
        else brelse bp ≫= fun _ => ialloc_loop n' dev (inum + 1) type
    end
  else panic "ialloc: no inodes".
Definition ialloc (dev type : Z) : K nat :=
  s ← get_sb;
  ialloc_loop (Z.to_nat (sb_ninodes s)) dev 1 type.

Definition iupdate (ip : nat) : K unit :=
  i ← get_ino ip;
  s ← get_sb;
  bp ← bread (i_dev i) (IBLOCK (i_inum i) s);
  i ← get_ino ip;
  upd_buf bp (fun b => b <| b_data ::= write_dinode (dinode_off (i_inum i)) i |>);;
  log_write bp;;
  brelse bp.

Definition idup (ip : nat) : K nat :=
  acquire LIcache;;
  get_ino ip;;
  upd_ino ip (fun i => i <| i_ref ::= fun n => s32 (n + 1) |>);;
  release LIcache;;
  mret ip.

Definition ilock (ip : nat) : K unit :=
  i ← get_ino ip;
  if i_ref i <? 1 then panic "ilock" else
  acquiresleep (SInode ip);;
  i ← get_ino ip;
  when (i_valid i =? 0) (
    s ← get_sb;
    bp ← bread (i_dev i) (IBLOCK (i_inum i) s);
    b ← get_buf bp;
    upd_ino ip (read_dinode (dinode_off (i_inum i)) (b_data b));;
    brelse bp;;
    upd_ino ip (fun i => i <| i_valid := 1 |>);;
    i ← get_ino ip;
    when (i_type i =? 0) (panic "ilock: no type")).

Definition iunlock (ip : nat) : K unit :=
  h ← holdingsleep (SInode ip);
  if negb h then panic "iunlock" else
  i ← get_ino ip;
  if i_ref i <? 1 then panic "iunlock" else
  releasesleep (SInode ip).

(** [for(j = 0; j < NINDIRECT; j++) if(a[j]) bfree(ip->dev, a[j]);] *)
Definition free_indirect (dev : Z) (bp : nat) : K unit :=
  for_each (seq 0 (Z.to_nat NINDIRECT)) (fun j =>
    b ← get_buf bp;
    let a := get_u32 (4 * j) (b_data b) in
    when (negb (a =? 0)) (bfree dev a)).

(** [ip->addrs[i]] *)
Definition get_addr (ip i : nat) : K Z :=
  deref "ip->addrs" (fun k => icache (fs k) !! ip ≫= fun n => i_addrs n !! i).
Definition set_addr (ip i : nat) (a : Z) : K unit :=
  upd_ino ip (fun n => n <| i_addrs ::= <[i := a]> |>).

Definition itrunc (ip : nat) : K unit :=
  n ← get_ino ip;
  for_each (seq 0 NDIRECT) (fun i =>
    a ← get_addr ip i;
    when (negb (a =? 0)) (bfree (i_dev n) a;; set_addr ip i 0));;
  a ← get_addr ip NDIRECT;
  when (negb (a =? 0)) (
    bp ← bread (i_dev n) a;
    free_indirect (i_dev n) bp;;
    brelse bp;;
    bfree (i_dev n) a;;
    set_addr ip NDIRECT 0);;
  upd_ino ip (fun i => i <| i_size := 0 |>);;
  iupdate ip.

Definition iput (ip : nat) : K unit :=
  acquiresleep (SInode ip);;
  i ← get_ino ip;
  when (negb (i_valid i =? 0) && (i_nlink i =? 0)) (
    acquire LIcache;;
    i ← get_ino ip;
    release LIcache;;
    when (i_ref i =? 1) (
      itrunc ip;;
      upd_ino ip (fun i => i <| i_type := 0 |>);;
      iupdate ip;;
      upd_ino ip (fun i => i <| i_valid := 0 |>)));;
  releasesleep (SInode ip);;
  acquire LIcache;;
  upd_ino ip (fun i => i <| i_ref ::= fun n => s32 (n - 1) |>);;
  release LIcache.

Definition iunlockput (ip : nat) : K unit := iunlock ip;; iput ip.

(** * Contents *)

Definition bmap (ip : nat) (bn : Z) : K Z :=
  n ← get_ino ip;
  if bn <? Z.of_nat NDIRECT then
    addr ← get_addr ip (Z.to_nat bn);
    if addr =? 0 then
      addr ← balloc (i_dev n);
      set_addr ip (Z.to_nat bn) addr;;
      mret addr
    else mret addr
  else
  let bn := bn - Z.of_nat NDIRECT in
  if bn <? NINDIRECT then
    addr ← get_addr ip NDIRECT;
    addr ← (if addr =? 0 then
              a ← balloc (i_dev n); set_addr ip NDIRECT a;; mret a
            else mret addr);
    bp ← bread (i_dev n) addr;
    b ← get_buf bp;
    let off := (4 * Z.to_nat bn)%nat in
    let addr := get_u32 off (b_data b) in
    addr ← (if addr =? 0 then
              a ← balloc (i_dev n);
              upd_buf bp (fun b => b <| b_data ::= put_u32 off a |>);;
              log_write bp;;
              mret a
            else mret addr);
    brelse bp;;
    mret addr
  else panic "bmap: out of range".

(** [struct stat] as [stati] fills it in. *)
Record stat : Type := mkStat { st_type : Z; st_dev : Z; st_ino : Z; st_nlink : Z; st_size : Z }.
Definition stati (ip : nat) : K stat :=
  i ← get_ino ip;
  mret (mkStat (i_type i) (s32 (i_dev i)) (i_inum i) (i_nlink i) (i_size i)).

Context `{Devsw}.

(** [for(tot=0; tot<n; tot+=m, off+=m, dst+=m)]: a pass covers a block or what is
    left of one, so two passes more than the whole blocks are enough. *)
Fixpoint readi_loop (fuel : nat) (ip : nat) (dst : sink) (tot off n : Z) : K (list Z) :=
  if tot <? n then
    match fuel with
    | O => fault "readi: fuel"
    | S f =>
        get_ino ip ≫= fun i =>
        bmap ip (off / BSIZE) ≫= fun addr =>
        bread (i_dev i) addr ≫= fun bp =>
        get_buf bp ≫= fun b =>
        let m := Z.min (n - tot) (BSIZE - off mod BSIZE) in
        let bs := slice (Z.to_nat (off mod BSIZE)) (Z.to_nat m) (b_data b) in
        dst tot bs ≫= fun _ =>
        brelse bp ≫= fun _ =>
        readi_loop f ip dst (tot + m) (off + m) n ≫= fun rest =>
        mret (bs ++ rest)
    end
  else mret [].

Definition readi (ip : nat) (dst : sink) (off n : Z) : K (Z * list Z) :=
  i ← get_ino ip;
  if i_type i =? T_DEV then
    if (i_major i <? 0) || (NDEV <=? i_major i) then mret (-1, []) else
    match dev_read (i_major i) with
    | None => mret (-1, [])
    | Some f => f ip dst n
    end
  else
  if (i_size i <? off) || (u32 (off + n) <? off) then mret (-1, []) else
  let n := if i_size i <? off + n then i_size i - off else n in
  bs ← readi_loop (Z.to_nat (n / BSIZE + 2)) ip dst 0 off n;
  mret (n, bs).

Fixpoint writei_loop (fuel : nat) (ip : nat) (src : source) (tot off n : Z) : K Z :=
  if tot <? n then
    match fuel with
    | O => fault "writei: fuel"
    | S f =>
        get_ino ip ≫= fun i =>
        bmap ip (off / BSIZE) ≫= fun addr =>
        bread (i_dev i) addr ≫= fun bp =>
        let m := Z.min (n - tot) (BSIZE - off mod BSIZE) in
        src tot m ≫= fun bs =>
        upd_buf bp (fun b => b <| b_data ::= splice (Z.to_nat (off mod BSIZE)) bs |>) ≫= fun _ =>
        log_write bp ≫= fun _ =>
        brelse bp ≫= fun _ =>
        writei_loop f ip src (tot + m) (off + m) n
    end
  else mret off.

Definition writei (ip : nat) (src : source) (off n : Z) : K Z :=
  i ← get_ino ip;
  if i_type i =? T_DEV then
    if (i_major i <? 0) || (NDEV <=? i_major i) then mret (-1) else
    match dev_write (i_major i) with
    | None => mret (-1)
    | Some f => f ip src n
    end
  else
  if (i_size i <? off) || (u32 (off + n) <? off) then mret (-1) else
  if MAXFILE * BSIZE <? off + n then mret (-1) else
  off ← writei_loop (Z.to_nat (n / BSIZE + 2)) ip src 0 off n;
  i ← get_ino ip;
  when ((0 <? n) && (i_size i <? off)) (
    upd_ino ip (fun i => i <| i_size := off |>);;
    iupdate ip);;
  mret n.

(** * Directories *)

(** [for(off = 0; off < dp->size; off += sizeof(de))] up to the first entry that
    passes the test; the offset reached, and the entry if there is one. *)
Fixpoint dir_scan (fuel : nat) (msg : string) (dp : nat) (test : list Z -> bool) (off : Z) : K (Z * option (list Z)) :=
  get_ino dp ≫= fun d =>
  if off <? i_size d then
    match fuel with
    | O => fault "directory: fuel"
    | S f =>
        readi dp local off sizeof_dirent ≫= fun r =>
        if negb (r.1 =? sizeof_dirent) then panic msg else
        if test r.2 then mret (off, Some r.2)
        else dir_scan f msg dp test (off + sizeof_dirent)
    end
  else mret (off, None).

Definition dir_fuel (dp : nat) : K nat :=
  d ← get_ino dp;
  mret (Z.to_nat (i_size d / sizeof_dirent + 1)).

(** The inode of the entry and the offset of the entry. *)
Definition dirlookup (dp : nat) (name : list Z) : K (option (nat * Z)) :=
  d ← get_ino dp;
  if negb (i_type d =? T_DIR) then panic "dirlookup not DIR" else
  fuel ← dir_fuel dp;
  r ← dir_scan fuel "dirlookup read" dp
        (fun de => negb (de_inum de =? 0) && (namecmp name (de_name de) =? 0)) 0;
  match r.2 with
  | None => mret None
  | Some de =>
      d ← get_ino dp;
      ip ← iget (i_dev d) (de_inum de);
      mret (Some (ip, r.1))
  end.

Definition dirlink (dp : nat) (name : list Z) (inum : Z) : K Z :=
  r ← dirlookup dp name;
  match r with
  | Some (ip, _) => iput ip;; mret (-1)
  | None =>
      fuel ← dir_fuel dp;
      r ← dir_scan fuel "dirlink read" dp (fun de => de_inum de =? 0) 0;
      w ← writei dp (bytes_at (dirent inum (strncpy DIRSIZ name))) r.1 sizeof_dirent;
      if negb (w =? sizeof_dirent) then panic "dirlink" else mret 0
  end.

(** * Path names *)

(** The loop of [namex]; every pass removes an element from the path. *)
Fixpoint namex_loop (fuel : nat) (ip : nat) (path : list Z) (nameiparent : bool) (name : list Z)
    : K (option nat * list Z) :=
  match skipelem path with
  | None =>
      if nameiparent then iput ip ≫= fun _ => mret (None, name) else mret (Some ip, name)
  | Some (path, name) =>
      match fuel with
      | O => fault "namex: fuel"
      | S f =>
          ilock ip ≫= fun _ =>
          get_ino ip ≫= fun i =>
          if negb (i_type i =? T_DIR) then iunlockput ip ≫= fun _ => mret (None, name) else
          if nameiparent && bool_decide (path = []) then iunlock ip ≫= fun _ => mret (Some ip, name) else
          dirlookup ip name ≫= fun next =>
          match next with
          | None => iunlockput ip ≫= fun _ => mret (None, name)
          | Some (next, _) => iunlockput ip ≫= fun _ => namex_loop f next path nameiparent name
          end
      end
  end.

Definition namex (path : list Z) (nameiparent : bool) : K (option nat * list Z) :=
  ip ← (if bool_decide (path !! 0%nat = Some 47) then iget ROOTDEV ROOTINO
        else p ← curproc; pr ← get_proc p;
             match p_cwd pr with None => fault "cwd" | Some c => idup c end);
  namex_loop (S (length path)) ip path nameiparent [].

Definition namei (path : list Z) : K (option nat) :=
  r ← namex path false;
  mret r.1.
(** The parent and the last element. *)
Definition nameiparent (path : list Z) : K (option (nat * list Z)) :=
  r ← namex path true;
  mret ((fun ip => (ip, r.2)) <$> r.1).

End with_layout.
End Fs.
