(* ===== verification/Uaccess.v ===== *)
(** Accesses of kernel code to the memory of the running process, byte by byte
    through its page tables.  The processor is in supervisor mode with write
    protection on: a load needs the page present, a store needs it writable. *)

From S2P Require Import Prelude Monad State Kalloc Sched Mmu Bytes.

(** The page and the offset in it that a virtual address designates. *)
Definition user_page (k : kernel) (va : Z) (write : bool) : option (Z * nat) :=
  p ← cpu_proc k;
  pr ← ptable k !! p;
  pte ← mmu_pte (pages k) (p_pgdir pr) va;
  if has_flag pte PTE_P && (negb write || has_flag pte PTE_W)
  then Some (P2V (PTE_ADDR pte), Z.to_nat (u32 va mod PGSIZE)) else None.

(** Byte [off] of a page, and the page with that byte replaced. *)
Definition page_byte (pg : gmap Z (list Z)) (a : Z) (off : nat) : option Z :=
  (fun w => u8 (Z.shiftr w (8 * Z.of_nat (off mod 4)%nat))) <$> page_word pg a (off / 4)%nat.
Definition set_byte (w b : Z) (i : nat) : Z := le_value (<[i := b]> (le_bytes 4 w)).
Definition set_page_byte (a : Z) (off : nat) (b : Z) (pg : gmap Z (list Z)) : gmap Z (list Z) :=
  alter (alter (fun w => set_byte w b (off mod 4)%nat) (off / 4)%nat) a pg.

Definition user_byte (k : kernel) (va : Z) : option Z :=
  user_page k va false ≫= fun x => page_byte (pages k) x.1 x.2.

Definition load_u8 (va : Z) : K Z := deref "page fault" (fun k => user_byte k va).
Definition store_u8 (va b : Z) : K unit :=
  x ← deref "page fault" (fun k => user_page k va true);
  deref "page fault" (fun k => page_byte (pages k) x.1 x.2);;
  modify (fun k => k <| pages ::= set_page_byte x.1 x.2 (u8 b) |>).

Fixpoint load_bytes (va : Z) (n : nat) : K (list Z) :=
  match n with
  | O => mret []
  | S n' => load_u8 va ≫= fun b => load_bytes (u32 (va + 1)) n' ≫= fun bs => mret (b :: bs)
  end.
Fixpoint store_bytes (va : Z) (bs : list Z) : K unit :=
  match bs with
  | [] => mret tt
  | b :: bs' => store_u8 va b ≫= fun _ => store_bytes (u32 (va + 1)) bs'
  end.

Definition load_u32 (va : Z) : K Z := bs ← load_bytes va 4; mret (le_value bs).
Definition store_u32 (va x : Z) : K unit := store_bytes va (le_bytes 4 x).

(** A buffer of the process holds the bytes. *)
Definition holds_bytes (k : kernel) (addr : Z) (bs : list Z) : Prop :=
  forall i b, bs !! i = Some b -> user_byte k (u32 (addr + Z.of_nat i)) = Some b.

(** Stores change the pages only, and the locks and the pipes do not matter to them. *)
Lemma store_u8_frame va b o k k1 :
  store_u8 va b o k = Ok tt o k1 ->
  exists pg, k1 = k <| pages := pg |> /\
    forall P L, store_u8 va b o (k <| pipes := P |> <| locks := L |>)
                = Ok tt o (k <| pipes := P |> <| locks := L |> <| pages := pg |>).
Proof.
  unfold store_u8. intros (x & o1 & k2 & H1 & H2)%bind_ok_inv.
  unfold deref in H1. destruct (user_page k va true) as [y|] eqn:E1; [|done]. injection H1 as -> -> ->.
  apply bind_ok_inv in H2 as (c & o2 & k3 & H2 & H3). unfold deref in H2.
  destruct (page_byte (pages k2) x.1 x.2) as [z|] eqn:E2; [|done]. injection H2 as -> -> ->.
  injection H3 as <-. eexists. split; [reflexivity|]. intros P L.
  erewrite bind_ok by (by apply deref_some). erewrite bind_ok by (apply deref_some; rsimpl; done). done.
Qed.

Lemma store_u8_oracle va b o k r o' k1 : store_u8 va b o k = Ok r o' k1 -> o' = o.
Proof.
  unfold store_u8. intros (x & o1 & k2 & H1 & H2)%bind_ok_inv.
  unfold deref in H1. destruct (user_page k va true); [|done]. injection H1 as -> -> ->.
  apply bind_ok_inv in H2 as (c & o2 & k3 & H2 & H3). unfold deref in H2.
  destruct (page_byte _ _ _); [|done]. injection H2 as -> -> ->. by injection H3.
Qed.

Lemma store_bytes_cons va b bs o k k1 :
  store_bytes va (b :: bs) o k = Ok tt o k1 ->
  exists k2, store_u8 va b o k = Ok tt o k2 /\ store_bytes (u32 (va + 1)) bs o k2 = Ok tt o k1.
Proof.
  cbn [store_bytes]. intros ([] & o1 & k2 & H1 & H2)%bind_ok_inv.
  pose proof (store_u8_oracle _ _ _ _ _ _ _ H1) as ->. eauto.
Qed.

Lemma store_bytes_pages va bs o k k1 : store_bytes va bs o k = Ok tt o k1 -> exists pg, k1 = k <| pages := pg |>.
Proof.
  revert va k. induction bs as [|b bs IH]; intros va k Hs.
  - injection Hs as <-. exists (pages k). by destruct k.
  - destruct (store_bytes_cons _ _ _ _ _ _ Hs) as (k2 & Hs1 & Hs2).
    destruct (store_u8_frame _ _ _ _ _ Hs1) as (pg & -> & _).
    destruct (IH _ _ Hs2) as [pg' ->]. exists pg'. by destruct k.
Qed.
