(* ===== verification/Ring.v ===== *)
(** Ring buffers indexed by free-running 32-bit counters, as in pipe.c and console.c:
    position [i] of the stream is in entry [i mod N] of the array. *)

From S2P Require Import Prelude.

Definition ring_slot (N i : Z) : nat := Z.to_nat (i mod N).

(** The [n] entries from position [a] on. *)
Definition ring_span (N : Z) (d : list Z) (a : Z) (n : nat) : list Z :=
  (fun i => default 0 (d !! ring_slot N (a + Z.of_nat i))) <$> seq 0 n.

(** The distance from one counter to another. *)
Definition ring_dist (a b : Z) : Z := u32 (b - a).

Lemma ring_dist_range a b : 0 <= ring_dist a b < 2 ^ 32.
Proof. apply u32_range. Qed.

Lemma ring_dist_next a b : is_u32 a -> is_u32 b -> ring_dist a b < 2 ^ 32 - 1 ->
  ring_dist a (u32 (b + 1)) = ring_dist a b + 1.
Proof. unfold ring_dist, u32, is_u32. intros. Z.to_euclidean_division_equations. lia. Qed.

Lemma ring_dist_prev a b : is_u32 a -> is_u32 b -> 0 < ring_dist a b -> ring_dist a (u32 (b - 1)) = ring_dist a b - 1.
Proof. unfold ring_dist, u32, is_u32. intros. Z.to_euclidean_division_equations. lia. Qed.

Lemma ring_dist_pull a b : is_u32 a -> is_u32 b -> 0 < ring_dist a b -> ring_dist (u32 (a + 1)) b = ring_dist a b - 1.
Proof. unfold ring_dist, u32, is_u32. intros. Z.to_euclidean_division_equations. lia. Qed.

Lemma ring_dist_zero a b : is_u32 a -> is_u32 b -> ring_dist a b = 0 <-> a = b.
Proof. unfold ring_dist, u32, is_u32. intros. Z.to_euclidean_division_equations. lia. Qed.

Lemma ring_dist_refl a : ring_dist a a = 0.
Proof. unfold ring_dist. by rewrite Z.sub_diag. Qed.

Section ring.
Context (N : Z).
Hypothesis N_pos : 0 < N.
Hypothesis N_div : (N | 2 ^ 32).

Lemma ring_slot_u32 x : ring_slot N (u32 x) = ring_slot N x.
Proof. unfold ring_slot, u32. f_equal. destruct N_div as [c Hc]. rewrite Hc, Z.mul_comm, Z.rem_mul_r by nia.
  rewrite (Z.mul_comm N), Z_mod_plus_full. apply Z.mod_mod. lia.
Qed.

Lemma ring_slot_lt x : (ring_slot N x < Z.to_nat N)%nat.
Proof. unfold ring_slot. pose proof (Z.mod_pos_bound x N N_pos). lia. Qed.

Lemma ring_slot_inj a i j : 0 <= i < N -> 0 <= j < N -> ring_slot N (a + i) = ring_slot N (a + j) -> i = j.
Proof.
  unfold ring_slot. intros Hi Hj He.
  pose proof (Z.mod_pos_bound (a + i) N N_pos). pose proof (Z.mod_pos_bound (a + j) N N_pos).
  pose proof (Z.div_mod (a + i) N ltac:(lia)). pose proof (Z.div_mod (a + j) N ltac:(lia)).
  assert (i - j = N * ((a + i) / N - (a + j) / N)) as Hd by lia.
  assert ((a + i) / N - (a + j) / N = 0) by nia. lia.
Qed.

(** A counter is its distance from another one. *)
Lemma ring_slot_dist a b i : ring_slot N (b + i) = ring_slot N (a + ring_dist a b + i).
Proof.
  rewrite <- ring_slot_u32, <- (ring_slot_u32 (a + _ + _)). f_equal. unfold ring_dist, u32.
  replace (a + (b - a) mod 2 ^ 32 + i) with (a + i + (b - a) mod 2 ^ 32) by lia.
  rewrite Z.add_mod_idemp_r by done. f_equal. lia.
Qed.

Lemma length_ring_span d a n : length (ring_span N d a n) = n.
Proof. unfold ring_span. by rewrite length_fmap, length_seq. Qed.

Lemma ring_span_app d a n m : ring_span N d a (n + m) = ring_span N d a n ++ ring_span N d (a + Z.of_nat n) m.
Proof.
  unfold ring_span. rewrite seq_app, fmap_app. f_equal. simpl.
  replace (seq n m) with ((fun i => n + i)%nat <$> seq 0 m) by (rewrite fmap_add_seq; f_equal; lia).
  rewrite <- list_fmap_compose. apply list_fmap_ext. intros _ i _. unfold compose.
  do 3 f_equal. lia.
Qed.

Lemma ring_span_one d a : ring_span N d a 1 = [default 0 (d !! ring_slot N a)].
Proof. unfold ring_span. simpl. by rewrite Z.add_0_r. Qed.

Lemma ring_span_cong d a b n : (forall i, ring_slot N (a + i) = ring_slot N (b + i)) -> ring_span N d a n = ring_span N d b n.
Proof. intros He. apply list_fmap_ext. intros _ i _. by rewrite He. Qed.

Lemma ring_span_u32 d a n : ring_span N d (u32 a) n = ring_span N d a n.
Proof. apply ring_span_cong. intros i. by rewrite <- (ring_slot_u32 (u32 a + i)), u32_idemp_l, ring_slot_u32. Qed.

(** Writing at a position [j] past the span leaves it alone. *)
Lemma ring_span_insert d a n b j c :
  (forall i, ring_slot N (b + i) = ring_slot N (a + j + i)) -> Z.of_nat n <= j < N ->
  ring_span N (<[ring_slot N b := c]> d) a n = ring_span N d a n.
Proof.
  intros Hb Hj. apply list_fmap_ext. intros _ i Hi%list_elem_of_lookup_2%elem_of_seq.
  rewrite list_lookup_insert_ne; [done|]. specialize (Hb 0). rewrite !Z.add_0_r in Hb. rewrite Hb.
  intros He%ring_slot_inj; lia.
Qed.

(** Appending at the end of a span that does not fill the ring. *)
Lemma ring_span_push d a b c :
  length d = Z.to_nat N -> is_u32 a -> is_u32 b -> ring_dist a b < N ->
  ring_span N (<[ring_slot N b := c]> d) a (Z.to_nat (ring_dist a b + 1)) = ring_span N d a (Z.to_nat (ring_dist a b)) ++ [c].
Proof.
  intros Hd Ha Hb Hn. pose proof (ring_dist_range a b).
  rewrite Z2Nat.inj_add, ring_span_app by lia. f_equal.
  - apply (ring_span_insert _ _ _ _ (ring_dist a b)); [intros; apply ring_slot_dist|lia].
  - change (Z.to_nat 1) with 1%nat. rewrite ring_span_one, Z2Nat.id by lia.
    pose proof (ring_slot_dist a b 0) as Hs. rewrite !Z.add_0_r in Hs. rewrite <- Hs.
    rewrite list_lookup_insert_eq; [done|]. rewrite Hd. apply ring_slot_lt.
Qed.

(** The first entry of a span and the rest. *)
Lemma ring_span_pull d a b :
  is_u32 a -> is_u32 b -> 0 < ring_dist a b ->
  ring_span N d a (Z.to_nat (ring_dist a b)) =
    default 0 (d !! ring_slot N a) :: ring_span N d (u32 (a + 1)) (Z.to_nat (ring_dist (u32 (a + 1)) b)).
Proof.
  intros Ha Hb Hp. rewrite ring_dist_pull by done.
  replace (Z.to_nat (ring_dist a b)) with (1 + Z.to_nat (ring_dist a b - 1))%nat by lia.
  rewrite ring_span_app, ring_span_one, ring_span_u32. done.
Qed.

(** The last entry of a span. *)
Lemma ring_span_last d a b :
  is_u32 a -> is_u32 b -> 0 < ring_dist a b ->
  ring_span N d a (Z.to_nat (ring_dist a b)) =
    ring_span N d a (Z.to_nat (ring_dist a (u32 (b - 1)))) ++ [default 0 (d !! ring_slot N (u32 (b - 1)))].
Proof.
  intros Ha Hb Hp. pose proof (ring_dist_prev a b Ha Hb Hp) as Hd.
  replace (Z.to_nat (ring_dist a b)) with (Z.to_nat (ring_dist a (u32 (b - 1))) + 1)%nat
    by (pose proof (ring_dist_range a b); lia).
  rewrite ring_span_app, ring_span_one. pose proof (ring_dist_range a (u32 (b - 1))).
  pose proof (ring_slot_dist a (u32 (b - 1)) 0) as Hs. rewrite !Z.add_0_r in Hs.
  by rewrite Hs, Z2Nat.id by lia.
Qed.

Lemma ring_slot_data (d : list Z) i : length d = Z.to_nat N -> is_Some (d !! ring_slot N i).
Proof. intros Hd. apply lookup_lt_is_Some. rewrite Hd. apply ring_slot_lt. Qed.
End ring.
