(* ===== verification/Pipe.v ===== *)
(** Pipes (pipe.c): a ring buffer of [PIPESIZE] bytes between two open files. *)

From S2P Require Import Prelude Monad State Kalloc Sched Uaccess Ring.

Module Pipe.
Section with_layout.
Context `{Layout}.

Definition get_pipe (p : Z) : K pipe := deref "pipe" (fun k => pipes k !! p).
Definition upd_pipe (p : Z) (f : pipe -> pipe) : K unit := modify (fun k => k <| pipes ::= alter f p |>).

(** [p->data[i % PIPESIZE]] *)
Definition slot (i : Z) : nat := ring_slot PIPESIZE i.

(** The page goes back to the allocator with the pipe in it. *)
Definition free_pipe (p : Z) : K unit :=
  modify (fun k => k <| pipes ::= delete p |>);;
  Kalloc.kfree p.

Definition pipeclose (p : Z) (writable : bool) : K unit :=
  acquire (LPipe p);;
  get_pipe p;;
  (if writable then
     upd_pipe p (fun pi => pi <| pi_writeopen := 0 |>);;
     Sched.wakeup (CNread p)
   else
     upd_pipe p (fun pi => pi <| pi_readopen := 0 |>);;
     Sched.wakeup (CNwrite p));;
  pi ← get_pipe p;
  if (pi_readopen pi =? 0) && (pi_writeopen pi =? 0) then
    release (LPipe p);;
    free_pipe p
  else release (LPipe p).

(** [myproc()->killed] *)
Definition killed : K bool :=
  p ← curproc;
  pr ← get_proc p;
  mret (negb (p_killed pr =? 0)).

(** The wait for room: [true] when the writer has to give up. *)
Definition await_room (p : Z) : K bool :=
  repeat_until (
    pi ← get_pipe p;
    if pi_nwrite pi =? u32 (pi_nread pi + PIPESIZE) then
      dead ← (if pi_readopen pi =? 0 then mret true else killed);
      if (dead : bool) then mret (Some true) else
      Sched.wakeup (CNread p);;
      Sched.sleep (CNwrite p) (Some (LPipe p));;
      mret None
    else mret (Some false)).

(** [p->data[p->nwrite++ % PIPESIZE] = c] *)
Definition push (c : Z) (pi : pipe) : pipe :=
  pi <| pi_data ::= <[slot (pi_nwrite pi) := c]> |> <| pi_nwrite ::= fun n => u32 (n + 1) |>.

Fixpoint pipewrite_loop (js : list Z) (p addr : Z) : K bool :=
  match js with
  | [] => mret true
  | i :: js' =>
      await_room p ≫= fun dead =>
      if (dead : bool) then mret false else
      load_u8 (u32 (addr + i)) ≫= fun c =>
      upd_pipe p (push c) ≫= fun _ =>
      pipewrite_loop js' p addr
  end.

Definition pipewrite (p addr n : Z) : K Z :=
  acquire (LPipe p);;
  ok ← pipewrite_loop (Z.of_nat <$> seq 0 (Z.to_nat n)) p addr;
  if negb ok then release (LPipe p);; mret (-1) else
  Sched.wakeup (CNread p);;
  release (LPipe p);;
  mret n.

(** The wait for data: [true] when the reader was killed. *)
Definition await_data (p : Z) : K bool :=
  repeat_until (
    pi ← get_pipe p;
    if (pi_nread pi =? pi_nwrite pi) && negb (pi_writeopen pi =? 0) then
      dead ← killed;
      if (dead : bool) then mret (Some true) else
      Sched.sleep (CNread p) (Some (LPipe p));;
      mret None
    else mret (Some false)).

(** [p->data[p->nread++ % PIPESIZE]] *)
Definition pull (pi : pipe) : pipe := pi <| pi_nread ::= fun n => u32 (n + 1) |>.

(** The number of bytes copied. *)
Fixpoint piperead_loop (js : list Z) (p addr : Z) (done : Z) : K Z :=
  match js with
  | [] => mret done
  | i :: js' =>
      get_pipe p ≫= fun pi =>
      if pi_nread pi =? pi_nwrite pi then mret done else
      deref "pipe data" (fun _ => pi_data pi !! slot (pi_nread pi)) ≫= fun c =>
      upd_pipe p pull ≫= fun _ =>
      store_u8 (u32 (addr + i)) c ≫= fun _ =>
      piperead_loop js' p addr (i + 1)
  end.

Definition piperead (p addr n : Z) : K Z :=
  acquire (LPipe p);;
  dead ← await_data p;
  if (dead : bool) then release (LPipe p);; mret (-1) else
  i ← piperead_loop (Z.of_nat <$> seq 0 (Z.to_nat n)) p addr 0;
  Sched.wakeup (CNwrite p);;
  release (LPipe p);;
  mret i.

(** * The ring buffer as a queue *)

Definition count (pi : pipe) : Z := ring_dist (pi_nread pi) (pi_nwrite pi).

(** The bytes written and not yet read, oldest first. *)
Definition contents (pi : pipe) : list Z :=
  ring_span PIPESIZE (pi_data pi) (pi_nread pi) (Z.to_nat (count pi)).

Record pipe_ok (pi : pipe) : Prop := {
  po_data : length (pi_data pi) = Z.to_nat PIPESIZE;
  po_nread : is_u32 (pi_nread pi);
  po_nwrite : is_u32 (pi_nwrite pi);
  po_count : count pi <= PIPESIZE }.

Lemma PIPESIZE_div : (PIPESIZE | 2 ^ 32).
Proof. by exists (2 ^ 23). Qed.

Lemma count_range pi : 0 <= count pi < 2 ^ 32.
Proof. apply u32_range. Qed.

Lemma length_contents pi : length (contents pi) = Z.to_nat (count pi).
Proof. apply length_ring_span. Qed.

Lemma full_count pi : pipe_ok pi -> (pi_nwrite pi =? u32 (pi_nread pi + PIPESIZE)) = (count pi =? PIPESIZE).
Proof.
  intros [_ Hr Hw Hc]. apply eq_true_iff_eq. rewrite !Z.eqb_eq. unfold count, ring_dist, u32, is_u32, PIPESIZE in *.
  Z.to_euclidean_division_equations. lia.
Qed.

Lemma empty_count pi : pipe_ok pi -> (pi_nread pi =? pi_nwrite pi) = (count pi =? 0).
Proof.
  intros [_ Hr Hw Hc]. apply eq_true_iff_eq. rewrite !Z.eqb_eq. unfold count. by rewrite ring_dist_zero.
Qed.

Lemma count_push c pi : pipe_ok pi -> count pi < PIPESIZE -> count (push c pi) = count pi + 1.
Proof.
  intros [_ Hr Hw _] Hc. unfold count, push. rsimpl. apply ring_dist_next; [done..|].
  unfold count, PIPESIZE in *. lia.
Qed.

Lemma push_ok c pi : pipe_ok pi -> count pi < PIPESIZE -> pipe_ok (push c pi).
Proof.
  intros Hok Hc. split; [| | |rewrite count_push by done; lia].
  all: unfold push; rsimpl; rewrite ?length_insert; first [apply u32_range|apply Hok].
Qed.

Lemma push_contents c pi : pipe_ok pi -> count pi < PIPESIZE -> contents (push c pi) = contents pi ++ [c].
Proof.
  intros Hok Hc. unfold contents at 1. rewrite count_push by done. unfold push. rsimpl.
  apply ring_span_push; [done|apply PIPESIZE_div|apply Hok..|done].
Qed.

Lemma pull_ok pi : pipe_ok pi -> 0 < count pi -> pipe_ok (pull pi) /\ count (pull pi) = count pi - 1.
Proof.
  intros [Hd Hr Hw Hc] Hn.
  assert (count (pull pi) = count pi - 1) as E by (unfold count, pull; rsimpl; by apply ring_dist_pull).
  split; [|done]. split; [unfold pull; rsimpl; done|unfold pull; rsimpl; apply u32_range|unfold pull; by rsimpl|lia].
Qed.

(** The oldest byte leaves the queue. *)
Lemma pull_contents pi c : pipe_ok pi -> 0 < count pi -> pi_data pi !! slot (pi_nread pi) = Some c ->
  contents pi = c :: contents (pull pi).
Proof.
  intros Hok Hn Hc. unfold contents at 1, count. rewrite ring_span_pull by (apply PIPESIZE_div || apply Hok || done).
  unfold slot in Hc. rewrite Hc. unfold contents, count, pull. by rsimpl.
Qed.

Lemma slot_data pi i : pipe_ok pi -> is_Some (pi_data pi !! slot i).
Proof. intros Hok. apply ring_slot_data; [done|apply Hok]. Qed.

(** * Reading and writing *)

Lemma upd_pipe_at p pi f k :
  pipes k !! p = Some pi -> k <| pipes ::= alter f p |> = k <| pipes ::= <[p := f pi]> |>.
Proof. intros Hp. kernel_eq. by apply map_alter_insert. Qed.

Lemma await_room_ready p pi o k :
  pipes k !! p = Some pi -> pipe_ok pi -> count pi < PIPESIZE -> await_room p o k = Ok false o k.
Proof.
  intros Hp Hok Hc. apply repeat_once. unfold get_pipe.
  erewrite bind_ok by (by apply deref_some). rewrite full_count by done.
  by destruct (Z.eqb_spec (count pi) PIPESIZE); [lia|].
Qed.

Lemma pipewrite_loop_room p addr o bs a k pi :
  pipes k !! p = Some pi -> pipe_ok pi -> count pi + Z.of_nat (length bs) <= PIPESIZE ->
  (forall i b, bs !! i = Some b -> user_byte k (u32 (addr + Z.of_nat (a + i))) = Some b) ->
  exists pi', pipewrite_loop (Z.of_nat <$> seq a (length bs)) p addr o k
              = Ok true o (k <| pipes ::= <[p := pi']> |>)
    /\ pipe_ok pi' /\ contents pi' = contents pi ++ bs
    /\ pi_readopen pi' = pi_readopen pi /\ pi_writeopen pi' = pi_writeopen pi.
Proof.
  revert a k pi. induction bs as [|b bs IH]; intros a k pi Hp Hok Hc Hb.
  - exists pi. rewrite app_nil_r. split_and!; [|done..]. simpl. unfold mret, M_ret. f_equal.
    kernel_eq. by rewrite insert_id.
  - cbn [length seq fmap list_fmap pipewrite_loop] in *. pose proof (count_range pi).
    erewrite bind_ok by (apply (await_room_ready p pi); [done..|lia]). cbv beta iota.
    assert (user_byte k (u32 (addr + Z.of_nat a)) = Some b) as Hb0.
    { rewrite <- (Hb 0%nat b) by done. do 3 f_equal. lia. }
    unfold load_u8. erewrite bind_ok by (by apply deref_some).
    unfold upd_pipe. mbind_step. rewrite (upd_pipe_at p pi) by done.
    edestruct (IH (S a) (k <| pipes ::= <[p := push b pi]> |>) (push b pi)) as (pi' & He & H1 & H2 & H3 & H4).
    + rsimpl. by rewrite lookup_insert_eq.
    + apply push_ok; [done|lia].
    + rewrite count_push by (done || lia). lia.
    + intros i c Hi. rewrite <- (Hb (S i) c) by done. replace (a + S i)%nat with (S a + i)%nat by lia.
      unfold user_byte, user_page. by rsimpl.
    + exists pi'. rewrite push_contents in H2 by (done || lia). rewrite <- app_assoc in H2.
      split_and!; [|done|done|by rewrite H3|by rewrite H4].
      rewrite He. f_equal. kernel_eq. by rewrite insert_insert_eq.
Qed.

(** The loop of [piperead] stores the oldest bytes, as [store_bytes] would, and
    leaves the rest in the pipe. *)
Lemma piperead_loop_data p addr o m a k pi P L k1 :
  P !! p = Some pi -> pipe_ok pi ->
  store_bytes (u32 (addr + Z.of_nat a)) (take m (contents pi)) o k = Ok tt o k1 ->
  exists pi', piperead_loop (Z.of_nat <$> seq a m) p addr (Z.of_nat a) o (k <| pipes := P |> <| locks := L |>)
      = Ok (Z.of_nat (a + length (take m (contents pi)))) o (k1 <| pipes := <[p := pi']> P |> <| locks := L |>)
    /\ pipe_ok pi' /\ contents pi' = drop m (contents pi)
    /\ pi_readopen pi' = pi_readopen pi /\ pi_writeopen pi' = pi_writeopen pi.
Proof.
  revert a k pi P. induction m as [|m IH]; intros a k pi P Hp Hok Hs.
  - exists pi. simpl in *. injection Hs as <-. rewrite Nat.add_0_r.
    split_and!; [|done..]. unfold mret, M_ret. f_equal. kernel_eq. by rewrite insert_id.
  - cbn [seq fmap list_fmap piperead_loop]. unfold get_pipe.
    erewrite bind_ok by (apply deref_some; rsimpl; done). rewrite empty_count by done.
    destruct (Z.eqb_spec (count pi) 0) as [E|E].
    + assert (contents pi = []) as Ec by (apply nil_length_inv; rewrite length_contents; lia).
      rewrite Ec in *. simpl in *. injection Hs as <-. exists pi. rewrite Nat.add_0_r.
      split_and!; [|done..]. unfold mret, M_ret. f_equal. kernel_eq. by rewrite insert_id.
    + pose proof (count_range pi). destruct (slot_data pi (pi_nread pi) Hok) as [c Hc].
      rewrite (pull_contents pi c) in * by (done || lia). cbn [take drop length] in *.
      destruct (store_bytes_cons _ _ _ _ _ _ Hs) as (k2 & Hs1 & Hs2).
      destruct (store_u8_frame _ _ _ _ _ Hs1) as (pg & -> & Hf).
      rewrite u32_idemp_l in Hs2.
      replace (addr + Z.of_nat a + 1) with (addr + Z.of_nat (S a)) in Hs2 by lia.
      destruct (pull_ok pi Hok ltac:(lia)) as [Hok' _].
      destruct (IH (S a) (k <| pages := pg |>) (pull pi) (<[p := pull pi]> P)) as (pi' & He & H1 & H2 & H3 & H4);
        [by rewrite lookup_insert_eq|done|exact Hs2|].
      exists pi'. split_and!; [|done|done|done|done].
      erewrite bind_ok by (by apply deref_some). unfold upd_pipe. mbind_step.
      rewrite (upd_pipe_at p pi) by (rsimpl; done).
      specialize (Hf (<[p := pull pi]> P) L).
      erewrite bind_ok by (etransitivity; [|exact Hf]; f_equal; kernel_eq).
      replace (Z.of_nat a + 1) with (Z.of_nat (S a)) by lia.
      replace (k <| pipes := <[p := pull pi]> P |> <| locks := L |> <| pages := pg |>)
        with (k <| pages := pg |> <| pipes := <[p := pull pi]> P |> <| locks := L |>) by kernel_eq.
      rewrite He. f_equal; [lia|]. kernel_eq. by rewrite insert_insert_eq.
Qed.

Lemma pipewrite_eq p addr bs pi o k :
  pipes k !! p = Some pi -> pipe_ok pi -> count pi + Z.of_nat (length bs) <= PIPESIZE ->
  holds_bytes k addr bs -> unlocked (LPipe p) k -> unlocked LPtable k ->
  exists pi', pipewrite p addr (Z.of_nat (length bs)) o k
      = Ok (Z.of_nat (length bs)) o
          (k <| pipes ::= <[p := pi']> |> <| ptable ::= fmap (Sched.wakeup1_proc (CNread p)) |>)
    /\ pipe_ok pi' /\ contents pi' = contents pi ++ bs
    /\ pi_readopen pi' = pi_readopen pi /\ pi_writeopen pi' = pi_writeopen pi.
Proof.
  intros Hp Hok Hc Hb Hl Hpt. unfold pipewrite. mbind_step. rewrite Nat2Z.id.
  destruct (pipewrite_loop_room p addr o bs 0 (k <| locks ::= <[LPipe p := Me]> |>) pi)
    as (pi' & He & H1 & H2 & H3 & H4); [by rsimpl|done|done|..].
  { intros j b Hj. rewrite <- (Hb j b) by done. unfold user_byte, user_page. by rsimpl. }
  exists pi'. split_and!; [|done..]. erewrite bind_ok by exact He. cbn [negb].
  erewrite bind_ok by (apply Sched.wakeup_eq; solve_lock).
  erewrite bind_ok by (apply release_locked; solve_lock).
  unfold mret, M_ret. f_equal. kernel_eq.
Qed.

Lemma await_data_ready p pi o k :
  pipes k !! p = Some pi -> pipe_ok pi -> 0 < count pi \/ pi_writeopen pi = 0 ->
  await_data p o k = Ok false o k.
Proof.
  intros Hp Hok Hc. apply repeat_once. unfold get_pipe.
  erewrite bind_ok by (by apply deref_some). rewrite empty_count by done.
  destruct (Z.eqb_spec (count pi) 0), (Z.eqb_spec (pi_writeopen pi) 0); try done; lia.
Qed.

Lemma piperead_eq p addr n pi o k k1 :
  pipes k !! p = Some pi -> pipe_ok pi -> 0 < count pi \/ pi_writeopen pi = 0 ->
  store_bytes (u32 addr) (take (Z.to_nat n) (contents pi)) o k = Ok tt o k1 ->
  unlocked (LPipe p) k -> unlocked LPtable k ->
  exists pi', piperead p addr n o k
      = Ok (Z.of_nat (length (take (Z.to_nat n) (contents pi)))) o
          (k1 <| pipes ::= <[p := pi']> |> <| ptable ::= fmap (Sched.wakeup1_proc (CNwrite p)) |>)
    /\ pipe_ok pi' /\ contents pi' = drop (Z.to_nat n) (contents pi)
    /\ pi_readopen pi' = pi_readopen pi /\ pi_writeopen pi' = pi_writeopen pi.
Proof.
  intros Hp Hok Hc Hs Hl Hpt. unfold piperead. mbind_step.
  erewrite bind_ok by (eapply await_data_ready; rsimpl; done). cbv beta iota.
  destruct (piperead_loop_data p addr o (Z.to_nat n) 0 k pi (pipes k) (<[LPipe p := Me]> (locks k)) k1)
    as (pi' & He & H1 & H2 & H3 & H4); [done|done|by rewrite Z.add_0_r|].
  exists pi'. split_and!; [|done..].
  assert (exists pg, k1 = k <| pages := pg |>) as [pg ->] by (eapply store_bytes_pages; exact Hs).
  erewrite bind_ok by (etransitivity; [|exact He]; f_equal; kernel_eq).
  erewrite bind_ok by (apply Sched.wakeup_eq; solve_lock).
  erewrite bind_ok by (apply release_locked; solve_lock).
  unfold mret, M_ret. f_equal. kernel_eq.
Qed.

End with_layout.

Section properties.
Context `{Layout}.

(** C37. Writing to a pipe with room appends the caller's bytes to the queue of bytes
    in it, wakes the readers and returns their number; the ring buffer wraps without
    losing or reordering any. *)
Theorem pipewrite_appends p addr bs pi o k :
  pipes k !! p = Some pi -> pipe_ok pi ->
  Z.of_nat (length (contents pi)) + Z.of_nat (length bs) <= PIPESIZE ->
  holds_bytes k addr bs -> unlocked (LPipe p) k -> unlocked LPtable k ->
  exists pi' k', pipewrite p addr (Z.of_nat (length bs)) o k = Ok (Z.of_nat (length bs)) o k'
    /\ pipes k' !! p = Some pi' /\ pipe_ok pi' /\ contents pi' = contents pi ++ bs
    /\ ptable k' = Sched.wakeup1_proc (CNread p) <$> ptable k
    /\ pages k' = pages k /\ locks k' = locks k.
Proof.
  intros Hp Hok Hc Hb Hl Hpt. rewrite length_contents in Hc. pose proof (count_range pi).
  destruct (pipewrite_eq p addr bs pi o k) as (pi' & He & H1 & H2 & _); [done|done|lia|done..|].
  do 2 eexists. split; [exact He|]. rsimpl. rewrite lookup_insert_eq. done.
Qed.

(** C38. Reading from a pipe takes the oldest bytes, at most [n], stores them in the
    caller's buffer, wakes the writers and returns their number. *)
Theorem piperead_takes p addr n pi o k k1 :
  pipes k !! p = Some pi -> pipe_ok pi -> contents pi <> [] \/ pi_writeopen pi = 0 ->
  store_bytes (u32 addr) (take (Z.to_nat n) (contents pi)) o k = Ok tt o k1 ->
  unlocked (LPipe p) k -> unlocked LPtable k ->
  exists pi' k', piperead p addr n o k = Ok (Z.of_nat (length (take (Z.to_nat n) (contents pi)))) o k'
    /\ pipes k' !! p = Some pi' /\ pipe_ok pi' /\ contents pi' = drop (Z.to_nat n) (contents pi)
    /\ ptable k' = Sched.wakeup1_proc (CNwrite p) <$> ptable k
    /\ pages k' = pages k1 /\ locks k' = locks k.
Proof.
  intros Hp Hok Hc Hs Hl Hpt.
  destruct (piperead_eq p addr n pi o k k1) as (pi' & He & H1 & H2 & _); [done|done| |done..|].
  { destruct Hc as [Hc|]; [|by right]. left. pose proof (count_range pi).
    destruct (decide (count pi = 0)) as [E|]; [|lia]. destruct Hc.
    apply nil_length_inv. rewrite length_contents. lia. }
  destruct (store_bytes_pages _ _ _ _ _ Hs) as [pg ->].
  do 2 eexists. split; [exact He|]. rsimpl. rewrite lookup_insert_eq. done.
Qed.

(** The ends of a pipe: a reader of an empty pipe nobody can write to gets 0
    bytes, a writer to a full pipe nobody can read from gets -1, and neither waits. *)
Theorem pipe_ends p addr n pi o k :
  pipes k !! p = Some pi -> pipe_ok pi -> 0 < n -> unlocked (LPipe p) k -> unlocked LPtable k ->
  (contents pi = [] -> pi_writeopen pi = 0 -> exists k', piperead p addr n o k = Ok 0 o k' /\ pages k' = pages k)
  /\ (Z.of_nat (length (contents pi)) = PIPESIZE -> pi_readopen pi = 0 -> pipewrite p addr n o k = Ok (-1) o k).
Proof.
  intros Hp Hok Hn Hl Hpt. split.
  - intros Hc Hw. destruct (piperead_eq p addr n pi o k k) as (pi' & He & _); try done.
    { by right. } { by rewrite Hc, take_nil. }
    rewrite Hc, take_nil in He. eexists. split; [exact He|]. by rsimpl.
  - intros Hc Hr. unfold pipewrite. mbind_step. rewrite length_contents in Hc. pose proof (count_range pi).
    replace (Z.to_nat n) with (S (Z.to_nat (n - 1))) by lia. cbn [seq fmap list_fmap pipewrite_loop].
    rewrite bind_assoc.
    erewrite (bind_ok (await_room p)).
    2:{ apply repeat_once. unfold get_pipe. erewrite bind_ok by (apply deref_some; by rsimpl).
        rewrite full_count by done. destruct (Z.eqb_spec (count pi) PIPESIZE); [|lia]. by rewrite Hr. }
    cbv beta iota. mbind_step. cbn [negb]. mrun. unfold mret, M_ret. f_equal. kernel_eq.
Qed.

End properties.
End Pipe.

(** * A pipe of a small system

    The first page of the process is at 0x80302000, and the counters of the pipe are
    about to wrap. *)
Module PipeExample.
Import Pipe.
#[local] Existing Instance Kalloc.small_layout.

Definition page_with (w : Z) (i : nat) : list Z := <[i := w]> (replicate 1024 0).
Definition user_pages : gmap Z (list Z) :=
  list_to_map [(0x80300000, page_with 0x301007 0); (0x80301000, page_with 0x302007 0); (0x80302000, page_with 0x64636261 4)].
Definition a_pipe : pipe := mkPipe (replicate (Z.to_nat PIPESIZE) 0) (2 ^ 32 - 1) (2 ^ 32 - 1) 1 1.
Definition with_pipe (pi : pipe) : kernel := Sched.small_kernel <| pages := user_pages |> <| pipes := {[0x80400000 := pi]} |>.

Lemma a_pipe_ok : pipe_ok a_pipe.
Proof. by split. Qed.

Lemma abcd_in_memory pi : holds_bytes (with_pipe pi) 16 [97; 98; 99; 100].
Proof. intros [|[|[|[|i]]]] b Hb; simplify_eq/=; by vm_compute. Qed.

Lemma pipewrite_appends_witness : exists pi' k', pipewrite 0x80400000 16 4 [] (with_pipe a_pipe) = Ok 4 [] k'
  /\ pipes k' !! 0x80400000 = Some pi' /\ contents pi' = [97; 98; 99; 100].
Proof.
  destruct (pipewrite_appends 0x80400000 16 [97; 98; 99; 100] a_pipe [] (with_pipe a_pipe)) as (pi' & k' & E & Hp & _ & Hc & _);
    [done|apply a_pipe_ok|by vm_compute|apply abcd_in_memory|done|done|].
  exists pi', k'. split; [exact E|]. split; [exact Hp|]. by rewrite Hc.
Defined.

Definition full_pipe : pipe := fold_left (fun pi c => push c pi) [97; 98; 99] a_pipe.

Lemma piperead_takes_witness : exists pi' k', piperead 0x80400000 32 2 [] (with_pipe full_pipe) = Ok 2 [] k'
  /\ pipes k' !! 0x80400000 = Some pi' /\ contents pi' = [99].
Proof.
  assert (exists k1, store_bytes (u32 32) (take (Z.to_nat 2) (contents full_pipe)) [] (with_pipe full_pipe) = Ok tt [] k1) as [k1 H1].
  { eexists. by vm_compute. }
  destruct (piperead_takes 0x80400000 32 2 full_pipe [] (with_pipe full_pipe) k1) as (pi' & k' & E & Hp & _ & Hc & _);
    [done|by split|left; by vm_compute|exact H1|done|done|].
  exists pi', k'. split; [exact E|]. split; [exact Hp|]. by rewrite Hc.
Defined.

Lemma pipe_ends_witness : exists k', piperead 0x80400000 16 4 [] (with_pipe (a_pipe <| pi_writeopen := 0 |>)) = Ok 0 [] k'.
Proof.
  destruct (pipe_ends 0x80400000 16 4 (a_pipe <| pi_writeopen := 0 |>) [] (with_pipe (a_pipe <| pi_writeopen := 0 |>))) as [H _];
    [done|by split|lia|done|done|]. destruct (H eq_refl eq_refl) as (k' & E & _). exists k'. exact E.
Defined.

End PipeExample.
