(* ===== verification/File.v ===== *)
(** Open files (file.c) and the creation of pipes (pipe.c). *)

From S2P Require Import Prelude Monad State Kalloc Sched Sleeplock Bytes Uaccess Bio Log Fs Pipe.

Module File.
Section with_layout.
Context `{Layout, Devsw}.
Import Log Fs.

Definition get_file (f : nat) : K file := deref "file" (fun k => ftable (fs k) !! f).
Definition upd_file (f : nat) (g : file -> file) : K unit := upd_fs (fun s => s <| ftable ::= alter g f |>).

Definition fileinit : K unit := modify (fun k => k <| locks ::= delete LFtable |>).   (* initlock *)

Definition filealloc : K (option nat) :=
  acquire LFtable;;
  files ← gets (fun k => ftable (fs k));
  match list_find (fun f => f_ref f = 0) files with
  | Some (f, _) =>
      upd_file f (fun f => f <| f_ref := 1 |>);;
      release LFtable;;
      mret (Some f)
  | None => release LFtable;; mret None
  end.

Definition filedup (f : nat) : K nat :=
  acquire LFtable;;
  ff ← get_file f;
  if f_ref ff <? 1 then panic "filedup" else
  upd_file f (fun f => f <| f_ref ::= fun n => s32 (n + 1) |>);;
  release LFtable;;
  mret f.

(** The inode of an open file. *)
Definition file_inode (f : file) : K nat := deref "f->ip" (fun _ => f_ip f).

Definition fileclose (f : nat) : K unit :=
  acquire LFtable;;
  ff ← get_file f;
  if f_ref ff <? 1 then panic "fileclose" else
  upd_file f (fun f => f <| f_ref ::= fun n => s32 (n - 1) |>);;
  ff ← get_file f;
  if 0 <? f_ref ff then release LFtable else
  upd_file f (fun f => f <| f_ref := 0 |>);;
  upd_file f (fun f => f <| f_type := FD_NONE |>);;
  release LFtable;;
  match f_type ff with
  | FD_PIPE => Pipe.pipeclose (f_pipe ff) (f_writable ff)
  | FD_INODE =>
      begin_op;;
      ip ← file_inode ff;
      iput ip;;
      end_op
  | FD_NONE => mret tt
  end.

(** The stores [stati] makes through the pointer. *)
Definition store_stat (addr : Z) (st : stat) : K unit :=
  store_bytes (u32 (addr + 4)) (le_bytes 4 (st_dev st));;
  store_bytes (u32 (addr + 8)) (le_bytes 4 (st_ino st));;
  store_bytes addr (le_bytes 2 (st_type st));;
  store_bytes (u32 (addr + 12)) (le_bytes 2 (st_nlink st));;
  store_bytes (u32 (addr + 16)) (le_bytes 4 (st_size st)).

Definition filestat (f : nat) (addr : Z) : K Z :=
  ff ← get_file f;
  match f_type ff with
  | FD_INODE =>
      ip ← file_inode ff;
      ilock ip;;
      st ← stati ip;
      store_stat addr st;;
      iunlock ip;;
      mret 0
  | _ => mret (-1)
  end.

(** A buffer of the process. *)
Definition to_user (addr : Z) : sink := fun off bs => store_bytes (u32 (addr + off)) bs.
Definition from_user (addr : Z) : source := fun off n => load_bytes (u32 (addr + off)) (Z.to_nat n).

Definition fileread (f : nat) (addr n : Z) : K Z :=
  ff ← get_file f;
  if negb (f_readable ff) then mret (-1) else
  match f_type ff with
  | FD_PIPE => Pipe.piperead (f_pipe ff) addr n
  | FD_INODE =>
      ip ← file_inode ff;
      ilock ip;;
      ff ← get_file f;
      r ← readi ip (to_user addr) (f_off ff) (u32 n);
      when (0 <? r.1) (upd_file f (fun f => f <| f_off ::= fun o => u32 (o + r.1) |>));;
      iunlock ip;;
      mret r.1
  | FD_NONE => panic "fileread"
  end.

(** The bytes one transaction may write. *)
Definition write_max : Z := ((MAXOPBLOCKS - 1 - 1 - 2) / 2) * 512.

(** [while(i < n)]: the number of bytes written when the loop stops.  A pass writes
    at least one byte. *)
Fixpoint filewrite_loop (fuel : nat) (f ip : nat) (addr i n : Z) : K Z :=
  if i <? n then
    match fuel with
    | O => fault "filewrite: fuel"
    | S fuel' =>
        let n1 := if write_max <? n - i then write_max else n - i in
        begin_op ≫= fun _ =>
        ilock ip ≫= fun _ =>
        get_file f ≫= fun ff =>
        writei ip (from_user (u32 (addr + i))) (f_off ff) n1 ≫= fun r =>
        when (0 <? r) (upd_file f (fun f => f <| f_off ::= fun o => u32 (o + r) |>)) ≫= fun _ =>
        iunlock ip ≫= fun _ =>
        end_op ≫= fun _ =>
        if r <? 0 then mret i else
        if negb (r =? n1) then panic "short filewrite" else
        filewrite_loop fuel' f ip addr (i + r) n
    end
  else mret i.

Definition filewrite (f : nat) (addr n : Z) : K Z :=
  ff ← get_file f;
  if negb (f_writable ff) then mret (-1) else
  match f_type ff with
  | FD_PIPE => Pipe.pipewrite (f_pipe ff) addr n
  | FD_INODE =>
      ip ← file_inode ff;
      i ← filewrite_loop (Z.to_nat n) f ip addr 0 n;
      mret (if i =? n then n else -1)
  | FD_NONE => panic "filewrite"
  end.

(** * [pipealloc] of pipe.c *)

Definition pipe_bad (f0 f1 : option nat) : K (option (nat * nat)) :=
  match f0 with Some f => fileclose f | None => mret tt end;;
  match f1 with Some f => fileclose f | None => mret tt end;;
  mret None.

(** The bytes of a pipe come after its spin lock in its page. *)
Definition offsetof_data : nat := 52.

(** A page holds the pipe; its bytes are what the page held. *)
Definition pipealloc : K (option (nat * nat)) :=
  f0 ← filealloc;
  match f0 with
  | None => pipe_bad None None
  | Some f0 =>
      f1 ← filealloc;
      match f1 with
      | None => pipe_bad (Some f0) None
      | Some f1 =>
          p ← Kalloc.kalloc;
          if p =? 0 then pipe_bad (Some f0) (Some f1) else
          pg ← deref "pipe" (fun k => pages k !! p);
          let data := slice offsetof_data (Z.to_nat PIPESIZE) (pg ≫= le_bytes 4) in
          modify (fun k => k <| pipes ::= <[p := mkPipe data 0 0 1 1]> |>);;
          modify (fun k => k <| locks ::= delete (LPipe p) |>);;   (* initlock *)
          upd_file f0 (fun f => f <| f_type := FD_PIPE |> <| f_readable := true |>
                                  <| f_writable := false |> <| f_pipe := p |>);;
          upd_file f1 (fun f => f <| f_type := FD_PIPE |> <| f_readable := false |>
                                  <| f_writable := true |> <| f_pipe := p |>);;
          mret (Some (f0, f1))
      end
  end.

End with_layout.
End File.
