(* ===== verification/Threads.v ===== *)
(** Processes and threads, second part of proc.c: the first process, [fork], [exit]
    and [wait], the thread calls [kthread_create], [kthread_exit] and
    [kthread_join], and the process listing. *)

From S2P Require Import Prelude Monad State Console Kalloc Sched Mmu Vm Mutex Sleeplock Bytes Bio Log Fs Uaccess Pipe File.

(** [safestrcpy] into an array: the bytes stored for the string [t], when [n]
    characters fit before the terminator.  The terminator is stored twice when the
    string ends first. *)
Fixpoint safestrcpy_bytes (n : nat) (t : list Z) : list Z :=
  match n with
  | O => [0]
  | S n' =>
      let c := default 0 (t !! 0%nat) in
      if c =? 0 then [0; 0] else c :: safestrcpy_bytes n' (tail t)
  end.
Definition safestrcpy (s t : list Z) (n : nat) : list Z := splice 0 (safestrcpy_bytes (n - 1) t) s.

Module Threads.
Section with_layout.
Context `{Layout, Devsw}.
Import Log Fs File.

Definition sizeof_name : nat := 16.

(** The first process, from the bytes of initcode.S. *)
Definition userinit (initcode : list Z) : K unit :=
  p ← Sched.allocproc;
  match p with None => fault "userinit" | Some p =>
  t ← Sched.allocthread p;
  modify (fun k => k <| initproc := Some p |>);;
  pgdir ← Vm.setupkvm;
  upd_proc p (fun p => p <| p_pgdir := pgdir |>);;
  if pgdir =? 0 then panic "userinit: out of memory?" else
  Vm.inituvm pgdir initcode;;
  upd_proc p (fun p => p <| p_sz := PGSIZE |>);;
  match t with None => fault "userinit" | Some t =>
  let cs := Z.lor (Z.shiftl SEG_UCODE 3) DPL_USER in
  let ds := Z.lor (Z.shiftl SEG_UDATA 3) DPL_USER in
  upd_thread t (fun t => t <| t_frame :=
    zero_trapframe <| tf_cs := cs |> <| tf_ds := ds |> <| tf_es := ds |> <| tf_ss := ds |>
      <| tf_eflags := FL_IF |> <| tf_esp := PGSIZE |> <| tf_eip := 0 |> |>);;
  upd_proc p (fun p => p <| p_name ::= fun s => safestrcpy s (str "initcode") sizeof_name |>);;
  upd_thread t (fun t => t <| t_name ::= fun s => safestrcpy s (str "initcodeThread") sizeof_name |>);;
  cwd ← namei (str "/");
  upd_proc p (fun p => p <| p_cwd := cwd |>);;
  acquire LPtable;;
  upd_proc p (fun p => p <| p_state := USED |>);;
  upd_thread t (fun t => t <| t_state := T_RUNNABLE |>);;
  release LPtable
  end end.

Definition growproc (n : Z) : K Z :=
  p ← curproc;
  t ← mythread;
  acquire LPtable;;
  pr ← get_proc p;
  let sz := p_sz pr in
  sz' ← (if 0 <? n then Vm.allocuvm (p_pgdir pr) sz (u32 (sz + n))
         else if n <? 0 then Vm.deallocuvm (p_pgdir pr) sz (u32 (sz + n))
         else mret sz);
  if negb (n =? 0) && (sz' =? 0) then release LPtable;; mret (-1) else
  upd_proc p (fun p => p <| p_sz := sz' |>);;
  release LPtable;;
  Sched.switchuvm t (Some p);;
  mret 0.

Definition fork : K Z :=
  cp ← curproc;
  ct ← curthread;
  np ← Sched.allocproc;
  match np with None => mret (-1) | Some np =>
  nt ← Sched.allocthread np;
  match nt with None => mret (-1) | Some nt =>
  cpr ← get_proc cp;
  pgdir ← Vm.copyuvm (p_pgdir cpr) (p_sz cpr);
  upd_proc np (fun p => p <| p_pgdir := pgdir |>);;
  if pgdir =? 0 then
    th ← get_thread nt;
    Kalloc.kfree (t_kstack th);;
    upd_thread nt (fun t => t <| t_kstack := 0 |>);;
    upd_proc np (fun p => p <| p_state := UNUSED |>);;
    upd_thread nt (fun t => t <| t_state := T_UNUSED |>);;
    mret (-1)
  else
  cpr ← get_proc cp;
  upd_proc np (fun p => p <| p_sz := p_sz cpr |>);;
  upd_proc np (fun p => p <| p_parent := Some cp |>);;
  cth ← get_thread ct;
  upd_thread nt (fun t => t <| t_frame := t_frame cth |>);;
  upd_thread nt (fun t => t <| t_frame ::= fun f => f <| tf_eax := 0 |> |>);;
  for_each (seq 0 NOFILE) (fun i =>
    cpr ← get_proc cp;
    match mjoin (p_ofile cpr !! i) with
    | Some f => f' ← filedup f; upd_proc np (fun p => p <| p_ofile ::= <[i := Some f']> |>)
    | None => mret tt
    end);;
  cpr ← get_proc cp;
  cwd ← deref "cwd" (fun _ => p_cwd cpr);
  c ← idup cwd;
  upd_proc np (fun p => p <| p_cwd := Some c |>);;
  upd_proc np (fun p => p <| p_name ::= fun s => safestrcpy s (p_name cpr) sizeof_name |>);;
  upd_thread nt (fun t => t <| t_name ::= fun s => safestrcpy s (t_name cth) sizeof_name |>);;
  npr ← get_proc np;
  acquire LPtable;;
  upd_proc np (fun p => p <| p_state := USED |>);;
  upd_thread nt (fun t => t <| t_state := T_RUNNABLE |>);;
  release LPtable;;
  mret (p_pid npr)
  end end.

(** * Exit *)

(** Tell the other threads of the process to die, and rouse the sleepers. *)
Definition doom (tid : Z) (t : thread) : thread :=
  let t := if negb (t_tid t =? tid) then t <| t_shouldDie := 1 |> else t in
  Sched.rouse t.

(** Free a zombie's entry of the thread table. *)
Definition reap (t : tptr) : K unit :=
  th ← get_thread t;
  Kalloc.kfree (t_kstack th);;
  upd_thread t (fun t => t <| t_kstack := 0 |>);;
  upd_thread t (fun t => t <| t_tid := 0 |>);;
  upd_thread t (fun t => t <| t_state := T_UNUSED |>).

(** One pass over the thread table: reap the zombies, count the others in use. *)
Fixpoint count_threads (rousing : bool) (p : nat) (ts : list nat) (numthread : Z) : K Z :=
  match ts with
  | [] => mret numthread
  | i :: ts' =>
      when rousing (upd_thread (p, i) Sched.rouse) ≫= fun _ =>
      get_thread (p, i) ≫= fun th =>
      if bool_decide (t_state th = T_ZOMBIE) then
        reap (p, i) ≫= fun _ =>
        upd_proc p (fun p => p <| p_numOfthread ::= fun n => s32 (n - 1) |>) ≫= fun _ =>
        count_threads rousing p ts' numthread
      else if bool_decide (t_state th = T_UNUSED) then count_threads rousing p ts' numthread
      else count_threads rousing p ts' (numthread + 1)
  end.

(** [while(numthread > 1)]: the CPU spins while the others run. *)
Definition await_threads (rousing : bool) (p : nat) : K unit :=
  repeat_until (
    n ← count_threads rousing p (seq 0 NTHREAD) 0;
    if 1 <? n then wait_env;; mret None else mret (Some tt)).

(** [for(t = p->ttable; ...) wakeup1(t)] *)
Definition wake_threads (p : nat) : K unit :=
  for_each (seq 0 NTHREAD) (fun i => Sched.wakeup1 (CThread p i)).

Definition exit : K unit :=
  cp ← curproc;
  ct ← curthread;
  init ← gets initproc;
  if bool_decide (Some cp = init) then panic "init exiting" else
  acquire LPtable;;
  cth ← get_thread ct;
  upd_proc cp (fun p => p <| p_ttable ::= fmap (doom (t_tid cth)) |>);;
  release LPtable;;
  await_threads false cp;;
  for_each (seq 0 MAX_MUTEXES) (fun i =>
    m ← Mutex.get_mutex i;
    pr ← get_proc cp;
    when (m_pid_holder m =? p_pid pr) (Mutex.kthread_mutex_dealloc (m_mid m);; mret tt));;
  for_each (seq 0 NOFILE) (fun fd =>
    pr ← get_proc cp;
    match mjoin (p_ofile pr !! fd) with
    | Some f => fileclose f;; upd_proc cp (fun p => p <| p_ofile ::= <[fd := None]> |>)
    | None => mret tt
    end);;
  begin_op;;
  pr ← get_proc cp;
  cwd ← deref "cwd" (fun _ => p_cwd pr);
  iput cwd;;
  end_op;;
  upd_proc cp (fun p => p <| p_cwd := None |>);;
  acquire LPtable;;
  pr ← get_proc cp;
  parent ← deref "parent" (fun _ => p_parent pr);
  wake_threads parent;;
  for_each (seq 0 NPROC) (fun q =>
    qr ← get_proc q;
    when (bool_decide (p_parent qr = Some cp)) (
      init ← gets initproc;
      upd_proc q (fun p => p <| p_parent := init |>);;
      when (bool_decide (p_state qr = ZOMBIE)) (
        ip ← deref "initproc" (fun _ => init);
        wake_threads ip)));;
  upd_proc cp (fun p => p <| p_state := ZOMBIE |>);;
  upd_proc cp (fun p => p <| p_ttable ::= fmap (fun t =>
    if bool_decide (t_state t = T_UNUSED) then t else t <| t_state := T_ZOMBIE |>) |>);;
  Sched.sched;;
  panic "zombie exit".

Definition exitThread : K unit :=
  acquire LPtable;;
  t ← curthread;
  for_each (seq 0 NTHREAD) (fun _ => Sched.wakeup1 (CThread t.1 t.2));;
  upd_thread t (fun t => t <| t_shouldDie := 0 |>);;
  upd_thread t (fun t => t <| t_state := T_ZOMBIE |>);;
  Sched.sched;;
  panic "exitThread exit".

(** Another thread of the process is alive. *)
Definition other_alive (tid : Z) (t : thread) : bool :=
  negb (tid =? t_tid t) && negb (bool_decide (t_state t = T_ZOMBIE)) && negb (bool_decide (t_state t = T_UNUSED)).

Definition kthread_exit : K unit :=
  ct ← curthread;
  cp ← curproc;
  cth ← get_thread ct;
  pr ← get_proc cp;
  if existsb (other_alive (t_tid cth)) (p_ttable pr) then exitThread else exit;; exitThread.

(** A [sleep] that finds the thread told to die calls [kthread_exit] on the spot,
    which may itself sleep.  Every such call follows a return of the scheduler. *)
Fixpoint die (n : nat) (o : list (kernel -> kernel)) (k : kernel) : outcome kernel unit :=
  match kthread_exit o k with
  | Exiting o' k' => match n with O => Waiting k' | S n' => die n' o' k' end
  | r => r
  end.
Definition dying {A} (m : K A) : K A := fun o k =>
  match m o k with
  | Exiting o' k' =>
      match die (length o') o' k' with
      | Ok _ o2 k2 => Fault "kthread_exit returned" k2
      | Panic msg k2 => Panic msg k2
      | Fault msg k2 => Fault msg k2
      | Exiting o2 k2 => Exiting o2 k2
      | Waiting k2 => Waiting k2
      end
  | r => r
  end.

(** * Wait *)

(** Free a zombie child; its pid. *)
Definition free_child (p : nat) : K Z :=
  for_each (seq 0 NTHREAD) (fun i =>
    th ← get_thread (p, i);
    when (bool_decide (t_state th = T_ZOMBIE)) (reap (p, i)));;
  pr ← get_proc p;
  Vm.freevm (p_pgdir pr);;
  upd_proc p (fun p => p <| p_pid := 0 |> <| p_parent := None |>
    <| p_name ::= <[0%nat := 0]> |> <| p_killed := 0 |> <| p_state := UNUSED |>);;
  mret (p_pid pr).

Definition is_child (cp : nat) (p : proc) : Prop := p_parent p = Some cp.
#[export] Instance is_child_dec cp p : Decision (is_child cp p).
Proof. unfold is_child. apply _. Defined.

Definition wait : K Z :=
  cp ← curproc;
  ct ← curthread;
  acquire LPtable;;
  repeat_until (
    ps ← gets ptable;
    match list_find (fun p => is_child cp p /\ p_state p = ZOMBIE) ps with
    | Some (i, _) =>
        pid ← free_child i;
        release LPtable;;
        mret (Some pid)
    | None =>
        cpr ← get_proc cp;
        if negb (existsb (fun p => bool_decide (is_child cp p)) ps) || negb (p_killed cpr =? 0) then
          release LPtable;;
          mret (Some (-1))
        else
          Sched.sleep (CThread ct.1 ct.2) (Some LPtable);;
          mret None
    end).

Definition forkret : K unit :=
  release LPtable;;
  first ← gets (fun k => fs_first (fs k));
  when first (
    upd_fs (fun f => f <| fs_first := false |>);;
    iinit ROOTDEV;;
    initlog ROOTDEV).

(** * Threads *)

Definition kthread_create (start_func stack : Z) : K Z :=
  ct ← mythread;
  match ct with None => mret (-1) | Some ct =>
  if (start_func =? 0) || (stack =? 0) then mret (-1) else
  p ← curproc;
  t ← Sched.allocthread p;
  match t with None => mret (-1) | Some t =>
  acquire LPtable;;
  upd_thread t (fun t => t <| t_name ::= fun s => safestrcpy s (str "thread") 7 |>);;
  cth ← get_thread ct;
  upd_thread t (fun t => t <| t_frame := t_frame cth |>);;
  upd_thread t (fun t => t <| t_frame ::= fun f => f <| tf_esp := stack |> |>);;
  upd_thread t (fun t => t <| t_frame ::= fun f => f <| tf_eip := start_func |> |>);;
  upd_thread t (fun t => t <| t_state := T_RUNNABLE |>);;
  release LPtable;;
  th ← get_thread t;
  mret (t_tid th)
  end end.

(** The first thread with the id, over the processes in use. *)
Fixpoint find_thread (tid : Z) (i : nat) (ps : list proc) : option tptr :=
  match ps with
  | [] => None
  | p :: ps' =>
      if bool_decide (p_state p = UNUSED) then find_thread tid (S i) ps' else
      match list_find (fun t => t_tid t = tid) (p_ttable p) with
      | Some (j, _) => Some (i, j)
      | None => find_thread tid (S i) ps'
      end
  end.

Definition kthread_join (thread_id : Z) : K Z :=
  acquire LPtable;;
  repeat_until (
    ct ← curthread;
    cth ← get_thread ct;
    if negb (t_shouldDie cth =? 0) then release LPtable;; kthread_exit;; mret (Some 0) else
    ps ← gets ptable;
    match find_thread thread_id 0 ps with
    | None => release LPtable;; mret (Some (-1))
    | Some t =>
        th ← get_thread t;
        if bool_decide (t_state th = T_UNUSED) then panic "kthread_join-thread unused is necessary" else
        if bool_decide (t_state th = T_ZOMBIE) then
          release LPtable;;
          Kalloc.kfree (t_kstack th);;
          upd_thread t (fun t => t <| t_kstack := 0 |>);;
          upd_thread t (fun t => t <| t_tid := 0 |>);;
          upd_thread t (fun t => t <| t_shouldDie := 0 |>);;
          upd_thread t (fun t => t <| t_state := T_UNUSED |>);;
          mret (Some 0)
        else
          Sched.sleep (CThread t.1 t.2) (Some LPtable);;
          mret None
    end).

(** * Process listing *)

Definition state_name (s : threadstate) : string :=
  match s with
  | T_UNUSED => "t_unused"
  | T_EMBRYO => "t_embryo"
  | T_SLEEPING => "t_sleep "
  | T_RUNNABLE => "t_runble"
  | T_RUNNING => "t_run   "
  | T_ZOMBIE => "t_zombie"
  end.

(** The characters of a name, up to its NUL. *)
Fixpoint until_nul (s : list Z) : list Z :=
  match s with
  | c :: s' => if c =? 0 then [] else c :: until_nul s'
  | [] => []
  end.

(** [callerpcs] are the return addresses on a thread's kernel stack, up to the first
    zero. *)
Definition procdump (callerpcs : tptr -> list Z) : K unit :=
  for_each (seq 0 NPROC) (fun p =>
    pr ← get_proc p;
    when (negb (bool_decide (p_state pr = UNUSED))) (
      for_each (seq 0 NTHREAD) (fun i =>
        t ← get_thread (p, i);
        Console.cprintf "%d %s %s" [Console.AInt (t_tid t); Console.AStr (Some (str (state_name (t_state t))));
                                    Console.AStr (Some (until_nul (t_name t)))];;
        when (bool_decide (t_state t = T_SLEEPING))
          (for_each (take 10 (callerpcs (p, i))) (fun pc => Console.cprintf " %p" [Console.AInt pc]));;
        Console.cprintf "
" []))).

End with_layout.
End Threads.
