(* ===== verification/Kbd.v ===== *)
(** The keyboard driver (kbd.c, kbd.h): scan codes to characters. *)

From S2P Require Import Prelude.

Module Kbd.

Definition SHIFT : Z := Z.shiftl 1 0.
Definition CTL : Z := Z.shiftl 1 1.
Definition ALT : Z := Z.shiftl 1 2.
Definition CAPSLOCK : Z := Z.shiftl 1 3.
Definition NUMLOCK : Z := Z.shiftl 1 4.
Definition SCROLLLOCK : Z := Z.shiftl 1 5.
Definition E0ESC : Z := Z.shiftl 1 6.

Definition KEY_HOME : Z := 0xE0.
Definition KEY_END : Z := 0xE1.
Definition KEY_UP : Z := 0xE2.
Definition KEY_DN : Z := 0xE3.
Definition KEY_LF : Z := 0xE4.
Definition KEY_RT : Z := 0xE5.
Definition KEY_PGUP : Z := 0xE6.
Definition KEY_PGDN : Z := 0xE7.
Definition KEY_INS : Z := 0xE8.
Definition KEY_DEL : Z := 0xE9.

(** An array of 256 bytes from its first entries and the entries given by index. *)
Definition table (l : list Z) (at_index : list (nat * Z)) : list Z :=
  foldl (fun t x => <[x.1 := u8 x.2]> t) (l ++ replicate (256 - length l) 0) at_index.

Definition shiftcode : list Z :=
  table [] [(0x1D, CTL); (0x2A, SHIFT); (0x36, SHIFT); (0x38, ALT); (0x9D, CTL); (0xB8, ALT)]%nat.
Definition togglecode : list Z :=
  table [] [(0x3A, CAPSLOCK); (0x45, NUMLOCK); (0x46, SCROLLLOCK)]%nat.

(** The extended keys, the same in every map but for Enter and the slash. *)
Definition extended (enter div : Z) : list (nat * Z) :=
  [(0x9C, enter); (0xB5, div); (0xC8, KEY_UP); (0xD0, KEY_DN); (0xC9, KEY_PGUP); (0xD1, KEY_PGDN);
   (0xCB, KEY_LF); (0xCD, KEY_RT); (0x97, KEY_HOME); (0xCF, KEY_END); (0xD2, KEY_INS); (0xD3, KEY_DEL)]%nat.

Definition normalmap : list Z := table
  [0; 27; 49; 50; 51; 52; 53; 54;             (* NO ESC 1 2 3 4 5 6 *)
   55; 56; 57; 48; 45; 61; 8; 9;              (* 7 8 9 0 - = BS TAB *)
   113; 119; 101; 114; 116; 121; 117; 105;    (* q w e r t y u i *)
   111; 112; 91; 93; 10; 0; 97; 115;          (* o p [ ] NL NO a s *)
   100; 102; 103; 104; 106; 107; 108; 59;     (* d f g h j k l ; *)
   39; 96; 0; 92; 122; 120; 99; 118;          (* quote ` NO \ z x c v *)
   98; 110; 109; 44; 46; 47; 0; 42;           (* b n m , . / NO * *)
   0; 32; 0; 0; 0; 0; 0; 0;
   0; 0; 0; 0; 0; 0; 0; 55;                   (* keypad 7 *)
   56; 57; 45; 52; 53; 54; 43; 49;
   50; 51; 48; 46; 0; 0; 0; 0] (extended 10 47).

Definition shiftmap : list Z := table
  [0; 27; 33; 64; 35; 36; 37; 94;
   38; 42; 40; 41; 95; 43; 8; 9;
   81; 87; 69; 82; 84; 89; 85; 73;            (* Q W E R T Y U I *)
   79; 80; 123; 125; 10; 0; 65; 83;
   68; 70; 71; 72; 74; 75; 76; 58;
   34; 126; 0; 124; 90; 88; 67; 86;
   66; 78; 77; 60; 62; 63; 0; 42;
   0; 32; 0; 0; 0; 0; 0; 0;
   0; 0; 0; 0; 0; 0; 0; 55;
   56; 57; 45; 52; 53; 54; 43; 49;
   50; 51; 48; 46; 0; 0; 0; 0] (extended 10 47).

(** [C(x)], Control-x. *)
Definition ctl (x : Z) : Z := x - 64.

Definition ctlmap : list Z := table
  [0; 0; 0; 0; 0; 0; 0; 0;
   0; 0; 0; 0; 0; 0; 0; 0;
   ctl 81; ctl 87; ctl 69; ctl 82; ctl 84; ctl 89; ctl 85; ctl 73;
   ctl 79; ctl 80; 0; 0; 13; 0; ctl 65; ctl 83;
   ctl 68; ctl 70; ctl 71; ctl 72; ctl 74; ctl 75; ctl 76; 0;
   0; 0; 0; ctl 92; ctl 90; ctl 88; ctl 67; ctl 86;
   ctl 66; ctl 78; ctl 77; 0; 0; u8 (ctl 47); 0; 0] (extended 13 (ctl 47)).

Definition charcode (i : Z) : list Z :=
  if i =? 0 then normalmap else if i =? 1 then shiftmap else ctlmap.

Definition entry (t : list Z) (i : Z) : Z := default 0 (t !! Z.to_nat i).

(** One scan code: the new shift state and the character, 0 for none. *)
Definition kbdgetc (shift data : Z) : Z * Z :=
  if data =? 0xE0 then (Z.lor shift E0ESC, 0) else
  if negb (Z.land data 0x80 =? 0) then
    let data := if negb (Z.land shift E0ESC =? 0) then data else Z.land data 0x7F in
    (Z.land shift (Z.lnot (Z.lor (entry shiftcode data) E0ESC)), 0)
  else
  let '(data, shift) :=
    if negb (Z.land shift E0ESC =? 0) then (Z.lor data 0x80, Z.land shift (Z.lnot E0ESC)) else (data, shift) in
  let shift := Z.lor shift (entry shiftcode data) in
  let shift := Z.lxor shift (entry togglecode data) in
  let c := entry (charcode (Z.land shift (Z.lor CTL SHIFT))) data in
  let c := if negb (Z.land shift CAPSLOCK =? 0) then
             if (97 <=? c) && (c <=? 122) then c + (65 - 97)
             else if (65 <=? c) && (c <=? 90) then c + (97 - 65) else c
           else c in
  (shift, c).

(** The characters a sequence of scan codes gives. *)
Fixpoint kbd_run (shift : Z) (codes : list Z) : Z * list Z :=
  match codes with
  | [] => (shift, [])
  | d :: codes' =>
      let '(shift, c) := kbdgetc shift d in
      let '(shift, cs) := kbd_run shift codes' in
      (shift, c :: cs)
  end.

(** ** Exhaustive checks *)

Definition upto (n : nat) : list Z := Z.of_nat <$> seq 0 n.

Lemma forall_upto (P : Z -> bool) n : forallb P (upto n) = true -> forall z, 0 <= z < Z.of_nat n -> P z = true.
Proof.
  rewrite forallb_forall. intros HP z Hz. apply HP. unfold upto. apply in_map_iff. exists (Z.to_nat z).
  split; [lia|]. apply in_seq. lia.
Qed.

Definition ranges_ok (shift data : Z) : bool :=
  let '(s, c) := kbdgetc shift data in (0 <=? s) && (s <? 128) && (0 <=? c) && (c <? 256).

Lemma ranges_all : forallb (fun s => forallb (ranges_ok s) (upto 256)) (upto 128) = true.
Proof. vm_compute. reflexivity. Qed.

(** Whatever the keyboard sends, the shift state stays seven bits and every
    character is a byte, so that all four tables are read within bounds. *)
Theorem kbd_ranges shift data :
  0 <= shift < 128 -> 0 <= data < 256 ->
  0 <= (kbdgetc shift data).1 < 128 /\ 0 <= (kbdgetc shift data).2 < 256.
Proof.
  intros Hs Hd. pose proof (forall_upto _ 128 ranges_all shift Hs) as H1.
  pose proof (forall_upto _ 256 H1 data Hd) as H2. unfold ranges_ok in H2.
  destruct (kbdgetc shift data) as [s c]. simpl. lia.
Qed.

Lemma kbd_ranges_witness : 0 <= (kbdgetc 64 0x4D).1 < 128 /\ (kbdgetc 64 0x4D).2 = KEY_RT.
Proof. split; [apply (kbd_ranges 64 0x4D); lia|reflexivity]. Defined.

(** Pressing and releasing a key: the release code is the key's with the top bit. *)
Definition stroke (d : Z) : list Z := [d; Z.lor d 0x80].

Definition stroke_ok (shift d : Z) : bool :=
  (d =? 0x60) || negb (Z.land shift (entry shiftcode d) =? 0) ||
  (((kbd_run shift (stroke d)).1 =? Z.lxor shift (entry togglecode d)) &&
   ((kbd_run shift (stroke d ++ stroke d)).1 =? shift)).

Lemma stroke_all : forallb (fun s => forallb (stroke_ok s) (upto 128)) (upto 64) = true.
Proof. vm_compute. reflexivity. Qed.

(** Pressing and releasing a key leaves the shift state as it was, but for the
    lock keys, which flip their lock: shift and control do not stick, and a lock key
    struck twice undoes itself.  The key 0x60 is excluded: its release code is the
    escape prefix. *)
Theorem kbd_stroke shift d :
  0 <= shift < 64 -> 0 <= d < 128 -> d <> 0x60 -> Z.land shift (entry shiftcode d) = 0 ->
  (kbd_run shift (stroke d)).1 = Z.lxor shift (entry togglecode d) /\
  (kbd_run shift (stroke d ++ stroke d)).1 = shift.
Proof.
  intros Hs Hd Hne Hz. pose proof (forall_upto _ 64 stroke_all shift Hs) as H1.
  pose proof (forall_upto _ 128 H1 d Hd) as H2. unfold stroke_ok in H2. rewrite Hz in H2.
  destruct (Z.eqb_spec d 0x60); [done|]. cbn [Z.eqb negb orb] in H2.
  apply andb_true_iff in H2 as [H2 H3]. rewrite !Z.eqb_eq in *. done.
Qed.

Lemma kbd_stroke_witness :
  (kbd_run 0 (stroke 0x3A)).1 = CAPSLOCK /\ (kbd_run CAPSLOCK (stroke 0x2A ++ stroke 0x2A)).1 = CAPSLOCK.
Proof.
  split; [apply (kbd_stroke 0 0x3A)|apply (kbd_stroke CAPSLOCK 0x2A)]; try reflexivity; try (split; vm_compute; congruence); vm_compute; congruence.
Defined.

End Kbd.
