(* ===== verification/ConsoleIn.v ===== *)
(** Console input (console.c, kbd.c, uart.c): line editing in a ring buffer, and the
    console as a device file. *)

From S2P Require Import Prelude Monad State Console Kalloc Sched Sleeplock Bio Log Fs Uaccess Ring Pipe File Kbd Threads.

Module ConsoleIn.
Section with_layout.
Context `{Layout}.
Import Console.

(** [input.buf[i % INPUT_BUF]] *)
Definition in_slot (i : Z) : nat := ring_slot INPUT_BUF i.
Definition in_char (c : console) (i : Z) : Z := default 0 (in_buf c !! in_slot i).

Definition get_cons {A} (f : console -> A) : K A := gets (fun k => f (cons k)).

(** [while(input.e != input.w && input.buf[(input.e-1) % INPUT_BUF] != '\n')]: at
    most one pass for each character of the line. *)
Fixpoint kill_line (fuel : nat) : K unit :=
  get_cons id ≫= fun c =>
  if negb (in_e c =? in_w c) && negb (in_char c (u32 (in_e c - 1)) =? 10) then
    match fuel with
    | O => fault "kill_line: fuel"
    | S n =>
        upd_cons (fun c => c <| in_e ::= fun e => u32 (e - 1) |>) ≫= fun _ =>
        consputc BACKSPACE ≫= fun _ =>
        kill_line n
    end
  else mret tt.

(** The body of the loop of [consoleintr]: [true] asks for the process listing. *)
Definition input_char (c : Z) : K bool :=
  if c =? Kbd.ctl 80 then mret true else
  s ← get_cons id;
  (if c =? Kbd.ctl 85 then kill_line (Z.to_nat (u32 (in_e s - in_w s)))
   else if (c =? Kbd.ctl 72) || (c =? 0x7f) then
     when (negb (in_e s =? in_w s)) (
       upd_cons (fun c => c <| in_e ::= fun e => u32 (e - 1) |>);;
       consputc BACKSPACE)
   else
     when (negb (c =? 0) && (u32 (in_e s - in_r s) <? INPUT_BUF)) (
       let c := if c =? 13 then 10 else c in
       upd_cons (fun s => s <| in_buf ::= <[in_slot (in_e s) := u8 c]> |> <| in_e ::= fun e => u32 (e + 1) |>);;
       consputc c;;
       s ← get_cons id;
       when ((c =? 10) || (c =? Kbd.ctl 68) || (in_e s =? u32 (in_r s + INPUT_BUF))) (
         upd_cons (fun s => s <| in_w := in_e s |>);;
         Sched.wakeup CInput)));;
  mret false.

(** The characters [getc] returns before it returns a negative number. *)
Fixpoint input_loop (cs : list Z) (dump : bool) : K bool :=
  match cs with
  | [] => mret dump
  | c :: cs' => input_char c ≫= fun d => input_loop cs' (dump || d)
  end.

Definition consoleintr (callerpcs : tptr -> list Z) (cs : list Z) : K unit :=
  acquire LCons;;
  dump ← input_loop cs false;
  release LCons;;
  when dump (Threads.procdump callerpcs).

Definition kbdintr (callerpcs : tptr -> list Z) (codes : list Z) : K unit :=
  shift ← get_cons kbd_shift;
  let '(shift', cs) := Kbd.kbd_run shift codes in
  upd_cons (fun c => c <| kbd_shift := shift' |>);;
  consoleintr callerpcs cs.

Definition uartintr (callerpcs : tptr -> list Z) (cs : list Z) : K unit :=
  uart ← get_cons con_uart;
  consoleintr callerpcs (if (uart : bool) then cs else []).

(** * The console device *)

(** The wait for a complete line: [true] when the reader was killed. *)
Definition await_input : K bool :=
  repeat_until (
    c ← get_cons id;
    if in_r c =? in_w c then
      dead ← Pipe.killed;
      if (dead : bool) then mret (Some true) else
      Sched.sleep CInput (Some LCons);;
      mret None
    else mret (Some false)).

(** [while(n > 0)]: what is left of [n], or [None] when killed, and the bytes stored. *)
Fixpoint consoleread_loop (fuel : nat) (dst : sink) (n target : Z) : K (option Z * list Z) :=
  match fuel with
  | O => mret (Some n, [])
  | S f =>
      await_input ≫= fun dead =>
      if (dead : bool) then mret (None, []) else
      get_cons id ≫= fun s =>
      let c := in_char s (in_r s) in
      upd_cons (fun s => s <| in_r ::= fun r => u32 (r + 1) |>) ≫= fun _ =>
      if c =? Kbd.ctl 68 then
        when (n <? target) (upd_cons (fun s => s <| in_r ::= fun r => u32 (r - 1) |>)) ≫= fun _ =>
        mret (Some n, [])
      else
        dst (target - n) [c] ≫= fun _ =>
        if c =? 10 then mret (Some (n - 1), [c]) else
        consoleread_loop f dst (n - 1) target ≫= fun r =>
        mret (r.1, c :: r.2)
  end.

Definition consoleread (ip : nat) (dst : sink) (n : Z) : K (Z * list Z) :=
  Fs.iunlock ip;;
  acquire LCons;;
  r ← consoleread_loop (Z.to_nat n) dst n n;
  release LCons;;
  Fs.ilock ip;;
  mret (match r.1 with None => -1 | Some rest => n - rest end, r.2).

Definition consolewrite (ip : nat) (buf : source) (n : Z) : K Z :=
  Fs.iunlock ip;;
  acquire LCons;;
  for_each (Z.of_nat <$> seq 0 (Z.to_nat n)) (fun i =>
    bs ← buf i 1;
    consputc (default 0 (bs !! 0%nat)));;
  release LCons;;
  Fs.ilock ip;;
  mret n.

Definition CONSOLE : Z := 1.

(** [devsw] as [consoleinit] leaves it. *)
#[export] Instance console_devsw : Devsw := {
  dev_read major := if major =? CONSOLE then Some consoleread else None;
  dev_write major := if major =? CONSOLE then Some consolewrite else None }.

Definition consoleinit : K unit :=
  modify (fun k => k <| locks ::= delete LCons |>);;   (* initlock *)
  upd_cons (fun c => c <| con_locking := true |>).

(** [present]: the line status register of the serial port is not 0xFF. *)
Definition uartinit (present : bool) : K unit :=
  when present (
    upd_cons (fun c => c <| con_uart := true |>);;
    for_each (str "xv6...
") uartputc).

End with_layout.
End ConsoleIn.
