(* ===== verification/Syscall.v ===== *)
(** System call arguments (syscall.c): words and strings fetched from the memory of
    the calling process. *)

From S2P Require Import Prelude Monad State Kalloc Sched Mmu Bytes Uaccess Ring Pipe.

Module Syscall.

(** [myproc()->sz] *)
Definition cursz : K Z := p ← curproc; pr ← get_proc p; mret (p_sz pr).

(** An argument that could not be fetched is [None]: the caller returns -1. *)
Definition fetchint (addr : Z) : K (option Z) :=
  sz ← cursz;
  if (sz <=? addr) || (sz <? u32 (addr + 4)) then mret None else
  x ← load_u32 addr;
  mret (Some (s32 x)).

(** [for(s = *pp; s < ep; s++) if( *s == 0)]: the string up to its NUL. *)
Fixpoint scan_str (fuel : nat) (s ep : Z) : K (option (list Z)) :=
  match fuel with
  | O => mret None
  | S n =>
      if s <? ep then
        load_u8 s ≫= fun c =>
        if c =? 0 then mret (Some [])
        else scan_str n (u32 (s + 1)) ep ≫= fun r => mret ((fun l => c :: l) <$> r)
      else mret None
  end.

Definition fetchstr (addr : Z) : K (option (list Z)) :=
  sz ← cursz;
  if sz <=? addr then mret None else
  scan_str (Z.to_nat (sz - addr)) addr sz.

(** [mythread()->tf->esp] *)
Definition user_esp : K Z := t ← curthread; th ← get_thread t; mret (tf_esp (t_frame th)).

Definition argint (n : Z) : K (option Z) :=
  esp ← user_esp;
  fetchint (u32 (esp + 4 + 4 * n)).

Definition argptr (n size : Z) : K (option Z) :=
  i ← argint n;
  match i with
  | None => mret None
  | Some i =>
      sz ← cursz;
      if (size <? 0) || (sz <=? u32 i) || (sz <? u32 (u32 i + size)) then mret None else mret (Some (u32 i))
  end.

Definition argstr (n : Z) : K (option (list Z)) :=
  a ← argint n;
  match a with
  | None => mret None
  | Some addr => fetchstr (u32 addr)
  end.

(** [if(arg...(...) < 0) return -1;] *)
Definition with_arg {A} (m : K (option A)) (f : A -> K Z) : K Z :=
  a ← m;
  match a with None => mret (-1) | Some a => f a end.

(** * What a fetched argument is *)

(** The running thread [th] of a process of size [sz] whose memory is all mapped. *)
Record caller (th : thread) (sz : Z) (k : kernel) : Prop := {
  ca_thread : exists t, cpu_thread k = Some t /\ thread_at k t = Some th;
  ca_proc : exists p pr, cpu_proc k = Some p /\ ptable k !! p = Some pr /\ p_sz pr = sz;
  ca_size : 0 <= sz <= KERNBASE;
  ca_mapped : forall va, 0 <= va < sz -> is_Some (user_byte k va) }.

Lemma cursz_eq th sz o k : caller th sz k -> cursz o k = Ok sz o k.
Proof.
  intros [_ (p & pr & Hp & Hpr & <-) _ _]. unfold cursz, curproc, get_proc.
  do 2 (erewrite bind_ok by (by apply deref_some)). done.
Qed.

Lemma user_esp_eq th sz o k : caller th sz k -> user_esp o k = Ok (tf_esp (t_frame th)) o k.
Proof.
  intros [(t & Ht & Hth) _ _ _]. unfold user_esp, curthread, get_thread.
  do 2 (erewrite bind_ok by (by apply deref_some)). done.
Qed.

Lemma load_bytes_eq th sz n va o k : caller th sz k -> 0 <= va -> va + Z.of_nat n <= sz ->
  exists bs, load_bytes va n o k = Ok bs o k /\ length bs = n /\ holds_bytes k va bs.
Proof.
  intros Hc. revert va. induction n as [|n IH]; intros va Hva Hn.
  { exists []. split_and!; [done|done|]. by intros i b. }
  destruct (ca_mapped _ _ _ Hc va) as [b Hb]; [lia|]. pose proof (ca_size _ _ _ Hc) as Hsz. unfold KERNBASE in Hsz.
  assert (u32 (va + 1) = va + 1) as E by (apply u32_small; unfold is_u32; lia).
  destruct (IH (va + 1)) as (bs & Hl & Hlen & Hh); [lia|lia|]. exists (b :: bs). cbn [load_bytes]. split_and!.
  - unfold load_u8. erewrite bind_ok by (by apply deref_some). rewrite E. erewrite bind_ok by exact Hl. done.
  - simpl. lia.
  - intros [|i] c Hi; simplify_eq/=.
    + rewrite Z.add_0_r, u32_small by (unfold is_u32; lia). done.
    + rewrite <- (Hh i c Hi). f_equal. f_equal. lia.
Qed.

(** The word at an address. *)
Definition word_at (k : kernel) (va x : Z) : Prop := exists bs, length bs = 4%nat /\ holds_bytes k va bs /\ x = s32 (le_value bs).

Lemma fetchint_eq th sz addr o k : caller th sz k -> 0 <= addr ->
  exists r, fetchint addr o k = Ok r o k /\
    match r with None => sz < addr + 4 | Some x => addr + 4 <= sz /\ word_at k addr x end.
Proof.
  intros Hc Ha. pose proof (ca_size _ _ _ Hc) as Hsz. unfold KERNBASE in Hsz. unfold fetchint. erewrite bind_ok by (by eapply cursz_eq).
  destruct (Z.leb_spec sz addr) as [Hle|Hlt]; [exists None; split; [done|lia]|].
  rewrite u32_small by (unfold is_u32; lia). destruct (Z.ltb_spec sz (addr + 4)) as [Hle'|Hge]; [exists None; split; [done|lia]|].
  destruct (load_bytes_eq th sz 4 addr o k Hc Ha) as (bs & Hl & Hlen & Hh); [lia|].
  exists (Some (s32 (le_value bs))). split; [|split; [lia|by exists bs]].
  cbn [orb]. unfold load_u32. rewrite bind_assoc. by erewrite bind_ok by exact Hl.
Qed.

Lemma argint_eq th sz n o k : caller th sz k ->
  exists r, argint n o k = Ok r o k /\
    let addr := u32 (tf_esp (t_frame th) + 4 + 4 * n) in
    match r with None => sz < addr + 4 | Some x => addr + 4 <= sz /\ word_at k addr x end.
Proof.
  intros Hc. unfold argint. erewrite bind_ok by (by eapply user_esp_eq). apply (fetchint_eq th sz); [done|]. apply u32_range.
Qed.

(** A NUL-terminated string of the process. *)
Definition string_at (k : kernel) (sz va : Z) (s : list Z) : Prop :=
  holds_bytes k va (s ++ [0]) /\ va + Z.of_nat (length s) < sz /\ Forall (fun c => c <> 0) s.

Lemma scan_str_eq th sz n va o k : caller th sz k -> 0 <= va -> Z.of_nat n = Z.max 0 (sz - va) ->
  exists r, scan_str n va sz o k = Ok r o k /\ forall s, r = Some s -> string_at k sz va s.
Proof.
  intros Hc. pose proof (ca_size _ _ _ Hc) as Hsz. unfold KERNBASE in Hsz. revert va. induction n as [|n IH]; intros va Hva Hn.
  { exists None. split; [done|]. intros s. done. }
  cbn [scan_str]. destruct (Z.ltb_spec va sz); [|lia]. destruct (ca_mapped _ _ _ Hc va) as [c Hb]; [lia|].
  unfold load_u8. erewrite bind_ok by (by apply deref_some). destruct (Z.eqb_spec c 0) as [->|Hc0].
  - exists (Some []). split; [done|]. intros s [= <-]. split_and!; [|simpl; lia|constructor].
    intros [|i] b Hi; simplify_eq/=. rewrite Z.add_0_r, u32_small by (unfold is_u32; lia). done.
  - rewrite u32_small by (unfold is_u32; lia). destruct (IH (va + 1)) as (r & Hr & Hs); [lia|lia|].
    exists ((fun l => c :: l) <$> r). split; [by erewrite bind_ok by exact Hr|].
    intros s Heq. destruct r as [s'|]; [|done]. injection Heq as <-. destruct (Hs s' eq_refl) as (Hh & Hl & Hf).
    split_and!; [|simpl; lia|by constructor]. intros [|i] b Hi; simplify_eq/=.
    + rewrite Z.add_0_r, u32_small by (unfold is_u32; lia). done.
    + rewrite <- (Hh i b Hi). f_equal. f_equal. lia.
Qed.

(** C23. Arguments of system calls are safe to use: in a process whose memory is
    mapped up to its size, fetching never faults or changes anything; an integer
    argument is the word at its place on the user stack; a pointer argument with a
    size designates memory inside the process; and a string argument is a
    NUL-terminated string that ends inside the process. *)
Theorem syscall_args_safe th sz n size o k : caller th sz k -> size < 2 ^ 31 ->
  (exists r, argint n o k = Ok r o k /\ forall x, r = Some x -> word_at k (u32 (tf_esp (t_frame th) + 4 + 4 * n)) x)
  /\ (exists r, argptr n size o k = Ok r o k /\ forall a, r = Some a -> 0 <= size /\ 0 <= a /\ a + size <= sz /\ a < sz)
  /\ (exists r, argstr n o k = Ok r o k /\ forall s, r = Some s -> exists a, 0 <= a /\ string_at k sz a s).
Proof.
  intros Hc Hsize. pose proof (ca_size _ _ _ Hc) as Hsz. unfold KERNBASE in Hsz.
  destruct (argint_eq th sz n o k Hc) as (r & Hr & Hx). split_and!.
  - exists r. split; [done|]. intros x ->. apply Hx.
  - unfold argptr. erewrite bind_ok by exact Hr. destruct r as [i|]; [|by exists None].
    erewrite bind_ok by (by eapply cursz_eq). pose proof (u32_range i) as Hi. unfold is_u32 in Hi.
    destruct (Z.ltb_spec size 0); [by exists None|]. destruct (Z.leb_spec sz (u32 i)); [by exists None|].
    rewrite (u32_small (u32 i + size)) by (unfold is_u32; lia). cbn [orb].
    destruct (Z.ltb_spec sz (u32 i + size)); [by exists None|]. exists (Some (u32 i)). split; [done|].
    intros a [= <-]. lia.
  - unfold argstr. erewrite bind_ok by exact Hr. destruct r as [i|]; [|by exists None]. unfold fetchstr.
    erewrite bind_ok by (by eapply cursz_eq). pose proof (u32_range i) as Hi. unfold is_u32 in Hi.
    destruct (Z.leb_spec sz (u32 i)); [by exists None|].
    destruct (scan_str_eq th sz (Z.to_nat (sz - u32 i)) (u32 i) o k Hc) as (r & Hr' & Hs); [lia|lia|].
    exists r. split; [done|]. intros s Hs'. exists (u32 i). split; [lia|]. by apply Hs.
Qed.

(** A process of one page whose stack is at address 4. *)
Definition calling_thread : thread := Sched.running_thread <| t_frame ::= fun f => f <| tf_esp := 4 |> |>.
Definition calling_kernel : kernel :=
  PipeExample.with_pipe PipeExample.a_pipe
    <| ptable := [Sched.running_proc <| p_sz := 4096 |> <| p_ttable := [calling_thread] |>] |>.

Lemma calling_caller : caller calling_thread 4096 calling_kernel.
Proof.
  split; [by exists (0, 0)%nat|by eexists 0%nat, _|by split|].
  assert (forallb (fun i => match user_byte calling_kernel (Z.of_nat i) with Some _ => true | None => false end) (seq 0 4096) = true) as Hall by (by vm_compute).
  intros va Hva. rewrite forallb_forall in Hall. specialize (Hall (Z.to_nat va)).
  rewrite Z2Nat.id in Hall by lia. destruct (user_byte calling_kernel va); [eauto|].
  discriminate Hall. apply in_seq. lia.
Qed.

Lemma syscall_args_safe_witness : exists r, argptr 1 16 [] calling_kernel = Ok r [] calling_kernel
  /\ forall a, r = Some a -> a + 16 <= 4096.
Proof.
  destruct (syscall_args_safe calling_thread 4096 1 16 [] calling_kernel calling_caller) as (_ & (r & Hr & Ha) & _); [lia|].
  exists r. split; [exact Hr|]. intros a E. apply (Ha a E).
Defined.

End Syscall.
