(* ===== verification/Exec.v ===== *)
(** Loading programs: [loaduvm] of vm.c and exec.c. *)

From S2P Require Import Prelude Monad State Console Kalloc Sched Mmu Vm Mutex Sleeplock Bytes Bio Log Fs Uaccess Pipe File Threads.

Definition MAXARG : nat := 32.
Definition ELF_MAGIC : Z := 0x464C457F.
Definition ELF_PROG_LOAD : Z := 1.
Definition sizeof_elfhdr : Z := 52.
Definition sizeof_proghdr : Z := 32.

(** The fields of [struct elfhdr] and [struct proghdr] that [exec] uses. *)
Definition elf_magic (d : list Z) : Z := get_u32 0 d.
Definition elf_entry (d : list Z) : Z := get_u32 24 d.
Definition elf_phoff (d : list Z) : Z := get_u32 28 d.
Definition elf_phnum (d : list Z) : Z := get_u16 44 d.
Definition ph_type (d : list Z) : Z := get_u32 0 d.
Definition ph_off (d : list Z) : Z := get_u32 4 d.
Definition ph_vaddr (d : list Z) : Z := get_u32 8 d.
Definition ph_filesz (d : list Z) : Z := get_u32 16 d.
Definition ph_memsz (d : list Z) : Z := get_u32 20 d.

Module Exec.
Section with_layout.
Context `{Layout, Devsw}.
Import Log Fs Threads.

(** A destination inside a page of the kernel's direct map. *)
Definition to_page (a : Z) : sink := fun off bs =>
  deref "page" (fun k => pages k !! a);;
  modify (fun k => k <| pages ::= alter (write_bytes (Z.to_nat off) bs) a |>).

(** [for(i = 0; i < sz; i += PGSIZE)] *)
Fixpoint loaduvm_loop (fuel : nat) (pgdir addr : Z) (ip : nat) (offset i sz : Z) : K Z :=
  if i <? sz then
    match fuel with
    | O => fault "loaduvm: fuel"
    | S f =>
        Vm.walkpgdir pgdir (u32 (addr + i)) false ≫= fun pte =>
        match pte with
        | None => panic "loaduvm: address should exist"
        | Some e =>
            Vm.load_pte e ≫= fun x =>
            let n := if sz - i <? PGSIZE then sz - i else PGSIZE in
            readi ip (to_page (P2V (PTE_ADDR x))) (u32 (offset + i)) n ≫= fun r =>
            if negb (r.1 =? n) then mret (-1)
            else loaduvm_loop f pgdir addr ip offset (u32 (i + PGSIZE)) sz
        end
    end
  else mret 0.
Definition loaduvm (pgdir addr : Z) (ip : nat) (offset sz : Z) : K Z :=
  if negb (addr mod PGSIZE =? 0) then panic "loaduvm: addr must be page aligned" else
  loaduvm_loop (Z.to_nat (sz / PGSIZE + 1)) pgdir addr ip offset 0 sz.

(** The loop over the program headers; [None] is a jump to [bad]. *)
Fixpoint load_segments (n : nat) (pgdir : Z) (ip : nat) (off sz : Z) : K (option Z) :=
  match n with
  | O => mret (Some sz)
  | S n' =>
      readi ip local off sizeof_proghdr ≫= fun r =>
      if negb (r.1 =? sizeof_proghdr) then mret None else
      let ph := r.2 in
      if negb (ph_type ph =? ELF_PROG_LOAD) then load_segments n' pgdir ip (u32 (off + sizeof_proghdr)) sz else
      if ph_memsz ph <? ph_filesz ph then mret None else
      if u32 (ph_vaddr ph + ph_memsz ph) <? ph_vaddr ph then mret None else
      Vm.allocuvm pgdir sz (u32 (ph_vaddr ph + ph_memsz ph)) ≫= fun sz =>
      if sz =? 0 then mret None else
      if negb (ph_vaddr ph mod PGSIZE =? 0) then mret None else
      loaduvm pgdir (ph_vaddr ph) ip (ph_off ph) (ph_filesz ph) ≫= fun l =>
      if l <? 0 then mret None else
      load_segments n' pgdir ip (u32 (off + sizeof_proghdr)) sz
  end.

(** [for(argc = 0; argv[argc]; argc++)]: the stack pointer and the pushed addresses. *)
Fixpoint push_args (argc : nat) (argv : list (list Z)) (pgdir sp : Z) (pushed : list Z) : K (option (Z * list Z)) :=
  match argv with
  | [] => mret (Some (sp, pushed))
  | s :: argv' =>
      if (MAXARG <=? argc)%nat then mret None else
      let len := Z.of_nat (length s) in
      let sp := Z.land (u32 (sp - (len + 1))) (Z.lnot 3) in
      Vm.copyout pgdir sp (s ++ [0]) ≫= fun r =>
      if r <? 0 then mret None else
      push_args (S argc) argv' pgdir sp (pushed ++ [sp])
  end.

(** The label [bad]: [ip] is null once the file is closed.  The lock is released
    whether or not it is held. *)
Definition exec_bad (pgdir : Z) (ip : option nat) : K Z :=
  when (negb (pgdir =? 0)) (Vm.freevm pgdir);;
  match ip with
  | Some ip => iunlockput ip;; end_op
  | None => mret tt
  end;;
  release LPtable;;
  mret (-1).

(** The part after the last slash. *)
Fixpoint last_elem (last s : list Z) : list Z :=
  match s with
  | [] => last
  | c :: s' => if c =? 47 then last_elem s' s' else last_elem last s'
  end.

(** From the second [acquire] on: the stack, and the commit to the new image. *)
Definition exec_stack (path : list Z) (argv : list (list Z)) (pgdir sz entry : Z) : K Z :=
  cp ← curproc;
  ct ← curthread;
  acquire LPtable;;
  let sz := PGROUNDUP sz in
  sz ← Vm.allocuvm pgdir sz (u32 (sz + 2 * PGSIZE));
  if sz =? 0 then exec_bad pgdir None else
  Vm.clearpteu pgdir (u32 (sz - 2 * PGSIZE));;
  r ← push_args 0 argv pgdir sz [];
  match r with
  | None => exec_bad pgdir None
  | Some (sp, pushed) =>
      let argc := Z.of_nat (length pushed) in
      let ustack := [0xffffffff; argc; u32 (sp - (argc + 1) * 4)] ++ pushed ++ [0] in
      let sp := u32 (sp - (3 + argc + 1) * 4) in
      c ← Vm.copyout pgdir sp (ustack ≫= le_bytes 4);
      if c <? 0 then exec_bad pgdir None else
      upd_proc cp (fun p => p <| p_name ::= fun s => safestrcpy s (last_elem path path) sizeof_name |>);;
      pr ← get_proc cp;
      let oldpgdir := p_pgdir pr in
      upd_proc cp (fun p => p <| p_pgdir := pgdir |>);;
      upd_proc cp (fun p => p <| p_sz := sz |>);;
      upd_thread ct (fun t => t <| t_frame ::= fun f => f <| tf_eip := entry |> |>);;
      upd_thread ct (fun t => t <| t_frame ::= fun f => f <| tf_esp := sp |> |>);;
      Sched.switchuvm (Some ct) (Some cp);;
      release LPtable;;
      Vm.freevm oldpgdir;;
      mret 0
  end.

Definition exec (path : list Z) (argv : list (list Z)) : K Z :=
  cp ← curproc;
  ct ← curthread;
  cth ← get_thread ct;
  when (negb (t_shouldDie cth =? 0)) kthread_exit;;
  acquire LPtable;;
  upd_proc cp (fun p => p <| p_ttable ::= fmap (doom (t_tid cth)) |>);;
  release LPtable;;
  await_threads true cp;;
  begin_op;;
  ip ← namei path;
  match ip with
  | None =>
      end_op;;
      Console.cprintf "exec: fail
" [];;
      mret (-1)
  | Some ip =>
      ilock ip;;
      r ← readi ip local 0 sizeof_elfhdr;
      if negb (r.1 =? sizeof_elfhdr) then exec_bad 0 (Some ip) else
      let elf := r.2 in
      if negb (elf_magic elf =? ELF_MAGIC) then exec_bad 0 (Some ip) else
      pgdir ← Vm.setupkvm;
      if pgdir =? 0 then exec_bad 0 (Some ip) else
      sz ← load_segments (Z.to_nat (elf_phnum elf)) pgdir ip (elf_phoff elf) 0;
      match sz with
      | None => exec_bad pgdir (Some ip)
      | Some sz =>
          iunlockput ip;;
          end_op;;
          exec_stack path argv pgdir sz (elf_entry elf)
      end
  end.

End with_layout.
End Exec.
