(* ===== verification/Sysproc.v ===== *)
(** Process and thread system calls (sysproc.c). *)

From S2P Require Import Prelude Monad State Sched Mmu Mutex Sleeplock Uaccess Bio Log Fs Pipe File Threads Syscall.

Module Sysproc.
Section with_layout.
Context `{Layout, Devsw}.
Import Syscall Threads.

Definition sys_fork : K Z := fork.
Definition sys_exit : K Z := exit;; mret 0.
Definition sys_wait : K Z := wait.
Definition sys_kill : K Z := with_arg (argint 0) Sched.kill.
Definition sys_getpid : K Z := Sleeplock.mypid.

Definition sys_sbrk : K Z :=
  with_arg (argint 0) (fun n =>
    addr ← cursz;
    r ← growproc n;
    if r <? 0 then mret (-1) else mret (s32 addr)).

(** [ticks - ticks0 < n] compares unsigned numbers. *)
Definition sys_sleep : K Z :=
  with_arg (argint 0) (fun n =>
    acquire LTicks;;
    ticks0 ← gets ticks;
    repeat_until (
      now ← gets ticks;
      if u32 (now - ticks0) <? u32 n then
        dead ← Pipe.killed;
        if (dead : bool) then release LTicks;; mret (Some (-1)) else
        Sched.sleep CTicks (Some LTicks);;
        mret None
      else release LTicks;; mret (Some 0))).

Definition sys_uptime : K Z :=
  acquire LTicks;;
  xticks ← gets ticks;
  release LTicks;;
  mret (s32 xticks).

(** [sizeof] of a function and of [void] is 1. *)
Definition sys_kthread_create : K Z :=
  with_arg (argptr 0 1) (fun start_func =>
  with_arg (argptr 1 1) (fun stack =>
    kthread_create start_func stack)).

Definition sys_kthread_id : K Z := Mutex.kthread_id.
Definition sys_kthread_exit : K Z := kthread_exit;; mret 0.
Definition sys_kthread_join : K Z := with_arg (argint 0) kthread_join.
Definition sys_kthread_mutex_alloc : K Z := Mutex.kthread_mutex_alloc.
Definition sys_kthread_mutex_dealloc : K Z := with_arg (argint 0) Mutex.kthread_mutex_dealloc.
Definition sys_kthread_mutex_lock : K Z := with_arg (argint 0) Mutex.kthread_mutex_lock.
Definition sys_kthread_mutex_unlock : K Z := with_arg (argint 0) Mutex.kthread_mutex_unlock.

End with_layout.
End Sysproc.
