(* ===== verification/Sysfile.v ===== *)
(** File-system system calls (sysfile.c). *)

From S2P Require Import Prelude Monad State Console Sched Sleeplock Bytes Uaccess Bio Log Fs Pipe File Threads Syscall Exec.

Definition O_RDONLY : Z := 0x000.
Definition O_WRONLY : Z := 0x001.
Definition O_RDWR : Z := 0x002.
Definition O_CREATE : Z := 0x200.
Definition sizeof_stat : Z := 20.

Module Sysfile.
Section with_layout.
Context `{Layout, Devsw}.
Import Syscall Log Fs File.

(** The descriptor and the file. *)
Definition argfd (n : Z) : K (option (Z * nat)) :=
  a ← argint n;
  match a with
  | None => mret None
  | Some fd =>
      if (fd <? 0) || (Z.of_nat NOFILE <=? fd) then mret None else
      p ← curproc;
      pr ← get_proc p;
      match mjoin (p_ofile pr !! Z.to_nat fd) with
      | None => mret None
      | Some f => mret (Some (fd, f))
      end
  end.

Definition fdalloc (f : nat) : K Z :=
  p ← curproc;
  pr ← get_proc p;
  match list_find (fun x => x = None) (p_ofile pr) with
  | Some (fd, _) => upd_proc p (fun p => p <| p_ofile ::= <[fd := Some f]> |>);; mret (Z.of_nat fd)
  | None => mret (-1)
  end.

Definition sys_dup : K Z :=
  with_arg (argfd 0) (fun a =>
    fd ← fdalloc a.2;
    if fd <? 0 then mret (-1) else
    filedup a.2;;
    mret fd).

Definition sys_read : K Z :=
  with_arg (argfd 0) (fun a =>
  with_arg (argint 2) (fun n =>
  with_arg (argptr 1 n) (fun p =>
    fileread a.2 p n))).

Definition sys_write : K Z :=
  with_arg (argfd 0) (fun a =>
  with_arg (argint 2) (fun n =>
  with_arg (argptr 1 n) (fun p =>
    filewrite a.2 p n))).

(** [myproc()->ofile[fd] = 0] *)
Definition clear_fd (fd : Z) : K unit :=
  p ← curproc;
  upd_proc p (fun p => p <| p_ofile ::= <[Z.to_nat fd := None]> |>).

Definition sys_close : K Z :=
  with_arg (argfd 0) (fun a =>
    clear_fd a.1;;
    fileclose a.2;;
    mret 0).

Definition sys_fstat : K Z :=
  with_arg (argfd 0) (fun a =>
  with_arg (argptr 1 sizeof_stat) (fun st =>
    filestat a.2 st)).

(** [ip->nlink += d] *)
Definition add_nlink (ip : nat) (d : Z) : K unit :=
  upd_ino ip (fun i => i <| i_nlink ::= fun n => s16 (n + d) |>).

Definition link_bad (ip : nat) : K Z :=
  ilock ip;;
  add_nlink ip (-1);;
  iupdate ip;;
  iunlockput ip;;
  end_op;;
  mret (-1).

(** [end_op(); return -1;] *)
Definition op_fail : K Z := end_op;; mret (-1).

Definition sys_link : K Z :=
  with_arg (argstr 0) (fun old =>
  with_arg (argstr 1) (fun new =>
    begin_op;;
    ip ← namei old;
    match ip with None => op_fail | Some ip =>
    ilock ip;;
    i ← get_ino ip;
    if i_type i =? T_DIR then iunlockput ip;; op_fail else
    add_nlink ip 1;;
    iupdate ip;;
    iunlock ip;;
    dp ← nameiparent new;
    match dp with None => link_bad ip | Some (dp, name) =>
    ilock dp;;
    d ← get_ino dp;
    i ← get_ino ip;
    r ← (if negb (i_dev d =? i_dev i) then mret (-1) else dirlink dp name (i_inum i));
    if r <? 0 then iunlockput dp;; link_bad ip else
    iunlockput dp;;
    iput ip;;
    end_op;;
    mret 0
    end end)).

(** [for(off=2*sizeof(de); off<dp->size; off+=sizeof(de))] *)
Definition isdirempty (dp : nat) : K bool :=
  fuel ← dir_fuel dp;
  r ← dir_scan fuel "isdirempty: readi" dp (fun de => negb (de_inum de =? 0)) (2 * sizeof_dirent);
  mret (bool_decide (r.2 = None)).

Definition unlink_bad (dp : nat) : K Z := iunlockput dp;; op_fail.

Definition sys_unlink : K Z :=
  with_arg (argstr 0) (fun path =>
    begin_op;;
    dp ← nameiparent path;
    match dp with None => op_fail | Some (dp, name) =>
    ilock dp;;
    if (namecmp name (str ".") =? 0) || (namecmp name (str "..") =? 0) then unlink_bad dp else
    e ← dirlookup dp name;
    match e with None => unlink_bad dp | Some (ip, off) =>
    ilock ip;;
    i ← get_ino ip;
    if i_nlink i <? 1 then panic "unlink: nlink < 1" else
    busy ← (if i_type i =? T_DIR then e ← isdirempty ip; mret (negb e) else mret false);
    if (busy : bool) then iunlockput ip;; unlink_bad dp else
    w ← writei dp (bytes_at (replicate (Z.to_nat sizeof_dirent) 0)) off sizeof_dirent;
    if negb (w =? sizeof_dirent) then panic "unlink: writei" else
    when (i_type i =? T_DIR) (add_nlink dp (-1);; iupdate dp);;
    iunlockput dp;;
    add_nlink ip (-1);;
    iupdate ip;;
    iunlockput ip;;
    end_op;;
    mret 0
    end end).

(** The new inode, locked. *)
Definition create (path : list Z) (type major minor : Z) : K (option nat) :=
  dp ← nameiparent path;
  match dp with None => mret None | Some (dp, name) =>
  ilock dp;;
  e ← dirlookup dp name;
  match e with
  | Some (ip, _) =>
      iunlockput dp;;
      ilock ip;;
      i ← get_ino ip;
      if (type =? T_FILE) && (i_type i =? T_FILE) then mret (Some ip) else
      iunlockput ip;;
      mret None
  | None =>
      d ← get_ino dp;
      ip ← ialloc (i_dev d) type;
      ilock ip;;
      upd_ino ip (fun i => i <| i_major := s16 major |> <| i_minor := s16 minor |> <| i_nlink := 1 |>);;
      iupdate ip;;
      i ← get_ino ip;
      when (type =? T_DIR) (
        add_nlink dp 1;;
        iupdate dp;;
        d ← get_ino dp;
        r1 ← dirlink ip (str ".") (i_inum i);
        if r1 <? 0 then panic "create dots" else
        r2 ← dirlink ip (str "..") (i_inum d);
        when (r2 <? 0) (panic "create dots"));;
      r ← dirlink dp name (i_inum i);
      if r <? 0 then panic "create: dirlink" else
      iunlockput dp;;
      mret (Some ip)
  end end.

(** The descriptor and the file of a new open file, if there is room. *)
Definition open_file : K (option (Z * nat)) :=
  f ← filealloc;
  match f with
  | None => mret None
  | Some f =>
      fd ← fdalloc f;
      if fd <? 0 then fileclose f;; mret None else mret (Some (fd, f))
  end.

Definition open_inode (path : list Z) (omode : Z) : K (option nat) :=
  if has_bits omode O_CREATE then create path T_FILE 0 0 else
  ip ← namei path;
  match ip with
  | None => mret None
  | Some ip =>
      ilock ip;;
      i ← get_ino ip;
      if (i_type i =? T_DIR) && negb (omode =? O_RDONLY) then iunlockput ip;; mret None
      else mret (Some ip)
  end.

Definition sys_open : K Z :=
  with_arg (argstr 0) (fun path =>
  with_arg (argint 1) (fun omode =>
    begin_op;;
    ip ← open_inode path omode;
    match ip with None => op_fail | Some ip =>
    f ← open_file;
    match f with
    | None => iunlockput ip;; op_fail
    | Some (fd, f) =>
        iunlock ip;;
        end_op;;
        upd_file f (fun f => f <| f_type := FD_INODE |> <| f_ip := Some ip |> <| f_off := 0 |>
          <| f_readable := negb (has_bits omode O_WRONLY) |>
          <| f_writable := has_bits omode O_WRONLY || has_bits omode O_RDWR |>);;
        mret fd
    end end)).

(** [m] or, when an argument is missing or [m] gives nothing, the end of the
    operation and -1. *)
Definition or_fail {A} (m : K (option A)) (f : A -> K Z) : K Z :=
  a ← m;
  match a with None => op_fail | Some a => f a end.

Definition sys_mkdir : K Z :=
  begin_op;;
  or_fail (argstr 0) (fun path =>
  or_fail (create path T_DIR 0 0) (fun ip =>
    iunlockput ip;;
    end_op;;
    mret 0)).

Definition sys_mknod : K Z :=
  begin_op;;
  or_fail (argstr 0) (fun path =>
  or_fail (argint 1) (fun major =>
  or_fail (argint 2) (fun minor =>
  or_fail (create path T_DEV (s16 major) (s16 minor)) (fun ip =>
    iunlockput ip;;
    end_op;;
    mret 0)))).

Definition sys_chdir : K Z :=
  cp ← curproc;
  begin_op;;
  or_fail (argstr 0) (fun path =>
  or_fail (namei path) (fun ip =>
    ilock ip;;
    i ← get_ino ip;
    if negb (i_type i =? T_DIR) then iunlockput ip;; op_fail else
    iunlock ip;;
    pr ← get_proc cp;
    cwd ← deref "cwd" (fun _ => p_cwd pr);
    iput cwd;;
    end_op;;
    upd_proc cp (fun p => p <| p_cwd := Some ip |>);;
    mret 0)).

(** [for(i=0;; i++)]: the argument strings; [None] is [return -1]. *)
Fixpoint fetch_argv (n : nat) (uargv i : Z) : K (option (list (list Z))) :=
  match n with
  | O => mret None
  | S n' =>
      fetchint (u32 (uargv + 4 * i)) ≫= fun a =>
      match a with
      | None => mret None
      | Some uarg =>
          if uarg =? 0 then mret (Some []) else
          fetchstr (u32 uarg) ≫= fun s =>
          match s with
          | None => mret None
          | Some s =>
              fetch_argv n' uargv (i + 1) ≫= fun r =>
              mret ((fun l => s :: l) <$> r)
          end
      end
  end.

Definition sys_exec : K Z :=
  with_arg (argstr 0) (fun path =>
  with_arg (argint 1) (fun uargv =>
  with_arg (fetch_argv MAXARG (u32 uargv) 0) (fun argv =>
    Exec.exec path argv))).

Definition sys_pipe : K Z :=
  with_arg (argptr 0 8) (fun fd =>
  with_arg pipealloc (fun fs =>
    let '(rf, wf) := fs in
    fd0 ← fdalloc rf;
    fd1 ← (if fd0 <? 0 then mret (-1) else fdalloc wf);
    if (fd0 <? 0) || (fd1 <? 0) then
      when (0 <=? fd0) (clear_fd fd0);;
      fileclose rf;;
      fileclose wf;;
      mret (-1)
    else
      store_u32 fd fd0;;
      store_u32 (u32 (fd + 4)) fd1;;
      mret 0)).

End with_layout.
End Sysfile.
