(* ===== verification/Trap.v ===== *)
(** Traps (trap.c): the system call table and dispatcher of syscall.c, device
    interrupts, and the points where a killed process or thread goes away. *)

From S2P Require Import Prelude Monad State Console Kalloc Sched Mmu Vm Mutex Sleeplock Bytes Uaccess Bio Log Fs Pipe File Threads Kbd ConsoleIn Syscall Exec Sysproc Sysfile.

Definition T_SYSCALL : Z := 64.
Definition T_IRQ0 : Z := 32.
Definition IRQ_TIMER : Z := 0.
Definition IRQ_KBD : Z := 1.
Definition IRQ_COM1 : Z := 4.
Definition IRQ_IDE : Z := 14.
Definition IRQ_SPURIOUS : Z := 31.

(** What the trap handler reads from the hardware: the CPU's number, the faulting
    address, the scan codes and characters waiting, the return addresses on stacks. *)
Record hardware : Type := mkHardware {
  hw_cpuid : Z;
  hw_cr2 : Z;
  hw_scancodes : list Z;
  hw_serial : list Z;
  hw_callerpcs : tptr -> list Z }.

Module Trap.
Section with_layout.
Context `{Layout, Devsw}.
Import Sysproc Sysfile Threads.

(** [syscalls], by system call number from 1 on. *)
Definition syscalls : list (K Z) :=
  [sys_fork; sys_exit; sys_wait; sys_pipe; sys_read; sys_kill; sys_exec; sys_fstat; sys_chdir; sys_dup;
   sys_getpid; sys_sbrk; sys_sleep; sys_uptime; sys_open; sys_write; sys_mknod; sys_unlink; sys_link;
   sys_mkdir; sys_close; sys_kthread_create; sys_kthread_id; sys_kthread_exit; sys_kthread_join;
   sys_kthread_mutex_alloc; sys_kthread_mutex_dealloc; sys_kthread_mutex_lock; sys_kthread_mutex_unlock].

Definition set_eax (t : tptr) (x : Z) : K unit :=
  upd_thread t (fun t => t <| t_frame ::= fun f => f <| tf_eax := u32 x |> |>).

Definition syscall : K unit :=
  t ← curthread;
  th ← get_thread t;
  let num := s32 (tf_eax (t_frame th)) in
  match (if 0 <? num then syscalls !! (Z.to_nat num - 1)%nat else None) with
  | Some f => r ← f; set_eax t r
  | None =>
      Console.cprintf "%d %s: unknown sys call %d
" [Console.AInt (t_tid th); Console.AStr (Some (until_nul (t_name th))); Console.AInt num];;
      set_eax t (-1)
  end.

Definition cur_killed : K bool := Pipe.killed.
Definition cur_shouldDie : K bool :=
  t ← curthread;
  th ← get_thread t;
  mret (negb (t_shouldDie th =? 0)).

(** [if(myproc() && myproc()->killed && (tf->cs&3) == DPL_USER) exit();] and the same
    for the thread. *)
Definition leave_if_killed (cs : Z) : K unit :=
  p ← myproc;
  dead ← match p with None => mret false | Some _ => cur_killed end;
  when (dead && (Z.land cs 3 =? DPL_USER)) exit;;
  mret tt.
Definition leave_if_doomed (cs : Z) : K unit :=
  t ← mythread;
  dead ← match t with None => mret false | Some _ => cur_shouldDie end;
  when (dead && (Z.land cs 3 =? DPL_USER)) kthread_exit;;
  mret tt.

(** The body of [trap] for a system call.  The trap frame is the thread's. *)
Definition trap_syscall (tf : trapframe) : K unit :=
  k1 ← cur_killed;
  when k1 exit;;
  d1 ← cur_shouldDie;
  when d1 kthread_exit;;
  t ← curthread;
  upd_thread t (fun t => t <| t_frame := tf |>);;
  syscall;;
  k2 ← cur_killed;
  when k2 exit;;
  d2 ← cur_shouldDie;
  when d2 kthread_exit.

(** The [switch] on the trap number; end-of-interrupt commands are not modelled. *)
Definition trap_switch (hw : hardware) (tf : trapframe) : K unit :=
  let n := tf_trapno tf in
  if n =? T_IRQ0 + IRQ_TIMER then
    when (hw_cpuid hw =? 0) (
      acquire LTicks;;
      modify (fun k => k <| ticks ::= fun x => u32 (x + 1) |>);;
      Sched.wakeup CTicks;;
      release LTicks)
  else if n =? T_IRQ0 + IRQ_IDE then Memide.ideintr
  else if n =? T_IRQ0 + IRQ_IDE + 1 then mret tt
  else if n =? T_IRQ0 + IRQ_KBD then ConsoleIn.kbdintr (hw_callerpcs hw) (hw_scancodes hw)
  else if n =? T_IRQ0 + IRQ_COM1 then ConsoleIn.uartintr (hw_callerpcs hw) (hw_serial hw)
  else if (n =? T_IRQ0 + 7) || (n =? T_IRQ0 + IRQ_SPURIOUS) then
    Console.cprintf "cpu%d: spurious interrupt at %x:%x
" (Console.AInt <$> [hw_cpuid hw; tf_cs tf; tf_eip tf])
  else
    p ← myproc;
    match p with
    | Some p =>
        if Z.land (tf_cs tf) 3 =? 0 then
          Console.cprintf "unexpected trap %d from cpu %d eip %x (cr2=0x%x)
" (Console.AInt <$> [n; hw_cpuid hw; tf_eip tf; hw_cr2 hw]);;
          panic "trap"
        else
          pr ← get_proc p;
          Console.cprintf "pid %d %s: trap %d err %d on cpu %d eip 0x%x addr 0x%x--kill proc
" ([Console.AInt (p_pid pr); Console.AStr (Some (until_nul (p_name pr)))] ++
              (Console.AInt <$> [n; tf_err tf; hw_cpuid hw; tf_eip tf; hw_cr2 hw]));;
          upd_proc p (fun p => p <| p_killed := 1 |>)
    | None =>
        Console.cprintf "unexpected trap %d from cpu %d eip %x (cr2=0x%x)
" (Console.AInt <$> [n; hw_cpuid hw; tf_eip tf; hw_cr2 hw]);;
        panic "trap"
    end.

Definition trap (hw : hardware) (tf : trapframe) : K unit :=
  dying (
    if tf_trapno tf =? T_SYSCALL then trap_syscall tf else
    trap_switch hw tf;;
    leave_if_killed (tf_cs tf);;
    leave_if_doomed (tf_cs tf);;
    t ← mythread;
    running ← match t with
              | None => mret false
              | Some t => th ← get_thread t; mret (bool_decide (t_state th = T_RUNNING))
              end;
    when (running && (tf_trapno tf =? T_IRQ0 + IRQ_TIMER)) Sched.yield;;
    leave_if_killed (tf_cs tf);;
    leave_if_doomed (tf_cs tf)).

End with_layout.
End Trap.
