(* ===== verification/Printf.v ===== *)
(** Formatted output: the user library's [printf] (printf.c), a reference definition of
    what a format prints, and the numbers it prints read back by [atoi]. *)

From S2P Require Import Prelude Monad State Console KString.

(** * Numbers *)

Lemma length_digits_lower : length digits_lower = 16%nat.
Proof. reflexivity. Qed.
Lemma length_digits_upper : length digits_upper = 16%nat.
Proof. reflexivity. Qed.

(** The characters of a number: a minus sign if it is negative and signed, and the
    shortest digits of its magnitude. *)
Lemma render_spec digits xx base sign :
  10 <= base <= 16 -> length digits = 16%nat -> is_s32 xx ->
  exists vs, render digits xx base sign
      = Some ((if sign && (xx <? 0) then [45] else []) ++ reverse (char_of digits <$> vs))
    /\ digits_of base (if sign && (xx <? 0) then - xx else u32 xx) vs /\ (length vs <= 10)%nat.
Proof.
  intros Hb Hd Hx. unfold render.
  set (neg := sign && (xx <? 0)). set (x := if neg then u32 (- xx) else u32 xx).
  assert (0 <= x < 10 ^ 10 /\ x = if neg then - xx else u32 xx) as [Hr Hv].
  { unfold x, neg. destruct sign, (Z.ltb_spec xx 0); simpl; pose proof (u32_range xx);
      unfold is_s32, is_u32 in *; rewrite ?(u32_small (- xx)) by (unfold is_u32; lia); lia. }
  assert (10 ^ 10 <= base ^ 10) by (apply Z.pow_le_mono_l; lia).
  destruct (digit_loop_spec digits base 9 (S PRINTBUF) [] x) as (vs & -> & Hds & Hl);
    [lia|change (Z.of_nat 10) with 10; lia|simpl; unfold PRINTBUF; lia|unfold PRINTBUF; lia|].
  exists vs. rewrite <- Hv. split_and!; [|done|done]. simpl. destruct neg; simpl; [|done].
  unfold buf_add. rewrite length_fmap. unfold PRINTBUF.
  destruct (Nat.ltb_spec (length vs) 16); [|lia]. simpl. by rewrite reverse_app.
Qed.

(** C40. [printint] in both libraries prints a number in decimal or hexadecimal as an
    optional minus sign and the shortest digits with its value, and at most 11
    characters: the 16 bytes of its buffer are always enough, also for the most
    negative number. *)
Theorem printint_renders digits xx base sign :
  base = 10 \/ base = 16 -> digits = digits_lower \/ digits = digits_upper -> is_s32 xx ->
  exists vs, render digits xx base sign
      = Some ((if sign && (xx <? 0) then [45] else []) ++ reverse (char_of digits <$> vs))
    /\ digits_of base (if sign && (xx <? 0) then - xx else u32 xx) vs /\ (length vs <= 10)%nat.
Proof.
  intros Hb Hd Hx. apply render_spec; [lia| |done].
  destruct Hd as [->| ->]; [apply length_digits_lower|apply length_digits_upper].
Qed.

Lemma printint_renders_witness :
  render digits_lower (- 2 ^ 31) 10 true = Some (str "-2147483648") /\
  exists vs, digits_of 10 2147483648 vs.
Proof.
  split; [reflexivity|].
  destruct (printint_renders digits_lower (- 2 ^ 31) 10 true) as (vs & _ & Hv & _);
    [by left|by left|unfold is_s32; lia|].
  exists vs. exact Hv.
Defined.

(** ** Reading a number back *)

(** The value of decimal digit characters, most significant first. *)
Definition parse10 (n : Z) (cs : list Z) : Z := foldl (fun n c => n * 10 + (c - 48)) n cs.

Definition is_digit (c : Z) : Prop := 48 <= c <= 57.

Lemma parse10_app n cs c : parse10 n (cs ++ [c]) = parse10 n cs * 10 + (c - 48).
Proof. unfold parse10. by rewrite foldl_app. Qed.

Lemma parse10_mono n cs : 0 <= n -> Forall is_digit cs -> n <= parse10 n cs.
Proof.
  intros Hn Hd. revert n Hn. induction Hd as [|c cs Hc Hd IH]; intros n Hn; simpl; [lia|].
  unfold is_digit in Hc. specialize (IH (n * 10 + (c - 48))). lia.
Qed.

Lemma char_of_digit v : 0 <= v < 10 -> char_of digits_lower v = 48 + v.
Proof.
  intros Hv. assert (v = 0 \/ v = 1 \/ v = 2 \/ v = 3 \/ v = 4 \/ v = 5 \/ v = 6 \/ v = 7 \/ v = 8 \/ v = 9) as Hc by lia.
  by repeat (destruct Hc as [->|Hc]; [reflexivity|]); subst.
Qed.

Lemma parse10_digits vs : Forall (fun v => 0 <= v < 10) vs ->
  parse10 0 (reverse (char_of digits_lower <$> vs)) = num 10 vs
  /\ Forall is_digit (reverse (char_of digits_lower <$> vs)).
Proof.
  induction 1 as [|v vs Hv Hvs [IH1 IH2]]; [done|]. rewrite fmap_cons, reverse_cons. split.
  - rewrite parse10_app, IH1, char_of_digit by done. simpl. lia.
  - apply Forall_app. split; [done|]. constructor; [|done]. rewrite char_of_digit by done.
    unfold is_digit. lia.
Qed.

Lemma atoi_loop_spec m cs fuel s n :
  Forall is_digit cs -> KString.cstring m s cs -> 0 <= n -> parse10 n cs < 2 ^ 31 ->
  (length cs < fuel)%nat -> Ulib.atoi_loop fuel m s n = Some (parse10 n cs).
Proof.
  intros Hd. revert fuel s n. induction Hd as [|c cs Hc Hd IH]; intros [|fuel] s n Hs Hn Hp Hf; try (simpl in *; lia).
  - simpl in *. by rewrite Hs.
  - destruct Hs as (Hm & _ & Hs). cbn [Ulib.atoi_loop]. rewrite Hm. unfold is_digit in Hc.
    destruct (Z.leb_spec 48 c), (Z.leb_spec c 57); try lia. cbn [andb].
    assert (n * 10 + (c - 48) <= parse10 n (c :: cs)) by (apply (parse10_mono (n * 10 + (c - 48))); [lia|done]).
    rewrite s32_small by (unfold is_s32; lia).
    replace (n * 10 + c - 48) with (n * 10 + (c - 48)) by lia.
    apply IH; [done|lia|done|simpl in *; lia].
Qed.

(** Round trip: a non-negative number printed in decimal and read with [atoi] is
    the number. *)
Theorem print_atoi_roundtrip x m s cs fuel :
  0 <= x < 2 ^ 31 -> render digits_lower x 10 true = Some cs ->
  KString.cstring m s cs -> (length cs < fuel)%nat -> Ulib.atoi fuel m s = Some x.
Proof.
  intros Hx Hr Hm Hf.
  destruct (render_spec digits_lower x 10 true) as (vs & Hr' & [H1 H2 _] & _);
    [lia|apply length_digits_lower|unfold is_s32; lia|].
  rewrite Hr in Hr'. injection Hr' as ->. destruct (Z.ltb_spec x 0); [lia|]. cbn [andb app] in *.
  destruct (parse10_digits vs H1) as [Hp Hd]. rewrite u32_small in H2 by (unfold is_u32; lia).
  unfold Ulib.atoi. erewrite atoi_loop_spec; [by rewrite Hp, H2|done|done|lia|lia|done].
Qed.

(** Memory with the string 1234 at address 50. *)
Definition mem_1234 : bytes := fun x => match x with 50 => 49 | 51 => 50 | 52 => 51 | 53 => 52 | _ => 0 end.

Lemma print_atoi_roundtrip_witness : Ulib.atoi 9 mem_1234 50 = Some 1234.
Proof.
  apply (print_atoi_roundtrip 1234 mem_1234 50 (str "1234")); [lia|reflexivity|cbn; repeat split|simpl; lia].
Defined.

(** * Formats *)

(** A format is a sequence of pieces: literal characters and directives. *)
Inductive piece : Type :=
| PLit (c : Z)
| PDec
| PHex
| PStr
| PChr
| PBad (c : Z).

(** [with_c]: the directive for a character is known. *)
Definition directive (with_c : bool) (d : Z) : piece :=
  if d =? 100 then PDec
  else if (d =? 120) || (d =? 112) then PHex
  else if d =? 115 then PStr
  else if d =? 37 then PLit 37
  else if with_c && (d =? 99) then PChr
  else PBad d.

Fixpoint parse_format (with_c : bool) (fmt : list Z) : list piece :=
  match fmt with
  | [] => []
  | c :: fmt' =>
      if c =? 37 then
        match fmt' with [] => [] | d :: fmt2 => directive with_c d :: parse_format with_c fmt2 end
      else PLit c :: parse_format with_c fmt'
  end.

(** What one piece prints, and the arguments left; [None] when the argument it takes
    is missing or of the wrong kind. *)
Definition print_piece (digits : list Z) (p : piece) (args : list Console.arg) : option (list Z * list Console.arg) :=
  match p, args with
  | PLit c, _ => Some ([c], args)
  | PBad c, _ => Some ([37; c], args)
  | PDec, Console.AInt z :: args' => cs ← render digits (s32 z) 10 true; Some (cs, args')
  | PHex, Console.AInt z :: args' => cs ← render digits (s32 z) 16 false; Some (cs, args')
  | PChr, Console.AInt z :: args' => Some ([u8 z], args')
  | PStr, Console.AStr s :: args' => Some (default (str "(null)") s, args')
  | _, _ => None
  end.

Fixpoint print_pieces (digits : list Z) (ps : list piece) (args : list Console.arg) : option (list Z) :=
  match ps with
  | [] => Some []
  | p :: ps' =>
      '(cs, args') ← print_piece digits p args;
      rest ← print_pieces digits ps' args';
      Some (cs ++ rest)
  end.

(** The reference: what a format prints. *)
Definition format (with_c : bool) (digits : list Z) (fmt : list Z) (args : list Console.arg) : option (list Z) :=
  print_pieces digits (parse_format with_c fmt) args.

(** ** The user library's [printf] *)

Module UPrintf.

(** The characters handed to [putc], in order.  [pct] is the state: a percent sign
    has been read. *)
Fixpoint printf_loop (pct : bool) (fmt : list Z) (args : list Console.arg) : option (list Z) :=
  match fmt with
  | [] => Some []
  | c :: fmt' =>
      if negb pct then
        if c =? 37 then printf_loop true fmt' args
        else rest ← printf_loop false fmt' args; Some (u8 c :: rest)
      else
        if c =? 100 then
          match args with
          | Console.AInt z :: args' =>
              cs ← render digits_upper (s32 z) 10 true; rest ← printf_loop false fmt' args'; Some (cs ++ rest)
          | _ => None
          end
        else if (c =? 120) || (c =? 112) then
          match args with
          | Console.AInt z :: args' =>
              cs ← render digits_upper (s32 z) 16 false; rest ← printf_loop false fmt' args'; Some (cs ++ rest)
          | _ => None
          end
        else if c =? 115 then
          match args with
          | Console.AStr s :: args' =>
              rest ← printf_loop false fmt' args'; Some (default (str "(null)") s ++ rest)
          | _ => None
          end
        else if c =? 99 then
          match args with
          | Console.AInt z :: args' => rest ← printf_loop false fmt' args'; Some (u8 z :: rest)
          | _ => None
          end
        else if c =? 37 then rest ← printf_loop false fmt' args; Some (u8 c :: rest)
        else rest ← printf_loop false fmt' args; Some (37 :: u8 c :: rest)
  end.

Definition printf (fmt : list Z) (args : list Console.arg) : option (list Z) := printf_loop false fmt args.

Lemma printf_loop_format fmt args :
  Forall (fun c => 0 < c < 256) fmt ->
  printf_loop false fmt args = format true digits_upper fmt args /\
  forall c, fmt = c :: tail fmt -> printf_loop true fmt args
    = print_pieces digits_upper (directive true c :: parse_format true (tail fmt)) args.
Proof.
  intros Hf. revert args. unfold format. induction Hf as [|c fmt Hc Hf IH]; intros args; [done|].
  assert (u8 c = c) as Hu by (apply Z.mod_small; lia). split.
  - cbn [printf_loop parse_format negb]. destruct (Z.eqb_spec c 37) as [->|].
    + destruct fmt as [|d fmt]; [done|]. by rewrite (proj2 (IH args) d eq_refl).
    + cbn [print_pieces]. simpl. rewrite (proj1 (IH args)), Hu. done.
  - intros c' [= <-]. cbn [tail printf_loop negb print_pieces]. unfold directive.
    pose proof (fun a => proj1 (IH a)) as IHa.
    destruct (Z.eqb_spec c 100) as [->|]; [|destruct ((c =? 120) || (c =? 112)) eqn:?;
      [|destruct (Z.eqb_spec c 115) as [->|]; [|destruct (Z.eqb_spec c 37) as [->|]; [|
        destruct (Z.eqb_spec c 99) as [->|]]]]]; simpl.
    all: destruct args as [|[z|t] args]; simpl; try done; rewrite ?IHa, ?Hu; try done.
    all: destruct (render _ _ _ _); simpl; rewrite ?IHa; done.
Qed.

(** The user library's [printf] writes exactly what its format and arguments
    denote, one character at a time. *)
Theorem printf_format fmt args :
  Forall (fun c => 0 < c < 256) fmt -> printf fmt args = format true digits_upper fmt args.
Proof. intros Hf. apply printf_loop_format, Hf. Qed.

Lemma printf_format_witness :
  printf (str "%d: %s%c%%%q") [Console.AInt (-12); Console.AStr None; Console.AInt 33]
    = Some (str "-12: (null)!%%q").
Proof.
  rewrite (printf_format (str "%d: %s%c%%%q")); [reflexivity|]. repeat constructor.
Defined.

End UPrintf.
