(* ===== verification/Cprintf.v ===== *)
(** Console output is what the format denotes: the characters reach the serial port in
    order, and the cursor of the screen never leaves it. *)

From S2P Require Import Prelude Monad State Console KString Printf.

Module Cprintf.
Import Console.

(** The text page: 24 rows of 80 cells are written, in a memory of 16384 cells. *)
Record screen_ok (s : console) : Prop := {
  so_panicked : con_panicked s = false;
  so_crt : length (con_crt s) = Z.to_nat 16384;
  so_pos : 0 <= con_pos s < 1920 }.

(** What the characters [cs] do to the console. *)
Record emitted (cs : list Z) (s s' : console) : Prop := {
  em_ok : screen_ok s';
  em_out : con_out s' = con_out s ++ (if con_uart s then u8 <$> cs else []);
  em_uart : con_uart s' = con_uart s;
  em_locking : con_locking s' = con_locking s;
  em_below : forall i, (1920 < i)%nat -> con_crt s' !! i = con_crt s !! i;
  em_buf : in_buf s' = in_buf s;
  em_r : in_r s' = in_r s;
  em_w : in_w s' = in_w s;
  em_e : in_e s' = in_e s;
  em_shift : kbd_shift s' = kbd_shift s }.

Lemma emitted_nil s : screen_ok s -> emitted [] s s.
Proof. intros Hs. split; try done. destruct (con_uart s); by rewrite app_nil_r. Qed.

Lemma emitted_app cs1 cs2 s1 s2 s3 : emitted cs1 s1 s2 -> emitted cs2 s2 s3 -> emitted (cs1 ++ cs2) s1 s3.
Proof.
  intros [] []. split; try congruence.
  - rewrite em_out1, em_out0, em_uart0. destruct (con_uart s1); by rewrite ?fmap_app, <- app_assoc, ?app_nil_r.
  - intros i Hi. rewrite em_below1 by done. by apply em_below0.
Qed.

(** A computation that prints [cs] and does nothing else. *)
Definition prints (cs : list Z) (m : K unit) : Prop :=
  forall o k, screen_ok (cons k) -> exists s', m o k = Ok tt o (k <| cons := s' |>) /\ emitted cs (cons k) s'.

Lemma kernel_cons_id k : k <| cons := cons k |> = k.
Proof. by destruct k. Qed.

Lemma prints_ret : prints [] (mret tt).
Proof. intros o k Hs. exists (cons k). rewrite kernel_cons_id. by split; [|apply emitted_nil]. Qed.

Lemma prints_bind cs1 cs2 (m1 : K unit) (m2 : unit -> K unit) :
  prints cs1 m1 -> prints cs2 (m2 tt) -> prints (cs1 ++ cs2) (m1 ≫= m2).
Proof.
  intros H1 H2 o k Hs. destruct (H1 o k Hs) as (s1 & E1 & M1).
  destruct (H2 o (k <| cons := s1 |>)) as (s2 & E2 & M2); [rsimpl; apply M1|].
  exists s2. rewrite (bind_ok _ _ _ _ _ _ _ E1), E2. split; [f_equal; kernel_eq|].
  rsimpl. by eapply emitted_app.
Qed.

Lemma prints_each {A} (f : A -> list Z) (l : list A) (body : A -> K unit) :
  (forall a, a ∈ l -> prints (f a) (body a)) -> prints (l ≫= f) (for_each l body).
Proof.
  induction l as [|a l IH]; intros Hb; [apply prints_ret|].
  cbn [for_each]. change ((a :: l) ≫= f) with (f a ++ (l ≫= f)).
  apply prints_bind; [apply Hb; constructor|]. apply IH. intros b Hin. apply Hb. by constructor.
Qed.

(** ** One character *)

(** The serial port gets the character; the rest of the console is left alone. *)
Definition serial (c : Z) (s : console) : console :=
  if con_uart s then s <| con_out ::= fun l => l ++ [u8 c] |> else s.

Lemma uartputc_eq c o k : uartputc c o k = Ok tt o (k <| cons ::= serial c |>).
Proof.
  unfold uartputc, upd_cons. mbind_step. unfold serial. destruct (con_uart (cons k)) eqn:E; simpl.
  - unfold modify. f_equal. kernel_eq. by rewrite E.
  - unfold mret, M_ret. f_equal. kernel_eq. by rewrite E.
Qed.

Lemma length_scroll pos crt : 0 <= pos <= 1920 -> (2000 <= length crt)%nat -> length (scroll pos crt) = length crt.
Proof.
  intros Hp Hl. unfold scroll. rewrite !length_app, length_replicate, length_take, length_drop, length_app,
    length_take, !length_drop. lia.
Qed.

Lemma scroll_below pos crt i : 0 <= pos <= 1920 -> (2000 <= length crt)%nat -> (1920 <= i)%nat ->
  scroll pos crt !! i = crt !! i.
Proof.
  intros Hp Hl Hi. unfold scroll.
  assert (length (take 1840 (drop 80 crt) ++ drop 1840 crt) = length crt) as Hu.
  { rewrite length_app, length_take, !length_drop. lia. }
  rewrite lookup_app_r by (rewrite length_take; lia). rewrite length_take, Hu.
  rewrite lookup_app_r by (rewrite length_replicate; lia). rewrite length_replicate, lookup_drop.
  rewrite lookup_app_r by (rewrite length_take, length_drop; lia).
  rewrite length_take, length_drop, lookup_drop. f_equal. lia.
Qed.

Lemma set_crt_eq i v o k : 0 <= i -> i < Z.of_nat (length (con_crt (cons k))) ->
  set_crt i v o k = Ok tt o (k <| cons ::= fun s => s <| con_crt ::= <[Z.to_nat i := v]> |> |>).
Proof.
  intros H1 H2. unfold set_crt. mbind_step. destruct (Z.leb_spec 0 i), (Z.ltb_spec i (Z.of_nat (length (con_crt (cons k))))); try lia.
  done.
Qed.

(** The cell the cursor leaves and where it goes. *)
Definition advance (c : Z) (s : console) : console :=
  if c =? 10 then s <| con_pos ::= fun p => p + (80 - Z.rem p 80) |>
  else if c =? BACKSPACE then s <| con_pos ::= fun p => if 0 <? p then p - 1 else p |>
  else s <| con_crt ::= <[Z.to_nat (con_pos s) := Z.lor (Z.land c 0xff) 0x0700]> |> <| con_pos ::= fun p => p + 1 |>.

(** The new position, scrolled back on the screen, with a blank under the cursor. *)
Definition settle (s : console) : console :=
  let s := if 1920 <=? con_pos s
           then s <| con_crt ::= scroll (con_pos s - 80) |> <| con_pos ::= fun p => p - 80 |> else s in
  s <| con_crt ::= <[Z.to_nat (con_pos s) := Z.lor 32 0x0700]> |>.

Lemma advance_pos c s : screen_ok s -> 0 <= con_pos (advance c s) <= 1920 /\ length (con_crt (advance c s)) = Z.to_nat 16384.
Proof.
  intros [_ Hc Hp]. unfold advance.
  destruct (c =? 10); [|destruct (c =? BACKSPACE)]; rsimpl; rewrite ?length_insert; (split; [|done]).
  - rewrite Z.rem_mod_nonneg by lia. Z.to_euclidean_division_equations. lia.
  - destruct (Z.ltb_spec 0 (con_pos s)); lia.
  - lia.
Qed.

Lemma cgaputc_eq c o k : screen_ok (cons k) ->
  cgaputc c o k = Ok tt o (k <| cons ::= fun s => settle (advance c s) |>).
Proof.
  intros Hs. destruct (advance_pos c _ Hs) as [Hp Hl]. unfold cgaputc. mbind_step.
  set (s := advance c (cons k)) in *.
  (* the state after the move, with the old position still in the registers *)
  assert (cga_advance c (con_pos (cons k)) o k
          = Ok (con_pos s) o (k <| cons := s <| con_pos := con_pos (cons k) |> |>)) as Ha.
  { unfold cga_advance, s, advance. destruct Hs as [_ Hc Hpos].
    destruct (c =? 10); [|destruct (c =? BACKSPACE)].
    - unfold mret, M_ret. f_equal. kernel_eq; by destruct (cons k).
    - unfold mret, M_ret. f_equal. kernel_eq; by destruct (cons k).
    - erewrite bind_ok by (apply set_crt_eq; [lia|rewrite Hc; lia]). unfold mret, M_ret. rsimpl. f_equal; kernel_eq; by destruct (cons k). }
  erewrite bind_ok by exact Ha.
  destruct (Z.ltb_spec (con_pos s) 0); [lia|]. destruct (Z.ltb_spec (25 * 80) (con_pos s)); [lia|]. cbn [orb].
  assert ((24 <=? con_pos s / 80) = (1920 <=? con_pos s)) as ->.
  { apply eq_true_iff_eq. rewrite !Z.leb_le. Z.to_euclidean_division_equations. lia. }
  destruct (Z.leb_spec 1920 (con_pos s)) as [Hge|Hlt].
  - rewrite bind_assoc. unfold upd_cons. mbind_step. mbind_step.
    assert (con_pos s = 1920) as E by lia.
    rewrite Z.mod_small by lia.
    mbind_step. rewrite set_crt_eq; [|lia|rsimpl; rewrite length_scroll by (rewrite ?Hl; lia); rewrite Hl; lia].
    f_equal. kernel_eq. fold s. unfold settle. rewrite (proj2 (Z.leb_le 1920 (con_pos s)) Hge). by destruct s.
  - mbind_step. rewrite Z.mod_small by lia. unfold upd_cons. mbind_step.
    rewrite set_crt_eq by (rsimpl; rewrite ?Hl; lia). f_equal. kernel_eq.
    fold s. unfold settle. rewrite (proj2 (Z.leb_gt 1920 (con_pos s)) Hlt). by destruct s.
Qed.

Lemma emitted_screen c s s0 : screen_ok s ->
  (con_crt s0 = con_crt s /\ con_pos s0 = con_pos s /\ con_panicked s0 = false) ->
  screen_ok (settle (advance c s0)) /\
  forall i, (1920 < i)%nat -> con_crt (settle (advance c s0)) !! i = con_crt s !! i.
Proof.
  intros Hs (H1 & H2 & H3).
  assert (screen_ok s0) as Hs0 by (destruct Hs; split; congruence).
  destruct (advance_pos c s0 Hs0) as [Hp Hl].
  assert (forall i, (1920 < i)%nat -> con_crt (advance c s0) !! i = con_crt s !! i) as Ha.
  { intros i Hi. unfold advance. destruct (c =? 10); [|destruct (c =? BACKSPACE)]; rsimpl; try congruence.
    rewrite list_lookup_insert_ne by (destruct Hs0; lia). congruence. }
  assert (con_panicked (advance c s0) = false) as Hpn.
  { unfold advance. destruct (c =? 10); [|destruct (c =? BACKSPACE)]; by rsimpl. }
  unfold settle. destruct (Z.leb_spec 1920 (con_pos (advance c s0))).
  - split.
    + split; rsimpl; [done|rewrite length_insert, length_scroll by lia; done|lia].
    + intros i Hi. rsimpl. rewrite list_lookup_insert_ne by lia. rewrite scroll_below by lia. by apply Ha.
  - split.
    + split; rsimpl; [done|by rewrite length_insert|lia].
    + intros i Hi. rsimpl. rewrite list_lookup_insert_ne by lia. by apply Ha.
Qed.

(** What [consputc] sends to the serial port. *)
Definition sent (c : Z) : list Z := if c =? BACKSPACE then [8; 32; 8] else [c].

Lemma serial_fields c s :
  con_crt (serial c s) = con_crt s /\ con_pos (serial c s) = con_pos s /\
  con_panicked (serial c s) = con_panicked s /\ con_uart (serial c s) = con_uart s /\
  con_out (serial c s) = con_out s ++ (if con_uart s then [u8 c] else []).
Proof. unfold serial. destruct (con_uart s) eqn:E; rsimpl; by rewrite ?app_nil_r. Qed.

Lemma serial_rest c s :
  con_locking (serial c s) = con_locking s /\ in_buf (serial c s) = in_buf s /\ in_r (serial c s) = in_r s /\
  in_w (serial c s) = in_w s /\ in_e (serial c s) = in_e s /\ kbd_shift (serial c s) = kbd_shift s.
Proof. unfold serial. by destruct (con_uart s). Qed.

Lemma screen_rest c s :
  let s' := settle (advance c s) in
  con_out s' = con_out s /\ con_uart s' = con_uart s /\ con_locking s' = con_locking s /\ in_buf s' = in_buf s /\
  in_r s' = in_r s /\ in_w s' = in_w s /\ in_e s' = in_e s /\ kbd_shift s' = kbd_shift s.
Proof.
  unfold settle. destruct (1920 <=? con_pos (advance c s)); unfold advance;
    (destruct (c =? 10); [|destruct (c =? BACKSPACE)]); cbn zeta; rsimpl; done.
Qed.

(** The serial port and then the screen. *)
Lemma emitted_char c cs s s0 :
  screen_ok s -> con_crt s0 = con_crt s -> con_pos s0 = con_pos s -> con_panicked s0 = con_panicked s ->
  con_uart s0 = con_uart s -> con_out s0 = con_out s ++ (if con_uart s then u8 <$> cs else []) ->
  con_locking s0 = con_locking s -> in_buf s0 = in_buf s -> in_r s0 = in_r s -> in_w s0 = in_w s ->
  in_e s0 = in_e s -> kbd_shift s0 = kbd_shift s ->
  emitted cs s (settle (advance c s0)).
Proof.
  intros Hs H1 H2 H3 H4 H5 H6 H7 H8 H9 H10 H11.
  destruct (emitted_screen c s s0 Hs) as [Ho Hb]; [rewrite H3; destruct Hs; done|].
  destruct (screen_rest c s0) as (E1 & E2 & E3 & E4 & E5 & E6 & E7 & E8). split; first [done|congruence].
Qed.

Lemma erase_eq o k :
  (uartputc 8;; uartputc 32;; uartputc 8) o k
  = Ok tt o (k <| cons ::= fun s => serial 8 (serial 32 (serial 8 s)) |>).
Proof. do 2 (erewrite bind_ok by apply uartputc_eq). rewrite uartputc_eq. done. Qed.

Lemma consputc_prints c : prints (sent c) (consputc c).
Proof.
  intros o k Hs. unfold consputc. mbind_step. rewrite (so_panicked _ Hs). unfold sent.
  destruct (Z.eqb_spec c BACKSPACE) as [->|].
  - exists (settle (advance BACKSPACE (serial 8 (serial 32 (serial 8 (cons k)))))).
    pose proof (serial_fields 8 (cons k)) as F1. pose proof (serial_rest 8 (cons k)) as R1.
    pose proof (serial_fields 32 (serial 8 (cons k))) as F2. pose proof (serial_rest 32 (serial 8 (cons k))) as R2.
    pose proof (serial_fields 8 (serial 32 (serial 8 (cons k)))) as F3.
    pose proof (serial_rest 8 (serial 32 (serial 8 (cons k)))) as R3.
    split.
    + erewrite bind_ok by apply erase_eq.
      rewrite cgaputc_eq by (rsimpl; destruct Hs; split; intuition congruence).
      done.
    + destruct F1 as (?&?&?&?&Ho1), F2 as (?&?&?&?&Ho2), F3 as (?&?&?&?&Ho3).
      destruct R1 as (?&?&?&?&?&?), R2 as (?&?&?&?&?&?), R3 as (?&?&?&?&?&?).
      apply emitted_char; try congruence. rewrite Ho3, Ho2, Ho1.
      assert (con_uart (serial 32 (serial 8 (cons k))) = con_uart (cons k)) as -> by congruence.
      assert (con_uart (serial 8 (cons k)) = con_uart (cons k)) as -> by congruence.
      rewrite <- !app_assoc. by destruct (con_uart (cons k)).
  - exists (settle (advance c (serial c (cons k)))).
    destruct (serial_fields c (cons k)) as (?&?&?&?&?). destruct (serial_rest c (cons k)) as (?&?&?&?&?&?).
    split.
    + erewrite bind_ok by apply uartputc_eq.
      by rewrite cgaputc_eq by (rsimpl; destruct Hs; split; congruence).
    + by apply emitted_char.
Qed.

Lemma sent_byte c : c < 256 -> sent c = [c].
Proof. intros. unfold sent, BACKSPACE. destruct (Z.eqb_spec c 0x100); [lia|done]. Qed.

Lemma putc_prints c : c < 256 -> prints [c] (consputc c).
Proof. intros Hc. rewrite <- (sent_byte c) by done. apply consputc_prints. Qed.

Definition is_char (c : Z) : Prop := c < 256.

Lemma chars_print cs : Forall is_char cs -> prints cs (for_each cs consputc).
Proof.
  induction 1 as [|c cs Hc Hcs IH]; [apply prints_ret|].
  apply (prints_bind [c]); [by apply putc_prints|apply IH].
Qed.

(** ** Formats *)

Lemma render_chars digits xx base sign cs :
  Forall is_char digits -> render digits xx base sign = Some cs -> Forall is_char cs.
Proof.
  intros Hd. unfold render.
  assert (forall fuel b x b', Forall is_char b -> digit_loop digits fuel b x base = Some b' -> Forall is_char b') as Hl.
  { induction fuel as [|fuel IH]; intros b x b' Hb; simpl; [done|].
    destruct (digits !! Z.to_nat (x mod base)) as [d|] eqn:E; simpl; [|done]. unfold buf_add.
    destruct (_ <? _)%nat; simpl; [|done].
    assert (Forall is_char (b ++ [d])) by (apply Forall_app; split; [done|constructor; [by apply (Forall_lookup_1 is_char digits _ d Hd E)|done]]).
    destruct (x / base =? 0); [by intros [= <-]|]. by apply IH. }
  destruct (digit_loop _ _ _ _ _) as [b|] eqn:E; simpl; [|done]. apply Hl in E; [|done].
  assert (forall b0, Forall is_char b0 -> forall cs0, buf_add b0 45 = Some cs0 -> Forall is_char cs0) as Ha.
  { intros b0 Hb0 cs0. unfold buf_add. destruct (_ <? _)%nat; [|done]. intros [= <-]. apply Forall_app.
    split; [done|]. constructor; [unfold is_char; lia|done]. }
  destruct (sign && (xx <? 0)); simpl.
  - destruct (buf_add b 45) as [b'|] eqn:E'; simpl; [|done]. intros [= <-]. apply Forall_reverse. by apply (Ha b).
  - intros [= <-]. by apply Forall_reverse.
Qed.

Lemma digits_lower_chars : Forall is_char digits_lower.
Proof. repeat constructor. Qed.

Lemma printint_prints xx base sign cs :
  render digits_lower xx base sign = Some cs -> prints cs (printint xx base sign).
Proof.
  intros Hr. unfold printint. rewrite Hr. apply chars_print.
  eapply render_chars; [apply digits_lower_chars|done].
Qed.

(** Arguments that are strings hold characters. *)
Definition arg_ok (a : arg) : Prop := match a with AStr (Some s) => Forall is_char s | _ => True end.

Lemma prints_cons c cs (m1 : K unit) (m2 : unit -> K unit) :
  prints [c] m1 -> prints cs (m2 tt) -> prints (c :: cs) (m1 ≫= m2).
Proof. apply (prints_bind [c]). Qed.

Lemma prints_eq cs (m m' : K unit) : (forall o k, m o k = m' o k) -> prints cs m' -> prints cs m.
Proof. intros He Hm o k Hs. rewrite He. by apply Hm. Qed.

Lemma cprintf_loop_prints fmt args cs :
  Forall (fun c => 0 < c < 256) fmt -> Forall arg_ok args ->
  format false digits_lower fmt args = Some cs -> prints cs (cprintf_loop fmt args).
Proof.
  unfold format. intros Hf. revert args cs. remember (length fmt) as n eqn:Hn. revert fmt Hn Hf.
  induction (lt_wf n) as [n _ IH]. intros [|c fmt] Hn Hf args cs Ha Hp.
  { injection Hp as <-. apply prints_ret. }
  inversion Hf as [|? ? Hc Hf']; subst. cbn [parse_format cprintf_loop] in *.
  destruct (Z.eqb_spec c 37) as [->|Hne]; cbn [negb].
  - destruct fmt as [|d fmt]; [injection Hp as <-; apply prints_ret|]. inversion Hf' as [|? ? Hd Hf2]; subst.
    assert (forall args cs, Forall arg_ok args -> print_pieces digits_lower (parse_format false fmt) args = Some cs ->
      prints cs (cprintf_loop fmt args)) as IHf by (intros; eapply (IH (length fmt)); simpl; eauto; lia).
    cbn [print_pieces] in Hp. unfold directive in Hp. cbn [andb] in Hp.
    destruct (Z.eqb_spec d 100) as [->|]; [|destruct ((d =? 120) || (d =? 112)) eqn:?;
      [|destruct (Z.eqb_spec d 115) as [->|]; [|destruct (Z.eqb_spec d 37) as [->|]]]]; simpl in Hp.
    + destruct args as [|[z|t] args]; try done. inversion Ha; subst.
      destruct (render digits_lower (s32 z) 10 true) as [ds|] eqn:Er; [|done]. simpl in Hp.
      destruct (print_pieces _ _ args) as [rest|] eqn:Ep; [|done]. injection Hp as <-.
      apply (prints_bind ds); [by apply printint_prints|by apply IHf].
    + destruct args as [|[z|t] args]; try done. inversion Ha; subst.
      destruct (render digits_lower (s32 z) 16 false) as [ds|] eqn:Er; [|done]. simpl in Hp.
      destruct (print_pieces _ _ args) as [rest|] eqn:Ep; [|done]. injection Hp as <-.
      apply (prints_bind ds); [by apply printint_prints|by apply IHf].
    + destruct args as [|[z|t] args]; try done. inversion Ha as [|? ? Ht ?]; subst. simpl in Hp.
      destruct (print_pieces _ _ args) as [rest|] eqn:Ep; [|done]. injection Hp as <-.
      apply (prints_bind (default (str "(null)") t)); [|by apply IHf].
      apply chars_print. destruct t; [done|]. repeat constructor.
    + destruct (print_pieces _ _ args) as [rest|] eqn:Ep; [|done]. injection Hp as <-.
      apply prints_cons; [by apply putc_prints|by apply IHf].
    + destruct (print_pieces _ _ args) as [rest|] eqn:Ep; [|done]. injection Hp as <-.
      apply prints_cons; [by apply putc_prints|]. apply prints_cons; [apply putc_prints; lia|by apply IHf].
  - cbn [print_pieces print_piece] in Hp. simpl in Hp.
    destruct (print_pieces _ _ args) as [rest|] eqn:Ep; [|done]. injection Hp as <-.
    apply prints_cons; [apply putc_prints; lia|]. eapply (IH (length fmt)); simpl; eauto.
Qed.

(** [cprintf] sends exactly the characters its format and arguments denote to the
    serial port, in order and under the console lock, and changes nothing of the
    kernel but the console's output. *)
Theorem cprintf_output fmt args cs o k :
  Forall (fun c => 0 < c < 256) (str fmt) -> Forall arg_ok args ->
  format false digits_lower (str fmt) args = Some cs ->
  screen_ok (cons k) -> unlocked LCons k ->
  exists s', cprintf fmt args o k = Ok tt o (k <| cons := s' |>) /\ emitted cs (cons k) s'.
Proof.
  intros Hf Ha Hp Hs Hl. unfold cprintf. mbind_step.
  pose proof (cprintf_loop_prints (str fmt) args cs Hf Ha Hp) as Hpr.
  destruct (con_locking (cons k)); cbn [when].
  - mbind_step. destruct (Hpr o (k <| locks ::= <[LCons := Me]> |>)) as (s' & He & Hem); [by rsimpl|].
    erewrite bind_ok by exact He. erewrite release_locked by solve_lock.
    rsimpl. exists s'. split; [f_equal; kernel_eq|done].
  - mbind_step. destruct (Hpr o k Hs) as (s' & He & Hem). erewrite bind_ok by exact He.
    exists s'. by split.
Qed.

(** Whatever characters are put on the console, backspaces, newlines and scrolling
    included, the cursor stays on the 24 rows of the screen, no cell past the cursor
    row is written, and [cgaputc] neither panics nor leaves the video memory. *)
Theorem console_bounds cs o k :
  screen_ok (cons k) ->
  exists s', for_each cs consputc o k = Ok tt o (k <| cons := s' |>) /\ screen_ok s' /\
    (forall i, (1920 < i)%nat -> con_crt s' !! i = con_crt (cons k) !! i) /\
    con_out s' = con_out (cons k) ++ (if con_uart (cons k) then u8 <$> (cs ≫= sent) else []).
Proof.
  intros Hs. destruct (prints_each sent cs consputc (fun c _ => consputc_prints c) o k Hs) as (s' & He & Hem).
  exists s'. split; [done|]. split_and!; apply Hem.
Qed.

(** A console after [consoleinit] and [uartinit]. *)
Definition ready_console : console := zero_console <| con_locking := true |> <| con_uart := true |>.
Definition console_kernel : kernel := boot_kernel <| cons := ready_console |>.

Lemma ready_console_ok : screen_ok ready_console.
Proof.
  split; [reflexivity| |change (con_pos ready_console) with 0; lia].
  change (con_crt ready_console) with (replicate (Z.to_nat 16384) 0). apply length_replicate.
Qed.

Lemma cprintf_output_witness :
  exists s', cprintf "cpu%d: %x" [AInt 1; AInt 255] [] console_kernel
      = Ok tt [] (console_kernel <| cons := s' |>)
    /\ emitted (str "cpu1: ff") ready_console s'.
Proof.
  apply (cprintf_output "cpu%d: %x" [AInt 1; AInt 255]);
    [repeat constructor|repeat constructor|reflexivity|apply ready_console_ok|reflexivity].
Defined.

Lemma console_bounds_witness :
  exists s', for_each [65; 10; BACKSPACE] consputc [] console_kernel = Ok tt [] (console_kernel <| cons := s' |>)
    /\ con_out s' = [65; 10; 8; 32; 8].
Proof.
  destruct (console_bounds [65; 10; BACKSPACE] [] console_kernel) as (s' & He & _ & _ & Ho);
    [apply ready_console_ok|].
  exists s'. split; [exact He|exact Ho].
Defined.

End Cprintf.
