(* ===== verification/UserProg.v ===== *)
(** User programs as sequences of system calls: what a program asks of the kernel,
    given the answers it gets.

    A program takes the list of the answers to its system calls and gives the calls
    that it makes, in order, and how it ends.  The answer to [fork] decides which of
    the two processes is followed: 0 for the child.  A program that makes more calls
    than there are answers is [Blocked] in the last one. *)

From S2P Require Import Prelude Monad State Console Printf.

Inductive call : Type :=
| Fork | Exit | Wait | Pipe
| Read (fd n : Z)
| Write (fd : Z) (bs : list Z)
| Close (fd : Z)
| Dup (fd : Z)
| Open (path : list Z) (mode : Z)
| Fstat (fd : Z)
| Exec (path : list Z) (argv : list (list Z))
| Kill (pid : Z)
| Mknod (path : list Z) (major minor : Z)
| Unlink (path : list Z)
| Link (old new : list Z)
| Mkdir (path : list Z)
| Chdir (path : list Z)
| Sleep (n : Z).

(** The value returned, and what the kernel stored in the memory of the program: the
    bytes that [read] read, the two descriptors of [pipe], the fields of [fstat]. *)
Record answer : Type := mkAnswer { ret : Z; data : list Z }.

Inductive ending (A : Type) : Type :=
| Done (a : A) (rest : list answer)
| Exited
| Blocked
| Stuck.
Arguments Done {A} a rest.
Arguments Exited {A}.
Arguments Blocked {A}.
Arguments Stuck {A}.

Definition P (A : Type) : Type := list answer -> list call * ending A.

#[export] Instance P_ret : MRet P := fun A a l => ([], Done a l).
#[export] Instance P_bind : MBind P := fun A B f m l =>
  match m l with
  | (t, Done a l') => let '(t', e) := f a l' in (t ++ t', e)
  | (t, Exited) => (t, Exited)
  | (t, Blocked) => (t, Blocked)
  | (t, Stuck) => (t, Stuck)
  end.

Definition sys (c : call) : P answer := fun l =>
  match l with [] => ([c], Blocked) | a :: l' => ([c], Done a l') end.
Definition sysret (c : call) : P Z := a ← sys c; mret (ret a).
Definition exit {A} : P A := fun _ => ([Exit], Exited).
Definition stuck {A} : P A := fun _ => ([], Stuck).

(** A loop whose passes end with the state for the next pass or with a result.  A pass
    that goes on has made a call, which bounds the number of passes by that of the
    answers. *)
Fixpoint iterate {A B} (n : nat) (body : A -> P (A + B)) (a : A) : P B :=
  match n with
  | O => stuck
  | S n' => body a ≫= fun r => match r with inl a' => iterate n' body a' | inr b => mret b end
  end.
Definition loop {A B} (body : A -> P (A + B)) (a : A) : P B := fun l => iterate (S (length l)) body a l.

(** [for] over the elements of a list, left by [break]. *)
Fixpoint each {A} (body : A -> P bool) (l : list A) : P unit :=
  match l with
  | [] => mret tt
  | a :: l' => body a ≫= fun go => if (go : bool) then each body l' else mret tt
  end.

(** [printf] of the user library: a [write] for every character. *)
Fixpoint puts (fd : Z) (cs : list Z) : P unit :=
  match cs with
  | [] => mret tt
  | c :: cs' => sys (Write fd [c]) ≫= fun _ => puts fd cs'
  end.
Definition printf (fd : Z) (fmt : string) (args : list Console.arg) : P unit :=
  match UPrintf.printf (str fmt) args with Some cs => puts fd cs | None => stuck end.

(** * Runs *)

(** What was written to and read from a descriptor. *)
Definition written (fd : Z) (t : list call) : list Z :=
  t ≫= fun c => match c with Write f bs => if f =? fd then bs else [] | _ => [] end.
Definition was_read (fd : Z) (t : list call) (l : list answer) : list Z :=
  zip t l ≫= fun p => match p.1 with Read f _ => if (f =? fd) && (0 <? ret p.2) then data p.2 else [] | _ => [] end.

(** Total correctness: a program consumes an answer for every call and [Q] holds of its
    calls, the answers to them and the result when it returns; it is blocked only in
    a call for which there is no answer left, and never stuck. *)
Definition runs {A} (m : P A) (Q : list call -> list answer -> A -> Prop) : Prop :=
  forall l, match m l with
    | (t, Done a l') => exists used, l = used ++ l' /\ length used = length t /\ Q t used a
    | (t, Blocked) => length t = S (length l)
    | (_, Exited) => True
    | (_, Stuck) => False
    end.

Lemma prog_ret {A} (a : A) (Q : list call -> list answer -> A -> Prop) : Q [] [] a -> runs (mret a) Q.
Proof. intros HQ l. by exists []. Qed.

Lemma prog_sys c (Q : list call -> list answer -> answer -> Prop) : (forall a, Q [c] [a] a) -> runs (sys c) Q.
Proof. intros HQ [|a l]; [done|]. by exists [a]. Qed.

Lemma prog_bind {A B} (m : P A) (f : A -> P B) (Q : list call -> list answer -> A -> Prop) (R : list call -> list answer -> B -> Prop) :
  runs m Q -> (forall t u a, Q t u a -> runs (f a) (fun t' u' b => R (t ++ t') (u ++ u') b)) -> runs (m ≫= f) R.
Proof.
  intros Hm Hf l. specialize (Hm l). unfold mbind, P_bind. destruct (m l) as [t1 [a l1| | |]]; try done.
  destruct Hm as (u & -> & Hl & HQ). specialize (Hf _ _ _ HQ l1). destruct (f a l1) as [t2 [b l2| | |]]; try done.
  - destruct Hf as (u' & -> & Hl' & HR). exists (u ++ u'). rewrite <- app_assoc, !length_app, Hl, Hl'. done.
  - rewrite !length_app, Hf, Hl. lia.
Qed.

Lemma prog_exit {A} (Q : list call -> list answer -> A -> Prop) : runs exit Q.
Proof. done. Qed.

Lemma prog_mono {A} (m : P A) (Q R : list call -> list answer -> A -> Prop) : runs m Q -> (forall t u a, Q t u a -> R t u a) -> runs m R.
Proof. intros Hm HQ l. specialize (Hm l). destruct (m l) as [t [a l'| | |]]; try done. destruct Hm as (u & ? & ? & ?). exists u. eauto. Qed.

(** [printf] writes its characters, one at a time. *)
Lemma prog_puts fd cs : runs (puts fd cs) (fun t u _ => t = (fun c => Write fd [c]) <$> cs /\ length u = length cs).
Proof.
  induction cs as [|c cs IH]; [by apply prog_ret|]. eapply (prog_bind _ _ (fun t u a => t = [Write fd [c]] /\ u = [a])); [by apply prog_sys|].
  intros t u a [-> ->]. eapply prog_mono; [exact IH|]. intros t' u' _ [-> Hl]. simpl. by rewrite Hl.
Qed.

Lemma prog_printf fd fmt args cs : UPrintf.printf (str fmt) args = Some cs ->
  runs (printf fd fmt args) (fun t u _ => t = (fun c => Write fd [c]) <$> cs /\ length u = length cs).
Proof. unfold printf. intros ->. apply prog_puts. Qed.

(** A message before the end of the process. *)
Lemma prog_fail {A} fd fmt args cs (Q : list call -> list answer -> A -> Prop) : UPrintf.printf (str fmt) args = Some cs -> runs (printf fd fmt args;; exit) Q.
Proof. intros E. eapply prog_bind; [by apply prog_printf|by intros; apply prog_exit]. Qed.

Lemma written_puts fd cs : written fd ((fun c => Write fd [c]) <$> cs) = cs.
Proof.
  induction cs as [|c cs IH]; [done|]. change (written fd ((fun c => Write fd [c]) <$> c :: cs)) with ((if fd =? fd then [c] else []) ++ written fd ((fun c => Write fd [c]) <$> cs)).
  by rewrite Z.eqb_refl, IH.
Qed.
Lemma was_read_puts fd fd' cs u : was_read fd ((fun c => Write fd' [c]) <$> cs) u = [].
Proof. unfold was_read. revert u. induction cs as [|c cs IH]; intros [|a u]; [done..|]. simpl. apply IH. Qed.

(** An invariant of a loop on what was done so far; the passes that go on make a call. *)
Lemma prog_loop {A B} (body : A -> P (A + B)) (I : list call -> list answer -> A -> Prop) (R : list call -> list answer -> B -> Prop) a :
  I [] [] a ->
  (forall t u a, I t u a -> runs (body a) (fun t' u' r => match r with inl a' => t' <> [] /\ I (t ++ t') (u ++ u') a' | inr b => R (t ++ t') (u ++ u') b end)) ->
  runs (loop body a) R.
Proof.
  intros H0 Hb.
  assert (forall n t0 u0 a l, I t0 u0 a -> (length l < n)%nat -> match iterate n body a l with
    | (t, Done b l') => exists u, l = u ++ l' /\ length u = length t /\ R (t0 ++ t) (u0 ++ u) b
    | (t, Blocked) => length t = S (length l) | (_, Exited) => True | (_, Stuck) => False end) as Hn.
  { clear -Hb. intros n. induction n as [|n IH]; intros t0 u0 a l HI Hn; [lia|]. cbn [iterate]. unfold mbind, P_bind.
    specialize (Hb _ _ _ HI l). destruct (body a l) as [t1 [r l1| | |]]; try done. destruct Hb as (u1 & -> & Hl1 & HQ). destruct r as [a'|b'].
    - destruct HQ as [Ht HQ]. specialize (IH _ _ _ l1 HQ). rewrite length_app, Hl1 in *. destruct t1 as [|c t1]; [done|]. simpl in Hn. specialize (IH ltac:(lia)).
      destruct (iterate n body a' l1) as [t2 [b l2| | |]]; try done.
      + destruct IH as (u2 & -> & Hl2 & HR). exists (u1 ++ u2). rewrite <- !app_assoc, !length_app, Hl1, Hl2 in *. done.
      + rewrite length_app, IH. lia.
    - cbn. exists u1. by rewrite !app_nil_r. }
  intros l. apply (Hn (S (length l)) [] [] a l); [done|lia].
Qed.

(** The bound on the passes is not reached. *)
Lemma loop_unfold {A B} (body : A -> P (A + B)) a l :
  (forall a l t a' l', body a l = (t, Done (inl a') l') -> (length l' < length l)%nat) ->
  loop body a l = (body a ≫= fun r => match r with inl a' => loop body a' | inr b => mret b end) l.
Proof.
  intros Hc. assert (forall n m a l, (length l < n)%nat -> (length l < m)%nat -> iterate n body a l = iterate m body a l) as He.
  { clear a l. intros n. induction n as [|n IH]; intros [|m] a l Hn Hm; try lia. simpl. unfold mbind, P_bind. destruct (body a l) as [t1 [[a'|b] l1| | |]] eqn:E; try done.
    rewrite (IH m a' l1); [done|apply Hc in E; lia..]. }
  unfold loop at 1. simpl. unfold mbind, P_bind. destruct (body a l) as [t1 [[a'|b] l1| | |]] eqn:E; try done. unfold loop.
  rewrite (He (length l) (S (length l1)) a' l1); [done|apply Hc in E; lia..].
Qed.
