(* ===== verification/Programs.v ===== *)
(** The small user programs and [stat] of the user library: cat.c, wc.c, echo.c, ls.c,
    kill.c, ln.c, mkdir.c, rm.c, init.c, zombie.c, stressfs.c, forktest.c, ulib.c. *)

From S2P Require Import Prelude Monad State Console Kalloc KString Fs Sysfile Printf UserProg.

(** The string in an array: up to the first NUL. *)
Fixpoint cstr (s : list Z) : list Z :=
  match s with c :: s' => if c =? 0 then [] else c :: cstr s' | [] => [] end.

(** A string as an argument of [printf]. *)
Notation pstr s := (Console.AStr (Some s)).

Module Cat.
Definition cat (fd : Z) : P unit :=
  n ← loop (fun _ : unit =>
    r ← sys (Read fd 512);
    if 0 <? ret r then
      w ← sysret (Write 1 (data r));
      if negb (w =? ret r) then printf 1 "cat: write error
" [];; exit else mret (inl tt)
    else mret (inr (ret r))) tt;
  if n <? 0 then printf 1 "cat: read error
" [];; exit else mret tt.

Definition main (argv : list (list Z)) : P unit :=
  if (length argv <=? 1)%nat then cat 0;; exit else
  each (fun name =>
    fd ← sysret (Open name O_RDONLY);
    if fd <? 0 then printf 1 "cat: cannot open %s
" [pstr name];; exit else
    cat fd;;
    sys (Close fd);;
    mret true) (drop 1 argv);;
  exit.
End Cat.

Module Wc.
Definition is_space (c : Z) : bool := bool_decide (c ∈ [32; 13; 9; 10; 11]).

(** The counters: lines, words, characters, and [inword]. *)
Record counts : Type := mkCounts { c_l : Z; c_w : Z; c_c : Z; inword : bool }.
Definition count (s : counts) (c : Z) : counts :=
  let '(mkCounts l w n i) := s in
  let n := s32 (n + 1) in
  let l := if c =? 10 then s32 (l + 1) else l in
  if is_space c then mkCounts l w n false
  else if negb i then mkCounts l (s32 (w + 1)) n true
  else mkCounts l w n i.

Definition wc (fd : Z) (name : list Z) : P unit :=
  r ← loop (fun s : counts =>
    r ← sys (Read fd 512);
    if 0 <? ret r then mret (inl (foldl count s (data r)))
    else mret (inr (ret r, s))) (mkCounts 0 0 0 false);
  if r.1 <? 0 then printf 1 "wc: read error
" [];; exit else
  printf 1 "%d %d %d %s
" [Console.AInt (c_l r.2); Console.AInt (c_w r.2); Console.AInt (c_c r.2); pstr name].

Definition main (argv : list (list Z)) : P unit :=
  if (length argv <=? 1)%nat then wc 0 [];; exit else
  each (fun name =>
    fd ← sysret (Open name O_RDONLY);
    if fd <? 0 then printf 1 "wc: cannot open %s
" [pstr name];; exit else
    wc fd name;;
    sys (Close fd);;
    mret true) (drop 1 argv);;
  exit.
End Wc.

Module Echo.
Fixpoint echo (args : list (list Z)) : P unit :=
  match args with
  | [] => mret tt
  | a :: args' => printf 1 "%s%s" [pstr a; pstr (match args' with [] => str "
" | _ => str " " end)] ≫= fun _ => echo args'
  end.
Definition main (argv : list (list Z)) : P unit := echo (drop 1 argv);; exit.
End Echo.

Module Ulib2.
(** [stat] of the user library: the fields of [struct stat]. *)
Definition stat (n : list Z) : P answer :=
  fd ← sysret (Open n O_RDONLY);
  if fd <? 0 then mret (mkAnswer (-1) []) else
  r ← sys (Fstat fd);
  sys (Close fd);;
  mret r.

(** [for(i=0; i+1 < max; )]: what was stored in the buffer, [n] more at most. *)
Fixpoint gets_loop (n : nat) (got : list Z) : P (list Z) :=
  match n with
  | O => mret got
  | S n' => sys (Read 0 1) ≫= fun r =>
      if ret r <? 1 then mret got else
      let c := default 0 (data r !! 0%nat) in
      if (c =? 10) || (c =? 13) then mret (got ++ [c]) else gets_loop n' (got ++ [c])
  end.
(** [gets]: the buffer after it. *)
Definition gets (buf : list Z) (max : nat) : P (list Z) :=
  got ← gets_loop (max - 1) [];
  mret (got ++ 0 :: drop (S (length got)) buf).
End Ulib2.

Module Ls.
(** [for(p=path+strlen(path); p >= path && *p != '/'; p--)], then [p++]. *)
Fixpoint back (path : list Z) (p : nat) : nat :=
  if bool_decide (path !! p = Some 47) then S p
  else match p with O => O | S p' => back path p' end.
Definition fmtname (path : list Z) : list Z :=
  let p := drop (back path (length path)) path in
  if (DIRSIZ <=? length p)%nat then p
  else p ++ replicate (DIRSIZ - length p) 32.

Notation st_type st := (default 0 (data st !! 0%nat)).
Notation st_ino st := (default 0 (data st !! 2%nat)).
Notation st_size st := (default 0 (data st !! 4%nat)).
Definition line (path : list Z) (st : answer) : P unit :=
  printf 1 "%s %d %d %d
" [pstr (fmtname path); Console.AInt (st_type st); Console.AInt (st_ino st); Console.AInt (st_size st)].

Definition ls (path : list Z) : P unit :=
  fd ← sysret (Open path O_RDONLY);
  if fd <? 0 then printf 2 "ls: cannot open %s
" [pstr path] else
  st ← sys (Fstat fd);
  if ret st <? 0 then printf 2 "ls: cannot stat %s
" [pstr path];; sys (Close fd);; mret tt else
  (if st_type st =? T_FILE then line path st
   else if st_type st =? T_DIR then
     if 512 <? Z.of_nat (length path) + 1 + Z.of_nat DIRSIZ + 1 then printf 1 "ls: path too long
" [] else
     loop (fun _ : unit =>
       r ← sys (Read fd sizeof_dirent);
       if ret r =? sizeof_dirent then
         let de := data r in
         if de_inum de =? 0 then mret (inl tt) else
         let buf := path ++ [47] ++ cstr (de_name de) in
         st ← Ulib2.stat buf;
         if ret st <? 0 then printf 1 "ls: cannot stat %s
" [pstr buf];; mret (inl tt) else
         line buf st;; mret (inl tt)
       else mret (inr tt)) tt
   else mret tt);;
  sys (Close fd);;
  mret tt.

Definition main (argv : list (list Z)) : P unit :=
  if (length argv <? 2)%nat then ls (str ".");; exit else
  each (fun a => ls a;; mret true) (drop 1 argv);;
  exit.
End Ls.

Module Kill.
(** [atoi] of a string. *)
Definition atoi (s : list Z) : Z := default 0 (Ulib.atoi (S (length s)) (fun x => default 0 (s !! Z.to_nat x)) 0).
Definition main (argv : list (list Z)) : P unit :=
  if (length argv <? 2)%nat then printf 2 "usage: kill pid...
" [];; exit else
  each (fun a => sys (UserProg.Kill (atoi a));; mret true) (drop 1 argv);;
  exit.
End Kill.

Module Ln.
Definition main (argv : list (list Z)) : P unit :=
  match argv with
  | [_; old; new] =>
      r ← sysret (Link old new);
      (if r <? 0 then printf 2 "link %s %s: failed
" [pstr old; pstr new] else mret tt);;
      exit
  | _ => printf 2 "Usage: ln old new
" [];; exit
  end.
End Ln.

Module Mkdir.
Definition main (argv : list (list Z)) : P unit :=
  if (length argv <? 2)%nat then printf 2 "Usage: mkdir files...
" [];; exit else
  each (fun a =>
    r ← sysret (UserProg.Mkdir a);
    if r <? 0 then printf 2 "mkdir: %s failed to create
" [pstr a];; mret false else mret true) (drop 1 argv);;
  exit.
End Mkdir.

Module Rm.
Definition main (argv : list (list Z)) : P unit :=
  if (length argv <? 2)%nat then printf 2 "Usage: rm files...
" [];; exit else
  each (fun a =>
    r ← sysret (Unlink a);
    if r <? 0 then printf 2 "rm: %s failed to delete
" [pstr a];; mret false else mret true) (drop 1 argv);;
  exit.
End Rm.

Module Init.
(** [while((wpid=wait()) >= 0 && wpid != pid)] *)
Definition reap (pid : Z) : P unit :=
  loop (fun _ : unit =>
    wpid ← sysret Wait;
    if (0 <=? wpid) && negb (wpid =? pid) then printf 1 "zombie!
" [];; mret (inl tt) else mret (inr tt)) tt.

Definition main : P unit :=
  fd ← sysret (Open (str "console") O_RDWR);
  (if fd <? 0 then
     sys (Mknod (str "console") 1 1);;
     sys (Open (str "console") O_RDWR);;
     mret tt
   else mret tt);;
  sys (Dup 0);;
  sys (Dup 0);;
  loop (fun _ : unit =>
    printf 1 "init: starting sh
" [];;
    pid ← sysret Fork;
    if pid <? 0 then printf 1 "init: fork failed
" [];; exit else
    if pid =? 0 then
      sys (Exec (str "sh") [str "sh"]);;
      printf 1 "init: exec sh failed
" [];;
      exit
    else
    reap pid;;
    mret (inl tt)) tt.
End Init.

Module Zombie.
Definition main : P unit :=
  pid ← sysret Fork;
  (if 0 <? pid then sys (Sleep 5);; mret tt else mret tt);;
  exit.
End Zombie.

Module Stressfs.
(** [for(i = 0; i < 4; i++) if(fork() > 0) break;] *)
Fixpoint spawn (n : nat) (i : Z) : P Z :=
  match n with
  | O => mret i
  | S n' => sysret Fork ≫= fun pid => if 0 <? pid then mret i else spawn n' (i + 1)
  end.
Definition main : P unit :=
  printf 1 "stressfs starting
" [];;
  let buf := replicate 512 97 in
  i ← spawn 4 0;
  printf 1 "write %d
" [Console.AInt i];;
  let path := str "stressfs" ++ [48 + i] in
  fd ← sysret (Open path (Z.lor O_CREATE O_RDWR));
  each (fun _ : nat => sys (Write fd buf);; mret true) (seq 0 20);;
  sys (Close fd);;
  printf 1 "read
" [];;
  fd ← sysret (Open path O_RDONLY);
  each (fun _ : nat => sys (Read fd 512);; mret true) (seq 0 20);;
  sys (Close fd);;
  sys Wait;;
  exit.
End Stressfs.

Module Forktest.
Definition N : nat := 1000.
(** This program's own [printf]. *)
Definition printf (fd : Z) (s : string) : P unit := sys (Write fd (str s));; mret tt.

(** [for(n=0; n<N; n++)]: how many calls of [fork] succeeded. *)
Fixpoint fork_all (k : nat) (n : nat) : P nat :=
  match k with
  | O => mret n
  | S k' => sysret Fork ≫= fun pid => if pid <? 0 then mret n else if pid =? 0 then exit else fork_all k' (S n)
  end.
Fixpoint wait_all (n : nat) : P unit :=
  match n with
  | O => mret tt
  | S n' => sysret Wait ≫= fun r => if r <? 0 then printf 1 "wait stopped early
" ≫= fun _ => exit else wait_all n'
  end.
Definition forktest : P unit :=
  printf 1 "fork test
";;
  n ← fork_all N 0;
  if (n =? N)%nat then printf 1 "fork claimed to work N times!
";; exit else
  wait_all n;;
  r ← sysret Wait;
  if negb (r =? -1) then printf 1 "wait got too many
";; exit else
  printf 1 "fork test OK
".
Definition main : P unit := forktest;; exit.
End Forktest.

(** * What the programs do *)

Lemma written_app fd t t' : written fd (t ++ t') = written fd t ++ written fd t'.
Proof. unfold written. apply bind_app. Qed.
Lemma was_read_app fd t u t' u' : length u = length t -> was_read fd (t ++ t') (u ++ u') = was_read fd t u ++ was_read fd t' u'.
Proof. intros Hl. unfold was_read. rewrite zip_with_app by done. apply bind_app. Qed.

(** [cat] writes what it reads. *)
Lemma cat_copies fd : runs (Cat.cat fd) (fun t u _ => written 1 t = was_read fd t u).
Proof.
  unfold Cat.cat. eapply (prog_bind _ _ (fun t u _ => length u = length t /\ written 1 t = was_read fd t u)).
  - apply (prog_loop _ (fun t u _ => length u = length t /\ written 1 t = was_read fd t u)); [done|]. intros t u _ [Hl Hw].
    eapply (prog_bind _ _ (fun t' u' r => t' = [Read fd 512] /\ u' = [r])); [by apply prog_sys|]. intros t1 u1 r [-> ->]. destruct (0 <? ret r) eqn:Er.
    + eapply (prog_bind _ _ (fun t' u' _ => t' = [Write 1 (data r)] /\ exists a, u' = [a])).
      * eapply (prog_bind _ _ (fun t' u' a => t' = [Write 1 (data r)] /\ u' = [a])); [by apply prog_sys|]. intros ? ? a [-> ->]. apply prog_ret. eauto.
      * intros ? ? w [-> [a ->]]. destruct (negb _).
        -- by eapply prog_fail.
        -- apply prog_ret. rewrite !app_nil_r, !length_app, Hl. split_and!; [done..|]. rewrite written_app, was_read_app, Hw by done. f_equal.
           unfold written, was_read. simpl. rewrite Z.eqb_refl, Er. by rewrite ?app_nil_r.
    + apply prog_ret. rewrite !app_nil_r, !length_app, Hl. split; [done|]. rewrite written_app, was_read_app, Hw by done. f_equal.
      unfold written, was_read. simpl. rewrite Er, andb_false_r. done.
  - intros t u n [Hl Hw]. destruct (n <? 0).
    + by eapply prog_fail.
    + apply prog_ret. by rewrite !app_nil_r.
Qed.

(** ** [wc] *)

(** The pieces between separators. *)
Fixpoint split (sep : Z -> bool) (l : list Z) : list (list Z) :=
  match l with
  | [] => [[]]
  | c :: l' => if sep c then [] :: split sep l' else match split sep l' with w :: ws => (c :: w) :: ws | [] => [[c]] end
  end.
Definition nlines (bs : list Z) : Z := Z.of_nat (length (filter (fun c => c = 10) bs)).
Definition nonempty (ws : list (list Z)) : nat := length (filter (fun w => w <> []) ws).
Definition nwords (bs : list Z) : Z := Z.of_nat (nonempty (split Wc.is_space bs)).

Lemma split_cons sep l : exists w ws, split sep l = w :: ws.
Proof. destruct l as [|c l]; simpl; [eauto|]. destruct (sep c); [eauto|]. destruct (split sep l); eauto. Qed.

Lemma split_length sep l : (nonempty (split sep l) <= length l)%nat.
Proof.
  unfold nonempty. induction l as [|c l IH]; [done|]. cbn [split]. destruct (sep c); [rewrite filter_cons_False by naive_solver; simpl; lia|].
  destruct (split_cons sep l) as (w & ws & E). rewrite E in *. rewrite filter_cons_True by done. rewrite filter_cons in IH. destruct (decide (w <> [])); simpl in *; lia.
Qed.

(** The counters after a prefix: the words of the rest, without the one in progress. *)
Lemma count_spec bs l w n i : 0 <= l -> 0 <= w -> 0 <= n -> l <= n -> w <= n -> n + Z.of_nat (length bs) < 2 ^ 31 ->
  let s := foldl Wc.count (Wc.mkCounts l w n i) bs in let ws := split Wc.is_space bs in
  Wc.c_l s = l + nlines bs /\ Wc.c_c s = n + Z.of_nat (length bs) /\ Wc.c_w s = w + Z.of_nat (nonempty (if i then tail ws else ws)).
Proof.
  unfold nlines. revert l w n i. induction bs as [|c bs IH]; intros l w n i Hl Hw Hn Hln Hwn Hb; cbn zeta.
  { rewrite filter_nil. assert (nonempty (if i then tail (split Wc.is_space []) else split Wc.is_space []) = 0%nat) as -> by by destruct i. simpl. lia. }
  cbn [foldl Wc.count split length] in *. destruct (split_cons Wc.is_space bs) as (x & xs & Ex).
  rewrite (s32_small (n + 1)) by (unfold is_s32; lia). rewrite filter_cons.
  assert (forall l', l' = (if c =? 10 then s32 (l + 1) else l) -> l' = l + Z.of_nat (if decide (c = 10) then 1 else 0) /\ 0 <= l' <= n + 1) as El.
  { intros l' ->. destruct (Z.eqb_spec c 10); [rewrite s32_small by (unfold is_s32; lia); rewrite decide_True by done; lia|rewrite decide_False by done; lia]. }
  destruct (El _ eq_refl) as [El1 El2]. set (l' := if c =? 10 then s32 (l + 1) else l) in *.
  assert (Z.of_nat (length (if decide (c = 10) then c :: filter (fun c => c = 10) bs else filter (fun c => c = 10) bs))
    = Z.of_nat (if decide (c = 10) then 1 else 0) + Z.of_nat (length (filter (fun c => c = 10) bs))) as Ef by (destruct (decide (c = 10)); simpl; lia).
  rewrite Ef. destruct (Wc.is_space c).
  - destruct (IH l' w (n + 1) false) as (E1 & E2 & E3); try lia. rewrite E1, E2, E3. split_and!; [lia|lia|]. destruct i; [done|]. simpl. done.
  - rewrite Ex in *. destruct i; cbn [negb].
    + destruct (IH l' w (n + 1) true) as (E1 & E2 & E3); try lia. rewrite E1, E2, E3. split_and!; [lia|lia|done].
    + rewrite (s32_small (w + 1)) by (unfold is_s32; lia). destruct (IH l' (w + 1) (n + 1) true) as (E1 & E2 & E3); try lia. rewrite E1, E2, E3. split_and!; [lia|lia|].
      unfold nonempty. rewrite (filter_cons_True _ (c :: x)) by done. simpl. lia.
Qed.

Lemma render_dec z : is_Some (render digits_upper (s32 z) 10 true).
Proof.
  destruct (render_spec digits_upper (s32 z) 10 true) as (vs & -> & _); [lia|by vm_compute|apply s32_range|]. eauto.
Qed.
Lemma wc_line a b c name : is_Some (UPrintf.printf (str "%d %d %d %s
") [Console.AInt a; Console.AInt b; Console.AInt c; pstr name]).
Proof.
  destruct (render_dec a) as [x Ea], (render_dec b) as [y Eb], (render_dec c) as [z Ec].
  unfold UPrintf.printf. match goal with |- context [str ?s] => let v := eval vm_compute in (str s) in change (str s) with v end.
  cbn [UPrintf.printf_loop Z.eqb Pos.eqb orb andb]. rewrite Ea, Eb, Ec. eexists. reflexivity.
Qed.

(** [wc] prints the numbers of lines, words and characters of what it has read, however
    the reads cut it up. *)
Lemma wc_counts fd name : runs (Wc.wc fd name) (fun t u _ => let bs := was_read fd t u in Z.of_nat (length bs) < 2 ^ 31 ->
  Some (written 1 t) = UPrintf.printf (str "%d %d %d %s
") [Console.AInt (nlines bs); Console.AInt (nwords bs); Console.AInt (Z.of_nat (length bs)); pstr name]).
Proof.
  unfold Wc.wc. set (s0 := Wc.mkCounts 0 0 0 false).
  eapply (prog_bind _ _ (fun t u r => length u = length t /\ written 1 t = [] /\ r.2 = foldl Wc.count s0 (was_read fd t u))).
  - apply (prog_loop _ (fun t u s => length u = length t /\ written 1 t = [] /\ s = foldl Wc.count s0 (was_read fd t u))); [done|]. intros t u s (Hl & Hw & ->).
    eapply (prog_bind _ _ (fun t' u' r => t' = [Read fd 512] /\ u' = [r])); [by apply prog_sys|]. intros t1 u1 r [-> ->].
    assert (was_read fd [Read fd 512] [r] = if 0 <? ret r then data r else []) as Hr.
    { unfold was_read. simpl. rewrite Z.eqb_refl. destruct (0 <? ret r); [apply app_nil_r|done]. }
    destruct (0 <? ret r); apply prog_ret; rewrite !app_nil_r, !length_app, Hl, written_app, Hw, was_read_app, Hr by done.
    + by rewrite foldl_app, ?app_nil_r.
    + by rewrite !app_nil_r.
  - intros t u [n s] (Hl & Hw & ->). cbn [fst snd]. destruct (n <? 0); [by eapply prog_fail|].
    destruct (wc_line (Wc.c_l (foldl Wc.count s0 (was_read fd t u))) (Wc.c_w (foldl Wc.count s0 (was_read fd t u))) (Wc.c_c (foldl Wc.count s0 (was_read fd t u))) name) as [cs E].
    eapply prog_mono; [by apply prog_printf|]. intros t' u' _ (-> & Hl'). cbn zeta. rewrite was_read_app, was_read_puts, app_nil_r by done. intros Hb.
    rewrite written_app, Hw, written_puts. cbn [app]. rewrite <- E. unfold s0. destruct (count_spec (was_read fd t u) 0 0 0 false) as (-> & -> & ->); try lia. done.
Qed.

(** ** [echo] and the names that [ls] prints *)

(** [echo] writes its arguments separated by blanks and ended by a newline. *)
Definition joined (args : list (list Z)) : list Z :=
  foldr (fun a r => a ++ match r with [] => [10] | _ => 32 :: r end) [] args.

Lemma joined_cons a args : joined (a :: args) = a ++ match args with [] => [10] | _ => 32 :: joined args end.
Proof.
  destruct args as [|b args]; [done|]. assert (joined (b :: args) <> []) as Hn by (simpl; by destruct b, (joined args)).
  change (joined (a :: b :: args)) with (a ++ match joined (b :: args) with [] => [10] | _ => 32 :: joined (b :: args) end). by destruct (joined (b :: args)).
Qed.

Lemma echo_joined args : runs (Echo.echo args) (fun t u _ => written 1 t = joined args).
Proof.
  induction args as [|a args IH]; [by apply prog_ret|]. cbn [Echo.echo]. eapply prog_bind; [by apply prog_printf|].
  intros t u _ (-> & _). eapply prog_mono; [exact IH|]. intros t' u' [] Hw. rewrite written_app, written_puts, Hw, joined_cons.
  destruct args; simpl; by rewrite ?app_nil_r, <- ?app_assoc.
Qed.

Lemma back_spec path p : (forall j, (p < j)%nat -> path !! j <> Some 47) ->
  (Ls.back path p <= S p)%nat /\ (forall j, (Ls.back path p <= j)%nat -> path !! j <> Some 47) /\ (forall j, Ls.back path p = S j -> path !! j = Some 47).
Proof.
  induction p as [|p IH]; intros Hp; simpl; case_bool_decide as Hc.
  - split_and!; [lia|intros j Hj; apply Hp; lia|by intros j [= <-]].
  - split_and!; [lia| |done]. intros [|j] _; [done|apply Hp; lia].
  - split_and!; [lia|intros j Hj; apply Hp; lia|by intros j [= <-]].
  - destruct IH as (H1 & H2 & H3); [|split_and!; [lia|done|done]]. intros j Hj. destruct (decide (j = S p)) as [->|]; [done|apply Hp; lia].
Qed.

(** [fmtname]: the part of the path after its last slash, padded with blanks to the
    width of a directory entry. *)
Lemma fmtname_spec path : exists dir base pad, path = dir ++ base /\ (dir = [] \/ exists d, dir = d ++ [47]) /\ 47 ∉ base
  /\ Ls.fmtname path = base ++ replicate pad 32 /\ pad = (DIRSIZ - length base)%nat.
Proof.
  destruct (back_spec path (length path)) as (H1 & H2 & H3).
  { intros j Hj. rewrite lookup_ge_None_2 by lia. done. }
  set (b := Ls.back path (length path)) in *. exists (take b path), (drop b path), (DIRSIZ - length (drop b path))%nat. split_and!.
  - by rewrite take_drop.
  - destruct b as [|b]; [by left|right]. exists (take b path). by rewrite (take_S_r _ _ 47) by (by apply H3).
  - intros [j Hj]%list_elem_of_lookup_1. rewrite lookup_drop in Hj. eapply H2; [|exact Hj]. lia.
  - unfold Ls.fmtname. fold b. destruct (Nat.leb_spec DIRSIZ (length (drop b path))); [|done]. replace (DIRSIZ - length (drop b path))%nat with 0%nat by lia. by rewrite app_nil_r.
  - done.
Qed.
