(* ===== verification/Grep.v ===== *)
(** The pattern matcher and the line filter of grep.c. *)

From S2P Require Import Prelude Monad State Console Printf UserProg Programs.

Module Grep.

(** * The matcher

    Strings are lists of characters that are not NUL; what is read past their end is
    the NUL. *)

Notation star := 42.
Notation dollar := 36.
Notation dot := 46.
Notation caret := 94.

(** [matchstar(c, re, text)]: [here] is [matchhere] of [re]. *)
Fixpoint matchstar (here : list Z -> bool) (c : Z) (text : list Z) : bool :=
  if here text then true else
  match text with
  | [] => false
  | x :: text' => if (x =? c) || (c =? dot) then matchstar here c text' else false
  end.

Fixpoint matchhere (re text : list Z) : bool :=
  match re with
  | [] => true
  | c :: re1 =>
      let rest :=
        if (c =? dollar) && bool_decide (re1 = []) then bool_decide (text = []) else
        match text with
        | [] => false
        | x :: text' => if (c =? dot) || (c =? x) then matchhere re1 text' else false
        end in
      match re1 with
      | d :: re2 => if d =? star then matchstar (matchhere re2) c text else rest
      | [] => rest
      end
  end.

(** [do ... while( *text++ != 0)] *)
Fixpoint match_any (re text : list Z) : bool :=
  if matchhere re text then true else
  match text with [] => false | _ :: text' => match_any re text' end.

Definition match_ (re text : list Z) : bool :=
  match re with
  | c :: re' => if c =? caret then matchhere re' text else match_any re text
  | [] => match_any re text
  end.

(** * What a pattern denotes *)

Inductive item : Type :=
| One (c : Z)      (* a character, or any for a dot *)
| Star (c : Z)     (* any number of them *)
| End.             (* the end of the line *)

Fixpoint parse (re : list Z) : list item :=
  match re with
  | [] => []
  | c :: re1 =>
      match re1 with
      | d :: re2 => if d =? star then Star c :: parse re2 else One c :: parse re1
      | [] => if c =? dollar then [End] else [One c]
      end
  end.

Definition fits (c x : Z) : Prop := c = dot \/ c = x.

(** A prefix of the text is in the language of the items. *)
Inductive prefix_in : list item -> list Z -> Prop :=
| in_nil text : prefix_in [] text
| in_one c x is_ text : fits c x -> prefix_in is_ text -> prefix_in (One c :: is_) (x :: text)
| in_star c xs is_ text : Forall (fits c) xs -> prefix_in is_ text -> prefix_in (Star c :: is_) (xs ++ text)
| in_end : prefix_in [End] [].

Definition denotes (re text : list Z) : Prop :=
  match re with
  | c :: re' => if c =? caret then prefix_in (parse re') text else exists pre suf, text = pre ++ suf /\ prefix_in (parse re) suf
  | [] => exists pre suf, text = pre ++ suf /\ prefix_in (parse []) suf
  end.

Lemma fits_bool c x : (c =? dot) || (c =? x) = true <-> fits c x.
Proof. unfold fits. rewrite orb_true_iff, !Z.eqb_eq. done. Qed.

Lemma matchstar_spec here c text (R : list Z -> Prop) : (forall t, here t = true <-> R t) ->
  matchstar here c text = true <-> exists xs suf, text = xs ++ suf /\ Forall (fits c) xs /\ R suf.
Proof.
  intros Hh. induction text as [|x text IH]; simpl.
  - destruct (here []) eqn:E; split; try done.
    + intros _. exists [], []. by rewrite <- Hh.
    + intros (xs & suf & Ex & _ & Hr). symmetry in Ex. apply app_nil in Ex as [-> ->]. by apply Hh in Hr; congruence.
  - destruct (here (x :: text)) eqn:E; [split; [|done]; intros _; exists [], (x :: text); by rewrite <- Hh|].
    replace ((x =? c) || (c =? dot)) with ((c =? dot) || (c =? x)) by (rewrite orb_comm, (Z.eqb_sym x c); done).
    split.
    + destruct ((c =? dot) || (c =? x)) eqn:Ef; [|done]. rewrite IH. intros (xs & suf & -> & Hf & Hr). exists (x :: xs), suf. split; [done|].
      split; [|done]. constructor; [by apply fits_bool|done].
    + intros ([|y xs] & suf & Ex & Hf & Hr); simplify_eq/=; [by apply Hh in Hr; congruence|]. apply Forall_cons in Hf as [Hf1 Hf].
      rewrite (proj2 (fits_bool c y) Hf1). apply IH. eauto.
Qed.

(** Induction on patterns two characters at a time. *)
Lemma pattern_ind (Q : list Z -> Prop) : Q [] -> (forall c, Q [c]) -> (forall c d re, Q re -> Q (d :: re) -> Q (c :: d :: re)) -> forall re, Q re.
Proof.
  intros H0 H1 H2 re. enough (Q re /\ forall c, Q (c :: re)) by tauto. induction re as [|d re [IH IHc]]; [done|]. split; [apply IHc|]. intros c. by apply H2.
Qed.

Lemma matchhere_cons c d re text : matchhere (c :: d :: re) text =
  if d =? star then matchstar (matchhere re) c text
  else match text with [] => false | x :: text' => if (c =? dot) || (c =? x) then matchhere (d :: re) text' else false end.
Proof. cbn [matchhere]. rewrite (bool_decide_false (d :: re = [])), andb_false_r by done. done. Qed.

Lemma matchhere_spec re : forall text, matchhere re text = true <-> prefix_in (parse re) text.
Proof.
  induction re as [|c|c d re IH2 IH1] using pattern_ind; intros text.
  - split; [constructor|done].
  - cbn [parse matchhere]. case_bool_decide; [|done]. rewrite andb_true_r. destruct (Z.eqb_spec c dollar) as [->|Hc].
    + rewrite bool_decide_eq_true. split; [by intros ->; constructor|by inversion 1].
    + destruct text as [|x text]; [split; [done|by inversion 1]|]. destruct ((c =? dot) || (c =? x)) eqn:Ef.
      * split; [|done]. intros _. constructor; [by apply fits_bool|constructor].
      * split; [done|]. inversion 1; subst. match goal with H : fits _ _ |- _ => apply fits_bool in H end. congruence.
  - cbn [parse]. rewrite matchhere_cons. destruct (Z.eqb_spec d star) as [->|Hd].
    + rewrite (matchstar_spec _ _ _ (prefix_in (parse re)) (IH2)). split.
      * intros (xs & suf & -> & Hf & Hr). by constructor.
      * inversion 1; subst. eauto.
    + destruct text as [|x text]; [split; [done|by inversion 1]|].
      destruct ((c =? dot) || (c =? x)) eqn:Ef.
      * rewrite IH1. split; [intros Hp; constructor; [by apply fits_bool|done]|]. by inversion 1; subst.
      * split; [done|]. inversion 1; subst. match goal with H : fits _ _ |- _ => apply fits_bool in H end. congruence.
Qed.

Lemma match_any_spec re text : match_any re text = true <-> exists pre suf, text = pre ++ suf /\ prefix_in (parse re) suf.
Proof.
  induction text as [|x text IH]; cbn [match_any].
  - destruct (matchhere re []) eqn:E; split; try done.
    + intros _. exists [], []. by rewrite <- matchhere_spec.
    + intros (pre & suf & Ex & Hp). symmetry in Ex. apply app_nil in Ex as [-> ->]. apply matchhere_spec in Hp. congruence.
  - destruct (matchhere re (x :: text)) eqn:E.
    + split; [|done]. intros _. exists [], (x :: text). by rewrite <- matchhere_spec.
    + rewrite IH. split.
      * intros (pre & suf & -> & Hp). by exists (x :: pre), suf.
      * intros ([|y pre] & suf & Ex & Hp); simplify_eq/=; [apply matchhere_spec in Hp; congruence|]. eauto.
Qed.

(** C33. The matcher of grep decides the language of its patterns: match(re, text) is 1
    exactly when the text, or a part of it that starts anywhere unless the pattern
    begins with a caret, has a prefix in the language of the pattern, in which a dot
    stands for any character, a star for any number of the character before it, and a
    final dollar for the end of the text; and it returns on all inputs. *)
Theorem match_correct re text : match_ re text = true <-> denotes re text.
Proof.
  unfold match_, denotes. destruct re as [|c re]; [apply match_any_spec|]. destruct (c =? caret); [apply matchhere_spec|apply match_any_spec].
Qed.

(** * The filter *)

(** [strchr(p, '\n')]: the line before the newline and what follows it. *)
Fixpoint strchr_nl (p : list Z) : option (list Z * list Z) :=
  match p with
  | [] => None
  | c :: p' =>
      if c =? 0 then None else if c =? 10 then Some ([], p')
      else match strchr_nl p' with Some (line, rest) => Some (c :: line, rest) | None => None end
  end.

(** [while((q = strchr(p, '\n')) != 0)]: what is left at [p]. *)
Fixpoint filter_lines (n : nat) (pattern p : list Z) : P (list Z) :=
  match strchr_nl p with
  | None => mret p
  | Some (line, rest) =>
      match n with
      | O => stuck
      | S n' =>
          (if match_ pattern line then sys (Write 1 (line ++ [10])) ≫= fun _ => mret tt else mret tt) ≫= fun _ =>
          filter_lines n' pattern rest
      end
  end.

Definition sizeof_buf : Z := 1024.

(** The state of the loop is what is kept in [buf], its first [m] bytes. *)
Definition grep (pattern : list Z) (fd : Z) : P unit :=
  loop (fun kept : list Z =>
    r ← sys (Read fd (sizeof_buf - Z.of_nat (length kept) - 1));
    if 0 <? ret r then
      let buf := kept ++ data r in
      p ← filter_lines (length buf) pattern buf;
      mret (inl (if (length p =? length buf)%nat then [] else p))
    else mret (inr tt)) [].

Definition main (argv : list (list Z)) : P unit :=
  match argv with
  | _ :: pattern :: files =>
      match files with
      | [] => grep pattern 0;; exit
      | _ =>
          each (fun name =>
            fd ← sysret (Open name 0);
            if fd <? 0 then printf 1 "grep: cannot open %s
" [pstr name];; exit else
            grep pattern fd;;
            sys (Close fd);;
            mret true) files;;
          exit
      end
  | _ => printf 2 "usage: grep pattern [file ...]
" [];; exit
  end.

(** The lines of a text, without what follows its last newline, and that. *)
Definition pieces (bs : list Z) : list (list Z) := split (fun c => c =? 10) bs.
Definition whole (bs : list Z) : list (list Z) := take (length (pieces bs) - 1) (pieces bs).
Definition partial (bs : list Z) : list Z := default [] (last (pieces bs)).
(** The lines that a pattern selects. *)
Definition selected (pattern : list Z) (ls : list (list Z)) : list Z := ls ≫= fun line => if match_ pattern line then line ++ [10] else [].

Lemma pieces_snoc bs : pieces bs = whole bs ++ [partial bs].
Proof.
  unfold whole, partial. destruct (split_cons (fun c => c =? 10) bs) as (w & ws & E). fold (pieces bs) in E. rewrite E.
  destruct (exists_last (l := w :: ws)) as (l & x & El); [done|]. rewrite El, last_snoc, length_app. simpl. rewrite Nat.add_sub, take_app_length. done.
Qed.

Lemma whole_cons_nl bs : whole (10 :: bs) = [] :: whole bs /\ partial (10 :: bs) = partial bs.
Proof.
  assert (pieces (10 :: bs) = [] :: pieces bs) as E by done. pose proof (pieces_snoc bs) as Hb. pose proof (pieces_snoc (10 :: bs)) as Ha. rewrite E, Hb in Ha.
  change ([] :: whole bs ++ [partial bs]) with (([] :: whole bs) ++ [partial bs]) in Ha. apply app_inj_tail in Ha as [-> ->]. done.
Qed.

Lemma whole_cons c bs : c <> 10 ->
  whole (c :: bs) = match whole bs with [] => [] | w :: ws => (c :: w) :: ws end /\ partial (c :: bs) = match whole bs with [] => c :: partial bs | _ => partial bs end.
Proof.
  intros Hc. pose proof (pieces_snoc (c :: bs)) as Ha. pose proof (pieces_snoc bs) as Hb.
  assert (pieces (c :: bs) = match pieces bs with w :: ws => (c :: w) :: ws | [] => [[c]] end) as E.
  { unfold pieces. cbn [split]. destruct (Z.eqb_spec c 10); [done|]. done. }
  rewrite E, Hb in Ha. destruct (whole bs) as [|w ws]; cbn [app] in Ha.
  - change ([] ++ [c :: partial bs] = whole (c :: bs) ++ [partial (c :: bs)]) in Ha. by apply app_inj_tail in Ha as [<- <-].
  - change (((c :: w) :: ws) ++ [partial bs] = whole (c :: bs) ++ [partial (c :: bs)]) in Ha. by apply app_inj_tail in Ha as [<- <-].
Qed.

Lemma whole_app a b : whole (a ++ b) = whole a ++ whole (partial a ++ b) /\ partial (a ++ b) = partial (partial a ++ b).
Proof.
  induction a as [|c a [IH1 IH2]]; [done|]. cbn [app]. destruct (decide (c = 10)) as [->|Hc].
  - destruct (whole_cons_nl (a ++ b)) as [-> ->], (whole_cons_nl a) as [-> ->]. by rewrite IH1, IH2.
  - destruct (whole_cons c (a ++ b) Hc) as [-> ->], (whole_cons c a Hc) as [-> ->]. rewrite IH1, IH2. destruct (whole a) as [|w ws]; [|done]. cbn [app].
    destruct (whole_cons c (partial a ++ b) Hc) as [-> ->]. done.
Qed.

Lemma strchr_nl_spec p : 0 ∉ p ->
  match strchr_nl p with
  | None => whole p = [] /\ partial p = p /\ 10 ∉ p
  | Some (line, rest) => whole p = line :: whole rest /\ partial p = partial rest /\ p = line ++ 10 :: rest
  end.
Proof.
  induction p as [|c p IH]; intros Hp; [set_solver|]. cbn [strchr_nl]. destruct (Z.eqb_spec c 0) as [->|Hc0]; [set_solver|]. destruct (Z.eqb_spec c 10) as [->|Hc].
  { destruct (whole_cons_nl p) as [-> ->]. done. }
  specialize (IH ltac:(set_solver)). destruct (whole_cons c p Hc) as [-> ->]. destruct (strchr_nl p) as [[line rest]|].
  - destruct IH as (-> & -> & E3). by rewrite E3.
  - destruct IH as (-> & -> & E3). set_solver.
Qed.

Lemma strchr_nl_length p : match strchr_nl p with Some (_, rest) => (length rest < length p)%nat | None => True end.
Proof.
  induction p as [|c p IH]; [done|]. cbn [strchr_nl length]. destruct (c =? 0); [done|]. destruct (c =? 10); [lia|]. destruct (strchr_nl p) as [[? ?]|]; [lia|done].
Qed.

Lemma partial_length bs : (length (partial bs) <= length bs)%nat /\ (10 ∈ bs -> (length (partial bs) < length bs)%nat) /\ (0 ∉ bs -> 0 ∉ partial bs).
Proof.
  induction bs as [|c bs (IH1 & IH2 & IH3)]; [set_solver|]. destruct (decide (c = 10)) as [->|Hc].
  - destruct (whole_cons_nl bs) as [_ ->]. simpl. split_and!; [lia|intros; lia|set_solver].
  - destruct (whole_cons c bs Hc) as [_ ->]. destruct (whole bs); simpl; split_and!; try lia; try set_solver.
    intros Hin. enough (10 ∈ bs) as ?%IH2 by lia. set_solver.
Qed.

Lemma filter_lines_spec pattern n p : (length p <= n)%nat -> 0 ∉ p ->
  runs (filter_lines n pattern p) (fun t u rest => length u = length t /\ written 1 t = selected pattern (whole p) /\ (forall fd, was_read fd t u = []) /\ rest = partial p).
Proof.
  revert p. induction n as [|n IH]; intros p Hn Hp; pose proof (strchr_nl_spec p Hp) as Hs; cbn [filter_lines]; destruct (strchr_nl p) as [[line rest]|].
  - destruct Hs as (_ & _ & ->). rewrite length_app in Hn. simpl in Hn. lia.
  - destruct Hs as (-> & -> & _). by apply prog_ret.
  - destruct Hs as (Ew & -> & Ep). rewrite Ew. assert (length rest <= n)%nat as Hr by (rewrite Ep, length_app in Hn; simpl in Hn; lia).
    eapply (prog_bind _ _ (fun t u _ => length u = length t /\ written 1 t = (if match_ pattern line then line ++ [10] else []) /\ forall fd, was_read fd t u = [])).
    + destruct (match_ pattern line); [|by apply prog_ret]. eapply (prog_bind _ _ (fun t u a => t = [Write 1 (line ++ [10])] /\ u = [a])); [by apply prog_sys|].
      intros ? ? a [-> ->]. apply prog_ret. split_and!; try done. unfold written. simpl. by rewrite app_nil_r.
    + intros t u _ (Hl & Hw & Hr0). eapply prog_mono; [apply IH; [done|]; set_solver|]. intros t' u' r (Hl' & Hw' & Hr' & ->).
      rewrite !length_app, Hl, Hl', written_app, Hw, Hw'. split_and!; try done. intros fd. rewrite was_read_app by done. by rewrite Hr0, Hr'.
  - destruct Hs as (-> & -> & _). by apply prog_ret.
Qed.

(** The reads of a descriptor that returned data. *)
Definition reads_of (fd : Z) (t : list call) (u : list answer) : list (list Z) :=
  zip t u ≫= fun p => match p.1 with Read f _ => if (f =? fd) && (0 <? ret p.2) then [data p.2] else [] | _ => [] end.

Lemma reads_of_app fd t u t' u' : length u = length t -> reads_of fd (t ++ t') (u ++ u') = reads_of fd t u ++ reads_of fd t' u'.
Proof. intros Hl. unfold reads_of. rewrite zip_with_app by done. apply bind_app. Qed.

Lemma filter_lines_any pattern n p : (length p <= n)%nat -> runs (filter_lines n pattern p) (fun t u _ => length u = length t).
Proof.
  revert p. induction n as [|n IH]; intros p Hn; cbn [filter_lines]; pose proof (strchr_nl_length p) as Hs; destruct (strchr_nl p) as [[line rest]|];
    try by apply prog_ret. { lia. }
  eapply (prog_bind _ _ (fun t u _ => length u = length t)).
  - destruct (match_ pattern line); [|by apply prog_ret]. eapply (prog_bind _ _ (fun t u _ => length u = length t)); [by apply prog_sys|].
    intros t u _ Hl. apply prog_ret. by rewrite !app_nil_r.
  - intros t u _ Hl. eapply prog_mono; [apply IH; lia|]. intros t' u' r Hl'. by rewrite !length_app, Hl, Hl'.
Qed.

(** C34. grep prints the lines that match: when every read of the file that returns data
    returns a newline and no NUL, grep writes exactly the lines of what it has read
    that its pattern selects, each with its newline, in order and however the reads
    cut the lines up; only what follows the last newline is not looked at. *)
Theorem grep_selects pattern fd : runs (grep pattern fd) (fun t u _ =>
  Forall (fun d => 10 ∈ d /\ 0 ∉ d) (reads_of fd t u) -> written 1 t = selected pattern (whole (was_read fd t u))).
Proof.
  unfold grep. apply (prog_loop _ (fun t u kept => length u = length t /\ (Forall (fun d => 10 ∈ d /\ 0 ∉ d) (reads_of fd t u) ->
    written 1 t = selected pattern (whole (was_read fd t u)) /\ kept = partial (was_read fd t u) /\ 0 ∉ was_read fd t u))).
  { split; [done|]. intros _. split_and!; [done|done|set_solver]. }
  intros t u kept (Hl & HI). eapply (prog_bind _ _ (fun t' u' r => t' = [Read fd (sizeof_buf - Z.of_nat (length kept) - 1)] /\ u' = [r])); [by apply prog_sys|]. intros t1 u1 r [-> ->].
  assert (forall n, was_read fd [Read fd n] [r] = (if 0 <? ret r then data r else []) /\ reads_of fd [Read fd n] [r] = if 0 <? ret r then [data r] else []) as Hr.
  { intros n. unfold was_read, reads_of. simpl. rewrite Z.eqb_refl. destruct (0 <? ret r); [|done]. cbn. by rewrite app_nil_r. }
  destruct (0 <? ret r).
  - destruct (decide (10 ∈ data r /\ 0 ∉ data r /\ 0 ∉ kept)) as [(Hd1 & Hd2 & Hk)|Hno].
    + eapply prog_bind; [apply filter_lines_spec; [done|set_solver]|]. intros t2 u2 rest (Hl2 & Hw2 & Hr2 & ->). apply prog_ret.
      rewrite !app_nil_r, !length_app, Hl, Hl2. split; [done|]. split; [done|]. rewrite !app_assoc. rewrite reads_of_app, reads_of_app by (rewrite ?length_app; simpl; lia).
      destruct (Hr (sizeof_buf - Z.of_nat (length kept) - 1)) as [Ew Er]. rewrite Er, !Forall_app. intros [[Hf1 _] _]. destruct (HI Hf1) as (Hw & -> & H0).
      rewrite !written_app, Hw, Hw2, !was_read_app, Hr2, Ew, !app_nil_r by (rewrite ?length_app; simpl; lia).
      destruct (whole_app (was_read fd t u) (data r)) as [-> ->]. split_and!; [|..|set_solver].
      * unfold selected. by rewrite bind_app.
      * destruct (partial_length (partial (was_read fd t u) ++ data r)) as (_ & Hlt & _). specialize (Hlt ltac:(set_solver)).
        rewrite length_app in Hlt. case_eq (length (partial (partial (was_read fd t u) ++ data r)) =? length (partial (was_read fd t u)) + length (data r))%nat; [|done].
        intros E%Nat.eqb_eq. lia.
    + eapply (prog_bind _ _ (fun t' u' _ => length u' = length t')); [by apply filter_lines_any|].
      intros t2 u2 rest Hl2. apply prog_ret. rewrite !app_nil_r, !length_app, Hl, Hl2. split; [done|]. split; [done|]. rewrite !app_assoc.
      rewrite reads_of_app, reads_of_app by (rewrite ?length_app; simpl; lia). destruct (Hr (sizeof_buf - Z.of_nat (length kept) - 1)) as [Ew Er]. rewrite Er, !Forall_app.
      intros [[Hf1 Hf2] _]. exfalso. apply Hno. apply Forall_cons in Hf2 as [[? ?] _]. destruct (HI Hf1) as (_ & -> & H00). split_and!; [done|done|].
      by apply partial_length.
  - apply prog_ret. rewrite !app_nil_r. destruct (Hr (sizeof_buf - Z.of_nat (length kept) - 1)) as [Ew Er]. rewrite reads_of_app, Er, app_nil_r by done. intros Hf.
    destruct (HI Hf) as (Hw & _). rewrite written_app, was_read_app, Ew, Hw, !app_nil_r by done. done.
Qed.

(** Without a newline in a read, what was read is forgotten: of the line [ab] that comes
    as [a] and [b] only the second part is looked at. *)
Example grep_forgets : grep (str "a") 0 [mkAnswer 1 (str "a"); mkAnswer 2 (str "b" ++ [10]); mkAnswer 0 []]
  = ([Read 0 1023; Read 0 1023; Read 0 1023], Done tt []).
Proof. by vm_compute. Qed.

End Grep.
