(* ===== verification/Sh.v ===== *)
(** The shell (sh.c): the parser of command lines and the commands that it runs.

    A command line is in a buffer, and the parsed command holds positions in it: a word
    is the position of its first character and that after its last.  The nodes of
    commands are values: [malloc] is assumed to find memory for them.  A failing parser
    prints a message and ends the process. *)

From S2P Require Import Prelude Monad State Console KString Sysfile Printf UserProg Programs.

Module Sh.

Definition MAXARGS : nat := 10.

(** * Commands; [W] is what they know of a word *)

Inductive cmd (W : Type) : Type :=
| EXEC (argv : list W)
| REDIR (c : cmd W) (file : W) (mode fd : Z)
| PIPE (left right : cmd W)
| LIST (left right : cmd W)
| BACK (c : cmd W).
Arguments EXEC {W} argv.
Arguments REDIR {W} c file mode fd.
Arguments PIPE {W} left right.
Arguments LIST {W} left right.
Arguments BACK {W} c.

Fixpoint map_cmd {W V} (f : W -> V) (c : cmd W) : cmd V :=
  match c with
  | EXEC argv => EXEC (f <$> argv)
  | REDIR c w mode fd => REDIR (map_cmd f c) (f w) mode fd
  | PIPE l r => PIPE (map_cmd f l) (map_cmd f r)
  | LIST l r => LIST (map_cmd f l) (map_cmd f r)
  | BACK c => BACK (map_cmd f c)
  end.

(** A word in the buffer: [q] and [eq]. *)
Notation span := (nat * nat)%type.

Definition panic {A} (s : string) : P A := printf 2 "%s
" [pstr (str s)];; exit.

Definition fork1 : P Z :=
  pid ← sysret Fork;
  if pid =? -1 then panic "fork" else mret pid.

(** * Parsing

    [s] is the string that is parsed, up to its NUL; [es] is its length. *)

Definition whitespace : list Z := [32; 9; 13; 10; 11].
Definition symbols : list Z := str "<|>&;()".
Definition strchr (cs : list Z) (c : Z) : bool := bool_decide (c ∈ cs).
Definition is_ws (c : Z) : bool := strchr whitespace c.
Definition is_word (c : Z) : bool := negb (strchr whitespace c) && negb (strchr symbols c).

(** The character at a position, and [while(s < es && f(s[0])) s++]. *)
Definition ch (s : list Z) (p : nat) : Z := default 0 (s !! p).
Fixpoint run (f : Z -> bool) (l : list Z) : nat :=
  match l with c :: l' => if f c then S (run f l') else O | [] => O end.
Definition skip (f : Z -> bool) (s : list Z) (p : nat) : nat := (p + run f (drop p s))%nat.

(** The kind of the token, where it starts and ends, and the position after it. *)
Definition gettoken (s : list Z) (p : nat) : Z * nat * nat * nat :=
  let q := skip is_ws s p in
  let c := ch s q in
  let '(ret, eq) :=
    if c =? 0 then (c, q)
    else if strchr (str "|();&<") c then (c, S q)
    else if c =? 62 then if ch s (S q) =? 62 then (43, S (S q)) else (c, S q)
    else (97, skip is_word s q) in
  (ret, q, eq, skip is_ws s eq).

Definition peek (s : list Z) (p : nat) (toks : string) : bool * nat :=
  let p := skip is_ws s p in
  (negb (ch s p =? 0) && strchr (str toks) (ch s p), p).

(** [while(peek(ps, es, "<>"))] *)
Fixpoint parseredirs (n : nat) (s : list Z) (c : cmd span) (p : nat) : P (cmd span * nat) :=
  let '(b, p) := peek s p "<>" in
  if (b : bool) then
    match n with
    | O => stuck
    | S n' =>
        let '(tok, _, _, p) := gettoken s p in
        let '(t, q, eq, p) := gettoken s p in
        if negb (t =? 97) then panic "missing file for redirection" else
        let c :=
          if tok =? 60 then REDIR c (q, eq) O_RDONLY 0
          else if tok =? 62 then REDIR c (q, eq) (Z.lor O_WRONLY O_CREATE) 1
          else if tok =? 43 then REDIR c (q, eq) (Z.lor O_WRONLY O_CREATE) 1
          else c in
        parseredirs n' s c p
    end
  else mret (c, p).

(** [cmd->argv[argc] = q; cmd->eargv[argc] = eq], where [cmd] is the node that the
    redirections of [ret] have been wrapped around. *)
Fixpoint add_arg {W} (w : W) (ret : cmd W) : cmd W :=
  match ret with
  | EXEC argv => EXEC (argv ++ [w])
  | REDIR c f mode fd => REDIR (add_arg w c) f mode fd
  | c => c
  end.

(** [while(!peek(ps, es, "|)&;"))]: outside of [argv] there is nothing to store to. *)
Fixpoint parseargs (n : nat) (s : list Z) (ret : cmd span) (argc p : nat) : P (cmd span * nat) :=
  let '(b, p) := peek s p "|)&;" in
  if (b : bool) then mret (ret, p) else
  match n with
  | O => stuck
  | S n' =>
      let '(tok, q, eq, p) := gettoken s p in
      if tok =? 0 then mret (ret, p)
      else if negb (tok =? 97) then panic "syntax"
      else if (MAXARGS <=? argc)%nat then stuck
      else
        let ret := add_arg (q, eq) ret in
        let argc := S argc in
        if (MAXARGS <=? argc)%nat then panic "too many args" else
        parseredirs (S (length s)) s ret p ≫= fun r => parseargs n' s r.1 argc r.2
  end.

(** [while(peek(ps, es, "&"))] *)
Fixpoint parsebacks (n : nat) (s : list Z) (c : cmd span) (p : nat) : P (cmd span * nat) :=
  let '(b, p) := peek s p "&" in
  if (b : bool) then
    match n with
    | O => stuck
    | S n' => let '(_, _, _, p) := gettoken s p in parsebacks n' s (BACK c) p
    end
  else mret (c, p).

(** The parsers call each other at most [n] deep. *)
Fixpoint parseline (n : nat) (s : list Z) (p : nat) : P (cmd span * nat) :=
  match n with
  | O => stuck
  | S n' =>
      parsepipe n' s p ≫= fun r =>
      parsebacks (S (length s)) s r.1 r.2 ≫= fun r =>
      let '(b, p) := peek s r.2 ";" in
      if (b : bool) then
        let '(_, _, _, p) := gettoken s p in
        parseline n' s p ≫= fun r' => mret (LIST r.1 r'.1, r'.2)
      else mret (r.1, p)
  end
with parsepipe (n : nat) (s : list Z) (p : nat) : P (cmd span * nat) :=
  match n with
  | O => stuck
  | S n' =>
      parseexec n' s p ≫= fun r =>
      let '(b, p) := peek s r.2 "|" in
      if (b : bool) then
        let '(_, _, _, p) := gettoken s p in
        parsepipe n' s p ≫= fun r' => mret (PIPE r.1 r'.1, r'.2)
      else mret (r.1, p)
  end
with parseblock (n : nat) (s : list Z) (p : nat) : P (cmd span * nat) :=
  match n with
  | O => stuck
  | S n' =>
      let '(b, p) := peek s p "(" in
      if negb b then panic "parseblock" else
      let '(_, _, _, p) := gettoken s p in
      parseline n' s p ≫= fun r =>
      let '(b, p) := peek s r.2 ")" in
      if negb b then panic "syntax - missing )" else
      let '(_, _, _, p) := gettoken s p in
      parseredirs (S (length s)) s r.1 p
  end
with parseexec (n : nat) (s : list Z) (p : nat) : P (cmd span * nat) :=
  match n with
  | O => stuck
  | S n' =>
      let '(b, p) := peek s p "(" in
      if (b : bool) then parseblock n' s p else
      parseredirs (S (length s)) s (EXEC []) p ≫= fun r =>
      parseargs (S (length s)) s r.1 0 r.2
  end.

(** A NUL after each word. *)
Fixpoint nulterminate (c : cmd span) (buf : list Z) : list Z :=
  match c with
  | EXEC argv => foldl (fun buf (w : span) => <[w.2 := 0]> buf) buf argv
  | REDIR c w _ _ => <[w.2 := 0]> (nulterminate c buf)
  | PIPE l r => nulterminate r (nulterminate l buf)
  | LIST l r => nulterminate r (nulterminate l buf)
  | BACK c => nulterminate c buf
  end.

(** The command, and the buffer that its words are in. *)
Definition depth (s : list Z) : nat := 4 * length s + 4.
Definition parsecmd (buf : list Z) : P (cmd span * list Z) :=
  let s := cstr buf in
  r ← parseline (depth s) s 0;
  let '(_, p) := peek s r.2 "" in
  if negb (p =? length s)%nat then
    printf 2 "leftovers: %s
" [pstr (drop p s)];;
    panic "syntax"
  else mret (r.1, nulterminate r.1 buf).

(** * Running *)

(** The string at a word of the buffer. *)
Definition word_at (buf : list Z) (w : span) : list Z := cstr (drop w.1 buf).

Fixpoint runcmd (buf : list Z) (c : cmd span) : P unit :=
  match c with
  | EXEC [] => exit
  | EXEC (w :: ws) =>
      sys (Exec (word_at buf w) (word_at buf <$> w :: ws)) ≫= fun _ =>
      printf 2 "exec %s failed
" [pstr (word_at buf w)] ≫= fun _ =>
      exit
  | REDIR c w mode fd =>
      sys (Close fd) ≫= fun _ =>
      sysret (Open (word_at buf w) mode) ≫= fun r =>
      if r <? 0 then printf 2 "open %s failed
" [pstr (word_at buf w)] ≫= fun _ => exit else
      runcmd buf c ≫= fun _ =>
      exit
  | LIST l r =>
      fork1 ≫= fun pid =>
      (if pid =? 0 then runcmd buf l else mret tt) ≫= fun _ =>
      sys Wait ≫= fun _ =>
      runcmd buf r ≫= fun _ =>
      exit
  | PIPE l r =>
      sys Pipe ≫= fun a =>
      if ret a <? 0 then panic "pipe" else
      let p0 := default 0 (data a !! 0%nat) in
      let p1 := default 0 (data a !! 1%nat) in
      fork1 ≫= fun pid =>
      (if pid =? 0 then
         sys (Close 1) ≫= fun _ => sys (Dup p1) ≫= fun _ => sys (Close p0) ≫= fun _ => sys (Close p1) ≫= fun _ =>
         runcmd buf l
       else mret tt) ≫= fun _ =>
      fork1 ≫= fun pid =>
      (if pid =? 0 then
         sys (Close 0) ≫= fun _ => sys (Dup p0) ≫= fun _ => sys (Close p0) ≫= fun _ => sys (Close p1) ≫= fun _ =>
         runcmd buf r
       else mret tt) ≫= fun _ =>
      sys (Close p0) ≫= fun _ => sys (Close p1) ≫= fun _ => sys Wait ≫= fun _ => sys Wait ≫= fun _ =>
      exit
  | BACK c =>
      fork1 ≫= fun pid =>
      (if pid =? 0 then runcmd buf c else mret tt) ≫= fun _ =>
      exit
  end.

(** The buffer, or [None] at the end of the input. *)
Definition getcmd (nbuf : nat) : P (option (list Z)) :=
  printf 2 "$ " [];;
  buf ← Ulib2.gets (replicate nbuf 0) nbuf;
  mret (if default 0 (buf !! 0%nat) =? 0 then None else Some buf).

Definition nbuf : nat := 100.

Definition main : P unit :=
  loop (fun _ : unit =>
    fd ← sysret (Open (str "console") O_RDWR);
    if 0 <=? fd then
      if 3 <=? fd then sys (Close fd);; mret (inr tt) else mret (inl tt)
    else mret (inr tt)) tt;;
  loop (fun _ : unit =>
    r ← getcmd nbuf;
    match r with
    | None => mret (inr tt)
    | Some buf =>
        if bool_decide (take 3 buf = str "cd ") then
          let buf := <[(length (cstr buf) - 1)%nat := 0]> buf in
          let dir := cstr (drop 3 buf) in
          r ← sysret (Chdir dir);
          (if r <? 0 then printf 2 "cannot cd %s
" [pstr dir] else mret tt);;
          mret (inl tt)
        else
          pid ← fork1;
          (if pid =? 0 then
             r ← parsecmd buf;
             runcmd r.2 r.1
           else mret tt);;
          sys Wait;;
          mret (inl tt)
    end) tt;;
  exit.

End Sh.
