(* ===== verification/ShGrammar.v ===== *)
(** The language of command lines: a reference lexer, a grammar on tokens, and the
    theorem that the parser of sh.c accepts exactly the lines of the grammar and builds
    the command that they stand for. *)

From S2P Require Import Prelude Monad State Console KString Sysfile Printf UserProg Programs Sh.

Module Grammar.
Import Sh.

(** * Tokens *)

Inductive tk : Type :=
| Sym (c : Z)
| Append
| Word (w : list Z).

Definition flush (w : list Z) : list tk := match w with [] => [] | _ => [Word w] end.

(** Words are what stands between blanks and symbols; [w] is the one in progress. *)
Fixpoint lex (w s : list Z) : list tk :=
  match s with
  | [] => flush w
  | c :: s' =>
      if is_ws c then flush w ++ lex [] s'
      else if strchr symbols c then
        flush w ++
        if c =? 62 then
          match s' with
          | d :: s2 => if d =? 62 then Append :: lex [] s2 else Sym c :: lex [] s'
          | [] => [Sym c]
          end
        else Sym c :: lex [] s'
      else lex (w ++ [c]) s'
  end.

(** * The grammar *)

Inductive redir : Type := RIn | ROut | RAppend.
Definition rtok (r : redir) : tk := match r with RIn => Sym 60 | ROut => Sym 62 | RAppend => Append end.
Definition rmode (r : redir) : Z := match r with RIn => O_RDONLY | _ => Z.lor O_WRONLY O_CREATE end.
Definition rfd (r : redir) : Z := match r with RIn => 0 | _ => 1 end.

(** The parts of a simple command, and the command that redirections are put around. *)
Inductive item : Type :=
| IWord (w : list Z)
| IRedir (r : redir * list Z).
Definition redir_tokens (r : redir * list Z) : list tk := [rtok r.1; Word r.2].
Definition item_tokens (i : item) : list tk := match i with IWord w => [Word w] | IRedir r => redir_tokens r end.
Definition words (is_ : list item) : list (list Z) := is_ ≫= fun i => match i with IWord w => [w] | _ => [] end.
Definition redirs (is_ : list item) : list (redir * list Z) := is_ ≫= fun i => match i with IRedir r => [r] | _ => [] end.
Definition wrap (rs : list (redir * list Z)) (c : cmd (list Z)) : cmd (list Z) :=
  foldl (fun c r => REDIR c r.2 (rmode r.1) (rfd r.1)) c rs.
Definition simple (is_ : list item) : cmd (list Z) := wrap (redirs is_) (EXEC (words is_)).

Inductive sort : Type := Line | Pipeline | Simple.

(** [line ::= pipeline &* [; line]], [pipeline ::= simple [| pipeline]], and a simple
    command is words and redirections, or a line in parentheses and redirections. *)
Inductive derives : sort -> list tk -> cmd (list Z) -> Prop :=
| d_simple is_ : (length (words is_) < MAXARGS)%nat -> derives Simple (is_ ≫= item_tokens) (simple is_)
| d_block ts c rs : derives Line ts c -> derives Simple (Sym 40 :: ts ++ Sym 41 :: (rs ≫= redir_tokens)) (wrap rs c)
| d_pipe_one ts c : derives Simple ts c -> derives Pipeline ts c
| d_pipe ts c ts' c' : derives Simple ts c -> derives Pipeline ts' c' -> derives Pipeline (ts ++ Sym 124 :: ts') (PIPE c c')
| d_line_one ts c n : derives Pipeline ts c -> derives Line (ts ++ replicate n (Sym 38)) (Nat.iter n BACK c)
| d_line ts c n ts' c' : derives Pipeline ts c -> derives Line ts' c' ->
    derives Line (ts ++ replicate n (Sym 38) ++ Sym 59 :: ts') (LIST (Nat.iter n BACK c) c').

(** * The lexer *)

Lemma run_spec f l : (run f l <= length l)%nat /\ (forall i, (i < run f l)%nat -> exists c, l !! i = Some c /\ f c = true)
  /\ forall c, l !! run f l = Some c -> f c = false.
Proof.
  induction l as [|c l (IH1 & IH2 & IH3)]; simpl; [split_and!; [lia|intros; lia|done]|]. destruct (f c) eqn:E; simpl.
  - split_and!; [lia| |done]. intros [|i] Hi; [eauto|]. apply IH2. lia.
  - split_and!; [lia|intros; lia|by intros ? [= <-]].
Qed.

Lemma lex_ws l : lex [] l = lex [] (drop (run is_ws l) l).
Proof. induction l as [|c l IH]; [done|]. simpl. destruct (is_ws c) eqn:E; [done|]. simpl. by rewrite E. Qed.

Lemma lex_word w l : w ++ take (run is_word l) l <> [] -> lex w l = Word (w ++ take (run is_word l) l) :: lex [] (drop (run is_word l) l).
Proof.
  revert w. induction l as [|c l IH]; intros w Hw.
  { simpl in *. rewrite app_nil_r in *. by destruct w. }
  cbn [run lex] in *. unfold is_word, is_ws in *. destruct (strchr whitespace c) eqn:E1; cbn [negb andb] in *.
  { simpl in *. unfold is_ws. rewrite app_nil_r in *. rewrite E1. by destruct w. }
  destruct (strchr symbols c) eqn:E2; cbn [negb] in *.
  { cbn [take drop] in *. rewrite app_nil_r in *. cbn [lex]. unfold is_ws. rewrite E1, E2. by destruct w. }
  cbn [take drop] in *. rewrite IH by (by destruct w). by rewrite <- app_assoc.
Qed.

Lemma lex_length w l : (length (lex w l) <= length l + length (flush w))%nat.
Proof.
  revert w. induction l as [l IH] using (induction_ltof1 _ (@length Z)). unfold ltof in IH. intros w. destruct l as [|c l]; [simpl; lia|]. cbn [lex].
  pose proof (IH l ltac:(simpl; lia) []) as H0. simpl in H0. destruct (is_ws c); [rewrite length_app; simpl; lia|]. destruct (strchr symbols c).
  - rewrite length_app. destruct (c =? 62); [|simpl; lia]. destruct l as [|d l]; [simpl; lia|]. pose proof (IH l ltac:(simpl; lia) []) as H1. simpl in H1.
    destruct (d =? 62); simpl in *; lia.
  - specialize (IH l ltac:(simpl; lia) (w ++ [c])). assert (length (flush (w ++ [c])) = 1%nat) as E by (by destruct w). rewrite E in IH. simpl. lia.
Qed.

(** The words of a command. *)
Fixpoint spans {W} (c : cmd W) : list W :=
  match c with
  | EXEC argv => argv
  | REDIR c w _ _ => spans c ++ [w]
  | PIPE l r | LIST l r => spans l ++ spans r
  | BACK c => spans c
  end.

(** A parser returns [r] with [Q r] and has made no call, or fails: it writes a message to
    the standard error and ends the process. *)
Definition complaint (c : call) : Prop := match c with Write fd _ => fd = 2 | Exit => True | _ => False end.
Definition complains {A} (m : P A) : Prop := forall l, Forall complaint (m l).1.
Definition parses {A} (m : P A) (Q : A -> Prop) : Prop := runs m (fun t _ r => t = [] /\ Q r) /\ complains m.

Lemma complains_bind {A B} (m : P A) (f : A -> P B) : complains m -> (forall a l l', (m l).2 = Done a l' -> complains (f a)) -> complains (m ≫= f).
Proof.
  intros Hm Hf l. specialize (Hm l). specialize (fun a => Hf a l). unfold mbind, P_bind. destruct (m l) as [t [a l'| | |]]; try done. specialize (Hf a l' eq_refl l').
  destruct (f a l'). by apply Forall_app.
Qed.
Lemma complains_printf fmt args : complains (printf 2 fmt args).
Proof.
  unfold printf. destruct (UPrintf.printf (str fmt) args) as [cs|]; [|by constructor]. induction cs as [|c cs IH]; [by constructor|]. apply complains_bind; [|done].
  intros [|a l]; by repeat constructor.
Qed.

Lemma parses_ret {A} (a : A) (Q : A -> Prop) : Q a -> parses (mret a) Q.
Proof. intros. split; [by apply prog_ret|by constructor]. Qed.
Lemma parses_bind {A B} (m : P A) (f : A -> P B) (Q : A -> Prop) (R : B -> Prop) : parses m Q -> (forall a, Q a -> parses (f a) R) -> parses (m ≫= f) R.
Proof.
  intros [Hm Hc] Hf. split.
  - eapply prog_bind; [exact Hm|]. intros t u a [-> HQ]. eapply prog_mono; [by apply Hf|]. done.
  - apply complains_bind; [done|]. intros a l l' E. specialize (Hm l). destruct (m l) as [t e]. simpl in E. subst e. destruct Hm as (_ & _ & _ & _ & HQ). by apply Hf.
Qed.
Lemma parses_fail {A} fmt args cs (Q : A -> Prop) : UPrintf.printf (str fmt) args = Some cs -> parses (printf 2 fmt args;; exit) Q.
Proof. intros E. split; [by eapply prog_fail|]. apply complains_bind; [apply complains_printf|]. by repeat constructor. Qed.
Lemma parses_panic {A} msg (Q : A -> Prop) : parses (panic msg) Q.
Proof. by eapply parses_fail. Qed.
Lemma parses_mono {A} (m : P A) (Q R : A -> Prop) : parses m Q -> (forall a, Q a -> R a) -> parses m R.
Proof. intros [Hm Hc] HQ. split; [|done]. eapply prog_mono; [exact Hm|]. intros t u a [-> ?]. eauto. Qed.

(** A parser that returns [a], whatever happens outside. *)
Definition returns {A} (m : P A) (a : A) : Prop := forall l, m l = ([], Done a l).

Lemma returns_bind {A B} (m : P A) (f : A -> P B) a b : returns m a -> returns (f a) b -> returns (m ≫= f) b.
Proof. intros Hm Hf l. unfold mbind, P_bind. rewrite Hm, Hf. done. Qed.
Lemma parses_returns {A} (m : P A) a (Q : A -> Prop) : parses m Q -> returns m a -> Q a.
Proof. intros [Hm _] Hr. specialize (Hm []). rewrite (Hr []) in Hm. by destruct Hm as (u & _ & _ & _ & HQ). Qed.

(** Words and redirections of simple commands. *)
Lemma wrap_app rs rs' c : wrap (rs ++ rs') c = wrap rs' (wrap rs c).
Proof. apply foldl_app. Qed.
Lemma add_arg_wrap w rs ws : add_arg w (wrap rs (EXEC ws)) = wrap rs (EXEC (ws ++ [w])).
Proof. induction rs as [|r rs IH] using rev_ind; [done|]. rewrite !wrap_app. simpl. by rewrite IH. Qed.
Lemma map_add_arg {W V} (f : W -> V) w c : map_cmd f (add_arg w c) = add_arg (f w) (map_cmd f c).
Proof. induction c as [argv|c IH| | |]; simpl; [by rewrite fmap_app|by rewrite IH|done..]. Qed.
Lemma spans_add_arg {W} (Q : W -> Prop) w c : Q w -> Forall Q (spans c) -> Forall Q (spans (add_arg w c)).
Proof. intros Hw. induction c as [argv|c IH| | |]; simpl; rewrite ?Forall_app, ?Forall_singleton; naive_solver. Qed.
Lemma redir_items rs : (IRedir <$> rs) ≫= item_tokens = rs ≫= redir_tokens /\ words (IRedir <$> rs) = [] /\ redirs (IRedir <$> rs) = rs.
Proof. induction rs as [|r rs (E1 & E2 & E3)]; [done|]. unfold words, redirs in *. rewrite fmap_cons, !bind_cons, E1, E2, E3. done. Qed.
Lemma items_app is_ is' : words (is_ ++ is') = words is_ ++ words is' /\ redirs (is_ ++ is') = redirs is_ ++ redirs is'.
Proof. unfold words, redirs. by rewrite !bind_app. Qed.

(** What may come after a part of a line. *)
Definition starts (cs : string) (ts : list tk) : bool :=
  match ts with Sym c :: _ => strchr (str cs) c | Append :: _ => strchr (str cs) 62 | _ => false end.
Definition follow (k : sort) : string := match k with Line => ")" | Pipeline => ")&;" | Simple => "|)&;" end.
Definition follows (k : sort) (rest : list tk) : Prop := rest = [] \/ starts (follow k) rest = true.

Lemma starts_mono cs cs' ts : Forall (fun c => c ∈ str cs') (str cs) -> starts cs ts = true -> starts cs' ts = true.
Proof. rewrite Forall_forall. unfold starts, strchr. destruct ts as [|[] ts]; try done; rewrite !bool_decide_eq_true; intros H; apply H. Qed.
Lemma starts_disjoint cs cs' ts : Forall (fun c => c ∉ str cs') (str cs) -> starts cs ts = true -> starts cs' ts = false.
Proof.
  rewrite Forall_forall. unfold starts, strchr. destruct ts as [|[] ts]; try done; rewrite bool_decide_eq_true, bool_decide_eq_false; intros H; apply H.
Qed.

(** The leading redirections of a simple command. *)
Lemma leading_redirs is_ : exists rs is', is_ = (IRedir <$> rs) ++ is' /\ (is' = [] \/ exists w is2, is' = IWord w :: is2).
Proof.
  induction is_ as [|[w|r] is_ (rs & is' & E & H)]; [by exists [], []; eauto|exists [], (IWord w :: is_); eauto|]. exists (r :: rs), is'. by rewrite E.
Qed.

Section Lexer.
Context (s : list Z) (Hs : 0 ∉ s).
Notation len := (length s).

(** The tokens from a position on. *)
Definition toks (p : nat) : list tk := lex [] (drop p s).

(** A word: characters of words, and none after them. *)
Definition good (w : span) : Prop :=
  (w.1 < w.2 <= len)%nat /\ (forall i, (w.1 <= i < w.2)%nat -> exists c, s !! i = Some c /\ is_word c = true)
  /\ forall c, s !! w.2 = Some c -> is_word c = false.
Definition slice (w : span) : list Z := take (w.2 - w.1) (drop w.1 s).

Lemma skip_spec f p : (p <= len)%nat -> (p <= skip f s p <= len)%nat /\ (forall i, (p <= i < skip f s p)%nat -> exists c, s !! i = Some c /\ f c = true)
  /\ forall c, s !! skip f s p = Some c -> f c = false.
Proof.
  intros Hp. unfold skip. destruct (run_spec f (drop p s)) as (H1 & H2 & H3). rewrite length_drop in H1. split_and!; try lia.
  - intros i Hi. destruct (H2 (i - p)%nat) as (c & Hc & Hf); [lia|]. rewrite lookup_drop in Hc. exists c. by replace (p + (i - p))%nat with i in Hc by lia.
  - intros c Hc. apply H3. by rewrite lookup_drop.
Qed.

Lemma toks_ws p : toks (skip is_ws s p) = toks p.
Proof. unfold toks, skip. by rewrite (lex_ws (drop p s)), drop_drop. Qed.

Lemma drop_at p : match s !! p with Some c => drop p s = c :: drop (S p) s /\ ch s p = c /\ c <> 0 /\ (p < len)%nat | None => drop p s = [] /\ ch s p = 0 end.
Proof.
  unfold ch. destruct (s !! p) as [c|] eqn:E.
  - split_and!; [by apply drop_S|done| |by apply lookup_lt_Some in E]. intros ->. apply Hs. by eapply list_elem_of_lookup_2.
  - split; [|done]. apply drop_ge. by apply lookup_ge_None in E.
Qed.

(** The kind of a token, as [gettoken] tells it. *)
Definition kind (t : tk) : Z := match t with Sym c => c | Append => 43 | Word _ => 97 end.

Lemma not_ws p : (p <= len)%nat -> is_ws (ch s (skip is_ws s p)) = true -> False.
Proof.
  intros Hp. destruct (skip_spec is_ws p Hp) as (_ & _ & H3). pose proof (drop_at (skip is_ws s p)) as Hd.
  destruct (s !! skip is_ws s p) as [c|]; [|by destruct Hd as (_ & ->)]. destruct Hd as (_ & -> & _). rewrite (H3 c) by done. done.
Qed.

Lemma symbols_split c : strchr symbols c = strchr (str "|();&<") c || (c =? 62).
Proof.
  unfold strchr. apply Bool.eq_iff_eq_true. rewrite orb_true_iff, !bool_decide_eq_true, Z.eqb_eq. unfold symbols. vm_compute str. set_solver.
Qed.

Definition legal (t : tk) : Prop := match t with Sym c => strchr symbols c = true | _ => True end.

(** What [gettoken] tells of the next token. *)
Definition token_ok (p : nat) (r : Z * nat * nat * nat) : Prop :=
  let '(ret, q, eq, p') := r in
  match toks p with
  | [] => ret = 0 /\ toks p' = [] /\ (p <= p' <= len)%nat
  | t :: ts => ret = kind t /\ toks p' = ts /\ (p < p' <= len)%nat /\ legal t /\ forall w, t = Word w -> w = slice (q, eq) /\ good (q, eq)
  end.

Lemma token_end p q eq ret t : (p <= q)%nat -> (q < eq <= len)%nat -> ret = kind t -> toks p = t :: toks eq -> legal t ->
  (forall w, t = Word w -> w = slice (q, eq) /\ good (q, eq)) -> token_ok p (ret, q, eq, skip is_ws s eq).
Proof.
  intros Hp Hq Hr Ht Hl Hw. unfold token_ok. rewrite Ht. destruct (skip_spec is_ws eq ltac:(lia)) as (H1 & _). rewrite toks_ws. split_and!; try done; lia.
Qed.

Lemma gettoken_spec p : (p <= len)%nat -> token_ok p (gettoken s p).
Proof.
  intros Hp. unfold gettoken. destruct (skip_spec is_ws p Hp) as ((Hq1 & Hq2) & _ & Hnw). pose proof (toks_ws p) as Et. set (q := skip is_ws s p) in *.
  pose proof (drop_at q) as Hd. destruct (s !! q) as [c|] eqn:Ec.
  2:{ destruct Hd as (Hd & ->). cbn [Z.eqb]. unfold token_ok. rewrite <- Et, toks_ws. unfold toks. rewrite Hd. cbn. split_and!; try done; [|apply skip_spec; lia].
      pose proof (skip_spec is_ws q Hq2). lia. }
  destruct Hd as (Hd & -> & Hc0 & Hqlt). specialize (Hnw _ eq_refl). destruct (Z.eqb_spec c 0); [done|].
  assert (forall ts, lex [] (drop q s) = ts -> toks p = ts) as Htoks by (intros ts <-; by rewrite <- Et). pose proof (symbols_split c) as Hsym.
  destruct (strchr (str "|();&<") c) eqn:E1; [|destruct (Z.eqb_spec c 62) as [->|H62]].
  - eapply token_end with (t := Sym c); try done; try lia. apply Htoks. rewrite Hd. cbn [lex]. rewrite Hnw, Hsym. cbn [orb app flush].
    destruct (Z.eqb_spec c 62) as [->|]; [by vm_compute in E1|done].
  - pose proof (drop_at (S q)) as Hd'. destruct (s !! S q) as [d|].
    + destruct Hd' as (Hd' & -> & _ & Hlt). destruct (Z.eqb_spec d 62) as [->|H62].
      * eapply token_end with (t := Append); try done; try lia. apply Htoks. by rewrite Hd, Hd'.
      * eapply token_end with (t := Sym 62); try done; try lia. apply Htoks. rewrite Hd. unfold toks. rewrite Hd'. cbn [lex]. rewrite Hnw, Hsym. cbn [orb app flush Z.eqb Pos.eqb].
        by destruct (Z.eqb_spec d 62).
    + destruct Hd' as (Hd' & ->). eapply token_end with (t := Sym 62); try done; try lia. apply Htoks. unfold toks. by rewrite Hd, Hd'.
  - destruct (skip_spec is_word q Hq2) as ((Hw1 & Hw2) & Hw3 & Hw4). assert (is_word c = true) as Hwc by (unfold is_word; unfold is_ws in Hnw; by rewrite Hnw, Hsym).
    assert (q < skip is_word s q)%nat as Hlt by (unfold skip; rewrite Hd; cbn [run]; rewrite Hwc; lia).
    eapply token_end with (t := Word (slice (q, skip is_word s q))); try done; try lia.
    + apply Htoks. rewrite lex_word; [|by rewrite Hd; cbn [run]; rewrite Hwc]. unfold toks, slice. cbn [fst snd app]. f_equal; [|unfold skip; by rewrite drop_drop].
      do 2 f_equal. unfold skip. lia.
    + intros w [= <-]. split; [done|]. unfold good. cbn [fst snd]. split_and!; [lia|lia|done|done].
Qed.

(** What [peek] tells of the next token. *)
Lemma peek_spec p cs : (p <= len)%nat -> Forall (fun c => strchr symbols c = true) (str cs) ->
  exists p', peek s p cs = (starts cs (toks p), p') /\ toks p' = toks p /\ (p <= p' <= len)%nat.
Proof.
  intros Hp Hcs. unfold peek. destruct (skip_spec is_ws p Hp) as (Hq & _ & Hnw). rewrite <- (toks_ws p). exists (skip is_ws s p). split_and!; try done; try lia.
  f_equal. set (q := skip is_ws s p) in *. pose proof (drop_at q) as Hd. destruct (s !! q) as [c|] eqn:Ec.
  2:{ destruct Hd as (Hd & ->). unfold toks. by rewrite Hd. }
  destruct Hd as (Hd & -> & Hc0 & _). specialize (Hnw _ eq_refl). destruct (Z.eqb_spec c 0); [done|]. cbn [negb andb]. unfold toks. rewrite Hd. cbn [lex]. rewrite Hnw.
  destruct (strchr symbols c) eqn:Es.
  - cbn [flush app]. destruct (Z.eqb_spec c 62) as [->|]; [|done]. destruct (drop (S q) s) as [|d r]; [done|]. by destruct (d =? 62).
  - cbn [app]. assert (strchr (str cs) c = false) as ->.
    { apply not_true_iff_false. intros E. unfold strchr in E at 1. apply bool_decide_eq_true in E. rewrite Forall_forall in Hcs. by rewrite (Hcs _ E) in Es. }
    rewrite lex_word by done. done.
Qed.

(** ** What the parsers return is derived *)

Lemma token_word p q eq p' : token_ok p (97, q, eq, p') ->
  toks p = Word (slice (q, eq)) :: toks p' /\ good (q, eq) /\ (p < p' <= len)%nat.
Proof.
  unfold token_ok. destruct (toks p) as [|[c| |w] ts]; [by intros (? & _)|intros (Hk & _ & _ & Hl & _)..|].
  - simpl in Hk. subst c. by vm_compute in Hl.
  - done.
  - intros (_ & -> & Hp & _ & Hw). destruct (Hw w eq_refl) as [-> ?]. done.
Qed.

(** The next token when [peek] found it. *)
Lemma token_sym p cs q eq ret p' : token_ok p (ret, q, eq, p') -> starts cs (toks p) = true ->
  (p < p' <= len)%nat /\ ((exists c, ret = c /\ toks p = Sym c :: toks p' /\ strchr (str cs) c = true) \/ (ret = 43 /\ toks p = Append :: toks p' /\ strchr (str cs) 62 = true)).
Proof.
  unfold token_ok. destruct (toks p) as [|[c| |w] ts]; try done; intros (-> & -> & Hp & _) Hst; (split; [done|]); [left; eauto|by right].
Qed.

Lemma strchr_in cs c : strchr (str cs) c = true <-> c ∈ str cs.
Proof. unfold strchr. apply bool_decide_eq_true. Qed.

(** Every redirection is two tokens. *)
Lemma redirs_length rs : (length rs <= length (rs ≫= redir_tokens))%nat.
Proof. induction rs as [|r rs IH]; [done|]. rewrite bind_cons, length_app. simpl. lia. Qed.
Lemma items_length is_ : (length is_ <= length (is_ ≫= item_tokens))%nat.
Proof. induction is_ as [|[] is_ IH]; [done|..]; rewrite bind_cons, length_app; simpl; lia. Qed.

Definition redirs_ok (c : cmd span) (p : nat) (r : cmd span * nat) : Prop :=
  (p <= r.2 <= len)%nat /\ exists rs, toks p = (rs ≫= redir_tokens) ++ toks r.2 /\ map_cmd slice r.1 = wrap rs (map_cmd slice c)
    /\ (Forall good (spans c) -> Forall good (spans r.1)).

Lemma redirs_ok_cons c p rd w p2 r : toks p = rtok rd :: Word (slice w) :: toks p2 -> (p < p2 <= len)%nat -> good w ->
  redirs_ok (REDIR c w (rmode rd) (rfd rd)) p2 r -> redirs_ok c p r.
Proof.
  intros Et Hp Hw (Hr & rs & E1 & E2 & Hg). split; [lia|]. exists ((rd, slice w) :: rs). rewrite Et, E1, E2. split_and!; [done|done|].
  intros Hc. apply Hg. simpl. apply Forall_app. by rewrite Forall_singleton.
Qed.

Lemma parseredirs_sound n c p : (p <= len)%nat -> (len - p < n)%nat -> parses (parseredirs n s c p) (redirs_ok c p).
Proof.
  revert c p. induction n as [|n IH]; intros c p Hp Hn; [lia|]. cbn [parseredirs].
  destruct (peek_spec p "<>" Hp) as (p1 & -> & Et & Hp1); [by repeat constructor|]. destruct (starts "<>" (toks p)) eqn:Es.
  2:{ apply parses_ret. split; [done|]. exists []. cbn [snd fst]. by rewrite Et. }
  pose proof (gettoken_spec p1 ltac:(lia)) as H1. destruct (gettoken s p1) as [[[tok ?] ?] p2]. rewrite <- Et in Es.
  destruct (token_sym _ _ _ _ _ _ H1 Es) as (Hp2 & Hk). pose proof (gettoken_spec p2 ltac:(lia)) as H2. destruct (gettoken s p2) as [[[t q] eq] p3].
  destruct (Z.eqb_spec t 97) as [->|]; [|apply parses_panic]. cbn [negb]. destruct (token_word _ _ _ _ H2) as (E2 & Hg & Hp3).
  assert (exists rd, toks p1 = rtok rd :: toks p2 /\ (if tok =? 60 then REDIR c (q, eq) O_RDONLY 0 else if tok =? 62 then REDIR c (q, eq) (Z.lor O_WRONLY O_CREATE) 1
    else if tok =? 43 then REDIR c (q, eq) (Z.lor O_WRONLY O_CREATE) 1 else c) = REDIR c (q, eq) (rmode rd) (rfd rd)) as (rd & E1 & ->).
  { destruct Hk as [(k & -> & E1 & Hk)|(-> & E1 & _)]; [|by exists RAppend]. apply strchr_in in Hk. vm_compute in Hk.
    assert (k = 60 \/ k = 62) as [->| ->] by set_solver; [by exists RIn|by exists ROut]. }
  eapply parses_mono; [apply IH; lia|]. intros r Hr. eapply redirs_ok_cons; [|..|exact Hr]; [|lia|done]. by rewrite <- Et, E1, E2.
Qed.

Definition args_ok (rs : list (redir * list Z)) (ws : list (list Z)) (p : nat) (r : cmd span * nat) : Prop :=
  (p <= r.2 <= len)%nat /\ Forall good (spans r.1) /\ exists is_, toks p = (is_ ≫= item_tokens) ++ toks r.2
    /\ map_cmd slice r.1 = wrap (rs ++ redirs is_) (EXEC (ws ++ words is_)) /\ (length (ws ++ words is_) < MAXARGS)%nat.

Lemma args_ok_nil rs ws p ret p' : (p <= p' <= len)%nat -> Forall good (spans ret) -> toks p' = toks p -> map_cmd slice ret = wrap rs (EXEC ws) ->
  (length ws < MAXARGS)%nat -> args_ok rs ws p (ret, p').
Proof. intros Hp Hg Ht Hm Hl. split; [done|]. split; [done|]. exists []. cbn [fst snd words redirs mbind list_bind app]. by rewrite !app_nil_r, Ht. Qed.

Lemma args_ok_cons rs ws p w p1 rs1 p2 r : toks p = Word w :: toks p1 -> toks p1 = (rs1 ≫= redir_tokens) ++ toks p2 -> (p <= p2)%nat ->
  args_ok (rs ++ rs1) (ws ++ [w]) p2 r -> args_ok rs ws p r.
Proof.
  intros E1 E2 Hp (Hr & Hg & is_ & E3 & E4 & Hl). split_and!; [lia|lia|done|]. exists (IWord w :: (IRedir <$> rs1) ++ is_).
  destruct (redir_items rs1) as (R1 & R2 & R3). change (IWord w :: (IRedir <$> rs1) ++ is_) with ([IWord w] ++ (IRedir <$> rs1) ++ is_).
  rewrite !bind_app, R1, E1, E2, E3. destruct (items_app [IWord w] ((IRedir <$> rs1) ++ is_)) as [-> ->], (items_app (IRedir <$> rs1) is_) as [-> ->].
  rewrite R2, R3. change (words [IWord w]) with [w]. change (redirs [IWord w]) with (@nil (redir * list Z)). cbn [app]. rewrite <- !app_assoc in *. done.
Qed.

Lemma parseargs_sound n ret p rs ws : (p <= len)%nat -> (len - p < n)%nat -> Forall good (spans ret) -> map_cmd slice ret = wrap rs (EXEC ws) ->
  (length ws < MAXARGS)%nat -> parses (parseargs n s ret (length ws) p) (args_ok rs ws p).
Proof.
  revert ret p rs ws. induction n as [|n IH]; intros ret p rs ws Hp Hn Hg Hm Hl; [lia|]. cbn [parseargs].
  destruct (peek_spec p "|)&;" Hp) as (p1 & -> & Et & Hp1); [by repeat constructor|]. destruct (starts "|)&;" (toks p)).
  { apply parses_ret. by apply args_ok_nil. }
  pose proof (gettoken_spec p1 ltac:(lia)) as H1. destruct (gettoken s p1) as [[[tok q] eq] p2]. destruct (Z.eqb_spec tok 0) as [->|H0].
  { apply parses_ret. unfold token_ok in H1. rewrite Et in H1. apply args_ok_nil; try done.
    - destruct (toks p); [lia|]. lia.
    - destruct (toks p) as [|t ts]; [by destruct H1 as (_ & -> & _)|]. destruct H1 as (Hk & _ & _ & Hlg & _). destruct t; try done. simpl in Hk, Hlg. by subst c. }
  destruct (Z.eqb_spec tok 97) as [->|]; [|apply parses_panic]. cbn [negb]. destruct (token_word _ _ _ _ H1) as (E1 & Hw & Hp2).
  destruct (Nat.leb_spec MAXARGS (length ws)); [lia|]. destruct (Nat.leb_spec MAXARGS (S (length ws))) as [|Hl']; [apply parses_panic|].
  eapply parses_bind; [apply parseredirs_sound; lia|]. intros [ret' p3] (Hp3 & rs1 & E2 & E3 & Hg'). cbn [fst snd] in *.
  replace (S (length ws)) with (length (ws ++ [slice (q, eq)])) by (rewrite length_app; simpl; lia).
  eapply parses_mono; [apply (IH ret' p3 (rs ++ rs1) (ws ++ [slice (q, eq)])); try lia|].
  - apply Hg', spans_add_arg; done.
  - by rewrite E3, map_add_arg, Hm, add_arg_wrap, wrap_app.
  - rewrite length_app; simpl; lia.
  - intros r Hr. eapply (args_ok_cons _ _ _ _ p2 rs1 p3); [by rewrite <- Et|done|lia|done].
Qed.

Lemma parsebacks_sound n c p : (p <= len)%nat -> (len - p < n)%nat -> parses (parsebacks n s c p) (fun r =>
  (p <= r.2 <= len)%nat /\ spans r.1 = spans c /\ exists k, toks p = replicate k (Sym 38) ++ toks r.2 /\ map_cmd slice r.1 = Nat.iter k BACK (map_cmd slice c)).
Proof.
  revert c p. induction n as [|n IH]; intros c p Hp Hn; [lia|]. cbn [parsebacks].
  destruct (peek_spec p "&" Hp) as (p1 & -> & Et & Hp1); [by repeat constructor|]. destruct (starts "&" (toks p)) eqn:Es.
  2:{ apply parses_ret. split; [done|]. split; [done|]. exists 0%nat. by rewrite <- Et. }
  pose proof (gettoken_spec p1 ltac:(lia)) as H1. destruct (gettoken s p1) as [[[tok ?] ?] p2]. rewrite <- Et in Es.
  destruct (token_sym _ _ _ _ _ _ H1 Es) as (Hp2 & [(k & _ & E1 & Hk)|(_ & _ & Hk)]); apply strchr_in in Hk; vm_compute in Hk; [|set_solver].
  assert (k = 38) as -> by set_solver. eapply parses_mono; [apply IH; lia|]. intros r (Hr & Hsp & k & E2 & E3). split_and!; [lia|lia|done|].
  exists (S k). rewrite <- Et, E1, E2, E3, Nat.iter_succ_r. done.
Qed.

(** A parser of a sort, from position [p]. *)
Definition parsed (k : sort) (p : nat) (r : cmd span * nat) : Prop :=
  (p <= r.2 <= len)%nat /\ Forall good (spans r.1) /\ exists ts, toks p = ts ++ toks r.2 /\ derives k ts (map_cmd slice r.1).

(** A symbol that [peek] found and [gettoken] takes. *)
Lemma symbol_sound {A} p cs c (f : nat -> P A) (g : nat -> P A) (Q : A -> Prop) : str cs = [c] -> strchr symbols c = true -> c <> 62 -> (p <= len)%nat ->
  (forall p', toks p = Sym c :: toks p' -> (p < p' <= len)%nat -> parses (f p') Q) ->
  (forall p', toks p' = toks p -> (p <= p' <= len)%nat -> parses (g p') Q) ->
  parses (let '(b, p) := peek s p cs in if (b : bool) then let '(_, _, _, p) := gettoken s p in f p else g p) Q.
Proof.
  intros Ecs Hc H62 Hp Hf Hg. destruct (peek_spec p cs Hp) as (p1 & -> & Et & Hp1); [rewrite Ecs; by repeat constructor|]. destruct (starts cs (toks p)) eqn:Es; [|by apply Hg].
  pose proof (gettoken_spec p1 ltac:(lia)) as H1. destruct (gettoken s p1) as [[[tok ?] ?] p2]. rewrite <- Et in Es.
  destruct (token_sym _ _ _ _ _ _ H1 Es) as (Hp2 & [(k & _ & E1 & Hk)|(_ & _ & Hk)]); apply strchr_in in Hk; rewrite Ecs in Hk; [|set_solver].
  assert (k = c) as -> by set_solver. apply Hf; [by rewrite <- Et|lia].
Qed.

Lemma parsers_sound n :
  (forall p, (p <= len)%nat -> (4 * (len - p) + 4 <= n)%nat -> parses (parseline n s p) (parsed Line p)) /\
  (forall p, (p <= len)%nat -> (4 * (len - p) + 3 <= n)%nat -> parses (parsepipe n s p) (parsed Pipeline p)) /\
  (forall p, (p <= len)%nat -> (4 * (len - p) + 1 <= n)%nat -> starts "(" (toks p) = true -> parses (parseblock n s p) (parsed Simple p)) /\
  (forall p, (p <= len)%nat -> (4 * (len - p) + 2 <= n)%nat -> parses (parseexec n s p) (parsed Simple p)).
Proof.
  induction n as [|n (IHl & IHp & IHb & IHe)]; [split_and!; intros; lia|]. split_and!; intros p Hp Hn.
  - cbn [parseline]. eapply parses_bind; [apply IHp; lia|]. intros [c p1] (Hp1 & Hg & ts & E1 & Hd). cbn [fst snd] in *.
    eapply parses_bind; [apply parsebacks_sound; lia|]. intros [c1 p2] (Hp2 & Hsp & k & E2 & Em). cbn [fst snd] in *.
    apply (symbol_sound p2 ";" 59 (fun p => parseline n s p ≫= fun r' => mret (LIST c1 r'.1, r'.2)) (fun p => mret (c1, p))); try done; [lia|..]; intros p3 E3 Hp3.
    + eapply parses_bind; [apply IHl; lia|]. intros [c' p4] (Hp4 & Hg' & ts' & E4 & Hd'). apply parses_ret. cbn [fst snd] in *. split; [cbn [snd]; lia|].
      split; [cbn [fst spans]; rewrite Hsp; by apply Forall_app|]. exists (ts ++ replicate k (Sym 38) ++ Sym 59 :: ts'). cbn [fst snd map_cmd]. rewrite Em. split; [|by constructor].
      by rewrite E1, E2, E3, E4, <- !app_assoc.
    + apply parses_ret. split; [cbn [snd]; lia|]. split; [cbn [fst]; by rewrite Hsp|]. exists (ts ++ replicate k (Sym 38)). cbn [fst snd]. rewrite Em. split; [|by constructor].
      by rewrite E1, E2, E3, <- !app_assoc.
  - cbn [parsepipe]. eapply parses_bind; [apply IHe; lia|]. intros [c p1] (Hp1 & Hg & ts & E1 & Hd). cbn [fst snd] in *.
    apply (symbol_sound p1 "|" 124 (fun p => parsepipe n s p ≫= fun r' => mret (PIPE c r'.1, r'.2)) (fun p => mret (c, p))); try done; [lia|..]; intros p3 E3 Hp3.
    + eapply parses_bind; [apply IHp; lia|]. intros [c' p4] (Hp4 & Hg' & ts' & E4 & Hd'). apply parses_ret. cbn [fst snd] in *. split; [cbn [snd]; lia|].
      split; [cbn [fst spans]; by apply Forall_app|]. exists (ts ++ Sym 124 :: ts'). cbn [fst snd map_cmd]. split; [|by constructor]. by rewrite E1, E3, E4, <- !app_assoc.
    + apply parses_ret. split; [cbn [snd]; lia|]. split; [done|]. exists ts. cbn [fst snd]. split; [|by constructor]. by rewrite E1, E3.
  - intros Hst. cbn [parseblock]. destruct (peek_spec p "(" Hp) as (p1 & -> & Et & Hp1); [by repeat constructor|]. rewrite Hst. cbn [negb].
    pose proof (gettoken_spec p1 ltac:(lia)) as H1. destruct (gettoken s p1) as [[[tok ?] ?] p2]. rewrite <- Et in Hst.
    destruct (token_sym _ _ _ _ _ _ H1 Hst) as (Hp2 & [(k & _ & E1 & Hk)|(_ & _ & Hk)]); apply strchr_in in Hk; vm_compute in Hk; [|set_solver].
    assert (k = 40) as -> by set_solver. eapply parses_bind; [apply IHl; lia|]. intros [c p3] (Hp3 & Hg & ts & E3 & Hd). cbn [fst snd] in *.
    destruct (peek_spec p3 ")" ltac:(lia)) as (p4 & -> & Et4 & Hp4); [by repeat constructor|]. destruct (starts ")" (toks p3)) eqn:Es; [|apply parses_panic]. cbn [negb].
    pose proof (gettoken_spec p4 ltac:(lia)) as H4. destruct (gettoken s p4) as [[[tok' ?] ?] p5]. rewrite <- Et4 in Es.
    destruct (token_sym _ _ _ _ _ _ H4 Es) as (Hp5 & [(k & _ & E5 & Hk')|(_ & _ & Hk')]); apply strchr_in in Hk'; vm_compute in Hk'; [|set_solver].
    assert (k = 41) as -> by set_solver. eapply parses_mono; [apply parseredirs_sound; lia|]. intros [c' p6] (Hp6 & rs & E6 & Em & Hg'). cbn [fst snd] in *.
    split; [cbn [snd]; lia|]. split; [by apply Hg'|]. exists (Sym 40 :: ts ++ Sym 41 :: (rs ≫= redir_tokens)). cbn [fst snd]. rewrite Em. split; [|by constructor].
    rewrite <- Et, E1, E3, <- Et4, E5, E6. cbn [app]. by rewrite <- !app_assoc.
  - cbn [parseexec]. destruct (peek_spec p "(" Hp) as (p1 & -> & Et & Hp1); [by repeat constructor|]. destruct (starts "(" (toks p)) eqn:Es.
    + eapply parses_mono; [apply IHb; [lia|lia|by rewrite Et]|]. intros r (Hr & Hg & ts & E1 & Hd). split; [lia|]. split; [done|]. exists ts. by rewrite <- Et.
    + eapply parses_bind; [apply parseredirs_sound; lia|]. intros [c p2] (Hp2 & rs & E2 & Em & Hg). cbn [fst snd] in *.
      eapply parses_mono; [apply (parseargs_sound _ c p2 rs []); try lia; [by apply Hg|done|]; unfold MAXARGS; simpl; lia|].
      intros r (Hr & Hg' & is_ & E3 & Em' & Hl). split; [lia|]. split; [done|]. exists (((IRedir <$> rs) ++ is_) ≫= item_tokens).
      destruct (redir_items rs) as (R1 & R2 & R3), (items_app (IRedir <$> rs) is_) as [R4 R5]. rewrite bind_app, R1, <- app_assoc, <- E3, <- E2, Et. split; [done|].
      rewrite <- R1, <- bind_app, Em'. replace (wrap _ _) with (simple ((IRedir <$> rs) ++ is_)) by (unfold simple; by rewrite R4, R5, R2, R3). constructor. by rewrite R4, R2.
Qed.

(** ** What is derived is returned *)

Lemma toks_length p : (length (toks p) <= len - p)%nat.
Proof. unfold toks. pose proof (lex_length [] (drop p s)) as H. rewrite length_drop in H. simpl in H. lia. Qed.

Lemma symbol_yes {A} p cs c ts (f g : nat -> P A) : str cs = [c] -> strchr symbols c = true -> (p <= len)%nat -> toks p = Sym c :: ts ->
  exists p', (let '(b, p) := peek s p cs in if (b : bool) then let '(_, _, _, p) := gettoken s p in f p else g p) = f p' /\ toks p' = ts /\ (p' <= len)%nat.
Proof.
  intros Ecs Hc Hp Et. destruct (peek_spec p cs Hp) as (p1 & -> & Et1 & Hp1); [rewrite Ecs; by repeat constructor|]. rewrite Et. cbn [starts]. rewrite Ecs.
  replace (strchr [c] c) with true by (symmetry; apply bool_decide_eq_true; set_solver). pose proof (gettoken_spec p1 ltac:(lia)) as H1.
  destruct (gettoken s p1) as [[[tok ?] ?] p2]. unfold token_ok in H1. rewrite Et1, Et in H1. destruct H1 as (_ & E & Hp2 & _). exists p2. split_and!; [done|done|lia].
Qed.

Lemma symbol_no {A} p cs c (f g : nat -> P A) : str cs = [c] -> strchr symbols c = true -> (p <= len)%nat -> starts cs (toks p) = false ->
  exists p', (let '(b, p) := peek s p cs in if (b : bool) then let '(_, _, _, p) := gettoken s p in f p else g p) = g p' /\ toks p' = toks p /\ (p' <= len)%nat.
Proof.
  intros Ecs Hc Hp Es. destruct (peek_spec p cs Hp) as (p1 & -> & Et1 & Hp1); [rewrite Ecs; by repeat constructor|]. rewrite Es. exists p1. split_and!; [done|done|lia].
Qed.

Lemma parseredirs_complete n c p rs rest : (p <= len)%nat -> (length rs < n)%nat -> toks p = (rs ≫= redir_tokens) ++ rest -> starts "<>" rest = false ->
  exists c' p', returns (parseredirs n s c p) (c', p') /\ toks p' = rest /\ map_cmd slice c' = wrap rs (map_cmd slice c) /\ (p' <= len)%nat.
Proof.
  revert c p rs. induction n as [|n IH]; intros c p rs Hp Hn Et Hr; [lia|]. cbn [parseredirs].
  destruct (peek_spec p "<>" Hp) as (p1 & -> & Et1 & Hp1); [by repeat constructor|]. rewrite Et. destruct rs as [|[r w] rs].
  { cbn [app mbind list_bind]. rewrite Hr. exists c, p1. split_and!; [done|by rewrite Et1, Et|done|lia]. }
  rewrite bind_cons. cbn [redir_tokens fst snd app]. replace (starts "<>" (rtok r :: _)) with true by (by destruct r).
  rewrite bind_cons in Et. cbn [redir_tokens fst snd app] in Et. rewrite <- Et1 in Et. clear Et1.
  pose proof (gettoken_spec p1 ltac:(lia)) as H1. destruct (gettoken s p1) as [[[tok ?] ?] p2]. unfold token_ok in H1. rewrite Et in H1. destruct H1 as (-> & E2 & Hp2 & _).
  pose proof (gettoken_spec p2 ltac:(lia)) as H2. destruct (gettoken s p2) as [[[tok' q] eq] p3]. unfold token_ok in H2. rewrite E2 in H2. destruct H2 as (-> & E3 & Hp3 & _ & Hw).
  destruct (Hw w eq_refl) as [-> _]. cbn [kind Z.eqb Pos.eqb negb].
  replace (if kind (rtok r) =? 60 then _ else _) with (REDIR c (q, eq) (rmode r) (rfd r)) by (by destruct r).
  apply (IH (REDIR c (q, eq) (rmode r) (rfd r)) p3 rs); [lia|simpl in Hn; lia|done|done].
Qed.

Lemma items_starts cs is_ rest : Forall (fun c => c ∉ str "<>") (str cs) -> (is_ = [] -> starts cs rest = false) -> starts cs ((is_ ≫= item_tokens) ++ rest) = false.
Proof.
  intros Hcs Hr. rewrite Forall_forall in Hcs. destruct is_ as [|[w|[r w]] is_]; [by apply Hr|done|]. rewrite bind_cons. destruct r; cbn; apply bool_decide_eq_false; intros Hc;
    apply (Hcs _ Hc); vm_compute; set_solver.
Qed.

Lemma parseargs_complete n ret p is_ rest rs ws : (p <= len)%nat -> (length is_ < n)%nat -> toks p = (is_ ≫= item_tokens) ++ rest -> follows Simple rest ->
  (is_ = [] \/ exists w is', is_ = IWord w :: is') -> map_cmd slice ret = wrap rs (EXEC ws) -> (length (ws ++ words is_) < MAXARGS)%nat ->
  exists c' p', returns (parseargs n s ret (length ws) p) (c', p') /\ toks p' = rest /\ map_cmd slice c' = wrap (rs ++ redirs is_) (EXEC (ws ++ words is_)) /\ (p' <= len)%nat.
Proof.
  revert ret p is_ rs ws. induction n as [|n IH]; intros ret p is_ rs ws Hp Hn Et Hf His Hm Hl; [lia|]. cbn [parseargs].
  destruct (peek_spec p "|)&;" Hp) as (p1 & -> & Et1 & Hp1); [by repeat constructor|]. pose proof (gettoken_spec p1 ltac:(lia)) as H1.
  destruct (gettoken s p1) as [[[tok q] eq] p2]. unfold token_ok in H1. rewrite Et1, Et in H1. rewrite Et. destruct His as [->|(w & is' & ->)].
  { cbn [app mbind list_bind] in *. rewrite !app_nil_r in *. destruct Hf as [->|Hf].
    - destruct H1 as (-> & E2 & Hp2). exists ret, p2. cbn. split_and!; [done|done|done|lia].
    - cbn [follow] in Hf. rewrite Hf. exists ret, p1. split_and!; [done|by rewrite Et1, Et|done|lia]. }
  cbn [mbind list_bind app item_tokens starts] in *. destruct H1 as (-> & E2 & Hp2 & _ & Hw). destruct (Hw w eq_refl) as [-> _]. cbn [kind Z.eqb Pos.eqb negb].
  change (words (IWord (slice (q, eq)) :: is')) with (slice (q, eq) :: words is') in *. rewrite length_app in Hl. cbn [length] in Hl.
  destruct (Nat.leb_spec MAXARGS (length ws)); [lia|]. destruct (Nat.leb_spec MAXARGS (S (length ws))); [lia|].
  destruct (leading_redirs is') as (rs1 & is2 & -> & His2). destruct (redir_items rs1) as (R1 & R2 & R3), (items_app (IRedir <$> rs1) is2) as [R4 R5].
  change ((IRedir <$> rs1) ++ is2 ≫= item_tokens) with (((IRedir <$> rs1) ++ is2) ≫= item_tokens) in E2. rewrite bind_app, R1, <- app_assoc in E2.
  pose proof (toks_length p2) as Hlen. rewrite E2, length_app in Hlen.
  pose proof (redirs_length rs1) as Hrs.
  destruct (parseredirs_complete (S len) (add_arg (q, eq) ret) p2 rs1 ((is2 ≫= item_tokens) ++ rest)) as (c1 & p3 & Hr1 & E3 & Em & Hp3); [lia|lia|done| |].
  { destruct His2 as [->|(w2 & is3 & ->)]; [|done]. cbn [app mbind list_bind]. destruct Hf as [->|Hf]; [done|]. eapply starts_disjoint; [|exact Hf]. by repeat (constructor; [vm_compute; set_solver|]). }
  destruct (IH c1 p3 is2 (rs ++ rs1) (ws ++ [slice (q, eq)])) as (c2 & p4 & Hr2 & E4 & Em2 & Hp4); try done.
  - cbn [length] in Hn. rewrite length_app, length_fmap in Hn. lia.
  - by rewrite Em, map_add_arg, Hm, add_arg_wrap, wrap_app.
  - rewrite !length_app. rewrite R4, R2 in Hl. simpl in *. lia.
  - exists c2, p4. split_and!; [|done| |done].
    + eapply returns_bind; [exact Hr1|]. cbn [fst snd]. rewrite length_app in Hr2. simpl in Hr2. by rewrite Nat.add_1_r in Hr2.
    + rewrite Em2. change (redirs (IWord (slice (q, eq)) :: (IRedir <$> rs1) ++ is2)) with (redirs ((IRedir <$> rs1) ++ is2)). rewrite R4, R5, R2, R3, <- !app_assoc. done.
Qed.

Lemma parsebacks_complete n c p k rest : (p <= len)%nat -> (k < n)%nat -> toks p = replicate k (Sym 38) ++ rest -> starts "&" rest = false ->
  exists c' p', returns (parsebacks n s c p) (c', p') /\ toks p' = rest /\ map_cmd slice c' = Nat.iter k BACK (map_cmd slice c) /\ (p' <= len)%nat.
Proof.
  revert c p k. induction n as [|n IH]; intros c p k Hp Hn Et Hr; [lia|]. cbn [parsebacks]. destruct k as [|k].
  - destruct (symbol_no p "&" 38 (fun p => parsebacks n s (BACK c) p) (fun p => mret (c, p))) as (p' & E & Et' & Hp'); try done; [by rewrite Et|].
    exists c, p'. split_and!; [intros l; by rewrite E|by rewrite Et'|done|done].
  - destruct (symbol_yes p "&" 38 (replicate k (Sym 38) ++ rest) (fun p => parsebacks n s (BACK c) p) (fun p => mret (c, p))) as (p' & E & Et' & Hp'); try done.
    destruct (IH (BACK c) p' k) as (c' & p2 & Hret & E2 & Em & Hp2); [done|lia|done|done|]. exists c', p2. split_and!; [intros l; by rewrite E|done| |done].
    by rewrite Em, Nat.iter_succ_r.
Qed.

Definition parser (k : sort) : nat -> list Z -> nat -> P (cmd span * nat) := match k with Line => parseline | Pipeline => parsepipe | Simple => parseexec end.
Definition bound (k : sort) : nat := match k with Line => 4 | Pipeline => 3 | Simple => 2 end.
Definition accepts (k : sort) (ts : list tk) (c : cmd (list Z)) : Prop := forall p n rest,
  toks p = ts ++ rest -> follows k rest -> (p <= len)%nat -> (4 * length ts + bound k <= n)%nat ->
  exists c' p', returns (parser k n s p) (c', p') /\ toks p' = rest /\ map_cmd slice c' = c /\ (p' <= len)%nat.

Lemma follows_no k cs rest : Forall (fun c => c ∉ str cs) (str (follow k)) -> follows k rest -> starts cs rest = false.
Proof. intros Hd [->|Hf]; [done|]. by eapply starts_disjoint. Qed.
Ltac disjoint := by repeat (constructor; [vm_compute; set_solver|]).

Lemma simple_complete is_ : (length (words is_) < MAXARGS)%nat -> accepts Simple (is_ ≫= item_tokens) (simple is_).
Proof.
  intros Hl p [|n] rest Et Hf Hp Hn; [simpl in Hn; lia|]. cbn [parser parseexec].
  destruct (peek_spec p "(" Hp) as (p1 & -> & Et1 & Hp1); [by repeat constructor|]. rewrite Et. rewrite items_starts; [|disjoint|intros _; eapply follows_no; [|exact Hf]; disjoint].
  destruct (leading_redirs is_) as (rs & is2 & -> & His2). destruct (redir_items rs) as (R1 & R2 & R3), (items_app (IRedir <$> rs) is2) as [R4 R5].
  rewrite bind_app, R1, <- app_assoc, <- Et1 in Et. pose proof (toks_length p1) as Hlen. rewrite Et, !length_app in Hlen.
  pose proof (redirs_length rs) as Hrs. pose proof (items_length is2) as His.
  destruct (parseredirs_complete (S len) (EXEC []) p1 rs ((is2 ≫= item_tokens) ++ rest)) as (c1 & p2 & Hr1 & E2 & Em & Hp2); [lia|lia|done| |].
  { destruct His2 as [->|(w & is3 & ->)]; [|done]. eapply follows_no; [|exact Hf]. disjoint. }
  destruct (parseargs_complete (S len) c1 p2 is2 rest rs []) as (c2 & p3 & Hr2 & E3 & Em2 & Hp3); try done; [lia|by rewrite R4, R2 in Hl|].
  exists c2, p3. split_and!; [|done| |done]; [eapply returns_bind; [exact Hr1|exact Hr2]|]. rewrite Em2. unfold simple. by rewrite R4, R5, R2, R3.
Qed.

Lemma block_complete ts c rs : accepts Line ts c -> accepts Simple (Sym 40 :: ts ++ Sym 41 :: (rs ≫= redir_tokens)) (wrap rs c).
Proof.
  intros IH p n rest Et Hf Hp Hn. cbn [length] in Hn. rewrite length_app in Hn. cbn [length bound] in Hn. destruct n as [|[|n]]; [lia..|]. cbn [parser parseexec parseblock].
  destruct (peek_spec p "(" Hp) as (p1 & -> & Et1 & Hp1); [by repeat constructor|]. rewrite Et. cbn [app starts]. replace (strchr (str "(") 40) with true by done.
  destruct (peek_spec p1 "(") as (p1' & -> & Et1' & Hp1'); [lia|by repeat constructor|]. rewrite Et1, Et. cbn [app starts]. replace (strchr (str "(") 40) with true by done. cbn [negb].
  pose proof (gettoken_spec p1' ltac:(lia)) as H1. destruct (gettoken s p1') as [[[tok ?] ?] p2]. unfold token_ok in H1. rewrite Et1', Et1, Et in H1. cbn [app] in H1. destruct H1 as (_ & E2 & Hp2 & _).
  rewrite <- app_assoc in E2. destruct (IH p2 n (Sym 41 :: (rs ≫= redir_tokens) ++ rest)) as (c1 & p3 & Hr1 & E3 & Em & Hp3); [done|by right|lia|simpl; lia|].
  destruct (peek_spec p3 ")" Hp3) as (p4 & Epk & Et4 & Hp4); [by repeat constructor|]. rewrite E3 in Epk. cbn [starts] in Epk. replace (strchr (str ")") 41) with true in Epk by done.
  pose proof (gettoken_spec p4 ltac:(lia)) as H4. destruct (gettoken s p4) as [[[tok' ?] ?] p5] eqn:Eg. unfold token_ok in H4. rewrite Et4, E3 in H4. destruct H4 as (_ & E5 & Hp5 & _).
  pose proof (toks_length p5) as Hlen. rewrite E5, length_app in Hlen.
  pose proof (redirs_length rs) as Hrs.
  destruct (parseredirs_complete (S len) c1 p5 rs rest) as (c2 & p6 & Hr2 & E6 & Em2 & Hp6); [lia|lia|done|eapply follows_no; [|exact Hf]; disjoint|].
  exists c2, p6. split_and!; [|done|by rewrite Em2, Em|done]. eapply returns_bind; [exact Hr1|]. cbn [fst snd]. rewrite Epk, Eg. exact Hr2.
Qed.

Lemma pipe_complete ts c ts' c' : accepts Simple ts c -> accepts Pipeline ts' c' -> accepts Pipeline (ts ++ Sym 124 :: ts') (PIPE c c').
Proof.
  intros IH IH' p [|n] rest Et Hf Hp Hn; rewrite length_app in Hn; cbn [length bound] in Hn; [lia|]. cbn [parser parsepipe]. rewrite <- app_assoc in Et.
  destruct (IH p n (Sym 124 :: ts' ++ rest)) as (c1 & p1 & Hr1 & E1 & Em & Hp1); [done|by right|lia|simpl; lia|].
  destruct (symbol_yes p1 "|" 124 (ts' ++ rest) (fun p => parsepipe n s p ≫= fun r' => mret (PIPE c1 r'.1, r'.2)) (fun p => mret (c1, p))) as (p2 & E2 & Et2 & Hp2); try done.
  destruct (IH' p2 n rest) as (c2 & p3 & Hr2 & E3 & Em2 & Hp3); [done|done|lia|simpl; lia|]. exists (PIPE c1 c2), p3. split_and!; [|done|by simpl; rewrite Em, Em2|done].
  eapply returns_bind; [exact Hr1|]. cbn [fst snd]. rewrite E2. by eapply returns_bind; [exact Hr2|].
Qed.

Lemma pipe_one_complete ts c : accepts Simple ts c -> accepts Pipeline ts c.
Proof.
  intros IH p [|n] rest Et Hf Hp Hn; cbn [bound] in Hn; [lia|]. cbn [parser parsepipe].
  destruct (IH p n rest) as (c1 & p1 & Hr1 & E1 & Em & Hp1); [done| |lia|simpl; lia|].
  { destruct Hf as [->|Hf]; [by left|right]. eapply starts_mono; [|exact Hf]. by repeat (constructor; [vm_compute; set_solver|]). }
  destruct (symbol_no p1 "|" 124 (fun p => parsepipe n s p ≫= fun r' => mret (PIPE c1 r'.1, r'.2)) (fun p => mret (c1, p))) as (p2 & E2 & Et2 & Hp2); try done.
  { rewrite E1. eapply follows_no; [|exact Hf]. disjoint. }
  exists c1, p2. split_and!; [|by rewrite Et2|done|done]. eapply returns_bind; [exact Hr1|]. cbn [fst snd]. by rewrite E2.
Qed.

(** A pipeline and what sends it to the background. *)
Lemma line_head ts c k p n rest : accepts Pipeline ts c -> toks p = ts ++ replicate k (Sym 38) ++ rest -> (p <= len)%nat -> (4 * length ts + 3 <= n)%nat ->
  starts "&" rest = false -> follows Pipeline rest ->
  exists c1 p1 c2 p2, returns (parsepipe n s p) (c1, p1) /\ returns (parsebacks (S len) s c1 p1) (c2, p2) /\ toks p2 = rest /\ map_cmd slice c2 = Nat.iter k BACK c /\ (p2 <= len)%nat.
Proof.
  intros IH Et Hp Hn Hs' Hf. destruct (IH p n (replicate k (Sym 38) ++ rest)) as (c1 & p1 & Hr1 & E1 & Em & Hp1); [done| |done|done|].
  { destruct k as [|k]; [done|]. by right. }
  pose proof (toks_length p1) as Hlen. rewrite E1, length_app, length_replicate in Hlen.
  destruct (parsebacks_complete (S len) c1 p1 k rest) as (c2 & p2 & Hr2 & E2 & Em2 & Hp2); [done|lia|done|done|]. exists c1, p1, c2, p2. rewrite Em2, Em. done.
Qed.

Lemma line_one_complete ts c k : accepts Pipeline ts c -> accepts Line (ts ++ replicate k (Sym 38)) (Nat.iter k BACK c).
Proof.
  intros IH p [|n] rest Et Hf Hp Hn; rewrite length_app in Hn; cbn [bound] in Hn; [lia|]. cbn [parser parseline]. rewrite <- app_assoc in Et.
  destruct (line_head ts c k p n rest) as (c1 & p1 & c2 & p2 & Hr1 & Hr2 & E2 & Em & Hp2); try done; [lia|eapply follows_no; [|exact Hf]; disjoint| |].
  { destruct Hf as [->|Hf]; [by left|right]. eapply starts_mono; [|exact Hf]. by repeat (constructor; [vm_compute; set_solver|]). }
  destruct (symbol_no p2 ";" 59 (fun p => parseline n s p ≫= fun r' => mret (LIST c2 r'.1, r'.2)) (fun p => mret (c2, p))) as (p3 & E3 & Et3 & Hp3); try done.
  { rewrite E2. eapply follows_no; [|exact Hf]. disjoint. }
  exists c2, p3. split_and!; [|by rewrite Et3|done|done]. eapply returns_bind; [exact Hr1|]. eapply returns_bind; [exact Hr2|]. cbn [fst snd]. by rewrite E3.
Qed.

Lemma line_complete ts c k ts' c' : accepts Pipeline ts c -> accepts Line ts' c' -> accepts Line (ts ++ replicate k (Sym 38) ++ Sym 59 :: ts') (LIST (Nat.iter k BACK c) c').
Proof.
  intros IH IH' p [|n] rest Et Hf Hp Hn; rewrite !length_app in Hn; cbn [length bound] in Hn; [lia|]. cbn [parser parseline]. rewrite <- !app_assoc in Et.
  destruct (line_head ts c k p n (Sym 59 :: ts' ++ rest)) as (c1 & p1 & c2 & p2 & Hr1 & Hr2 & E2 & Em & Hp2); try done; [lia|by right|].
  destruct (symbol_yes p2 ";" 59 (ts' ++ rest) (fun p => parseline n s p ≫= fun r' => mret (LIST c2 r'.1, r'.2)) (fun p => mret (c2, p))) as (p3 & E3 & Et3 & Hp3); try done.
  destruct (IH' p3 n rest) as (c3 & p4 & Hr3 & E4 & Em3 & Hp4); [done|done|lia|simpl; lia|]. exists (LIST c2 c3), p4. split_and!; [|done|by simpl; rewrite Em, Em3|done].
  eapply returns_bind; [exact Hr1|]. eapply returns_bind; [exact Hr2|]. cbn [fst snd]. rewrite E3. by eapply returns_bind; [exact Hr3|].
Qed.

Lemma derives_accepted k ts c : derives k ts c -> accepts k ts c.
Proof.
  induction 1; [by apply simple_complete|by apply block_complete|by apply pipe_one_complete|by apply pipe_complete|by apply line_one_complete|by apply line_complete].
Qed.

(** All of the string has been used when no token is left. *)
Lemma toks_end p : (p <= len)%nat -> exists p', peek s p "" = (false, p') /\ (p' = len <-> toks p = []).
Proof.
  intros Hp. destruct (peek_spec p "" Hp) as (p' & E & Et & Hp'); [constructor|]. replace (starts "" (toks p)) with false in E by (by destruct (toks p) as [|[]]).
  exists p'. split; [done|]. rewrite <- Et. assert (p' = skip is_ws s p) as Ep by (by injection E). destruct (skip_spec is_ws p Hp) as (_ & _ & Hnw). rewrite <- Ep in Hnw.
  pose proof (drop_at p') as Hd. destruct (s !! p') as [c|] eqn:Ec.
  - destruct Hd as (Hd & _ & _ & Hlt). split; [lia|]. intros E0. pose proof (gettoken_spec p' ltac:(lia)) as Ht. unfold gettoken, token_ok in Ht. exfalso. unfold toks in E0. rewrite Hd in E0.
    cbn [lex] in E0. rewrite (Hnw _ eq_refl) in E0. destruct (strchr symbols c).
    + cbn [flush app] in E0. destruct (c =? 62); [|done]. destruct (drop (S p') s) as [|d ?]; [done|]. by destruct (d =? 62).
    + by rewrite lex_word in E0.
  - destruct Hd as (Hd & _). apply lookup_ge_None in Ec. unfold toks. rewrite Hd. split; [done|lia].
Qed.

End Lexer.
(** * Words *)

Lemma cstr_spec buf : 0 ∉ cstr buf /\ (forall i, (i < length (cstr buf))%nat -> buf !! i = cstr buf !! i).
Proof.
  induction buf as [|c buf (IH1 & IH2)]; [split; [set_solver|simpl; lia]|]. simpl. destruct (Z.eqb_spec c 0); [split; [set_solver|simpl; lia]|].
  split; [set_solver|]. intros [|i] Hi; [done|]. apply IH2. simpl in Hi. lia.
Qed.

Lemma cstr_take l n : (forall i, (i < n)%nat -> exists c, l !! i = Some c /\ c <> 0) -> (l !! n = None \/ l !! n = Some 0) -> cstr l = take n l.
Proof.
  revert n. induction l as [|c l IH]; intros n H1 H2; [by rewrite take_nil|]. destruct n as [|n].
  - destruct H2 as [[=]|[= ->]]. done.
  - destruct (H1 0%nat ltac:(lia)) as (c' & [= <-] & Hc). cbn [cstr take]. destruct (Z.eqb_spec c 0); [done|]. f_equal. apply IH; [|done]. intros i Hi. apply (H1 (S i)). lia.
Qed.

(** The buffer after [nulterminate]: NULs at the ends of the words. *)
Lemma foldl_nul (argv : list span) (buf : list Z) i :
  let b := foldl (fun buf (w : span) => <[w.2 := 0]> buf) buf argv in
  (i ∉ argv.*2 -> b !! i = buf !! i) /\ (i ∈ argv.*2 -> b !! i = None \/ b !! i = Some 0).
Proof.
  cbn zeta. revert buf. induction argv as [|[q eq] argv IH] using rev_ind; intros buf; [split; [done|set_solver]|]. rewrite foldl_app, fmap_app. cbn [foldl fmap list_fmap snd].
  set (b := foldl _ buf argv). destruct (decide (i = eq)) as [->|Hne].
  - split; [set_solver|]. intros _. destruct (decide (eq < length b)%nat); [right; by apply list_lookup_insert_eq|left]. apply lookup_ge_None. rewrite length_insert. lia.
  - rewrite list_lookup_insert_ne by done. destruct (IH buf) as [I1 I2]. split; intros Hi; [apply I1|apply I2]; set_solver.
Qed.

Lemma nul_lookup c : forall buf i, (i ∉ (spans c).*2 -> nulterminate c buf !! i = buf !! i) /\ (i ∈ (spans c).*2 -> nulterminate c buf !! i = None \/ nulterminate c buf !! i = Some 0).
Proof.
  assert (forall l r, (forall buf i, (i ∉ (spans l).*2 -> nulterminate l buf !! i = buf !! i) /\ (i ∈ (spans l).*2 -> nulterminate l buf !! i = None \/ nulterminate l buf !! i = Some 0)) ->
    (forall buf i, (i ∉ (spans r).*2 -> nulterminate r buf !! i = buf !! i) /\ (i ∈ (spans r).*2 -> nulterminate r buf !! i = None \/ nulterminate r buf !! i = Some 0)) ->
    forall buf i, let b := nulterminate r (nulterminate l buf) in (i ∉ (spans l ++ spans r).*2 -> b !! i = buf !! i) /\ (i ∈ (spans l ++ spans r).*2 -> b !! i = None \/ b !! i = Some 0)) as Htwo.
  { intros l r IHl IHr buf i. cbn zeta. rewrite fmap_app. destruct (IHl buf i) as [L1 L2], (IHr (nulterminate l buf) i) as [R1 R2]. split.
    - intros Hi. rewrite R1, L1; [done|set_solver..].
    - intros Hi. destruct (decide (i ∈ (spans r).*2)) as [Hr|Hr]; [by apply R2|]. rewrite R1 by done. apply L2. set_solver. }
  induction c as [argv|c IH w mode fd|l IHl r IHr|l IHl r IHr|c IH]; intros buf i; cbn [spans nulterminate]; [apply foldl_nul| |by apply Htwo..|apply IH].
  apply (Htwo c (EXEC [w]) IH); intros; apply foldl_nul.
Qed.

(** After [nulterminate] the words of a command are strings of their own. *)
Lemma word_slice c buf w : Forall (good (cstr buf)) (spans c) -> w ∈ spans c -> word_at (nulterminate c buf) w = slice (cstr buf) w.
Proof.
  intros Hg Hw. destruct (cstr_spec buf) as [H0 Hb]. rewrite Forall_forall in Hg. destruct (Hg _ Hw) as (Hq & Hin & _). destruct w as [q eq]. cbn [fst snd] in *.
  assert (forall i, (q <= i < eq)%nat -> nulterminate c buf !! i = cstr buf !! i) as Hsame.
  { intros i Hi. destruct (nul_lookup c buf i) as [-> _]; [apply Hb; lia|]. intros ([q' eq'] & -> & Hw')%list_elem_of_fmap_1. destruct (Hg _ Hw') as (_ & _ & Hend).
    cbn [snd] in *. destruct (Hin eq' Hi) as (d & Hd & Hwd). by rewrite (Hend d Hd) in Hwd. }
  unfold word_at, slice. cbn [fst snd]. rewrite (cstr_take _ (eq - q)).
  - apply list_eq. intros i. destruct (decide (i < eq - q)%nat); [|by rewrite !lookup_take_ge by lia]. rewrite !lookup_take_lt, !lookup_drop by done. apply Hsame. lia.
  - intros i Hi. rewrite lookup_drop, Hsame by lia. destruct (Hin (q + i)%nat) as (d & Hd & _); [lia|]. exists d. split; [done|]. intros ->. apply H0. by eapply list_elem_of_lookup_2.
  - rewrite lookup_drop. replace (q + (eq - q))%nat with eq by lia. apply nul_lookup. by apply (list_elem_of_fmap_2 snd _ (q, eq)).
Qed.

Lemma map_cmd_ext {W V} (f g : W -> V) c : Forall (fun w => f w = g w) (spans c) -> map_cmd f c = map_cmd g c.
Proof.
  induction c; simpl; rewrite ?Forall_app, ?Forall_singleton; intros H; f_equal; try naive_solver.
  induction H as [|w ws Hw _ IH]; [done|]. by rewrite !fmap_cons, Hw, IH.
Qed.

Lemma parsecmd_spec buf :
  parses (parsecmd buf) (fun r => derives Line (lex [] (cstr buf)) (map_cmd (word_at r.2) r.1)) /\
  forall c, derives Line (lex [] (cstr buf)) c -> exists r, returns (parsecmd buf) r /\ map_cmd (word_at r.2) r.1 = c.
Proof.
  destruct (cstr_spec buf) as [H0 _]. set (s := cstr buf) in *. assert (toks s 0 = lex [] s) as E0 by done. unfold parsecmd. fold s.
  assert (forall c, Forall (good s) (spans c) -> map_cmd (word_at (nulterminate c buf)) c = map_cmd (slice s) c) as Hwords.
  { intros c Hg. apply map_cmd_ext, Forall_forall. intros w Hw. by apply word_slice. }
  assert (parses (parseline (depth s) s 0) (parsed s Line 0)) as Hsound by (apply parsers_sound; [done|lia|unfold depth; lia]). split.
  - eapply parses_bind; [exact Hsound|]. intros [c p] (Hp & Hg & ts & E1 & Hd). cbn [fst snd] in *. destruct (toks_end s H0 p) as (p' & -> & Hend); [lia|].
    destruct (Nat.eqb_spec p' (length s)) as [Heq|]; cbn [negb].
    + apply parses_ret. cbn [fst snd]. rewrite Hwords, <- E0, E1 by done. apply Hend in Heq. by rewrite Heq, app_nil_r.
    + split; [|apply complains_bind; [apply complains_printf|intros; by apply (parses_panic _ (fun _ => False))]].
      eapply prog_bind; [by apply prog_printf|]. intros. eapply prog_mono; [apply (parses_panic _ (fun _ => False))|]. by intros ? ? ? [_ []].
  - intros c Hd. destruct (derives_accepted s H0 _ _ _ Hd 0%nat (depth s) []) as (c' & p & Hr & E1 & Em & Hp); [by rewrite app_nil_r|by left|lia| |].
    { pose proof (toks_length s 0) as Hl. rewrite E0 in Hl. unfold depth. simpl. lia. }
    cbn [parser] in Hr. destruct (parses_returns _ _ _ Hsound Hr) as (_ & Hg & _). destruct (toks_end s H0 p Hp) as (p' & Epk & Hend).
    exists (c', nulterminate c' buf). split; [|by cbn [fst snd]; rewrite Hwords]. eapply returns_bind; [exact Hr|]. cbn [fst snd]. rewrite Epk.
    destruct (Nat.eqb_spec p' (length s)) as [|Hne]; [done|]. by apply Hend in E1.
Qed.

(** C8. The shell parses the language of its grammar: [parsecmd] returns, without a
    system call, exactly for the lines that the grammar derives, with the command of
    the derivation, whose words are NUL terminated strings in the buffer; on every
    other line it writes a message to the standard error and ends the process.  It never
    stores outside of an [argv], and its calls are at most four times as deep as the
    line is long. *)
Theorem parsecmd_correct buf :
  (forall c, (exists r, returns (parsecmd buf) r /\ map_cmd (word_at r.2) r.1 = c) <-> derives Line (lex [] (cstr buf)) c) /\
  ((forall c, ~ derives Line (lex [] (cstr buf)) c) -> forall l, Forall complaint (parsecmd buf l).1 /\ ((parsecmd buf l).2 = Exited \/ (parsecmd buf l).2 = Blocked)).
Proof.
  destruct (parsecmd_spec buf) as [Hp Hc]. split.
  - intros c. split; [|apply Hc]. intros (r & Hr & <-). by apply (parses_returns _ _ _ Hp Hr).
  - intros Hno l. destruct Hp as [Hr Hw]. split; [apply Hw|]. specialize (Hr l). destruct (parsecmd buf l) as [t [r l'| | |]]; try done; [|by left|by right].
    destruct Hr as (_ & _ & _ & _ & Hd). by apply Hno in Hd.
Qed.

End Grammar.
