(* ===== verification/ShRun.v ===== *)
(** The processes of the shell and their descriptors: which programs a command line
    starts, and what they have as standard input and output. *)

From S2P Require Import Prelude Monad State Console KString Sysfile Printf UserProg Programs Sh ShGrammar.

Module Descriptors.

(** * What the system calls do to the descriptors of a process *)

(** An open file: one that [open] opened, an end of a pipe, or one from before. *)
Inductive obj : Type :=
| OFile (name : list Z) (mode : Z)
| OPipeR (id : list Z)
| OPipeW (id : list Z)
| OOther (n : Z).

(** The descriptor table of a process, and how it came about: 0 for a child and 1 for
    a parent after each [fork], 2 for each [pipe].  This names the process, and the
    pipes that it makes. *)
Record proc : Type := mkProc { fds : list (option obj); trail : list Z }.

(** As [fdalloc]: the lowest free descriptor. *)
Definition alloc (F : list (option obj)) (o : obj) : option (nat * list (option obj)) :=
  match list_find (fun x => x = None) F with Some (fd, _) => Some (fd, <[fd := Some o]> F) | None => None end.

Definition opened (F : list (option obj)) (fd : Z) : option obj := if fd <? 0 then None else mjoin (F !! Z.to_nat fd).

(** [step p c a p']: the call [c] of the process [p] is answered with [a]. *)
Definition step (p : proc) (c : call) (a : answer) (p' : proc) : Prop :=
  match c with
  | Fork => (ret a = 0 /\ p' = mkProc (fds p) (trail p ++ [0])) \/ (0 < ret a /\ p' = mkProc (fds p) (trail p ++ [1])) \/ (ret a = -1 /\ p' = p)
  | Pipe =>
      (exists fd0 F0 fd1 F1, alloc (fds p) (OPipeR (trail p)) = Some (fd0, F0) /\ alloc F0 (OPipeW (trail p)) = Some (fd1, F1)
        /\ a = mkAnswer 0 [Z.of_nat fd0; Z.of_nat fd1] /\ p' = mkProc F1 (trail p ++ [2]))
      \/ (ret a = -1 /\ p' = p)
  | Close fd =>
      match opened (fds p) fd with
      | Some _ => ret a = 0 /\ p' = mkProc (<[Z.to_nat fd := None]> (fds p)) (trail p)
      | None => ret a = -1 /\ p' = p
      end
  | Dup fd =>
      match opened (fds p) fd with
      | Some o => match alloc (fds p) o with Some (n, F) => ret a = Z.of_nat n /\ p' = mkProc F (trail p) | None => ret a = -1 /\ p' = p end
      | None => ret a = -1 /\ p' = p
      end
  | Open name mode =>
      (exists n F, alloc (fds p) (OFile name mode) = Some (n, F) /\ ret a = Z.of_nat n /\ p' = mkProc F (trail p)) \/ (ret a = -1 /\ p' = p)
  | _ => p' = p
  end.

Fixpoint steps (p : proc) (t : list call) (u : list answer) (p' : proc) : Prop :=
  match t, u with
  | [], [] => p' = p
  | c :: t, a :: u => exists p1, step p c a p1 /\ steps p1 t u p'
  | _, _ => False
  end.

(** A process of the program [m] that starts as [p] comes to execute a program, or
    returns. *)
Definition starts {A} (m : P A) (p : proc) (path : list Z) (argv : list (list Z)) (p' : proc) : Prop :=
  exists l t, m l = (t ++ [Exec path argv], Blocked) /\ steps p t l p'.
Definition returns_to {A} (m : P A) (p : proc) (a : A) (p' : proc) : Prop :=
  exists l t, m l = (t, Done a []) /\ steps p t l p'.

(** * Programs one call after the other *)

(** A program does not look at answers before it has made the calls. *)
Definition local {A} (m : P A) : Prop := forall l, match m l with
  | (t, Done a l') => exists u, l = u ++ l' /\ length u = length t /\ forall l2, m (u ++ l2) = (t, Done a l2)
  | (t, Blocked) => length t = S (length l)
  | _ => True
  end.

Lemma local_ret {A} (a : A) : local (mret a).
Proof. intros l. by exists []. Qed.
Lemma local_sys c : local (sys c).
Proof. intros [|a l]; [done|]. by exists [a]. Qed.
Lemma local_exit {A} : local (@exit A).
Proof. done. Qed.
Lemma local_stuck {A} : local (@stuck A).
Proof. done. Qed.
Lemma local_bind {A B} (m : P A) (f : A -> P B) : local m -> (forall a, local (f a)) -> local (m ≫= f).
Proof.
  intros Hm Hf l. specialize (Hm l). unfold mbind, P_bind. destruct (m l) as [t [a l1| | |]]; try done. destruct Hm as (u & -> & Hl & Hu).
  specialize (Hf a l1). destruct (f a l1) as [t2 [b l2| | |]]; try done.
  - destruct Hf as (u2 & -> & Hl2 & Hu2). exists (u ++ u2). rewrite <- app_assoc, !length_app, Hl, Hl2. split_and!; [done..|]. intros l3. by rewrite <- app_assoc, Hu, Hu2.
  - rewrite !length_app, Hf, Hl. lia.
Qed.

Lemma steps_app p t t' u u' p' : length u = length t -> steps p (t ++ t') (u ++ u') p' <-> exists p1, steps p t u p1 /\ steps p1 t' u' p'.
Proof.
  revert p u. induction t as [|c t IH]; intros p [|a u] Hl; try done; simpl.
  - split; [intros H; eauto|]. by intros (? & -> & ?).
  - injection Hl as Hl. split.
    + intros (p1 & Hs & (p2 & H1 & H2)%IH); [|done]. eauto.
    + intros (p2 & (p1 & Hs & H1) & H2). exists p1. split; [done|]. apply IH; eauto.
Qed.

Lemma starts_ret {A} (a : A) p path argv p' : ~ starts (mret a) p path argv p'.
Proof. by intros (l & t & E & _). Qed.
Lemma starts_exit {A} p path argv p' : ~ starts (@exit A) p path argv p'.
Proof. by intros (l & t & E & _). Qed.
Lemma starts_sys c p path argv p' : starts (sys c) p path argv p' <-> c = Exec path argv /\ p' = p.
Proof.
  split.
  - intros ([|a l] & t & E & Hs); [|done]. injection E as E. destruct t as [|? [|]]; simplify_eq/=. done.
  - intros [-> ->]. by exists [], [].
Qed.
Lemma returns_ret {A} (a b : A) p p' : returns_to (mret a) p b p' <-> b = a /\ p' = p.
Proof. split; [intros (l & t & [= <- -> ->] & Hs); done|]. intros [-> ->]. by exists [], []. Qed.
Lemma returns_exit {A} (a : A) p p' : ~ returns_to exit p a p'.
Proof. by intros (l & t & E & _). Qed.
Lemma returns_sys c p a p' : returns_to (sys c) p a p' <-> step p c a p'.
Proof.
  split.
  - intros ([|b l] & t & E & Hs); [done|]. injection E as <- -> ->. destruct Hs as (p1 & Hs & Hp). cbn in Hp. by subst.
  - intros Hs. exists [a], [c]. split; [done|]. exists p'. done.
Qed.

Lemma returns_to_bind {A B} (m : P A) (f : A -> P B) p b p' : local m ->
  returns_to (m ≫= f) p b p' <-> exists a p1, returns_to m p a p1 /\ returns_to (f a) p1 b p'.
Proof.
  intros Hm. split.
  - intros (l & t & E & Hs). specialize (Hm l). unfold mbind, P_bind in E. destruct (m l) as [t1 [a l1| | |]]; try done. destruct Hm as (u & -> & Hl & Hu).
    destruct (f a l1) as [t2 e] eqn:E2. injection E as <- ->. apply steps_app in Hs as (p1 & H1 & H2); [|done]. exists a, p1. split; [|by exists l1, t2].
    exists u, t1. split; [|done]. specialize (Hu []). by rewrite app_nil_r in Hu.
  - intros (a & p1 & (l1 & t1 & E1 & H1) & (l2 & t2 & E2 & H2)). pose proof (Hm l1) as H. rewrite E1 in H. destruct H as (u & -> & Hl & Hu). rewrite app_nil_r in *.
    exists (u ++ l2), (t1 ++ t2). unfold mbind, P_bind. rewrite Hu, E2. split; [done|]. apply steps_app; eauto.
Qed.

Lemma starts_bind {A B} (m : P A) (f : A -> P B) p path argv p' : local m -> (forall a, local (f a)) ->
  starts (m ≫= f) p path argv p' <-> starts m p path argv p' \/ exists a p1, returns_to m p a p1 /\ starts (f a) p1 path argv p'.
Proof.
  intros Hm Hf. split.
  - intros (l & t & E & Hs). pose proof (Hm l) as Hml. unfold mbind, P_bind in E. destruct (m l) as [t1 [a l1| | |]] eqn:E1; try done.
    + right. destruct Hml as (u & -> & Hl & Hu). pose proof (Hf a l1) as Hfl. destruct (f a l1) as [t2 e] eqn:E2. injection E as Et ->.
      destruct t2 as [|x t2 _] using rev_ind; [done|]. rewrite app_assoc in Et. apply app_inj_tail in Et as [<- ->].
      apply steps_app in Hs as (p1 & H1 & H2); [|done]. exists a, p1. split; [|by exists l1, t2]. exists u, t1. split; [|done]. specialize (Hu []). by rewrite app_nil_r in Hu.
    + left. injection E as ->. by exists l, t.
  - intros [(l & t & E & Hs)|(a & p1 & (l1 & t1 & E1 & H1) & (l2 & t2 & E2 & H2))].
    + exists l, t. unfold mbind, P_bind. by rewrite E.
    + pose proof (Hm l1) as H. rewrite E1 in H. destruct H as (u & -> & Hl & Hu). rewrite app_nil_r in *.
      exists (u ++ l2), (t1 ++ t2). unfold mbind, P_bind. rewrite Hu, E2, app_assoc. split; [done|]. apply steps_app; eauto.
Qed.

(** Programs that only write. *)
Lemma local_printf fd fmt args : local (printf fd fmt args).
Proof.
  unfold printf. destruct (UPrintf.printf (str fmt) args) as [cs|]; [|apply local_stuck]. induction cs as [|c cs IH]; [apply local_ret|]. apply local_bind; [apply local_sys|done].
Qed.
Lemma starts_printf fd fmt args p path argv p' : ~ starts (printf fd fmt args) p path argv p'.
Proof.
  unfold printf. destruct (UPrintf.printf (str fmt) args) as [cs|]; [|by intros (l & t & E & _)]. revert p. induction cs as [|c cs IH]; intros p; [apply starts_ret|].
  cbn [puts]. rewrite starts_bind; [|apply local_sys|].
  - rewrite starts_sys. intros [[? _]|(a & p1 & _ & Hs)]; [done|by apply (IH p1)].
  - intros _. clear IH. induction cs as [|d cs IH]; [apply local_ret|]. apply local_bind; [apply local_sys|done].
Qed.

Create HintDb local.
#[export] Hint Resolve local_ret local_sys local_exit local_printf : local.
#[export] Hint Extern 1 (local (_ ≫= _)) => apply local_bind; [|intros] : local.
#[export] Hint Extern 1 (local (sysret _)) => unfold sysret : local.
#[export] Hint Extern 1 (local (if ?b then _ else _)) => destruct b : local.

(** A message before the end of the process. *)
Lemma starts_fail {A} fd fmt args p path argv p' : ~ starts (printf fd fmt args ≫= fun _ => @exit A) p path argv p'.
Proof.
  rewrite starts_bind by eauto with local. intros [H|(a & p1 & _ & H)]; [by eapply starts_printf|by eapply starts_exit].
Qed.
Lemma returns_fail {A} fd fmt args (a : A) p p' : ~ returns_to (printf fd fmt args ≫= fun _ => exit) p a p'.
Proof. rewrite returns_to_bind by eauto with local. intros (? & ? & _ & H). by eapply returns_exit. Qed.

(** A call that is not [exec], and the rest. *)
Lemma starts_call {A} c (f : answer -> P A) p path argv p' : (forall q av, c <> Exec q av) -> (forall a, local (f a)) ->
  starts (sys c ≫= f) p path argv p' <-> exists a p1, step p c a p1 /\ starts (f a) p1 path argv p'.
Proof.
  intros Hc Hf. rewrite starts_bind by eauto with local. rewrite starts_sys. setoid_rewrite returns_sys. naive_solver.
Qed.

(** ** Descriptor tables *)

(** The standard descriptors are open, and two more can be. *)
Definition ready (F : list (option obj)) : Prop :=
  (forall i, (i < 3)%nat -> exists o, F !! i = Some (Some o)) /\ exists i j, i <> j /\ F !! i = Some None /\ F !! j = Some None.

Lemma alloc_spec F o n F' : alloc F o = Some (n, F') -> F' = <[n := Some o]> F /\ F !! n = Some None /\ forall i, (i < n)%nat -> exists x, F !! i = Some (Some x).
Proof.
  unfold alloc. destruct (list_find (fun x => x = None) F) as [[fd x]|] eqn:E; [|done]. intros [= <- <-]. apply list_find_Some in E as (Hl & -> & Hb). split_and!; [done..|].
  intros i Hi. destruct (F !! i) as [[x|]|] eqn:Ei; [eauto|by exfalso; apply (Hb i None)|]. apply lookup_ge_None in Ei. apply lookup_lt_Some in Hl. lia.
Qed.
Lemma alloc_lowest F o n : F !! n = Some None -> (forall i, (i < n)%nat -> exists x, F !! i = Some (Some x)) -> alloc F o = Some (n, <[n := Some o]> F).
Proof.
  intros Hn Hlt. unfold alloc. replace (list_find (fun x => x = None) F) with (Some (n, @None obj)); [done|]. symmetry. apply list_find_Some. split_and!; [done..|].
  intros j y Hj Hlj ->. destruct (Hlt j Hlj). congruence.
Qed.
Lemma alloc_some F o i : F !! i = Some None -> exists n F', alloc F o = Some (n, F').
Proof.
  intros Hi. unfold alloc. destruct (list_find (fun x => x = None) F) as [[n x]|] eqn:E; [eauto|]. rewrite list_find_None, Forall_forall in E. exfalso.
  apply (E None); [|done]. by eapply list_elem_of_lookup_2.
Qed.

Lemma ready_insert F fd o : ready F -> (fd < 3)%nat -> ready (<[fd := Some o]> F).
Proof.
  intros [H1 (i & j & Hij & Hi & Hj)] Hfd. split.
  - intros k Hk. destruct (decide (k = fd)) as [->|]; [|rewrite list_lookup_insert_ne by done; by apply H1].
    destruct (H1 fd Hfd) as [x Hx]. exists o. apply list_lookup_insert_eq. by apply lookup_lt_Some in Hx.
  - exists i, j. assert (forall k, F !! k = Some None -> k <> fd) as Hne by (intros k Hk ->; destruct (H1 fd Hfd); congruence).
    rewrite !list_lookup_insert_ne by (apply not_eq_sym; by apply Hne). done.
Qed.

Lemma opened_nat F n o : F !! n = Some (Some o) -> opened F (Z.of_nat n) = Some o.
Proof. intros H. unfold opened. destruct (Z.ltb_spec (Z.of_nat n) 0); [lia|]. by rewrite Nat2Z.id, H. Qed.

(** [close] of an open descriptor. *)
Lemma step_close F tr n o a p' : F !! n = Some (Some o) -> step (mkProc F tr) (Close (Z.of_nat n)) a p' <-> ret a = 0 /\ p' = mkProc (<[n := None]> F) tr.
Proof. intros H. cbn [step fds trail]. by rewrite (opened_nat _ _ _ H), Nat2Z.id. Qed.

(** The tables of a process that puts an end of a new pipe in the place of [k]: [src] is
    the end and [o] what it refers to. *)
Lemma pipe_tables F fd0 fd1 o0 o1 k src o : ready F -> (k < 2)%nat ->
  F !! fd0 = Some None -> F !! fd1 = Some None -> fd0 <> fd1 -> (src = fd0 /\ o = o0 \/ src = fd1 /\ o = o1) ->
  let F1 := <[fd1 := Some o1]> (<[fd0 := Some o0]> F) in
  (exists ok, F1 !! k = Some (Some ok)) /\ (<[k := None]> F1) !! src = Some (Some o) /\ alloc (<[k := None]> F1) o = Some (k, <[k := Some o]> F1)
  /\ (<[k := Some o]> F1) !! fd0 = Some (Some o0) /\ (<[fd0 := None]> (<[k := Some o]> F1)) !! fd1 = Some (Some o1)
  /\ <[fd1 := None]> (<[fd0 := None]> (<[k := Some o]> F1)) = <[k := Some o]> F.
Proof.
  intros [Hr _] Hk H0 H1 Hne Hsrc F1.
  assert (forall i, (i < 3)%nat -> fd0 <> i /\ fd1 <> i) as Hstd by (intros i Hi; destruct (Hr i Hi); split; intros ->; congruence).
  destruct (Hstd k ltac:(lia)) as [Hk0 Hk1]. destruct (Hr k ltac:(lia)) as [ok Hok].
  pose proof (lookup_lt_Some _ _ _ H0) as L0. pose proof (lookup_lt_Some _ _ _ H1) as L1. pose proof (lookup_lt_Some _ _ _ Hok) as Lk. split_and!.
  - exists ok. unfold F1. by rewrite !list_lookup_insert_ne by done.
  - destruct Hsrc as [[-> ->]|[-> ->]]; unfold F1; rewrite list_lookup_insert_ne by done; [rewrite list_lookup_insert_ne by done|];
      apply list_lookup_insert_eq; rewrite ?length_insert; lia.
  - rewrite (alloc_lowest _ _ k); [by rewrite list_insert_insert_eq|apply list_lookup_insert_eq; unfold F1; rewrite !length_insert; lia|].
    intros i Hi. destruct (Hstd i ltac:(lia)). rewrite list_lookup_insert_ne by lia. unfold F1. rewrite !list_lookup_insert_ne by done. apply Hr. lia.
  - rewrite list_lookup_insert_ne by done. unfold F1. rewrite list_lookup_insert_ne by done. by apply list_lookup_insert_eq.
  - rewrite !list_lookup_insert_ne by done. unfold F1. apply list_lookup_insert_eq. by rewrite length_insert.
  - apply list_eq. intros i. unfold F1. destruct (decide (i = fd1)) as [->|]; [rewrite list_lookup_insert_eq by (rewrite !length_insert; lia); by rewrite list_lookup_insert_ne, H1 by done|].
    rewrite list_lookup_insert_ne by done. destruct (decide (i = fd0)) as [->|]; [rewrite list_lookup_insert_eq by (rewrite !length_insert; lia); by rewrite list_lookup_insert_ne, H0 by done|].
    rewrite list_lookup_insert_ne by done. destruct (decide (i = k)) as [->|]; [by rewrite !list_lookup_insert_eq by (rewrite ?length_insert; lia)|].
    by rewrite !list_lookup_insert_ne by done.
Qed.

(** [close] of a standard descriptor, [dup] of an end of a pipe in its place, and [close]
    of both ends: what is left is the table from before the pipe, with the end as
    descriptor [k]. *)
Lemma redirect_to_pipe {A} (m : P A) F tr fd0 fd1 o0 o1 k src o path argv p' : local m -> ready F -> (k < 2)%nat ->
  F !! fd0 = Some None -> F !! fd1 = Some None -> fd0 <> fd1 -> (src = fd0 /\ o = o0 \/ src = fd1 /\ o = o1) ->
  starts (sys (Close (Z.of_nat k)) ≫= fun _ => sys (Dup (Z.of_nat src)) ≫= fun _ => sys (Close (Z.of_nat fd0)) ≫= fun _ => sys (Close (Z.of_nat fd1)) ≫= fun _ => m)
    (mkProc (<[fd1 := Some o1]> (<[fd0 := Some o0]> F)) tr) path argv p'
  <-> starts m (mkProc (<[k := Some o]> F) tr) path argv p'.
Proof.
  intros Hm Hr Hk H0 H1 Hne Hsrc. destruct (pipe_tables F fd0 fd1 o0 o1 k src o) as ((ok & E1) & E2 & E3 & E4 & E5 & E6); try done.
  set (F1 := <[fd1 := Some o1]> (<[fd0 := Some o0]> F)) in *.
  rewrite starts_call by (done || eauto 20 with local). setoid_rewrite (step_close F1 tr k ok); [|done].
  setoid_rewrite starts_call; [|done|eauto 20 with local]. split.
  - intros (a & p1 & [_ ->] & b & p2 & Hs & H). cbn [step fds trail] in Hs. rewrite (opened_nat _ _ _ E2), E3 in Hs. destruct Hs as [_ ->].
    rewrite starts_call in H by (done || eauto 20 with local). destruct H as (c & p3 & Hs & H). apply (step_close _ _ _ _ _ _ E4) in Hs as [_ ->].
    rewrite starts_call in H by (done || eauto 20 with local). destruct H as (d & p4 & Hs & H). apply (step_close _ _ _ _ _ _ E5) in Hs as [_ ->]. by rewrite E6 in H.
  - intros H. exists (mkAnswer 0 []), (mkProc (<[k := None]> F1) tr). split; [done|]. exists (mkAnswer (Z.of_nat k) []), (mkProc (<[k := Some o]> F1) tr). split.
    { cbn [step fds trail]. by rewrite (opened_nat _ _ _ E2), E3. }
    rewrite starts_call by (done || eauto 20 with local). exists (mkAnswer 0 []), (mkProc (<[fd0 := None]> (<[k := Some o]> F1)) tr). split; [by apply (step_close _ _ _ _ _ _ E4)|].
    rewrite starts_call by (done || eauto 20 with local). exists (mkAnswer 0 []), (mkProc (<[k := Some o]> F) tr). split; [|done].
    rewrite <- E6. by apply (step_close _ _ _ _ _ _ E5).
Qed.

(** [close] of a standard descriptor and [open] in its place. *)
Lemma redirect_to_file {A} (m e : P A) F tr k name mode path argv p' : local m -> local e -> (forall p, ~ starts e p path argv p') -> ready F -> (k < 2)%nat ->
  starts (sys (Close (Z.of_nat k)) ≫= fun _ => sysret (Open name mode) ≫= fun r => if r <? 0 then e else m) (mkProc F tr) path argv p'
  <-> starts m (mkProc (<[k := Some (OFile name mode)]> F) tr) path argv p'.
Proof.
  intros Hm He Hno [Hr _] Hk. destruct (Hr k ltac:(lia)) as [ok Hok]. rewrite starts_call by (done || eauto 20 with local). setoid_rewrite (step_close F tr k ok); [|done].
  assert (alloc (<[k := None]> F) (OFile name mode) = Some (k, <[k := Some (OFile name mode)]> F)) as E.
  { rewrite (alloc_lowest _ _ k); [by rewrite list_insert_insert_eq|apply list_lookup_insert_eq; by apply lookup_lt_Some in Hok|].
    intros i Hi. rewrite list_lookup_insert_ne by lia. apply Hr. lia. }
  assert (forall a p1, step (mkProc (<[k := None]> F) tr) (Open name mode) a p1 <->
    (ret a = Z.of_nat k /\ p1 = mkProc (<[k := Some (OFile name mode)]> F) tr) \/ (ret a = -1 /\ p1 = mkProc (<[k := None]> F) tr)) as Hopen.
  { intros a p1. cbn [step fds trail]. rewrite E. naive_solver. }
  assert (forall a p1, returns_to (sysret (Open name mode)) (mkProc (<[k := None]> F) tr) a p1 <->
    (a = Z.of_nat k /\ p1 = mkProc (<[k := Some (OFile name mode)]> F) tr) \/ (a = -1 /\ p1 = mkProc (<[k := None]> F) tr)) as Hret.
  { intros a p1. unfold sysret. rewrite returns_to_bind by eauto with local. setoid_rewrite returns_sys. setoid_rewrite returns_ret. setoid_rewrite Hopen. split; [naive_solver|].
    intros H. exists (mkAnswer a []), p1. naive_solver. }
  assert (forall q, ~ starts (sysret (Open name mode)) q path argv p') as Hsys.
  { intros q. unfold sysret. rewrite starts_call by (done || eauto with local). intros (? & ? & _ & H). by apply starts_ret in H. }
  split.
  - intros (a & p1 & [_ ->] & H). rewrite starts_bind in H by eauto with local. destruct H as [H|(r & p2 & H1 & H2)]; [by apply Hsys in H|].
    apply Hret in H1 as [[-> ->]|[-> ->]]; [destruct (Z.ltb_spec (Z.of_nat k) 0); [lia|done]|]. by apply Hno in H2.
  - intros H. exists (mkAnswer 0 []), (mkProc (<[k := None]> F) tr). split; [done|]. rewrite starts_bind by eauto with local. right.
    exists (Z.of_nat k), (mkProc (<[k := Some (OFile name mode)]> F) tr). split; [apply Hret; by left|]. destruct (Z.ltb_spec (Z.of_nat k) 0); [lia|done].
Qed.

End Descriptors.

Module ShRun.
Import Sh Grammar Descriptors.

(** * What a command is meant to start *)

(** Every program that a command starts, with its arguments and the descriptors it gets:
    those of the command, but for redirections, and for the ends of its pipes.  No
    program holds an end of a pipe that it does not use. *)
Fixpoint plumb (c : cmd (list Z)) (F : list (option obj)) (tr : list Z) : list (list (list Z) * proc) :=
  match c with
  | EXEC [] => []
  | EXEC argv => [(argv, mkProc F tr)]
  | REDIR c w mode fd => plumb c (<[Z.to_nat fd := Some (OFile w mode)]> F) tr
  | PIPE l r =>
      plumb l (<[1%nat := Some (OPipeW tr)]> F) ((tr ++ [2]) ++ [0]) ++
      plumb r (<[0%nat := Some (OPipeR tr)]> F) (((tr ++ [2]) ++ [1]) ++ [0])
  | LIST l r => plumb l F (tr ++ [0]) ++ plumb r F (tr ++ [1])
  | BACK c => plumb c F (tr ++ [0])
  end.

(** Redirections are of the standard input and output. *)
Fixpoint standard {W} (c : cmd W) : Prop :=
  match c with
  | EXEC _ => True
  | REDIR c _ _ fd => (fd = 0 \/ fd = 1) /\ standard c
  | PIPE l r | LIST l r => standard l /\ standard r
  | BACK c => standard c
  end.

(** * [fork] *)

Lemma local_panic {A} msg : local (@panic A msg).
Proof. unfold panic. eauto with local. Qed.
#[export] Hint Resolve local_panic : local.
Lemma local_fork1 : local fork1.
Proof. unfold fork1. eauto with local. Qed.
#[export] Hint Resolve local_fork1 : local.

Lemma starts_fork1 p path argv p' : ~ starts fork1 p path argv p'.
Proof.
  unfold fork1, sysret. rewrite starts_bind by eauto with local. intros [H|(pid & p1 & _ & H)].
  - rewrite starts_call in H by (done || eauto with local). destruct H as (? & ? & _ & H). by apply starts_ret in H.
  - destruct (pid =? -1); [by apply starts_fail in H|by apply starts_ret in H].
Qed.

Lemma returns_fork1 F tr pid p' : returns_to fork1 (mkProc F tr) pid p' <-> (pid = 0 /\ p' = mkProc F (tr ++ [0])) \/ (0 < pid /\ p' = mkProc F (tr ++ [1])).
Proof.
  unfold fork1, sysret. rewrite returns_to_bind by eauto with local. setoid_rewrite returns_to_bind; [|eauto with local]. setoid_rewrite returns_sys. setoid_rewrite returns_ret. split.
  - intros (pid' & p2 & (a & p1 & Hs & -> & ->) & H). destruct (Z.eqb_spec (ret a) (-1)); [by apply returns_fail in H|]. apply returns_ret in H as [-> ->]. cbn [step fds trail] in Hs. naive_solver.
  - intros H. exists pid, p'. split.
    + exists (mkAnswer pid []), p'. split; [|done]. cbn [step fds trail ret]. naive_solver.
    + destruct (Z.eqb_spec pid (-1)); [lia|by apply returns_ret].
Qed.

(** A child that runs a program which does not come back, and the parent. *)
Lemma starts_fork (m : P unit) (g : unit -> P unit) F tr path argv p' : local m -> (forall u, local (g u)) -> (forall p u p1, ~ returns_to m p u p1) ->
  starts (fork1 ≫= fun pid => (if pid =? 0 then m else mret tt) ≫= g) (mkProc F tr) path argv p'
  <-> starts m (mkProc F (tr ++ [0])) path argv p' \/ starts (g tt) (mkProc F (tr ++ [1])) path argv p'.
Proof.
  intros Hm Hg Hno. rewrite starts_bind by eauto with local. split.
  - intros [H|(pid & p1 & Hr & H)]; [by apply starts_fork1 in H|]. apply returns_fork1 in Hr as [[-> ->]|[Hp ->]]; cbn [Z.eqb] in H.
    + rewrite starts_bind in H by eauto with local. destruct H as [H|(u & p2 & H & _)]; [by left|by apply Hno in H].
    + destruct (Z.eqb_spec pid 0); [lia|]. rewrite starts_bind in H by eauto with local. destruct H as [H|(u & p2 & H & H')]; [by apply starts_ret in H|].
      apply returns_ret in H as [-> ->]. by right.
  - intros [H|H]; right.
    + exists 0, (mkProc F (tr ++ [0])). split; [apply returns_fork1; by left|]. cbn [Z.eqb]. rewrite starts_bind by eauto with local. by left.
    + exists 1, (mkProc F (tr ++ [1])). split; [apply returns_fork1; by right|]. cbn [Z.eqb]. rewrite starts_bind by eauto with local. right. exists tt, (mkProc F (tr ++ [1])).
      split; [by apply returns_ret|done].
Qed.

(** * [runcmd] *)

Lemma local_runcmd buf c : local (runcmd buf c).
Proof.
  induction c as [[|w ws]|c IH w mode fd|l IHl r IHr|l IHl r IHr|c IH]; cbn [runcmd]; eauto 40 with local.
Qed.
#[export] Hint Resolve local_runcmd : local.

(** A program that ends the process does not return. *)
Lemma returns_then_exit {A B} (m : P A) (b : B) p p' : local m -> ~ returns_to (m ≫= fun _ => exit) p b p'.
Proof. intros Hm. rewrite returns_to_bind by done. intros (? & ? & _ & H). by apply returns_exit in H. Qed.
Lemma returns_never {A B} (m : P A) (f : A -> P B) b p p' : local m -> (forall a q, ~ returns_to (f a) q b p') -> ~ returns_to (m ≫= f) p b p'.
Proof. intros Hm Hf. rewrite returns_to_bind by done. intros (? & ? & _ & H). by apply Hf in H. Qed.

Lemma runcmd_no_return buf c u p p' : ~ returns_to (runcmd buf c) p u p'.
Proof.
  destruct c as [[|w ws]|c w mode fd|l r|l r|c]; cbn [runcmd]; [by apply returns_exit|..];
    repeat first [apply returns_exit | apply returns_then_exit; by eauto 40 with local | apply returns_never; [by eauto 40 with local|intros]
      | match goal with |- ~ returns_to (if ?b then _ else _) _ _ _ => destruct b end].
Qed.

(** What follows a program that does not return is not reached. *)
Lemma starts_no_return {A} (m : P unit) (f : unit -> P A) p path argv p' : local m -> (forall u, local (f u)) -> (forall p u p1, ~ returns_to m p u p1) ->
  starts (m ≫= f) p path argv p' <-> starts m p path argv p'.
Proof. intros Hm Hf Hno. rewrite starts_bind by done. split; [|by left]. intros [H|(? & ? & H & _)]; [done|by apply Hno in H]. Qed.

(** The parent of a pipeline starts nothing. *)
Lemma starts_call_no {A} c (f : answer -> P A) p path argv p' : (forall q av, c <> Exec q av) -> (forall a, local (f a)) ->
  (forall a q, ~ starts (f a) q path argv p') -> ~ starts (sys c ≫= f) p path argv p'.
Proof. intros Hc Hf Hno. rewrite starts_call by done. intros (a & q & _ & H). by apply Hno in H. Qed.
Lemma pipe_parent p0 p1 p path argv p' :
  ~ starts (sys (Close p0) ≫= fun _ => sys (Close p1) ≫= fun _ => sys Wait ≫= fun _ => sys Wait ≫= fun _ => @exit unit) p path argv p'.
Proof. do 4 (apply starts_call_no; [done|eauto 20 with local|intros]). apply starts_exit. Qed.

(** The two ends of a new pipe. *)
Lemma alloc_two F o0 o1 fd0 F0 fd1 F1 : alloc F o0 = Some (fd0, F0) -> alloc F0 o1 = Some (fd1, F1) ->
  F !! fd0 = Some None /\ F !! fd1 = Some None /\ fd0 <> fd1 /\ F1 = <[fd1 := Some o1]> (<[fd0 := Some o0]> F).
Proof.
  intros E0 E1. apply alloc_spec in E0 as (-> & H0 & _). apply alloc_spec in E1 as (-> & H1 & _).
  assert (fd0 <> fd1) as Hne by (intros ->; rewrite list_lookup_insert_eq in H1 by (by apply lookup_lt_Some in H0); done). by rewrite list_lookup_insert_ne in H1 by done.
Qed.

(** The two processes of a pipeline, and their parent. *)
Lemma starts_ends buf l r F tr id fd0 fd1 path argv p' : ready F -> F !! fd0 = Some None -> F !! fd1 = Some None -> fd0 <> fd1 ->
  starts (
    fork1 ≫= fun pid =>
    (if pid =? 0 then sys (Close 1) ≫= fun _ => sys (Dup (Z.of_nat fd1)) ≫= fun _ => sys (Close (Z.of_nat fd0)) ≫= fun _ => sys (Close (Z.of_nat fd1)) ≫= fun _ => runcmd buf l
     else mret tt) ≫= fun _ =>
    fork1 ≫= fun pid =>
    (if pid =? 0 then sys (Close 0) ≫= fun _ => sys (Dup (Z.of_nat fd0)) ≫= fun _ => sys (Close (Z.of_nat fd0)) ≫= fun _ => sys (Close (Z.of_nat fd1)) ≫= fun _ => runcmd buf r
     else mret tt) ≫= fun _ =>
    sys (Close (Z.of_nat fd0)) ≫= fun _ => sys (Close (Z.of_nat fd1)) ≫= fun _ => sys Wait ≫= fun _ => sys Wait ≫= fun _ => @exit unit)
    (mkProc (<[fd1 := Some (OPipeW id)]> (<[fd0 := Some (OPipeR id)]> F)) tr) path argv p'
  <-> starts (runcmd buf l) (mkProc (<[1%nat := Some (OPipeW id)]> F) (tr ++ [0])) path argv p'
   \/ starts (runcmd buf r) (mkProc (<[0%nat := Some (OPipeR id)]> F) ((tr ++ [1]) ++ [0])) path argv p'.
Proof.
  intros HF H0 H1 Hne.
  assert (forall c k f0 f1 f2 p u p1, ~ returns_to
    (sys (Close k) ≫= fun _ => sys (Dup f0) ≫= fun _ => sys (Close f1) ≫= fun _ => sys (Close f2) ≫= fun _ => runcmd buf c) p u p1) as Hnr.
  { intros c k f0 f1 f2 p u p1. do 4 (apply returns_never; [eauto with local|intros]). apply runcmd_no_return. }
  rewrite starts_fork; [|eauto 40 with local|eauto 40 with local|apply Hnr].
  rewrite (redirect_to_pipe _ F _ fd0 fd1 (OPipeR id) (OPipeW id) 1 fd1 (OPipeW id)); [|eauto with local|done|lia|done|done|done|by right].
  rewrite starts_fork; [|eauto 40 with local|eauto 40 with local|apply Hnr].
  rewrite (redirect_to_pipe _ F _ fd0 fd1 (OPipeR id) (OPipeW id) 0 fd0 (OPipeR id)); [|eauto with local|done|lia|done|done|done|by left].
  pose proof (pipe_parent (Z.of_nat fd0) (Z.of_nat fd1)). naive_solver.
Qed.

Lemma starts_pipe buf l r F tr path argv p' : ready F ->
  starts (runcmd buf (PIPE l r)) (mkProc F tr) path argv p'
  <-> starts (runcmd buf l) (mkProc (<[1%nat := Some (OPipeW tr)]> F) ((tr ++ [2]) ++ [0])) path argv p'
   \/ starts (runcmd buf r) (mkProc (<[0%nat := Some (OPipeR tr)]> F) (((tr ++ [2]) ++ [1]) ++ [0])) path argv p'.
Proof.
  intros HF. cbn [runcmd]. rewrite starts_call by (done || eauto 60 with local). split.
  - intros (a & p1 & Hs & H). cbn [step fds trail] in Hs. destruct Hs as [(fd0 & F0 & fd1 & F1 & E0 & E1 & -> & ->)|[Ea ->]]; [|rewrite Ea in H; by apply starts_fail in H].
    destruct (alloc_two _ _ _ _ _ _ _ E0 E1) as (H0 & H1 & Hne & ->). by apply (starts_ends buf l r F (tr ++ [2]) tr fd0 fd1).
  - intros H. destruct (proj2 HF) as (i & j & Hij & Hi & Hj). destruct (alloc_some F (OPipeR tr) i Hi) as (fd0 & F0 & E0). pose proof (alloc_spec _ _ _ _ E0) as (EF0 & _ & _).
    assert (exists n, F0 !! n = Some None) as [n Hn].
    { destruct (decide (fd0 = i)) as [->|]; [exists j|exists i]; rewrite EF0, list_lookup_insert_ne; done. }
    destruct (alloc_some F0 (OPipeW tr) n Hn) as (fd1 & F1 & E1). destruct (alloc_two _ _ _ _ _ _ _ E0 E1) as (H0 & H1 & Hne & EF1).
    exists (mkAnswer 0 [Z.of_nat fd0; Z.of_nat fd1]), (mkProc F1 (tr ++ [2])). split; [left; exists fd0, F0, fd1, F1; done|]. rewrite EF1.
    by apply (starts_ends buf l r F (tr ++ [2]) tr fd0 fd1).
Qed.

(** The programs of a command. *)
Lemma runcmd_plumb buf c : standard c -> forall F tr path argv p', ready F ->
  starts (runcmd buf c) (mkProc F tr) path argv p' <-> (argv, p') ∈ plumb (map_cmd (word_at buf) c) F tr /\ head argv = Some path.
Proof.
  induction c as [[|w ws]|c IH w mode fd|l IHl r IHr|l IHl r IHr|c IH]; intros Hs F tr path argv p' HF.
  - cbn [runcmd map_cmd plumb]. split; [by intros ?%starts_exit|set_solver].
  - cbn [runcmd map_cmd plumb fmap list_fmap]. rewrite starts_bind by eauto with local. rewrite starts_sys. setoid_rewrite list_elem_of_singleton. split.
    + intros [[[= <- <-] ->]|(a & p1 & _ & H)]; [done|by apply starts_fail in H].
    + intros [[= -> ->] [= <-]]. by left.
  - cbn [standard] in Hs. destruct Hs as [Hfd Hs]. cbn [map_cmd plumb]. assert (exists k, (k < 2)%nat /\ fd = Z.of_nat k) as (k & Hk & ->) by (destruct Hfd as [->| ->]; [by exists 0%nat; lia|by exists 1%nat; lia]).
    cbn [runcmd]. rewrite redirect_to_file; [|eauto with local|eauto with local|intros; apply starts_fail|done|done].
    rewrite starts_no_return; [|eauto with local|eauto with local|intros; apply runcmd_no_return]. rewrite Nat2Z.id. apply IH; [done|]. apply ready_insert; [done|lia].
  - destruct Hs as [Hl Hr]. rewrite starts_pipe by done. cbn [map_cmd plumb]. rewrite (IHl Hl), (IHr Hr) by (apply ready_insert; [done|lia]). rewrite elem_of_app. naive_solver.
  - destruct Hs as [Hl Hr]. cbn [runcmd map_cmd plumb]. rewrite starts_fork; [|eauto with local|eauto 20 with local|intros; apply runcmd_no_return].
    rewrite starts_call by (done || eauto 20 with local). setoid_rewrite starts_no_return; [|eauto with local|eauto with local|intros; apply runcmd_no_return].
    rewrite (IHl Hl) by done. rewrite elem_of_app. cbn [step]. split.
    + intros [H|(a & p1 & -> & H)]; [naive_solver|]. apply (IHr Hr) in H; [naive_solver|done].
    + intros [[H|H] Hh]; [by left|right]. exists (mkAnswer 0 []), (mkProc F (tr ++ [1])). split; [done|]. by apply (IHr Hr).
  - cbn [runcmd map_cmd plumb]. rewrite starts_fork; [|eauto with local|eauto with local|intros; apply runcmd_no_return]. rewrite (IH Hs) by done.
    pose proof (@starts_exit unit). naive_solver.
Qed.

(** * From a line to its programs *)

(** The child of the shell for a line. *)
Definition run_line (buf : list Z) : P unit := parsecmd buf ≫= fun r => runcmd r.2 r.1.

Lemma standard_map {W V} (f : W -> V) c : standard (map_cmd f c) <-> standard c.
Proof. induction c; simpl; naive_solver. Qed.

Lemma derives_standard k ts c : derives k ts c -> standard c.
Proof.
  assert (forall rs c, standard c -> standard (wrap rs c)) as Hw.
  { intros rs. induction rs as [|[r w] rs IH]; intros c0 Hc; [done|]. apply IH. split; [|done]. destruct r; simpl; lia. }
  assert (forall n (c : cmd (list Z)), standard c -> standard (Nat.iter n BACK c)) as Hb by (intros n c0 Hc; by induction n).
  induction 1; simpl; eauto. by apply Hw.
Qed.

Lemma local_parsecmd buf : local (parsecmd buf).
Proof.
  destruct (parsecmd_spec buf) as [[Hr _] Hc]. intros l. specialize (Hr l). destruct (parsecmd buf l) as [t [r l'| | |]] eqn:E; try done.
  destruct Hr as (u & -> & Hl & -> & Hd). destruct u; [|done]. exists []. split_and!; [done..|]. destruct (Hc _ Hd) as (r' & Hr' & _). intros l2.
  specialize (Hr' l') as E'. cbn [app] in *. rewrite E in E'. injection E' as ->. apply Hr'.
Qed.
#[export] Hint Resolve local_parsecmd : local.

Lemma starts_parsecmd buf p path argv p' : ~ starts (parsecmd buf) p path argv p'.
Proof.
  intros (l & t & E & _). destruct (parsecmd_spec buf) as [[_ Hw] _]. specialize (Hw l). rewrite E in Hw. apply Forall_app in Hw as [_ Hw]. by apply Forall_cons in Hw as [? _].
Qed.

Lemma returns_parsecmd buf p r p' : returns_to (parsecmd buf) p r p' <-> returns (parsecmd buf) r /\ p' = p.
Proof.
  split.
  - intros (l & t & E & Hs). pose proof (local_parsecmd buf l) as H. rewrite E in H. destruct H as (u & -> & Hl & Hu). destruct (parsecmd_spec buf) as [[Hr _] _].
    specialize (Hr (u ++ [])). rewrite E in Hr. destruct Hr as (u' & Eu & Hl' & -> & _). destruct u; [|done]. split; [exact Hu|]. exact Hs.
  - intros [Hr ->]. exists [], []. split; [apply Hr|done].
Qed.

(** C7. From a line to its programs: the processes that the shell makes for a line, when
    the standard descriptors are open and two more can be, execute exactly the programs
    that the command of the line is meant to start, each with its arguments as they
    stand in the line and with exactly the descriptors that its redirections and pipes
    give it: the two ends of a pipe are the output of its left side and the input of
    its right side, and no program holds another end, whichever of the calls of [fork],
    [pipe] and [open] fail. *)
Theorem run_line_plumbs buf F tr path argv p' : ready F ->
  starts (run_line buf) (mkProc F tr) path argv p'
  <-> exists c, derives Line (lex [] (cstr buf)) c /\ (argv, p') ∈ plumb c F tr /\ head argv = Some path.
Proof.
  intros HF. unfold run_line. rewrite starts_bind by eauto with local. setoid_rewrite returns_parsecmd. destruct (parsecmd_spec buf) as [Hp Hc].
  assert (forall r, derives Line (lex [] (cstr buf)) (map_cmd (word_at r.2) r.1) ->
    starts (runcmd r.2 r.1) (mkProc F tr) path argv p' <-> (argv, p') ∈ plumb (map_cmd (word_at r.2) r.1) F tr /\ head argv = Some path) as Hrun.
  { intros r Hd. apply runcmd_plumb; [|done]. by eapply standard_map, derives_standard. }
  split.
  - intros [H|(r & p1 & [Hr ->] & H)]; [by apply starts_parsecmd in H|]. pose proof (parses_returns _ _ _ Hp Hr) as Hd. apply (Hrun r Hd) in H. by exists (map_cmd (word_at r.2) r.1).
  - intros (c & Hd & H). destruct (Hc c Hd) as (r & Hr & E). right. exists r, (mkProc F tr). split; [done|]. apply Hrun; by rewrite E.
Qed.

(** The descriptors of a shell: the console three times. *)
Definition console_fds : list (option obj) := replicate 3 (Some (OOther 0)) ++ replicate 13 None.

Lemma run_line_plumbs_witness :
  starts (run_line (str "ls|wc>n" ++ [10; 0])) (mkProc console_fds []) (str "wc") [str "wc"]
    (mkProc (<[1%nat := Some (OFile (str "n") 513)]> (<[0%nat := Some (OPipeR [])]> console_fds)) [2; 1; 0]).
Proof.
  refine (proj2 (run_line_plumbs _ _ _ _ _ _ _) _).
  - split; [intros [|[|[|i]]] Hi; [by eexists..|lia]|]. by exists 3%nat, 4%nat.
  - exists (PIPE (simple [IWord (str "ls")]) (simple [IWord (str "wc"); IRedir (ROut, str "n")])). split_and!; [|by vm_compute; right; left|done].
    apply (d_line_one ([Word (str "ls")] ++ Sym 124 :: [Word (str "wc"); Sym 62; Word (str "n")]) (PIPE (simple [IWord (str "ls")]) (simple [IWord (str "wc"); IRedir (ROut, str "n")])) 0).
    apply (d_pipe [Word (str "ls")] _ [Word (str "wc"); Sym 62; Word (str "n")]); [|apply d_pipe_one].
    + apply (d_simple [IWord (str "ls")]). unfold MAXARGS. simpl. lia.
    + apply (d_simple [IWord (str "wc"); IRedir (ROut, str "n")]). unfold MAXARGS. simpl. lia.
Defined.

End ShRun.
