(* ===== verification/Editor.v ===== *)
(** Console input is a line editor: the ring buffer of console.c holds the characters
    ready to be read and the line being edited. *)

From S2P Require Import Prelude Monad State Console Kalloc Sched Sleeplock Bio Log Fs Uaccess Ring Pipe File Kbd Threads ConsoleIn KString Printf Cprintf.

Module Editor.
Import Console ConsoleIn Cprintf.

(** * The editor *)

(** The characters ready for readers and the line being edited. *)
Definition text : Type := list Z * list Z.

(** One character typed. *)
Definition edit (c : Z) (t : text) : text :=
  let '(ready, line) := t in
  if c =? Kbd.ctl 80 then t
  else if c =? Kbd.ctl 85 then (ready, [])
  else if (c =? Kbd.ctl 72) || (c =? 0x7f) then (ready, take (length line - 1) line)
  else if (c =? 0) || (INPUT_BUF <=? Z.of_nat (length ready + length line)) then t
  else
    let c := if c =? 13 then 10 else c in
    let line := line ++ [c] in
    if (c =? 10) || (c =? Kbd.ctl 68) || (Z.of_nat (length ready + length line) =? INPUT_BUF)
    then (ready ++ line, []) else (ready, line).

(** * The ring buffer *)

Definition ready (s : console) : list Z := ring_span INPUT_BUF (in_buf s) (in_r s) (Z.to_nat (ring_dist (in_r s) (in_w s))).
Definition line (s : console) : list Z := ring_span INPUT_BUF (in_buf s) (in_w s) (Z.to_nat (ring_dist (in_w s) (in_e s))).
Definition text_of (s : console) : text := (ready s, line s).

Record input_ok (s : console) : Prop := {
  io_buf : length (in_buf s) = Z.to_nat INPUT_BUF;
  io_r : is_u32 (in_r s);
  io_w : is_u32 (in_w s);
  io_e : is_u32 (in_e s);
  io_room : ring_dist (in_r s) (in_w s) + ring_dist (in_w s) (in_e s) <= INPUT_BUF;
  io_line : 10 ∉ line s }.

Lemma INPUT_BUF_div : (INPUT_BUF | 2 ^ 32).
Proof. by exists (2 ^ 25). Qed.

Lemma dist_re s : input_ok s -> ring_dist (in_r s) (in_e s) = ring_dist (in_r s) (in_w s) + ring_dist (in_w s) (in_e s).
Proof.
  intros [_ Hr Hw He Hroom _]. unfold ring_dist, u32, is_u32, INPUT_BUF in *.
  Z.to_euclidean_division_equations. lia.
Qed.

Lemma length_ready s : length (ready s) = Z.to_nat (ring_dist (in_r s) (in_w s)).
Proof. apply length_ring_span. Qed.
Lemma length_line s : length (line s) = Z.to_nat (ring_dist (in_w s) (in_e s)).
Proof. apply length_ring_span. Qed.

Lemma line_nil s : input_ok s -> in_e s = in_w s <-> line s = [].
Proof.
  intros Hok. split.
  - intros E. apply nil_length_inv. rewrite length_line. rewrite E, ring_dist_refl. done.
  - intros E. apply (f_equal length) in E. rewrite length_line in E. pose proof (ring_dist_range (in_w s) (in_e s)).
    symmetry. apply ring_dist_zero; [apply Hok..|]. simpl in E. lia.
Qed.

(** Erasing the last character of the line. *)
Definition erase (s : console) : console := s <| in_e ::= fun e => u32 (e - 1) |>.

Lemma erase_spec s : input_ok s -> in_e s <> in_w s ->
  input_ok (erase s) /\ ready (erase s) = ready s /\
  line s = line (erase s) ++ [in_char s (u32 (in_e s - 1))] /\
  ring_dist (in_w s) (in_e (erase s)) = ring_dist (in_w s) (in_e s) - 1.
Proof.
  intros Hok Hne. pose proof (ring_dist_range (in_w s) (in_e s)).
  assert (0 < ring_dist (in_w s) (in_e s)) as Hp.
  { destruct (decide (ring_dist (in_w s) (in_e s) = 0)) as [E|]; [|lia].
    rewrite ring_dist_zero in E by apply Hok. congruence. }
  pose proof (ring_dist_prev _ _ (io_w _ Hok) (io_e _ Hok) Hp) as Hd.
  assert (line s = line (erase s) ++ [in_char s (u32 (in_e s - 1))]) as Hl.
  { unfold line at 1. rewrite (ring_span_last INPUT_BUF) by (done || apply INPUT_BUF_div || apply Hok).
    unfold line, erase, in_char, in_slot. rsimpl. done. }
  split_and!; [|done|done|unfold erase; by rsimpl].
  destruct Hok as [? ? ? ? Hroom Hnl]. split; unfold erase; rsimpl; try done.
  - apply u32_range.
  - lia.
  - intros Hin. apply Hnl. rewrite Hl. apply elem_of_app. by left.
Qed.

(** Adding a character to the line. *)
Definition add_char (c : Z) (s : console) : console :=
  s <| in_buf ::= <[in_slot (in_e s) := u8 c]> |> <| in_e ::= fun e => u32 (e + 1) |>.

Lemma ready_add c s : input_ok s -> ring_dist (in_r s) (in_e s) < INPUT_BUF -> ready (add_char c s) = ready s.
Proof.
  intros Hok Hc. pose proof (dist_re s Hok) as Hd. pose proof (ring_dist_range (in_r s) (in_w s)).
  pose proof (ring_dist_range (in_w s) (in_e s)).
  unfold ready, add_char, in_slot. rsimpl.
  apply (ring_span_insert INPUT_BUF) with (j := ring_dist (in_r s) (in_e s)); [done| |lia].
  intros i. by apply ring_slot_dist; [|apply INPUT_BUF_div].
Qed.

Lemma add_spec c s : input_ok s -> 0 <= c < 256 -> ring_dist (in_r s) (in_e s) < INPUT_BUF ->
  line (add_char c s) = line s ++ [c] /\
  ring_dist (in_w s) (in_e (add_char c s)) = ring_dist (in_w s) (in_e s) + 1 /\
  ring_dist (in_r s) (in_e (add_char c s)) = ring_dist (in_r s) (in_e s) + 1.
Proof.
  intros Hok Hc Hn. pose proof (dist_re s Hok) as Hd. pose proof (ring_dist_range (in_r s) (in_w s)).
  pose proof (ring_dist_range (in_w s) (in_e s)). assert (INPUT_BUF = 128) as HN by done.
  assert (ring_dist (in_w s) (in_e (add_char c s)) = ring_dist (in_w s) (in_e s) + 1) as Hw1
    by (unfold add_char; rsimpl; apply ring_dist_next; [apply Hok..|lia]).
  assert (ring_dist (in_r s) (in_e (add_char c s)) = ring_dist (in_r s) (in_e s) + 1) as Hr1
    by (unfold add_char; rsimpl; apply ring_dist_next; [apply Hok..|lia]).
  split_and!; [|done|done]. unfold line at 1.
  change (in_w (add_char c s)) with (in_w s). rewrite Hw1. unfold add_char, in_slot. rsimpl.
  rewrite (ring_span_push INPUT_BUF); [|done|apply INPUT_BUF_div|apply Hok..|lia].
  unfold line. do 2 f_equal. apply Z.mod_small. lia.
Qed.

(** Making the line available. *)
Definition commit_line (s : console) : console := s <| in_w := in_e s |>.

Lemma commit_line_spec s : is_u32 (in_r s) -> is_u32 (in_w s) -> is_u32 (in_e s) -> length (in_buf s) = Z.to_nat INPUT_BUF ->
  ring_dist (in_r s) (in_e s) = ring_dist (in_r s) (in_w s) + ring_dist (in_w s) (in_e s) ->
  ring_dist (in_r s) (in_e s) <= INPUT_BUF ->
  input_ok (commit_line s) /\ text_of (commit_line s) = (ready s ++ line s, []).
Proof.
  intros Hr Hw He Hb Hd Hn.
  assert (line (commit_line s) = []) as Hl.
  { apply nil_length_inv. rewrite length_line. unfold commit_line. rsimpl. by rewrite ring_dist_refl. }
  split.
  - split; unfold commit_line; rsimpl; rewrite ?ring_dist_refl; try done; [lia|].
    fold (commit_line s). rewrite Hl. apply not_elem_of_nil.
  - unfold text_of. rewrite Hl. f_equal. unfold ready at 1, commit_line. rsimpl. rewrite Hd.
    pose proof (ring_dist_range (in_r s) (in_w s)). pose proof (ring_dist_range (in_w s) (in_e s)).
    rewrite Z2Nat.inj_add by lia. rewrite (ring_span_app INPUT_BUF) by (done || apply INPUT_BUF_div). f_equal.
    apply ring_span_cong.
    intros i. rewrite Z2Nat.id by lia. symmetry. apply ring_slot_dist; [done|apply INPUT_BUF_div].
Qed.

(** Output leaves the input alone. *)
Lemma emitted_input cs s s' : emitted cs s s' -> input_ok s -> input_ok s' /\ text_of s' = text_of s.
Proof.
  intros Hem Hok. assert (text_of s' = text_of s) as Ht.
  { unfold text_of, ready, line. by rewrite (em_buf _ _ _ Hem), (em_r _ _ _ Hem), (em_w _ _ _ Hem), (em_e _ _ _ Hem). }
  split; [|done]. injection Ht as _ Hl. destruct Hok, Hem. split; congruence.
Qed.

(** * The code is the editor *)

Section with_layout.
Context `{Layout}.

(** The result of a step: the console has changed, and the readers have been woken if
    there is more for them. *)
Definition edited {A} (r : outcome kernel A) (a : A) (o : list (kernel -> kernel)) (k : kernel) (t : text) : Prop :=
  exists s' pt', r = Ok a o (k <| cons := s' |> <| ptable := pt' |>)
    /\ screen_ok s' /\ input_ok s' /\ text_of s' = t
    /\ ((t.1 = ready (cons k) /\ pt' = ptable k) \/
        ((length (ready (cons k)) < length t.1)%nat /\ pt' = Sched.wakeup1_proc CInput <$> ptable k)).

Lemma erase_char_eq o k : screen_ok (cons k) -> input_ok (cons k) -> in_e (cons k) <> in_w (cons k) ->
  exists s', (upd_cons (fun c => c <| in_e ::= fun e => u32 (e - 1) |>) ≫= fun _ => consputc BACKSPACE) o k
      = Ok tt o (k <| cons := s' |>)
    /\ screen_ok s' /\ input_ok s' /\ ready s' = ready (cons k) /\
    line (cons k) = line s' ++ [in_char (cons k) (u32 (in_e (cons k) - 1))] /\
    ring_dist (in_w s') (in_e s') = ring_dist (in_w (cons k)) (in_e (cons k)) - 1.
Proof.
  intros Hs Hi Hne. destruct (erase_spec _ Hi Hne) as (Hi' & Hr & Hl & Hd).
  unfold upd_cons. mbind_step.
  destruct (consputc_prints BACKSPACE o (k <| cons ::= erase |>)) as (s' & He & Hem).
  { rsimpl. unfold erase. by destruct Hs; split; rsimpl. }
  destruct (emitted_input _ _ _ Hem) as [Hi2 Ht]; [rsimpl; done|]. rsimpl. injection Ht as Hr2 Hl2.
  exists s'. split; [etransitivity; [exact He|]; f_equal; kernel_eq|].
  split; [apply Hem|]. split; [done|]. split; [congruence|]. split; [congruence|].
  rewrite <- Hd. f_equal; apply Hem.
Qed.

Lemma kill_line_eq n o k : screen_ok (cons k) -> input_ok (cons k) ->
  ring_dist (in_w (cons k)) (in_e (cons k)) = Z.of_nat n ->
  exists s', kill_line n o k = Ok tt o (k <| cons := s' |>)
    /\ screen_ok s' /\ input_ok s' /\ text_of s' = (ready (cons k), []).
Proof.
  revert k. induction n as [|n IH]; intros k Hs Hi Hd; cbn [kill_line]; unfold get_cons at 1; mbind_step; unfold id.
  - change (Z.of_nat 0) with 0 in Hd. rewrite ring_dist_zero in Hd by apply Hi. rewrite Hd, Z.eqb_refl. cbn [negb andb].
    exists (cons k). rewrite kernel_cons_id. split_and!; try done.
    unfold text_of. f_equal. apply line_nil; [done|congruence].
  - destruct (Z.eqb_spec (in_e (cons k)) (in_w (cons k))) as [E|Hne].
    { rewrite E, ring_dist_refl in Hd. lia. }
    destruct (erase_char_eq o k Hs Hi Hne) as (s1 & He & Hs1 & Hi1 & Hr1 & Hl1 & Hd1).
    destruct (Z.eqb_spec (in_char (cons k) (u32 (in_e (cons k) - 1))) 10) as [E10|_].
    { destruct (io_line _ Hi). rewrite Hl1, E10. apply elem_of_app. right. by constructor. }
    cbn [negb andb].
    destruct (IH (k <| cons := s1 |>)) as (s2 & He2 & Hs2 & Hi2 & Ht2); rsimpl; [done|done|lia|].
    exists s2. split_and!; [|done|done|by rewrite Ht2, Hr1].
    rewrite <- bind_assoc. erewrite bind_ok by exact He. by rewrite He2.
Qed.

Lemma take_snoc {A} (l : list A) x : take (length (l ++ [x]) - 1) (l ++ [x]) = l.
Proof. rewrite length_app, Nat.add_sub, take_app_length. done. Qed.

Lemma k_cons_ptable k s : k <| cons := s |> <| ptable := ptable k |> = k <| cons := s |>.
Proof. kernel_eq. Qed.

Lemma edited_console {A} (a : A) o k s' t :
  screen_ok s' -> input_ok s' -> text_of s' = t -> t.1 = ready (cons k) -> edited (Ok a o (k <| cons := s' |>)) a o k t.
Proof. intros. exists s', (ptable k). rewrite k_cons_ptable. split_and!; auto. Qed.

Lemma edited_same {A} (a : A) o k : screen_ok (cons k) -> input_ok (cons k) -> edited (Ok a o k) a o k (text_of (cons k)).
Proof. intros. rewrite <- (kernel_cons_id k) at 1. by apply edited_console. Qed.

Lemma edited_bind (m : K unit) o k t : edited (m o k) tt o k t -> edited ((m;; mret false) o k) false o k t.
Proof. intros (s' & pt' & He & Hr). exists s', pt'. by erewrite bind_ok by exact He. Qed.

(** A character that is stored and echoed. *)
Lemma store_char_edits c o k :
  0 <= c < 256 -> screen_ok (cons k) -> input_ok (cons k) -> unlocked LPtable k ->
  ring_dist (in_r (cons k)) (in_e (cons k)) < INPUT_BUF ->
  edited ((upd_cons (fun s => s <| in_buf ::= <[in_slot (in_e s) := u8 c]> |> <| in_e ::= fun e => u32 (e + 1) |>);;
           consputc c;;
           s ← get_cons id;
           when ((c =? 10) || (c =? 4) || (in_e s =? u32 (in_r s + INPUT_BUF))) (
             upd_cons (fun s => s <| in_w := in_e s |>);;
             Sched.wakeup CInput)) o k) tt o k
    (if (c =? 10) || (c =? 4) || (Z.of_nat (length (ready (cons k)) + length (line (cons k) ++ [c])) =? INPUT_BUF)
     then (ready (cons k) ++ line (cons k) ++ [c], []) else (ready (cons k), line (cons k) ++ [c])).
Proof.
  intros Hc Hs Hi Hp Hn. set (s0 := cons k) in *.
  pose proof (dist_re s0 Hi) as Hd. pose proof (ring_dist_range (in_r s0) (in_w s0)).
  pose proof (ring_dist_range (in_w s0) (in_e s0)). assert (INPUT_BUF = 128) as HN by done.
  destruct (add_spec c s0 Hi Hc Hn) as (Hl1 & Hw1 & Hr1).
  unfold upd_cons at 1. mbind_step. fold (add_char c).
  destruct (putc_prints c ltac:(lia) o (k <| cons ::= add_char c |>)) as (s2 & He & Hem).
  { rsimpl. unfold add_char. by destruct Hs; split; rsimpl. }
  erewrite bind_ok by exact He. unfold get_cons. mbind_step. rsimpl. unfold id. fold s0 in Hem.
  assert (in_e s2 = in_e (add_char c s0) /\ in_r s2 = in_r s0 /\ in_w s2 = in_w s0 /\ in_buf s2 = in_buf (add_char c s0))
    as (E1 & E2 & E3 & E4) by (split_and!; apply Hem).
  assert (ready s2 = ready s0) as Er.
  { rewrite <- (ready_add c s0) by done. unfold ready. by rewrite E2, E3, E4. }
  assert (line s2 = line s0 ++ [c]) as El by (rewrite <- Hl1; unfold line; by rewrite E1, E3, E4).
  assert ((in_e s2 =? u32 (in_r s2 + INPUT_BUF)) = (Z.of_nat (length (ready s0) + length (line s0 ++ [c])) =? INPUT_BUF)) as ->.
  { rewrite length_app, length_ready, length_line. cbn [length]. apply eq_true_iff_eq. rewrite !Z.eqb_eq, E2.
    rewrite <- E1 in *. pose proof (u32_range (in_e s0 + 1)) as Hu. assert (is_u32 (in_e s2)) as He2 by (rewrite E1; exact Hu).
    pose proof (io_r _ Hi). unfold ring_dist, u32, is_u32 in *. rewrite HN in *. Z.to_euclidean_division_equations. lia. }
  assert (is_u32 (in_e s2)) as Hu2 by (rewrite E1; apply u32_range).
  assert (length (in_buf s2) = Z.to_nat INPUT_BUF) as Hb2.
  { rewrite E4. unfold add_char. rsimpl. rewrite length_insert. apply Hi. }
  destruct ((c =? 10) || (c =? 4) || _) eqn:Et; cbn [when].
  - destruct (commit_line_spec s2) as [Hc1 Hc2]; rewrite ?E1, ?E2, ?E3; try apply Hi; try done; [by rewrite <- E1|lia|lia|].
    unfold upd_cons. mbind_step. rsimpl. exists (commit_line s2), (Sched.wakeup1_proc CInput <$> ptable k).
    split_and!; [|by destruct Hem as [[]]; split|done|by rewrite Hc2, Er, El|right; split; [|done]].
    2: { fold s0. cbn [fst]. rewrite !length_app. simpl. lia. }
    rewrite Sched.wakeup_eq by solve_lock. f_equal; kernel_eq.
  - replace (k <| cons ::= add_char c |> <| cons := s2 |>) with (k <| cons := s2 |>) by kernel_eq.
    apply edited_console; [apply Hem| |by unfold text_of; rewrite Er, El|done].
    split; rewrite ?E1, ?E2, ?E3; try apply Hi; [done|by rewrite <- E1|lia|].
    rewrite El. intros [Hin|Hin%list_elem_of_singleton]%elem_of_app; [by apply (io_line _ Hi)|].
    subst c. done.
Qed.

Lemma input_char_edits c o k :
  0 <= c < 256 -> screen_ok (cons k) -> input_ok (cons k) -> unlocked LPtable k ->
  edited (input_char c o k) (c =? Kbd.ctl 80) o k (edit c (text_of (cons k))).
Proof.
  intros Hc Hs Hi Hp. unfold input_char. change (edit c (text_of (cons k))) with (edit c (ready (cons k), line (cons k))).
  unfold edit. change (Kbd.ctl 80) with 16. change (Kbd.ctl 85) with 21. change (Kbd.ctl 72) with 8. change (Kbd.ctl 68) with 4.
  destruct (Z.eqb_spec c 16) as [->|_]; [by apply edited_same|].
  unfold get_cons at 1. mbind_step. unfold id. apply edited_bind.
  pose proof (ring_dist_range (in_w (cons k)) (in_e (cons k))). pose proof (ring_dist_range (in_r (cons k)) (in_w (cons k))).
  destruct (Z.eqb_spec c 21) as [->|_].
  { destruct (kill_line_eq (Z.to_nat (u32 (in_e (cons k) - in_w (cons k)))) o k Hs Hi) as (s' & -> & G1 & G2 & G3).
    { unfold ring_dist in *. lia. }
    by apply edited_console. }
  destruct ((c =? 8) || (c =? 127)) eqn:E8.
  { destruct (Z.eqb_spec (in_e (cons k)) (in_w (cons k))) as [E|Hne]; cbn [negb when].
    - rewrite (proj1 (line_nil _ Hi) E). simpl. rewrite <- (proj1 (line_nil _ Hi) E). by apply edited_same.
    - destruct (erase_char_eq o k Hs Hi Hne) as (s' & -> & G1 & G2 & G3 & G4 & _).
      apply edited_console; [done|done| |done]. rewrite G4, take_snoc. unfold text_of. by rewrite G3. }
  rewrite length_ready, length_line.
  assert ((INPUT_BUF <=? Z.of_nat (Z.to_nat (ring_dist (in_r (cons k)) (in_w (cons k))) + Z.to_nat (ring_dist (in_w (cons k)) (in_e (cons k)))))
          = negb (u32 (in_e (cons k) - in_r (cons k)) <? INPUT_BUF)) as ->.
  { pose proof (dist_re _ Hi) as Hd. unfold ring_dist at 1 in Hd. rewrite Hd.
    destruct (Z.ltb_spec (ring_dist (in_r (cons k)) (in_w (cons k)) + ring_dist (in_w (cons k)) (in_e (cons k))) INPUT_BUF); cbn [negb];
      [apply Z.leb_gt|apply Z.leb_le]; lia. }
  destruct (c =? 0); cbn [negb andb orb when]; [by apply edited_same|].
  destruct (Z.ltb_spec (u32 (in_e (cons k) - in_r (cons k))) INPUT_BUF) as [Hlt|]; cbn [negb when]; [|by apply edited_same].
  rewrite <- length_ready. apply store_char_edits; try done. destruct (c =? 13); lia.
Qed.

(** Characters other than the one that asks for the process listing. *)
Definition typed (c : Z) : Prop := 0 <= c < 256 /\ c <> Kbd.ctl 80.

Lemma input_loop_edits cs o k :
  Forall typed cs -> screen_ok (cons k) -> input_ok (cons k) -> unlocked LPtable k ->
  edited (input_loop cs false o k) false o k (foldl (fun t c => edit c t) (text_of (cons k)) cs).
Proof.
  intros Hcs. revert k. induction Hcs as [|c cs [Hc Hne] Hcs IH]; intros k Hs Hi Hp; [by apply edited_same|].
  destruct (input_char_edits c o k Hc Hs Hi Hp) as (s1 & pt1 & He & Hs1 & Hi1 & Ht1 & Hpt1).
  cbn [input_loop foldl]. erewrite bind_ok by exact He.
  destruct (Z.eqb_spec c (Kbd.ctl 80)) as [|_]; [done|]. cbn [orb].
  destruct (IH (k <| cons := s1 |> <| ptable := pt1 |>)) as (s2 & pt2 & He2 & Hs2 & Hi2 & Ht2 & Hpt2);
    [by rsimpl|by rsimpl|solve_lock|]. rsimpl.
  exists s2, pt2. rewrite He2, <- Ht1. split_and!; [f_equal; kernel_eq|done|done|done|].
  rewrite <- Ht1 in Hpt1. change (text_of s1).1 with (ready s1) in Hpt1.
  destruct Hpt1 as [[Hr1 ->]|[Hl1 ->]], Hpt2 as [[Hr2 ->]|[Hl2 ->]].
  - left. split; [congruence|done].
  - right. split; [by rewrite <- Hr1|done].
  - right. split; [by rewrite Hr2|done].
  - right. split; [lia|]. apply Sched.wakeup_ptable_idemp.
Qed.

End with_layout.

(** C39. Console interrupts implement a line editor: whatever is typed (kill, backspace,
    newline, end of file, characters beyond the capacity), the ring buffer holds the
    characters the editor has ready and the line it is editing, never more than
    [INPUT_BUF] together, and the readers are woken exactly when there is more for them. *)
Theorem consoleintr_edits `{Layout} pcs cs o k :
  Forall typed cs -> screen_ok (cons k) -> input_ok (cons k) -> unlocked LCons k -> unlocked LPtable k ->
  exists k', consoleintr pcs cs o k = Ok tt o k'
    /\ input_ok (cons k') /\ screen_ok (cons k')
    /\ text_of (cons k') = foldl (fun t c => edit c t) (text_of (cons k)) cs
    /\ locks k' = locks k
    /\ ptable k' = (if decide (ready (cons k') = ready (cons k)) then ptable k else Sched.wakeup1_proc CInput <$> ptable k).
Proof.
  intros Hcs Hs Hi Hl Hp. unfold consoleintr. mbind_step.
  destruct (input_loop_edits cs o (k <| locks ::= <[LCons := Me]> |>) Hcs) as (s' & pt' & He & Hs' & Hi' & Ht' & Hpt');
    [by rsimpl|by rsimpl|solve_lock|].
  erewrite bind_ok by exact He. erewrite bind_ok by (apply release_locked; solve_lock). cbn [when].
  eexists. split; [reflexivity|]. rsimpl. split_and!; try done; [by apply unlock_lock|].
  rewrite <- Ht' in Hpt'. change (text_of s').1 with (ready s') in Hpt'.
  destruct Hpt' as [[Hr ->]|[Hl' ->]]; [by rewrite decide_True|]. rewrite decide_False; [done|]. intros E. rewrite E in Hl'. lia.
Qed.

Lemma ready_input_ok : input_ok ready_console.
Proof.
  split; try (split; vm_compute; congruence); [vm_compute; congruence|].
  vm_compute. apply not_elem_of_nil.
Qed.

#[local] Existing Instance Kalloc.small_layout.

(** Typing [ab], a backspace, [c] and a return. *)
Lemma consoleintr_edits_witness :
  exists k', consoleintr (fun _ => []) [97; 98; 8; 99; 13] [] console_kernel = Ok tt [] k'
    /\ text_of (cons k') = ([97; 99; 10], []).
Proof.
  destruct (consoleintr_edits (fun _ => []) [97; 98; 8; 99; 13] [] console_kernel) as (k' & He & _ & _ & Ht & _).
  - repeat constructor; vm_compute; congruence.
  - apply ready_console_ok.
  - apply ready_input_ok.
  - reflexivity.
  - reflexivity.
  - exists k'. split; [exact He|exact Ht].
Defined.

End Editor.
