(* ===== verification/Cache.v ===== *)
(** What the buffer cache (bio.c over memide.c) promises: a table of block contents
    of which some are pinned in memory until they are written, with the buffers in
    a doubly linked ring from the most to the least recently used. *)

From S2P Require Import Prelude Monad State Spinlock Sched Sleeplock Bytes Bio.

(** * Doubly linked rings

    A ring is described by its two successor functions. *)
Section segments.
Implicit Types (nx pv : nat -> nat) (l : list nat).

(** From [x], through [l], to [y]. *)
Fixpoint seg nx pv (x : nat) l (y : nat) : Prop :=
  match l with
  | [] => nx x = y /\ pv y = x
  | z :: l' => nx x = z /\ pv z = x /\ seg nx pv z l' y
  end.

Lemma seg_app nx pv x l1 z l2 y :
  seg nx pv x (l1 ++ z :: l2) y <-> seg nx pv x l1 z /\ seg nx pv z l2 y.
Proof. revert x. induction l1 as [|a l1 IH]; intros x; simpl; [tauto|]. rewrite IH. tauto. Qed.

Lemma seg_ext nx pv nx' pv' x l y :
  (forall j, j ∈ x :: l -> nx' j = nx j) -> (forall j, j ∈ l ++ [y] -> pv' j = pv j) ->
  seg nx pv x l y -> seg nx' pv' x l y.
Proof.
  revert x. induction l as [|a l IH]; intros x Hn Hp; simpl.
  - intros [? ?]. rewrite Hn by set_solver. rewrite Hp by set_solver. done.
  - intros (? & ? & ?). rewrite Hn by set_solver. rewrite Hp by set_solver.
    split_and!; [done|done|]. apply IH; [|intros; apply Hp; set_solver|done]. intros; apply Hn; set_solver.
Qed.

(** The last node before the end. *)
Lemma seg_last nx pv x l y : seg nx pv x l y -> pv y ∈ x :: l /\ nx (pv y) = y.
Proof.
  revert x. induction l as [|a l IH]; intros x; simpl.
  - intros [? ->]. split; [set_solver|done].
  - intros (_ & _ & H%IH). destruct H. split; [set_solver|done].
Qed.

Lemma seg_first nx pv x l y : seg nx pv x l y -> nx x ∈ l ++ [y] /\ pv (nx x) = x.
Proof. destruct l as [|a l]; simpl; [intros [-> ?]; set_solver|]. intros (-> & ? & _). set_solver. Qed.

(** Redirecting the end of a segment. *)
Lemma seg_redirect nx pv x l i y :
  seg nx pv x l i -> NoDup (x :: l) -> y ∉ l ->
  seg (<[pv i := y]> nx) (<[y := pv i]> pv) x l y.
Proof.
  revert x. induction l as [|a l IH]; intros x; simpl.
  - intros [_ <-] _ _. by rewrite !fn_lookup_insert.
  - intros (Hx & Ha & Hs) [Hx' Hnd]%NoDup_cons [Hya Hy]%not_elem_of_cons.
    pose proof (seg_last _ _ _ _ _ Hs) as [Hl _].
    rewrite fn_lookup_insert_ne by (intros E; apply Hx'; by rewrite <- E). rewrite fn_lookup_insert_ne by done.
    split_and!; [done|done|]. by apply IH.
Qed.

Lemma seg_unlink nx pv h l1 i l2 :
  seg nx pv h (l1 ++ i :: l2) h -> NoDup (h :: l1 ++ i :: l2) ->
  seg (<[pv i := nx i]> nx) (<[nx i := pv i]> pv) h (l1 ++ l2) h.
Proof.
  intros [H1 H2]%seg_app Hnd. pose proof (seg_last _ _ _ _ _ H1) as [Hp _].
  assert (NoDup (h :: l1)) as Hnd1 by (apply (NoDup_app (h :: l1) (i :: l2)); done).
  apply NoDup_cons in Hnd as [Hh Hnd]. apply NoDup_app in Hnd as (_ & Hd & [Hi Hnd2]%NoDup_cons).
  destruct l2 as [|n l2]; simpl in H2.
  - destruct H2 as [-> _]. rewrite app_nil_r. apply (seg_redirect nx pv h l1 i); [done..|set_solver].
  - destruct H2 as (-> & Hn & H2). apply seg_app. apply NoDup_cons in Hnd2 as [Hn2 _]. split.
    + apply (seg_redirect nx pv h l1 i); [done..|set_solver].
    + revert H2. apply seg_ext; intros j Hj; apply fn_lookup_insert_ne; set_solver.
Qed.

Lemma seg_push nx pv h l i :
  seg nx pv h l h -> NoDup (h :: l) -> i ∉ h :: l ->
  seg (<[h := i]> (<[i := nx h]> nx)) (<[nx h := i]> (<[i := h]> pv)) h (i :: l) h.
Proof.
  intros Hs [Hh Hnd]%NoDup_cons [Hih Hil]%not_elem_of_cons.
  pose proof (seg_first _ _ _ _ _ Hs) as [Hf _].
  simpl. rewrite fn_lookup_insert. split; [done|].
  rewrite fn_lookup_insert_ne by set_solver. rewrite fn_lookup_insert. split; [done|].
  destruct l as [|n l]; simpl in Hs |- *.
  - destruct Hs as [-> _]. rewrite fn_lookup_insert_ne, fn_lookup_insert by done. by rewrite fn_lookup_insert.
  - destruct Hs as (-> & _ & Hs). rewrite fn_lookup_insert_ne, fn_lookup_insert by done. rewrite fn_lookup_insert.
    split_and!; [done|done|]. apply NoDup_cons in Hnd as [Hn _].
    revert Hs. apply seg_ext; intros j Hj; rewrite !fn_lookup_insert_ne; set_solver.
Qed.

End segments.

Module Cache.
Import Sleeplock Bio.

(** * The ring of buffers *)

Definition nexts (bs : list buf) (i : nat) : nat := from_option b_next head (bs !! i).
Definition prevs (bs : list buf) (i : nat) : nat := from_option b_prev head (bs !! i).

(** The buffers after [head], in the order of [next]. *)
Record linked (bs : list buf) (l : list nat) : Prop := {
  linked_seg : seg (nexts bs) (prevs bs) head l head;
  linked_perm : l ≡ₚ seq 0 NBUF;
  linked_len : length bs = S NBUF
}.

Lemma linked_nodup bs l : linked bs l -> NoDup (head :: l).
Proof.
  intros [_ Hp _]. apply NoDup_cons. rewrite Hp. split; [|apply NoDup_seq].
  rewrite elem_of_seq. unfold head. lia.
Qed.

Lemma linked_elem bs l i : linked bs l -> i ∈ l <-> (i < NBUF)%nat.
Proof. intros [_ Hp _]. rewrite Hp, elem_of_seq. lia. Qed.

Lemma linked_get bs l i : linked bs l -> (i <= NBUF)%nat -> is_Some (bs !! i).
Proof. intros Hl Hi. apply lookup_lt_is_Some. rewrite (linked_len _ _ Hl). lia. Qed.

(** Changes that keep the links. *)
Definition same_links (bs bs' : list buf) : Prop :=
  length bs' = length bs /\ forall i b b', bs !! i = Some b -> bs' !! i = Some b' -> b_next b' = b_next b /\ b_prev b' = b_prev b.

Lemma linked_same bs bs' l : same_links bs bs' -> linked bs l -> linked bs' l.
Proof.
  intros [Hlen He] Hl. destruct Hl as [Hs Hp Hn]. split; [|done|congruence].
  assert (forall j, nexts bs' j = nexts bs j /\ prevs bs' j = prevs bs j) as E.
  { intros j. unfold nexts, prevs. destruct (bs !! j) as [b|] eqn:E1, (bs' !! j) as [b'|] eqn:E2; simpl.
    - destruct (He j b b' E1 E2) as [-> ->]. done.
    - apply lookup_ge_None in E2. apply lookup_lt_Some in E1. lia.
    - apply lookup_ge_None in E1. apply lookup_lt_Some in E2. lia.
    - done. }
  revert Hs. apply seg_ext; intros; apply E.
Qed.

(** The order in which a scan visits the buffers. *)
Definition follows (step : buf -> nat) (bs : list buf) (l : list nat) : Prop :=
  forall l1 i l2, l = l1 ++ i :: l2 -> (i < NBUF)%nat /\ exists b, bs !! i = Some b /\ step b = hd head l2.

Lemma follows_next bs l : linked bs l -> follows b_next bs l.
Proof.
  intros Hl l1 i l2 ->. assert (i < NBUF)%nat as Hi by (rewrite <- linked_elem by done; set_solver).
  split; [done|]. destruct (linked_get _ _ i Hl) as [b Hb]; [lia|]. exists b. split; [done|].
  destruct Hl as [[_ Hs]%seg_app _ _]. destruct l2; simpl in *; unfold nexts in Hs; rewrite Hb in Hs; tauto.
Qed.

Lemma follows_prev bs l : linked bs l -> follows b_prev bs (reverse l).
Proof.
  intros Hl l1 i l2 E. assert (l = reverse l2 ++ i :: reverse l1) as ->.
  { apply (f_equal reverse) in E. rewrite reverse_involutive in E. rewrite E, reverse_app, reverse_cons, <- app_assoc. done. }
  assert (i < NBUF)%nat as Hi by (rewrite <- linked_elem by done; set_solver).
  split; [done|]. destruct (linked_get _ _ i Hl) as [b Hb]; [lia|]. exists b. split; [done|].
  destruct Hl as [[Hs _]%seg_app _ _].
  destruct l2 as [|z l2]; [simpl in *; unfold prevs in Hs; rewrite Hb in Hs; tauto|].
  rewrite reverse_cons in Hs. apply seg_app in Hs as [_ [_ Hs]]. unfold prevs in Hs. by rewrite Hb in Hs.
Qed.

Lemma follows_first bs l : linked bs l ->
  exists h, bs !! head = Some h /\ b_next h = hd head l /\ b_prev h = hd head (reverse l).
Proof.
  intros Hl. destruct (linked_get _ _ head Hl) as [h Hh]; [unfold head; lia|]. exists h. split; [done|].
  destruct Hl as [Hs _ _]. split.
  - destruct l; simpl in *; unfold nexts in Hs; rewrite Hh in Hs; tauto.
  - pose proof (seg_last _ _ _ _ _ Hs) as [_ Hn]. destruct l as [|z l _] using rev_ind.
    + simpl in *. unfold prevs in Hs. rewrite Hh in Hs. tauto.
    + rewrite reverse_snoc. simpl. apply seg_app in Hs as [_ [_ Hs]]. unfold prevs in Hs. by rewrite Hh in Hs.
Qed.

(** The first buffer of the list that passes the test. *)
Fixpoint first_in (test : buf -> bool) (bs : list buf) (l : list nat) : option nat :=
  match l with
  | [] => None
  | i :: l' => if from_option test false (bs !! i) then Some i else first_in test bs l'
  end.

Lemma scan_eq step test l fuel o k : follows step (bcache (fs k)) l -> (length l <= fuel)%nat ->
  scan fuel step test (hd head l) o k = Ok (first_in test (bcache (fs k)) l) o k.
Proof.
  revert fuel. induction l as [|i l IH]; intros fuel Hf Hn.
  { destruct fuel; done. }
  destruct fuel as [|fuel]; [simpl in Hn; lia|].
  destruct (Hf [] i l eq_refl) as (Hi & b & Hb & Hs). cbn [hd scan first_in].
  destruct (Nat.eqb_spec i head); [unfold head in *; lia|].
  unfold get_buf. erewrite bind_ok by (by apply deref_some). rewrite Hb. simpl.
  destruct (test b); [done|]. rewrite Hs. apply IH; [|simpl in Hn; lia].
  intros l1 j l2 ->. by apply (Hf (i :: l1)).
Qed.

Lemma first_in_some test bs l i : first_in test bs l = Some i -> i ∈ l /\ exists b, bs !! i = Some b /\ test b = true.
Proof.
  induction l as [|j l IH]; simpl; [done|]. destruct (bs !! j) as [b|] eqn:Hb; simpl.
  - destruct (test b) eqn:E; [intros [= <-]; split; [set_solver|eauto]|]. intros [? ?]%IH. split; [set_solver|done].
  - intros [? ?]%IH. split; [set_solver|done].
Qed.

Lemma first_in_none test bs l : first_in test bs l = None -> forall i b, i ∈ l -> bs !! i = Some b -> test b = false.
Proof.
  induction l as [|j l IH]; simpl; [set_solver|]. destruct (from_option test false (bs !! j)) eqn:E; [done|].
  intros Hf i b [->|Hi]%elem_of_cons Hb; [|by eapply IH]. by rewrite Hb in E.
Qed.

(** * The abstract cache

    Blocks pinned in memory with their contents, and buffers locked by the running
    process with their block, whether it is pinned, and the data in them.  Every
    other block has its contents on disk. *)

Notation block := (list Z).
Notation pins := (gmap Z block).
Notation holds := (gmap nat (Z * bool * block)).

Definition flags_of (dirty : bool) : Z := if dirty then 6 else 2.
Definition on_disk (n : Z) (f : fsys) : Prop := 0 <= n < Z.of_nat (length (disk f)).

Inductive idle (D : pins) (f : fsys) (b : buf) : Prop :=
| idle_empty : b_dev b = 0 -> b_flags b = 0 -> idle D f b
| idle_clean : b_dev b = 1 -> on_disk (b_blockno b) f -> b_flags b = flags_of false ->
    disk f !! Z.to_nat (b_blockno b) = Some (b_data b) -> idle D f b
| idle_pinned : b_dev b = 1 -> on_disk (b_blockno b) f -> b_flags b = flags_of true ->
    D !! b_blockno b = Some (b_data b) -> idle D f b.

Definition buf_rep (pid : Z) (D : pins) (h : option (Z * bool * block)) (f : fsys) (b : buf) : Prop :=
  match h with
  | Some (n, dirty, d) =>
      b_dev b = 1 /\ b_blockno b = n /\ on_disk n f /\ b_flags b = flags_of dirty
      /\ b_refcnt b = 1 /\ b_lock b = mkSleeplock 1 pid /\ b_data b = d
  | None => b_refcnt b = 0 /\ sl_locked (b_lock b) = 0 /\ idle D f b
  end.

Record rep (pid : Z) (D : pins) (L : holds) (f : fsys) : Prop := {
  rep_linked : exists l, linked (bcache f) l;
  rep_buf : forall i b, (i < NBUF)%nat -> bcache f !! i = Some b -> buf_rep pid D (L !! i) f b /\ length (b_data b) = Z.to_nat BSIZE;
  rep_locked : forall i x, L !! i = Some x -> (i < NBUF)%nat;
  rep_pins : forall n d, D !! n = Some d ->
    exists i b, (i < NBUF)%nat /\ L !! i = None /\ bcache f !! i = Some b
      /\ b_dev b = 1 /\ b_blockno b = n /\ b_flags b = flags_of true;
  rep_unique : forall i j bi bj, (i < NBUF)%nat -> (j < NBUF)%nat -> bcache f !! i = Some bi -> bcache f !! j = Some bj ->
    b_dev bi = 1 -> b_dev bj = 1 -> b_blockno bi = b_blockno bj -> i = j;
  rep_disk : Forall (fun d => length d = Z.to_nat BSIZE) (disk f)
}.

(** A change of one buffer, and of its block on disk. *)
Definition blk (b : buf) (n : Z) : Prop := b_dev b = 1 /\ b_blockno b = n.

Lemma rep_insert pid D L f i b b' D' x f' :
  rep pid D L f -> (i < NBUF)%nat -> bcache f !! i = Some b ->
  bcache f' = <[i := b']> (bcache f) -> b_next b' = b_next b -> b_prev b' = b_prev b ->
  length (b_data b') = Z.to_nat BSIZE -> buf_rep pid D' x f' b' ->
  length (disk f') = length (disk f) -> Forall (fun d => length d = Z.to_nat BSIZE) (disk f') ->
  (forall n, 0 <= n -> ~ blk b' n -> disk f' !! Z.to_nat n = disk f !! Z.to_nat n) ->
  (forall n, ~ blk b n -> ~ blk b' n -> D' !! n = D !! n) ->
  (forall n, blk b n -> ~ blk b' n -> D' !! n = None) ->
  (forall n, blk b' n -> is_Some (D' !! n) -> x = None /\ b_flags b' = flags_of true) ->
  (forall n j bj, blk b' n -> j <> i -> (j < NBUF)%nat -> bcache f !! j = Some bj -> ~ blk bj n) ->
  rep pid D' (partial_alter (fun _ => x) i L) f'.
Proof.
  intros [(l & Hl) Hb HL HD Hu Hd] Hi Hbi Hf' Hn Hp Hlen Hx Hdl Hdf Hde HD1 HD2 HD3 Hu'.
  assert (length (bcache f) = S NBUF) as Hblen by apply (linked_len _ _ Hl).
  assert (bcache f' !! i = Some b') as Hbi' by (rewrite Hf'; apply list_lookup_insert_eq; lia).
  assert (forall j, j <> i -> bcache f' !! j = bcache f !! j) as Hbj by (intros; rewrite Hf'; by apply list_lookup_insert_ne).
  assert (forall n j bj, blk b n -> j <> i -> (j < NBUF)%nat -> bcache f !! j = Some bj -> ~ blk bj n) as Hu0.
  { intros n j bj [? ?] Hj ? ? [? ?]. apply Hj. eapply Hu; eauto. congruence. }
  split.
  - exists l. eapply linked_same, Hl. split; [rewrite Hf'; apply length_insert|]. intros j c c' Hc Hc'.
    destruct (decide (j = i)) as [->|Hj]; [by simplify_eq|]. rewrite Hbj in Hc' by done. by simplify_eq.
  - intros j c Hj Hc. destruct (decide (j = i)) as [->|Hji].
    { rewrite lookup_partial_alter_eq. by simplify_eq. }
    rewrite lookup_partial_alter_ne by done. rewrite Hbj in Hc by done. destruct (Hb j c Hj Hc) as [Hr ?].
    split; [|done]. unfold buf_rep in *. unfold on_disk in *. rewrite Hdl.
    destruct (L !! j) as [[[n dt] d]|]; [done|]. destruct Hr as (? & ? & Hr). split_and!; [done..|].
    destruct Hr as [|Hv Ho|Hv Ho]; [by apply idle_empty| |].
    + apply idle_clean; unfold on_disk; rewrite ?Hdl; try done. rewrite Hde; [done|apply Ho|].
      intros Hbl. by apply (Hu' (b_blockno c) j c).
    + apply idle_pinned; unfold on_disk; rewrite ?Hdl; try done. rewrite HD1; [done| |].
      * intros Hbl. by apply (Hu0 (b_blockno c) j c).
      * intros Hbl. by apply (Hu' (b_blockno c) j c).
  - intros j y. destruct (decide (j = i)) as [->|Hji]; [done|]. rewrite lookup_partial_alter_ne by done. apply HL.
  - intros n d Hn'. destruct (decide (b_dev b' = 1 /\ b_blockno b' = n)) as [Hbl|Hbl].
    { destruct (HD3 n Hbl) as [-> ?]; [eauto|]. exists i, b'. rewrite lookup_partial_alter_eq. destruct Hbl. done. }
    destruct (decide (b_dev b = 1 /\ b_blockno b = n)) as [Hbn|Hbn]; [rewrite HD2 in Hn' by done; done|].
    rewrite HD1 in Hn' by done. destruct (HD n d Hn') as (j & c & Hj & Hlj & Hc & Hdv & Hbk & ?).
    assert (j <> i) by (intros ->; simplify_eq; by apply Hbn).
    exists j, c. rewrite lookup_partial_alter_ne by done. by rewrite Hbj.
  - intros j1 j2 c1 c2 Hj1 Hj2 Hc1 Hc2 Hv1 Hv2 Heq.
    destruct (decide (j1 = i)) as [->|E1], (decide (j2 = i)) as [->|E2]; [done| | |].
    + rewrite Hbj in Hc2 by done. simplify_eq. by destruct (Hu' (b_blockno b') j2 c2).
    + rewrite Hbj in Hc1 by done. simplify_eq. by destruct (Hu' (b_blockno b') j1 c1).
    + rewrite Hbj in Hc1, Hc2 by done. by eapply Hu.
  - done.
Qed.

(** * Updates of one buffer *)

Definition set_buf (i : nat) (b : buf) (f : fsys) : fsys := f <| bcache ::= <[i := b]> |>.

Lemma set_buf_alter i b g f : bcache f !! i = Some b -> f <| bcache ::= alter g i |> = set_buf i (g b) f.
Proof.
  intros Hb. unfold set_buf. destruct f as [? ? bs ? ? ? ? ? ?]. unfold setf. simpl in *. f_equal.
  apply list_eq. intros j. destruct (decide (i = j)) as [<-|].
  - rewrite list_lookup_alter_eq, Hb, list_lookup_insert_eq by (by eapply lookup_lt_Some). done.
  - by rewrite list_lookup_alter_ne, list_lookup_insert_ne.
Qed.

Lemma set_buf_set i b b' f : set_buf i b (set_buf i b' f) = set_buf i b f.
Proof. unfold set_buf. destruct f as [? ? bs ? ? ? ? ? ?]. unfold setf. simpl. f_equal. apply list_insert_insert_eq. Qed.

Lemma set_buf_get i b f : is_Some (bcache f !! i) -> bcache (set_buf i b f) !! i = Some b.
Proof. intros [? Hb]. unfold set_buf. rsimpl. apply list_lookup_insert_eq. by eapply lookup_lt_Some. Qed.

Lemma set_buf_get_ne i j b f : i <> j -> bcache (set_buf i b f) !! j = bcache f !! j.
Proof. intros. unfold set_buf. rsimpl. by apply list_lookup_insert_ne. Qed.

Lemma set_buf_alter_set i b b' g f : bcache f !! i = Some b' ->
  (set_buf i b f) <| bcache ::= alter g i |> = set_buf i (g b) f.
Proof. intros Hb. erewrite set_buf_alter by (by apply set_buf_get). apply set_buf_set. Qed.

Lemma linked_set_buf i b b' f l : bcache f !! i = Some b -> b_next b' = b_next b -> b_prev b' = b_prev b ->
  linked (bcache f) l -> linked (bcache (set_buf i b' f)) l.
Proof.
  intros Hb Hn Hp. apply linked_same. split; [apply length_insert|]. intros j c c' Hc Hc'.
  destruct (decide (i = j)) as [<-|].
  - rewrite set_buf_get in Hc' by eauto. by simplify_eq.
  - rewrite set_buf_get_ne in Hc' by done. by simplify_eq.
Qed.

(** Evaluation of a sequence of updates of one buffer. *)
Ltac buf_eq Hb :=
  repeat first
    [ rewrite (set_buf_alter _ _ _ _ Hb)
    | rewrite set_buf_set
    | rewrite (set_buf_alter_set _ _ _ _ _ Hb) ].

Section with_layout.
Context `{Layout}.

Lemma get_buf_eq i b o k : bcache (fs k) !! i = Some b -> get_buf i o k = Ok b o k.
Proof. intros Hb. by apply deref_some. Qed.

Lemma runs_ptable k k' pid : cpu_proc k' = cpu_proc k -> ptable k' = ptable k -> runs k pid -> runs k' pid.
Proof. intros E1 E2 (p & pr & ?). exists p, pr. by rewrite E1, E2. Qed.

(** A hit: the first buffer of the scan from the front that has the block. *)
Lemma bget_hit n l i b pid o k :
  linked (bcache (fs k)) l -> first_in (is_block 1 n) (bcache (fs k)) l = Some i ->
  bcache (fs k) !! i = Some b -> sl_locked (b_lock b) = 0 -> b_refcnt b = 0 ->
  unlocked LBcache k -> unlocked (LSleep (SBuf i)) k -> runs k pid ->
  bget 1 n o k = Ok i o (k <| fs ::= set_buf i (b <| b_refcnt := 1 |> <| b_lock := mkSleeplock 1 pid |>) |>).
Proof.
  intros Hl Hf Hb Hs Hr Hu Hus Hrun. destruct (follows_first _ _ Hl) as (h & Hh & Hn & _).
  unfold bget. mbind_step. erewrite bind_ok by (by apply get_buf_eq).
  rewrite Hn. erewrite bind_ok.
  2:{ apply scan_eq; [by apply follows_next|]. rewrite (linked_perm _ _ Hl). by rewrite length_seq. }
  rsimpl. rewrite Hf. mbind_step. mbind_step.
  erewrite bind_ok.
  2:{ apply (acquiresleep_free _ (b_lock b) pid).
      - simpl. rsimpl. rewrite list_lookup_alter_eq, Hb. done.
      - done.
      - solve_lock.
      - eapply runs_ptable; [..|exact Hrun]; by rsimpl. }
  unfold mret, M_ret. f_equal. kernel_eq. simpl fs_set_sl. buf_eq Hb.
  f_equal. clear Hb. destruct b; simpl in *; by subst.
Qed.

(** A miss: the last buffer in use that is neither locked nor pinned is recycled. *)
Lemma bget_miss n l i b pid o k :
  linked (bcache (fs k)) l -> first_in (is_block 1 n) (bcache (fs k)) l = None ->
  first_in is_free (bcache (fs k)) (reverse l) = Some i ->
  bcache (fs k) !! i = Some b -> sl_locked (b_lock b) = 0 ->
  unlocked LBcache k -> unlocked (LSleep (SBuf i)) k -> runs k pid ->
  bget 1 n o k = Ok i o (k <| fs ::= set_buf i (b <| b_dev := 1 |> <| b_blockno := n |> <| b_flags := 0 |>
      <| b_refcnt := 1 |> <| b_lock := mkSleeplock 1 pid |>) |>).
Proof.
  intros Hl Hf Hf' Hb Hs Hu Hus Hrun. destruct (follows_first _ _ Hl) as (h & Hh & Hn & Hp).
  unfold bget. mbind_step. erewrite bind_ok by (by apply get_buf_eq).
  rewrite Hn. erewrite bind_ok.
  2:{ apply scan_eq; [by apply follows_next|]. rewrite (linked_perm _ _ Hl). by rewrite length_seq. }
  rsimpl. rewrite Hf. erewrite bind_ok by (by apply get_buf_eq).
  rewrite Hp. erewrite bind_ok.
  2:{ apply scan_eq; [by apply follows_prev|]. rewrite length_reverse, (linked_perm _ _ Hl). by rewrite length_seq. }
  rsimpl. rewrite Hf'. do 5 mbind_step.
  erewrite bind_ok.
  2:{ apply (acquiresleep_free _ (b_lock b) pid).
      - simpl. rsimpl. rewrite !list_lookup_alter_eq, Hb. done.
      - done.
      - solve_lock.
      - eapply runs_ptable; [..|exact Hrun]; by rsimpl. }
  unfold mret, M_ret. f_equal. kernel_eq. simpl fs_set_sl. buf_eq Hb. done.
Qed.

(** * Room in the cache *)

Lemma rep_get pid D L f i : rep pid D L f -> (i < NBUF)%nat -> is_Some (bcache f !! i).
Proof. intros [(l & Hl) _ _ _ _ _] Hi. apply (linked_get _ _ _ Hl). lia. Qed.

(** A buffer that is neither locked nor pinned can be recycled. *)
Lemma idle_free pid D L f i b : rep pid D L f -> (i < NBUF)%nat -> bcache f !! i = Some b ->
  L !! i = None -> is_free b = false -> D !! b_blockno b = Some (b_data b) /\ b_dev b = 1.
Proof.
  intros Hr Hi Hb Hn Hf. destruct (rep_buf _ _ _ _ Hr i b Hi Hb) as [Hx _]. rewrite Hn in Hx.
  destruct Hx as (Hc & _ & Hx). unfold is_free in Hf. rewrite Hc in Hf.
  destruct Hx as [Hv He|Hv Ho He|Hv Ho He]; rewrite He in Hf; done.
Qed.

Lemma free_exists pid D L f : rep pid D L f -> (size D + size L < NBUF)%nat ->
  exists i b, (i < NBUF)%nat /\ bcache f !! i = Some b /\ is_free b = true.
Proof.
  intros Hr Hsz. set (bs := bcache f).
  set (P := filter (fun i => L !! i = None) (seq 0 NBUF)).
  destruct (first_in is_free bs (seq 0 NBUF)) as [i|] eqn:E.
  { apply first_in_some in E as (Hi%elem_of_seq & b & ?). exists i, b. split; [lia|done]. }
  exfalso. pose proof (first_in_none _ _ _ E) as Hf.
  assert (forall i, i ∈ P -> exists b, bs !! i = Some b /\ D !! b_blockno b = Some (b_data b) /\ b_dev b = 1 /\ (i < NBUF)%nat) as HP.
  { intros i [Hn Hi]%list_elem_of_filter. assert (i < NBUF)%nat as Hi' by (apply elem_of_seq in Hi; lia).
    destruct (rep_get _ _ _ _ i Hr Hi') as [b Hb]. exists b. split; [done|].
    destruct (idle_free _ _ _ _ _ _ Hr Hi' Hb Hn (Hf i b Hi Hb)). done. }
  assert (length P <= size D)%nat as H1.
  { set (g := fun i => from_option b_blockno 0 (bs !! i)). rewrite <- (length_fmap g), <- (size_dom (D := gset Z)).
    apply submseteq_length, NoDup_submseteq.
    - apply NoDup_fmap_2_strong; [|apply NoDup_filter, NoDup_seq]. intros i j Hi Hj Hg.
      destruct (HP i Hi) as (b & Hb & _ & Hv & Hi'), (HP j Hj) as (c & Hc & _ & Hv' & Hj').
      unfold g in Hg. rewrite Hb, Hc in Hg. eapply (rep_unique _ _ _ _ Hr i j b c); eauto.
    - intros n (i & -> & Hi)%list_elem_of_fmap. destruct (HP i Hi) as (b & Hb & Hd & _).
      unfold g. rewrite Hb. simpl. apply elem_of_elements, elem_of_dom. eauto. }
  assert (NBUF <= size L + length P)%nat as H2; [|lia].
  transitivity (length (seq 0 NBUF)); [by rewrite length_seq|]. rewrite <- (size_dom (D := gset nat) L).
  unfold size, set_size, compose. rewrite <- length_app. apply submseteq_length, NoDup_submseteq; [apply NoDup_seq|].
  intros i Hi. apply elem_of_app. destruct (L !! i) eqn:El.
  - left. apply elem_of_elements, elem_of_dom. eauto.
  - right. by apply list_elem_of_filter.
Qed.

(** * The disk *)

Lemma iderw_read i b pid d o k :
  bcache (fs k) !! i = Some b -> b_lock b = mkSleeplock 1 pid -> b_dev b = 1 -> b_flags b = 0 ->
  0 <= b_blockno b -> disk (fs k) !! Z.to_nat (b_blockno b) = Some d ->
  unlocked (LSleep (SBuf i)) k -> runs k pid ->
  Memide.iderw i o k = Ok tt o (k <| fs ::= set_buf i (b <| b_data := d |> <| b_flags := flags_of false |>) |>).
Proof.
  intros Hb Hl Hv Hf Hn Hd Hu Hr. unfold Memide.iderw.
  erewrite bind_ok by (apply (holdingsleep_mine _ pid); [|done..]; simpl; rewrite Hb; simpl; by rewrite Hl).
  cbn [negb]. erewrite bind_ok by (by apply get_buf_eq). rewrite Hf, Hv. change (Z.land 0 (Z.lor B_VALID B_DIRTY) =? B_VALID) with false.
  change (negb (1 =? 1)) with false. cbv iota. mbind_step. pose proof (lookup_lt_Some _ _ _ Hd) as Hlen.
  destruct (Z.leb_spec (Z.of_nat (length (disk (fs k)))) (b_blockno b)); [lia|].
  change (has_bits 0 B_DIRTY) with false. cbv iota. rewrite bind_assoc. erewrite bind_ok by (by apply deref_some). mbind_step.
  unfold upd_buf, upd_fs, modify. f_equal. kernel_eq. buf_eq Hb. f_equal. destruct b; simpl in *; by subst.
Qed.

Lemma disk_writes f tr : disk (f <| d_trace ::= fun t => t ++ tr |>) = foldl write_block (disk f) tr.
Proof. unfold disk. rsimpl. by rewrite foldl_app. Qed.

Lemma iderw_write i b pid o k :
  bcache (fs k) !! i = Some b -> b_lock b = mkSleeplock 1 pid -> b_dev b = 1 -> b_flags b = flags_of true ->
  on_disk (b_blockno b) (fs k) -> unlocked (LSleep (SBuf i)) k -> runs k pid ->
  Memide.iderw i o k = Ok tt o (k <| fs ::= fun f => set_buf i (b <| b_flags := flags_of false |>) f
      <| d_trace ::= fun t => t ++ [(Z.to_nat (b_blockno b), b_data b)] |> |>).
Proof.
  intros Hb Hl Hv Hf [Hn Hn'] Hu Hr. unfold Memide.iderw.
  erewrite bind_ok by (apply (holdingsleep_mine _ pid); [|done..]; simpl; rewrite Hb; simpl; by rewrite Hl).
  cbn [negb]. erewrite bind_ok by (by apply get_buf_eq). rewrite Hf, Hv. change (Z.land (flags_of true) (Z.lor B_VALID B_DIRTY) =? B_VALID) with false.
  change (negb (1 =? 1)) with false. cbv iota. mbind_step. destruct (Z.leb_spec (Z.of_nat (length (disk (fs k)))) (b_blockno b)); [lia|].
  change (has_bits (flags_of true) B_DIRTY) with true. cbv iota. rewrite bind_assoc. mbind_step. mbind_step.
  unfold upd_buf, upd_fs, modify. f_equal. kernel_eq.
  transitivity ((fs k) <| bcache ::= alter (fun b => b <| b_flags ::= fun x => Z.land x (Z.lnot B_DIRTY) |>) i |>
      <| bcache ::= alter (fun b => b <| b_flags ::= fun x => Z.lor x B_VALID |>) i |>
      <| d_trace ::= fun t => t ++ [(Z.to_nat (b_blockno b), b_data b)] |>); [by destruct (fs k)|].
  buf_eq Hb. do 2 f_equal. destruct b; simpl in *; by subst.
Qed.

(** * The operations on the abstract cache

    What they may change of the rest of the machine: they append to the trace of
    disk writes, change the cache, and wake threads that sleep on buffers. *)

Definition woken : list proc -> list proc -> Prop :=
  rtc (fun ps ps' => exists c, ps' = Sched.wakeup1_proc c <$> ps).
Definition moves (k k' : kernel) : Prop :=
  exists ps, woken (ptable k) ps /\ k' = k <| fs := fs k' |> <| ptable := ps |>.
Record traced (f f' : fsys) (tr : list (nat * list Z)) : Prop := {
  tr_image : d_image f' = d_image f;
  tr_trace : d_trace f' = d_trace f ++ tr;
  tr_sb : sb f' = sb f;
  tr_icache : icache f' = icache f;
  tr_ftable : ftable f' = ftable f;
  tr_queue : idequeue f' = idequeue f;
  tr_first : fs_first f' = fs_first f
}.
Definition writes (f f' : fsys) (tr : list (nat * list Z)) : Prop := traced f f' tr /\ slog f' = slog f.
Definition evolves (k k' : kernel) (tr : list (nat * list Z)) : Prop :=
  moves k k' /\ writes (fs k) (fs k') tr.

(** No other CPU is inside the locks of the cache and the log. *)
Definition quiet (k : kernel) : Prop :=
  unlocked LPtable k /\ unlocked LBcache k /\ unlocked LLog k /\ forall s, unlocked (LSleep s) k.

Lemma moves_refl f k : moves k (k <| fs := f |>).
Proof. exists (ptable k). split; [apply rtc_refl|]. by destruct k. Qed.
Lemma moves_trans k1 k2 k3 : moves k1 k2 -> moves k2 k3 -> moves k1 k3.
Proof.
  intros (p1 & H1 & ->) (p2 & H2 & ->). rsimpl. exists p2. split; [by etransitivity|].
  by destruct k1.
Qed.
Lemma moves_quiet k k' : moves k k' -> quiet k -> quiet k'.
Proof. intros (ps & _ & ->). unfold quiet, unlocked. by rsimpl. Qed.
Lemma woken_pid ps ps' i p : woken ps ps' -> ps !! i = Some p -> exists p', ps' !! i = Some p' /\ p_pid p' = p_pid p.
Proof.
  intros Hw. revert p. induction Hw as [ps|ps ps1 ps2 (c & ->) Hw IH]; intros p Hp; [eauto|].
  destruct (IH (Sched.wakeup1_proc c p)) as (p' & ? & E); [by rewrite list_lookup_fmap, Hp|].
  exists p'. split; [done|]. rewrite E. unfold Sched.wakeup1_proc. by case_match.
Qed.
Lemma moves_runs k k' pid : moves k k' -> runs k pid -> runs k' pid.
Proof.
  intros (ps & Hw & ->) (p & pr & Hc & Hp & <-). destruct (woken_pid _ _ _ _ Hw Hp) as (pr' & ? & ?).
  exists p, pr'. by rsimpl.
Qed.

Lemma traced_refl f : traced f f [].
Proof. split; try done. by rewrite app_nil_r. Qed.
Lemma traced_trans f1 f2 f3 t1 t2 : traced f1 f2 t1 -> traced f2 f3 t2 -> traced f1 f3 (t1 ++ t2).
Proof. intros [] []. split; [congruence| |congruence..]. rewrite app_assoc. congruence. Qed.
Lemma traced_disk f f' tr : traced f f' tr -> disk f' = foldl write_block (disk f) tr.
Proof. intros [E1 E2 _ _ _ _ _]. unfold disk. by rewrite E1, E2, foldl_app. Qed.

Lemma evolves_refl k : evolves k k [].
Proof.
  split; [|split; [apply traced_refl|done]].
  pose proof (moves_refl (fs k) k) as Hm. by destruct k.
Qed.
Lemma evolves_trans k1 k2 k3 t1 t2 : evolves k1 k2 t1 -> evolves k2 k3 t2 -> evolves k1 k3 (t1 ++ t2).
Proof.
  intros [H1 [T1 L1]] [H2 [T2 L2]]. split; [by eapply moves_trans|]. split; [by eapply traced_trans|congruence].
Qed.
Lemma evolves_quiet k k' t : evolves k k' t -> quiet k -> quiet k'.
Proof. intros [Hm _]. by apply moves_quiet. Qed.
Lemma evolves_runs k k' t pid : evolves k k' t -> runs k pid -> runs k' pid.
Proof. intros [Hm _]. by apply moves_runs. Qed.
Lemma evolves_disk k k' t : evolves k k' t -> disk (fs k') = foldl write_block (disk (fs k)) t.
Proof. intros [_ [Ht _]]. by apply traced_disk. Qed.
Lemma evolves_log k k' t : evolves k k' t -> slog (fs k') = slog (fs k).
Proof. by intros [_ [_ ->]]. Qed.

(** A state reached by changing one buffer. *)
Lemma evolves_set_buf i b tr k :
  evolves k (k <| fs ::= fun f => set_buf i b f <| d_trace ::= fun t => t ++ tr |> |>) tr.
Proof. split; [apply (moves_refl (set_buf i b (fs k) <| d_trace ::= _ |>))|done]. Qed.

Lemma evolves_set_buf_only i b k : evolves k (k <| fs ::= set_buf i b |>) [].
Proof. split; [apply (moves_refl (set_buf i b (fs k)))|]. split; [split; try done; by rewrite app_nil_r|done]. Qed.

(** A block is locked by the running process. *)
Definition holds_block (L : holds) (n : Z) : Prop := exists i dt d, L !! i = Some (n, dt, d).

(** The contents of a block that is not locked. *)
Definition content (D : pins) (f : fsys) (n : Z) : option block :=
  match D !! n with Some d => Some d | None => disk f !! Z.to_nat n end.

Lemma rep_other pid D L f i b n j bj : rep pid D L f -> (i < NBUF)%nat -> bcache f !! i = Some b ->
  blk b n -> j <> i -> (j < NBUF)%nat -> bcache f !! j = Some bj -> ~ blk bj n.
Proof. intros Hr Hi Hb [? ?] Hj ? ? [? ?]. apply Hj. eapply (rep_unique _ _ _ _ Hr j i bj b); eauto. congruence. Qed.

Lemma rep_unpinned pid D L f i b n : rep pid D L f -> (i < NBUF)%nat -> bcache f !! i = Some b ->
  blk b n -> is_Some (L !! i) \/ b_flags b <> flags_of true -> D !! n = None.
Proof.
  intros Hr Hi Hb Hn Hf. destruct (D !! n) as [d|] eqn:E; [|done]. exfalso.
  destruct (rep_pins _ _ _ _ Hr n d E) as (j & c & Hj & Hl & Hc & Hv & Hbn & Hx).
  assert (j = i) as ->.
  { destruct (decide (j = i)); [done|]. by destruct (rep_other _ _ _ _ i b n j c Hr). }
  simplify_eq. destruct Hf as [[? ?]|?]; congruence.
Qed.

Lemma bread_hit pid D L n l i o k :
  rep pid D L (fs k) -> quiet k -> runs k pid -> ~ holds_block L n -> linked (bcache (fs k)) l ->
  first_in (is_block 1 n) (bcache (fs k)) l = Some i ->
  exists d k', bread 1 n o k = Ok i o k' /\ evolves k k' [] /\ L !! i = None
    /\ rep pid (delete n D) (<[i := (n, bool_decide (is_Some (D !! n)), d)]> L) (fs k')
    /\ content D (fs k) n = Some d.
Proof.
  intros Hr (_ & Hq & _ & Hs) Hrun Hn Hl Hf. pose proof (first_in_some _ _ _ _ Hf) as (Hi & b & Hb & Ht).
  apply (linked_elem _ _ i Hl) in Hi. unfold is_block in Ht. apply andb_prop in Ht as [Hv%Z.eqb_eq Hbn%Z.eqb_eq].
  destruct (rep_buf _ _ _ _ Hr i b Hi Hb) as [Hx Hlen].
  destruct (L !! i) as [[[m dt] d]|] eqn:El.
  { destruct Hx as (_ & Hm & _). destruct Hn. exists i, dt, d. by simplify_eq. }
  destruct Hx as (Hc & Hlk & Hx). set (b' := b <| b_refcnt := 1 |> <| b_lock := mkSleeplock 1 pid |>).
  assert (b_flags b = flags_of (bool_decide (is_Some (D !! n))) /\ content D (fs k) n = Some (b_data b) /\ on_disk n (fs k)) as (Hfl & Hco & Hon).
  { unfold content. destruct Hx as [?|_ Ho Hfl Hd|_ Ho Hfl Hd]; [congruence| |]; rewrite Hbn in *.
    - rewrite (rep_unpinned _ _ _ _ i b n Hr Hi Hb); [|done|by right; rewrite Hfl]. done.
    - rewrite Hd. done. }
  exists (b_data b), (k <| fs ::= set_buf i b' |>).
  split; [|split; [apply evolves_set_buf_only|split; [done|split; [|done]]]].
  - unfold bread. erewrite bind_ok by (by eapply bget_hit). fold b'.
    erewrite bind_ok by (apply get_buf_eq; rsimpl; by apply set_buf_get).
    unfold b'. rsimpl. rewrite Hfl. case_bool_decide; mbind_step; done.
  - rsimpl. apply (rep_insert pid D L (fs k) i b b' (delete n D) (Some (n, bool_decide (is_Some (D !! n)), b_data b))); try done.
    + by apply (rep_disk _ _ _ _ Hr).
    + intros m Hm _. apply lookup_delete_ne. intros ->. by apply Hm.
    + intros m [_ Hm] [? Hm']. unfold b' in Hm. rsimpl. rewrite <- Hm, Hbn, lookup_delete_eq in Hm'. done.
    + intros m j bj Hm. by apply (rep_other _ _ _ _ i b m j bj Hr).
Qed.

Lemma bread_miss pid D L n l i o k :
  rep pid D L (fs k) -> quiet k -> runs k pid -> on_disk n (fs k) -> linked (bcache (fs k)) l ->
  first_in (is_block 1 n) (bcache (fs k)) l = None -> first_in is_free (bcache (fs k)) (reverse l) = Some i ->
  exists d k', bread 1 n o k = Ok i o k' /\ evolves k k' [] /\ L !! i = None
    /\ rep pid (delete n D) (<[i := (n, bool_decide (is_Some (D !! n)), d)]> L) (fs k')
    /\ content D (fs k) n = Some d /\ linked (bcache (fs k')) l.
Proof.
  intros Hr (_ & Hq & _ & Hs) Hrun Hon Hl Hf Hf'. pose proof (first_in_some _ _ _ _ Hf') as (Hi & b & Hb & Ht).
  rewrite elem_of_reverse in Hi. apply (linked_elem _ _ i Hl) in Hi. unfold is_free in Ht. apply andb_prop in Ht as [Hc%Z.eqb_eq Hd%negb_true_iff].
  assert (forall j bj, (j < NBUF)%nat -> bcache (fs k) !! j = Some bj -> ~ blk bj n) as Hno.
  { intros j bj Hj Hbj [Hv Hbn]. apply (linked_elem _ _ j Hl) in Hj. pose proof (first_in_none _ _ _ Hf j bj Hj Hbj) as E.
    unfold is_block in E. rewrite Hv, Hbn, !Z.eqb_refl in E. done. }
  assert (D !! n = None) as HDn.
  { destruct (D !! n) as [d|] eqn:E; [|done]. destruct (rep_pins _ _ _ _ Hr n d E) as (j & c & Hj & _ & Hcj & ? & ? & _).
    by destruct (Hno j c Hj Hcj). }
  destruct (rep_buf _ _ _ _ Hr i b Hi Hb) as [Hx Hlen].
  destruct (L !! i) as [[[m dt] d]|] eqn:El; [destruct Hx as (_ & _ & _ & _ & ? & _); congruence|].
  destruct Hx as (_ & Hlk & Hx).
  destruct (lookup_lt_is_Some_2 (disk (fs k)) (Z.to_nat n)) as [d Hdn]; [unfold on_disk in Hon; lia|].
  set (b1 := b <| b_dev := 1 |> <| b_blockno := n |> <| b_flags := 0 |> <| b_refcnt := 1 |> <| b_lock := mkSleeplock 1 pid |>).
  set (b' := b1 <| b_data := d |> <| b_flags := flags_of false |>).
  exists d, (k <| fs ::= set_buf i b' |>).
  split; [|split; [apply evolves_set_buf_only|split; [done|split_and!]]].
  - unfold bread. erewrite bind_ok by (by eapply bget_miss). fold b1.
    erewrite bind_ok by (apply get_buf_eq; rsimpl; by apply set_buf_get).
    change (has_bits (b_flags b1) B_VALID) with false. cbn [negb when].
    erewrite bind_ok.
    2:{ apply (iderw_read i b1 pid d); try done.
        - rsimpl. by apply set_buf_get.
        - unfold b1. rsimpl. apply Hon.
        - solve_lock. }
    unfold mret, M_ret. f_equal. kernel_eq. by rewrite set_buf_set.
  - rsimpl. rewrite HDn. apply (rep_insert pid D L (fs k) i b b' (delete n D) (Some (n, false, d))); try done.
    + unfold b'. rsimpl. by apply (Forall_lookup_1 _ _ _ _ (rep_disk _ _ _ _ Hr) Hdn).
    + by apply (rep_disk _ _ _ _ Hr).
    + intros m _ Hm. apply lookup_delete_ne. intros ->. by apply Hm.
    + intros m Hm Hm'. rewrite lookup_delete_ne by (intros ->; by apply Hm').
      apply (rep_unpinned _ _ _ _ i b m Hr Hi Hb Hm). right. intros E. by rewrite E in Hd.
    + intros m [_ Hm] [? Hm']. unfold b', b1 in Hm. rsimpl. by rewrite <- Hm, lookup_delete_eq in Hm'.
    + intros m j bj [_ Hm] Hji Hj Hbj. unfold b', b1 in Hm. rsimpl. subst m. by apply (Hno j).
  - unfold content. by rewrite HDn.
  - rsimpl. by apply (linked_set_buf i b).
Qed.

(** Every buffer is locked or pinned. *)
Lemma bread_exhausted n l o k :
  unlocked LBcache k -> linked (bcache (fs k)) l ->
  first_in (is_block 1 n) (bcache (fs k)) l = None -> first_in is_free (bcache (fs k)) (reverse l) = None ->
  exists k', bread 1 n o k = Panic "bget: no buffers" k'.
Proof.
  intros Hu Hl Hf Hf'. destruct (follows_first _ _ Hl) as (h & Hh & Hn & Hp). eexists.
  unfold bread. apply bind_panic. unfold bget. mbind_step. erewrite bind_ok by (by apply get_buf_eq).
  rewrite Hn. erewrite bind_ok.
  2:{ apply scan_eq; [by apply follows_next|]. rewrite (linked_perm _ _ Hl). by rewrite length_seq. }
  rsimpl. rewrite Hf. erewrite bind_ok by (by apply get_buf_eq). rewrite Hp. erewrite bind_ok.
  2:{ apply scan_eq; [by apply follows_prev|]. rewrite length_reverse, (linked_perm _ _ Hl). by rewrite length_seq. }
  rsimpl. by rewrite Hf'.
Qed.

Lemma bread_spec pid D L n o k :
  rep pid D L (fs k) -> quiet k -> runs k pid -> on_disk n (fs k) -> ~ holds_block L n ->
  is_Some (D !! n) \/ (size D + size L < NBUF)%nat ->
  exists i d k', bread 1 n o k = Ok i o k' /\ evolves k k' [] /\ L !! i = None
    /\ rep pid (delete n D) (<[i := (n, bool_decide (is_Some (D !! n)), d)]> L) (fs k')
    /\ content D (fs k) n = Some d.
Proof.
  intros Hr Hq Hrun Hon Hn Hroom. destruct (rep_linked _ _ _ _ Hr) as [l Hl].
  destruct (first_in (is_block 1 n) (bcache (fs k)) l) as [i|] eqn:Hf; [exists i; by eapply bread_hit|].
  destruct (first_in is_free (bcache (fs k)) (reverse l)) as [i|] eqn:Hf'.
  { destruct (bread_miss pid D L n l i o k) as (d & k' & ? & ? & ? & ? & ? & _); [done..|]. by exists i, d, k'. }
  exfalso. pose proof (first_in_none _ _ _ Hf) as Hno. pose proof (first_in_none _ _ _ Hf') as Hno'.
  destruct Hroom as [[d Hd]|Hroom].
  - destruct (rep_pins _ _ _ _ Hr n d Hd) as (j & c & Hj & _ & Hc & Hv & Hbn & _).
    apply (linked_elem _ _ j Hl) in Hj. specialize (Hno j c Hj Hc). unfold is_block in Hno.
    by rewrite Hv, Hbn, !Z.eqb_refl in Hno.
  - destruct (free_exists _ _ _ _ Hr Hroom) as (j & c & Hj & Hc & Hfree).
    apply (linked_elem _ _ j Hl) in Hj. rewrite (Hno' j c) in Hfree; [done|by apply elem_of_reverse|done].
Qed.

Lemma rep_holds pid D L f i n dt d : rep pid D L f -> L !! i = Some (n, dt, d) ->
  exists b, (i < NBUF)%nat /\ bcache f !! i = Some b /\ blk b n /\ on_disk n f /\ b_flags b = flags_of dt
    /\ b_refcnt b = 1 /\ b_lock b = mkSleeplock 1 pid /\ b_data b = d /\ length d = Z.to_nat BSIZE.
Proof.
  intros Hr HL. pose proof (rep_locked _ _ _ _ Hr i _ HL) as Hi. destruct (rep_get _ _ _ _ i Hr Hi) as [b Hb].
  destruct (rep_buf _ _ _ _ Hr i b Hi Hb) as [Hx Hlen]. rewrite HL in Hx. destruct Hx as (? & ? & ? & ? & ? & ? & <-).
  by exists b.
Qed.

(** The same block with other data, or now pinned. *)
Lemma rep_update pid D L f i n dt d b b' dt' d' : rep pid D L f -> L !! i = Some (n, dt, d) -> bcache f !! i = Some b ->
  b_next b' = b_next b -> b_prev b' = b_prev b -> buf_rep pid D (Some (n, dt', d')) f b' -> length d' = Z.to_nat BSIZE ->
  rep pid D (<[i := (n, dt', d')]> L) (set_buf i b' f).
Proof.
  intros Hr HL Hb Hn Hp Hx Hlen. destruct (rep_holds _ _ _ _ _ _ _ _ Hr HL) as (b0 & Hi & Hb0 & [Hv Hbn] & Hrest). simplify_eq.
  pose proof Hx as (Hv' & Hbn' & _ & _ & _ & _ & Hd').
  apply (rep_insert pid D L f i b b' D (Some (b_blockno b, dt', d'))); try done.
  - by rewrite Hd'.
  - by apply (rep_disk _ _ _ _ Hr).
  - intros m [? Hm] Hm'. destruct Hm'. split; congruence.
  - intros m [_ Hm] [? HD]. rewrite <- Hm, Hbn' in HD.
    rewrite (rep_unpinned _ _ _ _ i b (b_blockno b) Hr Hi Hb) in HD; [done|done|left; by rewrite HL].
  - intros m j bj [_ Hm]. apply (rep_other _ _ _ _ i b m j bj Hr Hi Hb). split; congruence.
Qed.

Lemma upd_data_spec pid D L i n dt d g o k :
  rep pid D L (fs k) -> L !! i = Some (n, dt, d) -> length (g d) = Z.to_nat BSIZE ->
  exists k', upd_buf i (fun b => b <| b_data ::= g |>) o k = Ok tt o k' /\ evolves k k' []
    /\ rep pid D (<[i := (n, dt, g d)]> L) (fs k').
Proof.
  intros Hr HL Hg. destruct (rep_holds _ _ _ _ _ _ _ _ Hr HL) as (b & Hi & Hb & [Hv Hbn] & Hon & Hfl & Hrc & Hlk & <- & Hlen).
  exists (k <| fs ::= set_buf i (b <| b_data ::= g |>) |>). split; [|split; [apply evolves_set_buf_only|]].
  - unfold upd_buf, upd_fs, modify. f_equal. kernel_eq. by buf_eq Hb.
  - rsimpl. by apply (rep_update pid D L (fs k) i n dt (b_data b) b).
Qed.

Lemma pin_spec pid D L i n dt d o k :
  rep pid D L (fs k) -> L !! i = Some (n, dt, d) ->
  exists k', upd_buf i (fun b => b <| b_flags ::= fun x => Z.lor x B_DIRTY |>) o k = Ok tt o k' /\ evolves k k' []
    /\ rep pid D (<[i := (n, true, d)]> L) (fs k').
Proof.
  intros Hr HL. destruct (rep_holds _ _ _ _ _ _ _ _ Hr HL) as (b & Hi & Hb & [Hv Hbn] & Hon & Hfl & Hrc & Hlk & <- & Hlen).
  exists (k <| fs ::= set_buf i (b <| b_flags ::= fun x => Z.lor x B_DIRTY |>) |>). split; [|split; [apply evolves_set_buf_only|]].
  - unfold upd_buf, upd_fs, modify. f_equal. kernel_eq. by buf_eq Hb.
  - rsimpl. apply (rep_update pid D L (fs k) i n dt (b_data b) b); try done. split_and!; try done.
    rsimpl. rewrite Hfl. by destruct dt.
Qed.

Lemma bwrite_spec pid D L i n dt d o k :
  rep pid D L (fs k) -> quiet k -> runs k pid -> L !! i = Some (n, dt, d) ->
  exists k', bwrite i o k = Ok tt o k' /\ evolves k k' [(Z.to_nat n, d)]
    /\ rep pid D (<[i := (n, false, d)]> L) (fs k').
Proof.
  intros Hr (_ & _ & _ & Hs) Hrun HL. destruct (rep_holds _ _ _ _ _ _ _ _ Hr HL) as (b & Hi & Hb & [Hv Hbn] & Hon & Hfl & Hrc & Hlk & <- & Hlen).
  set (b' := b <| b_flags := flags_of false |>).
  exists (k <| fs ::= fun f => set_buf i b' f <| d_trace ::= fun t => t ++ [(Z.to_nat n, b_data b)] |> |>).
  split; [|split; [apply evolves_set_buf|]].
  - unfold bwrite. erewrite bind_ok by (apply (holdingsleep_mine _ pid); [|done..]; simpl; rewrite Hb; simpl; by rewrite Hlk).
    cbn [negb]. mbind_step.
    erewrite (iderw_write i (b <| b_flags := flags_of true |>) pid); try done.
    + f_equal. kernel_eq. rewrite (set_buf_alter _ _ _ _ Hb), set_buf_set, Hbn. done.
    + rsimpl. rewrite list_lookup_alter_eq, Hb. simpl. f_equal. clear Hb. destruct b; simpl in *. subst. by destruct dt.
    + unfold on_disk, disk in *. rsimpl. by rewrite Hbn.
    + apply Hs.
  - rsimpl. assert (disk (set_buf i b' (fs k) <| d_trace ::= fun t => t ++ [(Z.to_nat n, b_data b)] |>) = <[Z.to_nat n := b_data b]> (disk (fs k))) as E
      by (rewrite disk_writes; done).
    apply (rep_insert pid D L (fs k) i b b' D (Some (n, false, b_data b))); try done.
    + split_and!; try done. unfold on_disk. rewrite E, length_insert. apply Hon.
    + rewrite E. apply length_insert.
    + rewrite E. apply Forall_insert; [apply (rep_disk _ _ _ _ Hr)|done].
    + intros m Hm Hne. rewrite E. apply list_lookup_insert_ne. intros Heq. apply Hne. split; [done|].
      unfold b'. rsimpl. unfold on_disk in Hon. lia.
    + intros m [_ Hm] [? HD]. unfold b' in Hm. rsimpl.
      rewrite (rep_unpinned _ _ _ _ i b m Hr Hi Hb) in HD; [done|done|left; by rewrite HL].
    + intros m j bj [_ Hm]. apply (rep_other _ _ _ _ i b m j bj Hr Hi Hb). done.
Qed.

(** * Moving a buffer to the front *)

(** Everything of a buffer but its links. *)
Definition core (b : buf) : Z * Z * Z * sleeplock * Z * list Z :=
  (b_flags b, b_dev b, b_blockno b, b_lock b, b_refcnt b, b_data b).

Lemma core_alter g j (bs : list buf) : (forall b, core (g b) = core b) -> core <$> alter g j bs = core <$> bs.
Proof.
  intros Hg. apply list_eq. intros i. rewrite !list_lookup_fmap. destruct (decide (j = i)) as [<-|].
  - rewrite list_lookup_alter_eq. destruct (bs !! j); simpl; by rewrite ?Hg.
  - by rewrite list_lookup_alter_ne.
Qed.

Lemma core_lookup (bs bs' : list buf) i b' : core <$> bs' = core <$> bs -> bs' !! i = Some b' ->
  exists b, bs !! i = Some b /\ core b = core b'.
Proof.
  intros E Hb. apply (f_equal (lookup i)) in E. rewrite !list_lookup_fmap, Hb in E. simpl in E.
  destruct (bs !! i) as [b|]; [|done]. exists b. split; [done|]. simpl in E. congruence.
Qed.

Lemma rep_core pid D L f f' l : rep pid D L f -> disk f' = disk f -> core <$> bcache f' = core <$> bcache f ->
  linked (bcache f') l -> rep pid D L f'.
Proof.
  intros [_ Hb HL HD Hu Hd] Hdisk Hc Hl. split; [eauto| |done| | |by rewrite Hdisk].
  - intros i b' Hi Hb'. destruct (core_lookup _ _ _ _ Hc Hb') as (b & Hbi & E). destruct (Hb i b Hi Hbi) as [Hx Hlen].
    injection E as E1 E2 E3 E4 E5 E6. split; [|congruence]. unfold buf_rep, on_disk in *.
    rewrite <- E2, <- E3, <- E1, <- E4, <- E5, <- E6, Hdisk. destruct (L !! i) as [[[n dt] d]|]; [done|].
    destruct Hx as (? & ? & Hx). split_and!; [done..|].
    destruct Hx; [apply idle_empty|apply idle_clean|apply idle_pinned]; unfold on_disk in *; rewrite ?Hdisk; congruence.
  - intros n d Hn. destruct (HD n d Hn) as (i & b & Hi & HLi & Hbi & ? & ? & ?).
    destruct (core_lookup _ _ _ _ (eq_sym Hc) Hbi) as (b' & Hb' & E). injection E as E1 E2 E3 E4 E5 E6.
    exists i, b'. split_and!; congruence.
  - intros i j bi bj Hi Hj Hbi Hbj. destruct (core_lookup _ _ _ _ Hc Hbi) as (ci & Hci & Ei), (core_lookup _ _ _ _ Hc Hbj) as (cj & Hcj & Ej).
    injection Ei as E1 E2 E3 E4 E5 E6. injection Ej as F1 F2 F3 F4 F5 F6. rewrite <- E2, <- E3, <- F2, <- F3. by apply Hu.
Qed.

Lemma nexts_set_next j v bs x : (j < length bs)%nat ->
  nexts (alter (fun b => b <| b_next := v |>) j bs) x = (<[j := v]> (nexts bs)) x.
Proof.
  intros Hj. unfold nexts. destruct (decide (j = x)) as [<-|].
  - rewrite fn_lookup_insert, list_lookup_alter_eq. by destruct (lookup_lt_is_Some_2 _ _ Hj) as [b ->].
  - by rewrite fn_lookup_insert_ne, list_lookup_alter_ne.
Qed.
Lemma prevs_set_prev j v bs x : (j < length bs)%nat ->
  prevs (alter (fun b => b <| b_prev := v |>) j bs) x = (<[j := v]> (prevs bs)) x.
Proof.
  intros Hj. unfold prevs. destruct (decide (j = x)) as [<-|].
  - rewrite fn_lookup_insert, list_lookup_alter_eq. by destruct (lookup_lt_is_Some_2 _ _ Hj) as [b ->].
  - by rewrite fn_lookup_insert_ne, list_lookup_alter_ne.
Qed.
Lemma nexts_set_prev j v bs x : nexts (alter (fun b => b <| b_prev := v |>) j bs) x = nexts bs x.
Proof.
  unfold nexts. destruct (decide (j = x)) as [<-|]; [|by rewrite list_lookup_alter_ne].
  rewrite list_lookup_alter_eq. by destruct (bs !! j).
Qed.
Lemma prevs_set_next j v bs x : prevs (alter (fun b => b <| b_next := v |>) j bs) x = prevs bs x.
Proof.
  unfold prevs. destruct (decide (j = x)) as [<-|]; [|by rewrite list_lookup_alter_ne].
  rewrite list_lookup_alter_eq. by destruct (bs !! j).
Qed.

(** The links [brelse] writes. *)
Definition unlink (i : nat) (bs : list buf) : list buf :=
  alter (fun b => b <| b_next := nexts bs i |>) (prevs bs i) (alter (fun b => b <| b_prev := prevs bs i |>) (nexts bs i) bs).
Definition push_front (i : nat) (bs : list buf) : list buf :=
  alter (fun b => b <| b_next := i |>) head
    (alter (fun b => b <| b_prev := i |>) (nexts bs head)
      (alter (fun b => b <| b_prev := head |>) i (alter (fun b => b <| b_next := nexts bs head |>) i bs))).

Lemma fn_insert_ext (f g : nat -> nat) i v x : (forall y, f y = g y) -> (<[i := v]> f) x = (<[i := v]> g) x.
Proof.
  intros E. destruct (decide (i = x)) as [<-|]; [by rewrite !fn_lookup_insert|].
  by rewrite !fn_lookup_insert_ne.
Qed.

Lemma linked_front bs l1 i l2 : linked bs (l1 ++ i :: l2) -> linked (push_front i (unlink i bs)) (i :: l1 ++ l2).
Proof.
  intros Hl. pose proof (linked_nodup _ _ Hl) as Hnd. pose proof Hl as [Hs Hp Hlen].
  assert (forall j, j ∈ head :: l1 ++ i :: l2 -> (j < length bs)%nat) as Hr.
  { intros j [->|Hj]%elem_of_cons; [unfold head; lia|]. apply (linked_elem _ _ _ Hl) in Hj. lia. }
  pose proof Hs as Hs'. apply seg_app in Hs' as [Hs1 Hs2].
  pose proof (seg_last _ _ _ _ _ Hs1) as [Hpi _]. pose proof (seg_first _ _ _ _ _ Hs2) as [Hni _].
  apply seg_unlink in Hs; [|done].
  assert (NoDup (head :: l1 ++ l2) /\ i ∉ head :: l1 ++ l2) as [Hnd' Hi].
  { assert (head :: l1 ++ i :: l2 ≡ₚ i :: head :: l1 ++ l2) as E by solve_Permutation.
    rewrite E in Hnd. apply NoDup_cons in Hnd as [? ?]. done. }
  set (us := unlink i bs).
  assert (length us = length bs) as Hul by (unfold us, unlink; by rewrite !length_alter).
  assert (forall x, nexts us x = (<[prevs bs i := nexts bs i]> (nexts bs)) x) as Hun.
  { intros x. unfold us, unlink. rewrite nexts_set_next by (rewrite length_alter; apply Hr; set_solver).
    apply fn_insert_ext. intros. apply nexts_set_prev. }
  assert (forall x, prevs us x = (<[nexts bs i := prevs bs i]> (prevs bs)) x) as Hup.
  { intros x. unfold us, unlink. rewrite prevs_set_next. apply prevs_set_prev. apply Hr. set_solver. }
  assert (seg (nexts us) (prevs us) head (l1 ++ l2) head) as Hsu by (revert Hs; apply seg_ext; auto).
  pose proof (seg_first _ _ _ _ _ Hsu) as [Hnh _]. apply (seg_push _ _ _ _ i) in Hsu; [|done..].
  split.
  - revert Hsu. apply seg_ext; intros j _; unfold push_front.
    + rewrite nexts_set_next by (rewrite !length_alter, Hul; apply Hr; set_solver). apply fn_insert_ext. intros y.
      rewrite !nexts_set_prev. apply nexts_set_next. rewrite Hul. apply Hr. set_solver.
    + rewrite prevs_set_next. rewrite prevs_set_prev by (rewrite !length_alter, Hul; apply Hr; set_solver). apply fn_insert_ext. intros y.
      rewrite prevs_set_prev by (rewrite !length_alter, Hul; apply Hr; set_solver). apply fn_insert_ext. intros. apply prevs_set_next.
  - rewrite <- Hp. solve_Permutation.
  - unfold push_front. by rewrite !length_alter, Hul.
Qed.

Lemma nexts_get bs i b : bs !! i = Some b -> nexts bs i = b_next b.
Proof. unfold nexts. by intros ->. Qed.
Lemma prevs_get bs i b : bs !! i = Some b -> prevs bs i = b_prev b.
Proof. unfold prevs. by intros ->. Qed.

(** The statements of [brelse] that relink the buffer. *)
Lemma relink_eq i b l1 l2 o k :
  linked (bcache (fs k)) (l1 ++ i :: l2) -> bcache (fs k) !! i = Some b ->
  (upd_buf (b_next b) (fun n => n <| b_prev := b_prev b |>);;
   b ← get_buf i;
   upd_buf (b_prev b) (fun p => p <| b_next := b_next b |>);;
   h ← get_buf head;
   upd_buf i (fun b => b <| b_next := b_next h |>);;
   upd_buf i (fun b => b <| b_prev := head |>);;
   h ← get_buf head;
   upd_buf (b_next h) (fun n => n <| b_prev := i |>);;
   upd_buf head (fun h => h <| b_next := i |>)) o k
  = Ok tt o (k <| fs ::= fun f => f <| bcache ::= fun bs => push_front i (unlink i bs) |> |>).
Proof.
  intros Hl Hb. set (bs := bcache (fs k)) in *. pose proof (linked_nodup _ _ Hl) as Hnd.
  assert (i <> head) as Hih.
  { assert (i ∈ l1 ++ i :: l2) as Hi by set_solver. apply (linked_elem _ _ _ Hl) in Hi. unfold head. lia. }
  destruct (linked_get _ _ head Hl) as [h Hh]; [unfold head; lia|].
  pose proof Hl as [Hs _ _]. apply seg_app in Hs as [Hs1 Hs2].
  pose proof (seg_last _ _ _ _ _ Hs1) as [Hpi _]. pose proof (seg_first _ _ _ _ _ Hs2) as [Hni _].
  rewrite (nexts_get _ _ _ Hb) in Hni. rewrite (prevs_get _ _ _ Hb) in Hpi.
  assert (b_next b <> i) as Hn by (apply NoDup_cons in Hnd as [? (_ & _ & [? _]%NoDup_cons)%NoDup_app]; set_solver).
  assert (b_prev b <> i) as Hp by (apply NoDup_cons in Hnd as [? (_ & Hd & _)%NoDup_app]; set_solver).
  mbind_step. set (bs1 := alter (fun n => n <| b_prev := b_prev b |>) (b_next b) bs).
  erewrite bind_ok by (apply get_buf_eq; rsimpl; rewrite list_lookup_alter_ne by done; exact Hb).
  mbind_step. assert (exists h2, unlink i bs !! head = Some h2) as [h2 Hh2].
  { apply lookup_lt_is_Some_2. unfold unlink. rewrite !length_alter. by eapply lookup_lt_Some. }
  assert (unlink i bs = alter (fun p => p <| b_next := b_next b |>) (b_prev b) bs1) as Eu.
  { unfold unlink. by rewrite (nexts_get _ _ _ Hb), (prevs_get _ _ _ Hb). }
  erewrite bind_ok by (apply get_buf_eq; rsimpl; fold bs bs1; rewrite <- Eu; exact Hh2).
  mbind_step. mbind_step.
  erewrite bind_ok by (apply get_buf_eq; rsimpl; fold bs bs1; rewrite <- Eu, !list_lookup_alter_ne by done; exact Hh2).
  mbind_step. unfold upd_buf, upd_fs, modify. f_equal. kernel_eq.
  change (fs k <| bcache ::= fun bs => push_front i (unlink i bs) |>) with (fs k <| bcache := push_front i (unlink i bs) |>).
  unfold push_front. rewrite (nexts_get _ _ _ Hh2), Eu. unfold bs1, bs. by destruct (fs k).
Qed.

Lemma brelse_eq i b pid l1 l2 o k :
  linked (bcache (fs k)) (l1 ++ i :: l2) -> bcache (fs k) !! i = Some b ->
  b_lock b = mkSleeplock 1 pid -> b_refcnt b = 1 -> quiet k -> runs k pid ->
  brelse i o k = Ok tt o (k
    <| fs ::= fun f => set_buf i (b <| b_lock := mkSleeplock 0 0 |> <| b_refcnt := 0 |>) f
                         <| bcache ::= fun bs => push_front i (unlink i bs) |> |>
    <| ptable ::= fmap (Sched.wakeup1_proc (CSleep (SBuf i))) |>).
Proof.
  intros Hl Hb Hlk Hrc (Hpt & Hbc & _ & Hs) Hrun. unfold brelse.
  erewrite bind_ok by (apply (holdingsleep_mine _ pid); [|done..]; simpl; rewrite Hb; simpl; by rewrite Hlk).
  cbn [negb]. erewrite bind_ok by (apply (releasesleep_eq _ (b_lock b)); [|done..]; simpl; by rewrite Hb).
  mbind_step. mbind_step. set (b' := b <| b_lock := mkSleeplock 0 0 |> <| b_refcnt := 0 |>).
  set (k1 := k <| fs ::= _ |> <| ptable ::= _ |> <| locks ::= _ |> <| fs ::= _ |>).
  assert (fs k1 = set_buf i b' (fs k)) as Ek1.
  { unfold k1. rsimpl. simpl fs_set_sl. buf_eq Hb. f_equal. unfold b'. clear Hb. destruct b; simpl in *; by subst. }
  assert (bcache (fs k1) !! i = Some b') as Hb' by (rewrite Ek1; by apply set_buf_get).
  erewrite bind_ok by (by apply get_buf_eq). change (b_refcnt b' =? 0) with true. cbn [when].
  erewrite bind_ok.
  2:{ apply (relink_eq i b' l1 l2); [|done]. rewrite Ek1.
      by apply (linked_set_buf i b b' (fs k)). }
  rewrite release_locked by (unfold k1; solve_lock). f_equal. apply kernel_ext; rsimpl; try done.
  - unfold k1. rsimpl. by apply unlock_lock.
  - by rewrite Ek1.
Qed.

Lemma core_links i bs : core <$> push_front i (unlink i bs) = core <$> bs.
Proof. unfold push_front, unlink. by rewrite !core_alter. Qed.

Lemma rep_release pid D L i n dt d b b' f :
  rep pid D L f -> L !! i = Some (n, dt, d) -> bcache f !! i = Some b ->
  b' = b <| b_lock := mkSleeplock 0 0 |> <| b_refcnt := 0 |> ->
  (dt = false -> disk f !! Z.to_nat n = Some d) ->
  rep pid (if dt then <[n := d]> D else D) (delete i L) (set_buf i b' f).
Proof.
  intros Hr HL Hb -> Hd. destruct (rep_holds _ _ _ _ _ _ _ _ Hr HL) as (b0 & Hi & Hb0 & [Hv Hbn] & Hon & Hfl & _ & _ & <- & Hlen).
  simplify_eq. assert (D !! b_blockno b = None) as HD by (eapply (rep_unpinned _ _ _ _ i b); [done..|left; by rewrite HL]).
  apply (rep_insert pid D L f i b (b <| b_lock := mkSleeplock 0 0 |> <| b_refcnt := 0 |>) _ None); try done.
  - simpl. split_and!; [done|done|]. destruct dt; [apply idle_pinned|apply idle_clean]; try done; [|by apply Hd].
    rsimpl. by rewrite lookup_insert_eq.
  - apply (rep_disk _ _ _ _ Hr).
  - intros m Hm _. destruct dt; [|done]. apply lookup_insert_ne. intros <-. by apply Hm.
  - intros m [_ Hm] Hs. rsimpl. subst m. split; [done|]. rewrite Hfl. destruct dt; [done|].
    rewrite HD in Hs. by destruct Hs.
  - intros m j bj Hm. by apply (rep_other _ _ _ _ i b m j bj Hr Hi Hb).
Qed.

Lemma brelse_spec pid D L i n dt d o k :
  rep pid D L (fs k) -> quiet k -> runs k pid -> L !! i = Some (n, dt, d) ->
  (dt = false -> disk (fs k) !! Z.to_nat n = Some d) ->
  exists k', brelse i o k = Ok tt o k' /\ evolves k k' []
    /\ rep pid (if dt then <[n := d]> D else D) (delete i L) (fs k')
    /\ forall l1 l2, linked (bcache (fs k)) (l1 ++ i :: l2) -> linked (bcache (fs k')) (i :: l1 ++ l2).
Proof.
  intros Hr Hq Hrun HL Hd. destruct (rep_holds _ _ _ _ _ _ _ _ Hr HL) as (b & Hi & Hb & _ & _ & _ & Hrc & Hlk & _).
  destruct (rep_linked _ _ _ _ Hr) as [l Hl]. assert (i ∈ l) as (l1 & l2 & ->)%list_elem_of_split by (by apply (linked_elem _ _ i Hl)).
  eexists. split; [by eapply brelse_eq|].
  set (b' := b <| b_lock := mkSleeplock 0 0 |> <| b_refcnt := 0 |>).
  pose proof (rep_release _ _ _ _ _ _ _ b b' _ Hr HL Hb eq_refl Hd) as Hr'.
  assert (forall l1 l2, linked (bcache (fs k)) (l1 ++ i :: l2) -> linked (push_front i (unlink i (<[i := b']> (bcache (fs k))))) (i :: l1 ++ l2)) as Hfront.
  { intros l1' l2' Hl'. by apply linked_front, (linked_set_buf i b b' (fs k)). }
  split_and!.
  - split.
    + exists (Sched.wakeup1_proc (CSleep (SBuf i)) <$> ptable k). split; [apply rtc_once; eauto|]. by destruct k.
    + split; [split; try done; by rewrite app_nil_r|done].
  - rsimpl. apply (rep_core _ _ _ _ _ (i :: l1 ++ l2) Hr'); [done| |].
    + rsimpl. rewrite core_links. done.
    + by apply Hfront.
  - intros l1' l2' Hl'. by apply Hfront.
Qed.

(** * Initialisation *)

(** The cache before [binit], and the ring after some turns of its loop. *)
Record linking (bs : list buf) (j : nat) : Prop := {
  lk_seg : seg (nexts bs) (prevs bs) head (reverse (seq 0 j)) head;
  lk_core : core <$> bs = replicate (S NBUF) (core zero_buf)
}.

Lemma linking_get bs j i : linking bs j -> (i <= NBUF)%nat -> exists b, bs !! i = Some b /\ core b = core zero_buf.
Proof.
  intros [_ Hc] Hi. assert (bs !! i <> None) as Hb.
  { intros E. apply (f_equal (lookup i)) in Hc. rewrite list_lookup_fmap, E, lookup_replicate_2 in Hc by lia. done. }
  destruct (bs !! i) as [b|] eqn:E; [|done]. exists b. split; [done|].
  apply (f_equal (lookup i)) in Hc. rewrite list_lookup_fmap, E, lookup_replicate_2 in Hc by lia. simpl in Hc. congruence.
Qed.

Lemma linking_len bs j : linking bs j -> length bs = S NBUF.
Proof. intros [_ Hc]. apply (f_equal length) in Hc. by rewrite length_fmap, length_replicate in Hc. Qed.

Lemma linking_push bs j : linking bs j -> (j < NBUF)%nat -> linking (push_front j bs) (S j).
Proof.
  intros Hl Hj. pose proof (linking_len _ _ Hl) as Hlen. destruct Hl as [Hs Hc]. split.
  - pose proof (seg_first _ _ _ _ _ Hs) as [Hf _].
    assert (nexts bs head < length bs)%nat as Hh.
    { apply elem_of_app in Hf as [Hf%elem_of_reverse%elem_of_seq|Hf%list_elem_of_singleton]; [|rewrite Hf; unfold head]; lia. }
    apply (seg_push _ _ _ _ j) in Hs.
    + rewrite seq_S, reverse_snoc. revert Hs. apply seg_ext; intros x _; unfold push_front.
      * rewrite nexts_set_next by (rewrite !length_alter; unfold head; lia). apply fn_insert_ext. intros y.
        rewrite !nexts_set_prev. apply nexts_set_next. lia.
      * rewrite prevs_set_next. rewrite prevs_set_prev by (by rewrite !length_alter). apply fn_insert_ext. intros y.
        rewrite prevs_set_prev by (rewrite !length_alter; lia). apply fn_insert_ext. intros. apply prevs_set_next.
    + apply NoDup_cons. rewrite elem_of_reverse, elem_of_seq. unfold head. split; [lia|]. rewrite reverse_Permutation. apply NoDup_seq.
    + rewrite elem_of_cons, elem_of_reverse, elem_of_seq. unfold head. lia.
  - rewrite <- Hc. unfold push_front. by rewrite !core_alter.
Qed.

Lemma binit_turn j o k : linking (bcache (fs k)) j -> (j < NBUF)%nat ->
  (h ← get_buf head;
   upd_buf j (fun b => b <| b_next := b_next h |>);;
   upd_buf j (fun b => b <| b_prev := head |>);;
   initsleeplock (SBuf j);;
   h ← get_buf head;
   upd_buf (b_next h) (fun n => n <| b_prev := j |>);;
   upd_buf head (fun h => h <| b_next := j |>)) o k
  = Ok tt o (k <| locks ::= delete (LSleep (SBuf j)) |> <| fs ::= fun f => f <| bcache ::= push_front j |> |>).
Proof.
  intros Hl Hj. set (bs := bcache (fs k)) in *. assert (j <> head) as Hjh by (unfold head; lia).
  destruct (linking_get _ _ head Hl) as (h & Hh & _); [unfold head; lia|].
  destruct (linking_get _ _ j Hl) as (b & Hb & Hcb); [lia|].
  erewrite bind_ok by (by apply get_buf_eq). mbind_step. mbind_step.
  set (bs1 := alter (fun b => b <| b_prev := head |>) j (alter (fun b => b <| b_next := b_next h |>) j bs)).
  assert (alter (fun b => b <| b_lock := mkSleeplock 0 0 |>) j bs1 = bs1) as E.
  { apply list_eq. intros i. destruct (decide (j = i)) as [<-|]; [|by rewrite list_lookup_alter_ne].
    unfold bs1. rewrite !list_lookup_alter_eq, Hb. simpl. f_equal.
    injection Hcb as _ _ _ Hlk _ _. clear Hb. destruct b; simpl in *; by subst. }
  unfold initsleeplock, put_sl. rewrite bind_assoc. mbind_step. mbind_step.
  erewrite bind_ok by (apply get_buf_eq; simpl; rsimpl; rewrite !list_lookup_alter_ne by done; exact Hh).
  mbind_step. unfold upd_buf, upd_fs, modify. f_equal. kernel_eq. simpl set_sleeplock. rsimpl.
  change (fs k <| bcache ::= push_front j |>) with (fs k <| bcache := push_front j bs |>).
  assert (push_front j bs = alter (fun h => h <| b_next := j |>) head (alter (fun n => n <| b_prev := j |>) (b_next h)
      (alter (fun b => b <| b_lock := mkSleeplock 0 0 |>) j bs1))) as ->.
  { rewrite E. unfold push_front. by rewrite (nexts_get _ _ _ Hh). }
  unfold bs1, bs. by destruct (fs k).
Qed.

Lemma linking_rep pid f : linking (bcache f) NBUF -> Forall (fun d => length d = Z.to_nat BSIZE) (disk f) ->
  linked (bcache f) (reverse (seq 0 NBUF)) /\ rep pid ∅ ∅ f.
Proof.
  intros Hl Hd. assert (linked (bcache f) (reverse (seq 0 NBUF))) as Hlk.
  { split; [apply Hl|apply reverse_Permutation|by eapply linking_len]. }
  split; [done|].
  assert (forall i b, (i < NBUF)%nat -> bcache f !! i = Some b -> core b = core zero_buf) as Hc.
  { intros i b Hi Hb. destruct (linking_get _ _ i Hl) as (c & Hcb & ?); [lia|]. assert (c = b) as -> by congruence. done. }
  split; [eauto| | | | |done].
  - intros i b Hi Hb. injection (Hc i b Hi Hb) as E1 E2 E3 E4 E5 E6. rewrite lookup_empty, E6. split; [|done].
    simpl. rewrite E4, E5. split_and!; [done..|]. by apply idle_empty.
  - intros i x. by rewrite lookup_empty.
  - intros i x. by rewrite lookup_empty.
  - intros i j bi bj Hi _ Hbi _ Hv. injection (Hc i bi Hi Hbi) as E1 E2 E3 E4 E5 E6. by rewrite E2 in Hv.
Qed.

Lemma binit_loop m o k : linking (bcache (fs k)) m -> forall n, (m + n <= NBUF)%nat ->
  exists ls bs, for_each (seq m n) (fun b =>
    h ← get_buf head;
    upd_buf b (fun b => b <| b_next := b_next h |>);;
    upd_buf b (fun b => b <| b_prev := head |>);;
    initsleeplock (SBuf b);;
    h ← get_buf head;
    upd_buf (b_next h) (fun n => n <| b_prev := b |>);;
    upd_buf head (fun h => h <| b_next := b |>)) o k
  = Ok tt o (k <| locks := ls |> <| fs ::= fun f => f <| bcache := bs |> |>)
  /\ linking bs (m + n) /\ (forall l h, ls !! l = Some h -> locks k !! l = Some h).
Proof.
  intros Hl n. revert m k Hl. induction n as [|n IH]; intros m k Hl Hm.
  { exists (locks k), (bcache (fs k)). rewrite Nat.add_0_r. split_and!; [|done..]. unfold mret, M_ret. simpl.
    unfold mret, M_ret. f_equal. kernel_eq. by destruct (fs k). }
  simpl. erewrite bind_ok by (apply binit_turn; [done|lia]).
  destruct (IH (S m) (k <| locks ::= delete (LSleep (SBuf m)) |> <| fs ::= fun f => f <| bcache ::= push_front m |> |>))
    as (ls & bs & E & Hl' & Hls); [rsimpl; apply linking_push; [done|lia]|lia|].
  exists ls, bs. rewrite E. split_and!; [f_equal; kernel_eq; by destruct (fs k)|by rewrite Nat.add_succ_r|].
  intros l h Hh. apply Hls in Hh. rsimpl. by apply lookup_delete_Some in Hh as [_ ?].
Qed.

Lemma binit_spec pid o k :
  bcache (fs k) = replicate (S NBUF) zero_buf -> Forall (fun d => length d = Z.to_nat BSIZE) (disk (fs k)) ->
  exists ls bs, binit o k = Ok tt o (k <| locks := ls |> <| fs ::= fun f => f <| bcache := bs |> |>)
    /\ (forall l h, ls !! l = Some h -> locks k !! l = Some h)
    /\ linked bs (reverse (seq 0 NBUF)) /\ rep pid ∅ ∅ (fs k <| bcache := bs |>).
Proof.
  intros Hz Hd. unfold binit. mbind_step. mbind_step. mbind_step.
  edestruct (binit_loop 0) as (ls & bs & E & Hl & Hls); [|apply (le_n NBUF)|].
  2:{ exists ls, bs. rewrite E. split_and!.
      - f_equal; kernel_eq; by destruct (fs k).
      - intros l h Hh. apply Hls in Hh. rsimpl. by apply lookup_delete_Some in Hh as [_ ?].
      - by destruct (linking_rep pid (fs k <| bcache := bs |>)).
      - by destruct (linking_rep pid (fs k <| bcache := bs |>)). }
  rsimpl. rewrite Hz. split; [by vm_compute|]. by rewrite !core_alter, fmap_replicate.
Qed.

(** * The contract of the cache

    as operations on the table of block contents, the pinned blocks and the locked
    buffers. *)

Record store : Type := mkStore { st_disk : list block; st_pins : pins; st_held : holds }.

Inductive cop : Type :=
| CRead (n : Z)                  (* bread *)
| CSet (i : nat) (d : block)     (* a change of b->data by the holder of the lock *)
| CPin (i : nat)                 (* b->flags |= B_DIRTY, as log_write does *)
| CWrite (i : nat)               (* bwrite *)
| CRelease (i : nat).            (* brelse *)

Definition run_cop (c : cop) : K (option nat) :=
  match c with
  | CRead n => i ← bread 1 n; mret (Some i)
  | CSet i d => upd_buf i (fun b => b <| b_data := d |>);; mret None
  | CPin i => upd_buf i (fun b => b <| b_flags ::= fun x => Z.lor x B_DIRTY |>);; mret None
  | CWrite i => bwrite i;; mret None
  | CRelease i => brelse i;; mret None
  end.

(** When the caller may use the operation: a block is read by one holder at a time
    and there is a buffer for it; a buffer is used by its holder; what is released
    is on disk or pinned. *)
Definition enabled (s : store) (c : cop) : Prop :=
  match c with
  | CRead n => 0 <= n < Z.of_nat (length (st_disk s)) /\ ~ holds_block (st_held s) n
      /\ (is_Some (st_pins s !! n) \/ (size (st_pins s) + size (st_held s) < NBUF)%nat)
  | CSet i d => is_Some (st_held s !! i) /\ length d = Z.to_nat BSIZE
  | CPin i | CWrite i => is_Some (st_held s !! i)
  | CRelease i => exists n dt d, st_held s !! i = Some (n, dt, d) /\ (dt = false -> st_disk s !! Z.to_nat n = Some d)
  end.

(** What it does. *)
Inductive cstep (s : store) : cop -> option nat -> store -> Prop :=
| cs_read n i d :
    st_held s !! i = None ->
    (match st_pins s !! n with Some x => Some x | None => st_disk s !! Z.to_nat n end) = Some d ->
    cstep s (CRead n) (Some i) (mkStore (st_disk s) (delete n (st_pins s))
      (<[i := (n, bool_decide (is_Some (st_pins s !! n)), d)]> (st_held s)))
| cs_set i n dt d d' : st_held s !! i = Some (n, dt, d) ->
    cstep s (CSet i d') None (mkStore (st_disk s) (st_pins s) (<[i := (n, dt, d')]> (st_held s)))
| cs_pin i n dt d : st_held s !! i = Some (n, dt, d) ->
    cstep s (CPin i) None (mkStore (st_disk s) (st_pins s) (<[i := (n, true, d)]> (st_held s)))
| cs_write i n dt d : st_held s !! i = Some (n, dt, d) ->
    cstep s (CWrite i) None (mkStore (<[Z.to_nat n := d]> (st_disk s)) (st_pins s) (<[i := (n, false, d)]> (st_held s)))
| cs_release_pinned i n d : st_held s !! i = Some (n, true, d) ->
    cstep s (CRelease i) None (mkStore (st_disk s) (<[n := d]> (st_pins s)) (delete i (st_held s)))
| cs_release_clean i n d : st_held s !! i = Some (n, false, d) ->
    cstep s (CRelease i) None (mkStore (st_disk s) (st_pins s) (delete i (st_held s))).

(** The kernel's tables represent the store. *)
Definition represents (pid : Z) (s : store) (f : fsys) : Prop :=
  rep pid (st_pins s) (st_held s) f /\ disk f = st_disk s.

(** C9. The buffer cache implements its contract: whenever the caller may use an
    operation, bread, bwrite, brelse and the updates of a locked buffer return, and
    their effect on the tables of the kernel is that of the abstract operation; in
    particular a block read back has the contents last written or pinned, however
    the 30 buffers were recycled in between. *)
Theorem cache_refines pid s c o k :
  represents pid s (fs k) -> enabled s c -> quiet k -> runs k pid ->
  exists r s' k', run_cop c o k = Ok r o k' /\ cstep s c r s' /\ represents pid s' (fs k') /\ moves k k'.
Proof.
  intros [Hr Hd] He Hq Hrun. destruct c as [n|i d'|i|i|i]; simpl in He |- *.
  - destruct He as (Hn & Hh & Hroom).
    destruct (bread_spec pid _ _ n o k Hr Hq Hrun) as (i & d & k' & E & Hev & Hi & Hr' & Hc); [unfold on_disk; by rewrite Hd|done..|].
    eexists (Some i), _, k'. erewrite bind_ok by exact E. split_and!; [done|apply cs_read; [done|]| |by destruct Hev].
    + unfold content in Hc. by rewrite Hd in Hc.
    + split; [done|]. by rewrite (evolves_disk _ _ _ Hev).
  - destruct He as [[[[n dt] d] Hi] Hl].
    destruct (upd_data_spec pid _ _ i n dt d (fun _ => d') o k Hr Hi Hl) as (k' & E & Hev & Hr').
    eexists None, _, k'. erewrite bind_ok by exact E. split_and!; [done|by eapply cs_set|split; [done|by rewrite (evolves_disk _ _ _ Hev)]|by destruct Hev].
  - destruct He as [[[n dt] d] Hi]. destruct (pin_spec pid _ _ i n dt d o k Hr Hi) as (k' & E & Hev & Hr').
    eexists None, _, k'. erewrite bind_ok by exact E. split_and!; [done|by eapply cs_pin|split; [done|by rewrite (evolves_disk _ _ _ Hev)]|by destruct Hev].
  - destruct He as [[[n dt] d] Hi]. destruct (bwrite_spec pid _ _ i n dt d o k Hr Hq Hrun Hi) as (k' & E & Hev & Hr').
    eexists None, _, k'. erewrite bind_ok by exact E. split_and!; [done|by eapply cs_write|split; [done|]|by destruct Hev].
    rewrite (evolves_disk _ _ _ Hev), Hd. done.
  - destruct He as (n & dt & d & Hi & Hcl). rewrite <- Hd in Hcl.
    destruct (brelse_spec pid _ _ i n dt d o k Hr Hq Hrun Hi Hcl) as (k' & E & Hev & Hr' & _).
    pose proof (evolves_disk _ _ _ Hev) as Hd'. simpl in Hd'. rewrite Hd in Hd'.
    destruct dt; eexists None, _, k'; erewrite bind_ok by exact E;
      (split_and!; [done|first [by eapply cs_release_pinned|by eapply cs_release_clean]|done|by destruct Hev]).
Qed.

(** C36. The buffers stay in the order of their last use: binit makes a ring of all
    of them, releasing a buffer, dirty or clean, moves it to the front and leaves the
    order of the others, and bget takes for a block that is not cached the free clean
    buffer that was released longest ago, or panics when there is none. *)
Theorem cache_lru pid :
  (forall o k, bcache (fs k) = replicate (S NBUF) zero_buf -> Forall (fun d => length d = Z.to_nat BSIZE) (disk (fs k)) ->
     exists k', binit o k = Ok tt o k' /\ linked (bcache (fs k')) (reverse (seq 0 NBUF)) /\ rep pid ∅ ∅ (fs k'))
  /\ (forall D L i n dirty d l1 l2 o k, rep pid D L (fs k) -> quiet k -> runs k pid -> L !! i = Some (n, dirty, d) ->
     linked (bcache (fs k)) (l1 ++ i :: l2) ->
     exists k', brelse i o k = Ok tt o k' /\ linked (bcache (fs k')) (i :: l1 ++ l2))
  /\ (forall D L n l o k, rep pid D L (fs k) -> quiet k -> runs k pid -> on_disk n (fs k) -> linked (bcache (fs k)) l ->
     first_in (is_block 1 n) (bcache (fs k)) l = None ->
     match first_in is_free (bcache (fs k)) (reverse l) with
     | Some i => exists k', bread 1 n o k = Ok i o k' /\ linked (bcache (fs k')) l
     | None => exists k', bread 1 n o k = Panic "bget: no buffers" k'
     end).
Proof.
  split_and!.
  - intros o k Hz Hd. destruct (binit_spec pid o k Hz Hd) as (ls & bs & E & _ & Hl & Hr). eexists. split; [exact E|]. by rsimpl.
  - intros D L i n dirty d l1 l2 o k Hr Hq Hrun HL Hl. destruct (rep_holds _ _ _ _ _ _ _ _ Hr HL) as (b & Hi & Hb & _ & _ & _ & Hrc & Hlk & _).
    eexists. split; [by eapply brelse_eq|]. by apply linked_front, (linked_set_buf i b _ (fs k)).
  - intros D L n l o k Hr Hq Hrun Hon Hl Hf. destruct (first_in is_free (bcache (fs k)) (reverse l)) as [i|] eqn:Hf'.
    + destruct (bread_miss pid D L n l i o k) as (d & k' & ? & _ & _ & _ & _ & ?); [done..|]. by exists k'.
    + apply (bread_exhausted n l); [apply Hq|done..].
Qed.

End with_layout.
End Cache.
