(* ===== verification/Crash.v ===== *)
(** Crash safety of the write-ahead log (log.c): a crash at any point of a commit,
    followed by recovery, leaves the file system's blocks as they were before the
    transaction or as they are after it. *)

From S2P Require Import Prelude Monad State Spinlock Kalloc Sched Sleeplock Bytes Bio Log Cache.

(** * The header block *)

Module Header.
Import Log.

(** The header with the first [i] block numbers stored. *)
Definition puts (i : nat) (bl : list Z) (d : list Z) : list Z :=
  foldl (fun d j => put_u32 (4 + 4 * j) (bl !!! j) d) d (seq 0 i).
Definition header (bl : list Z) (d : list Z) : list Z := puts (length bl) bl (put_u32 0 (Z.of_nat (length bl)) d).

(** The block numbers a header names. *)
Definition count_of (d : list Z) : Z := s32 (get_u32 0 d).
Definition entry (d : list Z) (i : nat) : Z := s32 (get_u32 (4 + 4 * i) d).
Definition logged (d : list Z) : list Z := entry d <$> seq 0 (Z.to_nat (count_of d)).

Definition is_blockno (b : Z) : Prop := 0 <= b < 2 ^ 31.

Lemma puts_S i bl d : puts (S i) bl d = put_u32 (4 + 4 * i) (bl !!! i) (puts i bl d).
Proof. unfold puts. by rewrite seq_S, foldl_snoc. Qed.

Lemma length_puts i bl d : (i <= Z.to_nat LOGSIZE)%nat -> length d = Z.to_nat BSIZE -> length (puts i bl d) = Z.to_nat BSIZE.
Proof.
  intros Hi Hd. induction i as [|i IH]; [done|]. rewrite puts_S, length_put_u32; [apply IH; lia|].
  rewrite IH by lia. unfold LOGSIZE, MAXOPBLOCKS, BSIZE in *. lia.
Qed.

Lemma get_puts i bl d j : (i <= Z.to_nat LOGSIZE)%nat -> length d = Z.to_nat BSIZE ->
  get_u32 0 (puts i bl d) = get_u32 0 d /\ ((j < i)%nat -> get_u32 (4 + 4 * j) (puts i bl d) = u32 (bl !!! j)).
Proof.
  intros Hi Hd. induction i as [|i IH]; [split; [done|lia]|].
  assert (4 + 4 * i + 4 <= length (puts i bl d))%nat as Hl.
  { rewrite length_puts by (done || lia). unfold LOGSIZE, MAXOPBLOCKS, BSIZE in *. lia. }
  destruct IH as [IH0 IHj]; [lia|]. rewrite puts_S. split; [rewrite get_put_u32_ne by lia; done|].
  intros Hj. destruct (decide (j = i)) as [->|]; [by apply get_put_u32|].
  rewrite get_put_u32_ne by lia. apply IHj. lia.
Qed.

Lemma length_header bl d : (length bl <= Z.to_nat LOGSIZE)%nat -> length d = Z.to_nat BSIZE -> length (header bl d) = Z.to_nat BSIZE.
Proof. intros. apply length_puts; [done|]. rewrite length_put_u32; [done|]. unfold BSIZE in *. lia. Qed.

(** The count and the block numbers can be read back. *)
Lemma logged_header bl d : (length bl <= Z.to_nat LOGSIZE)%nat -> Forall is_blockno bl -> length d = Z.to_nat BSIZE ->
  count_of (header bl d) = Z.of_nat (length bl) /\ logged (header bl d) = bl.
Proof.
  intros Hn Hb Hd. assert (length (put_u32 0 (Z.of_nat (length bl)) d) = Z.to_nat BSIZE) as Hd'.
  { rewrite length_put_u32; [done|]. unfold BSIZE in *. lia. }
  assert (count_of (header bl d) = Z.of_nat (length bl)) as Hc.
  { unfold count_of, header. rewrite (proj1 (get_puts _ _ _ 0%nat Hn Hd')).
    rewrite get_put_u32 by (unfold BSIZE in *; lia). unfold LOGSIZE, MAXOPBLOCKS in Hn.
    rewrite u32_small by (unfold is_u32; lia). apply s32_small. unfold is_s32. lia. }
  split; [done|]. unfold logged. rewrite Hc, Nat2Z.id. apply list_eq. intros j.
  destruct (decide (j < length bl)%nat) as [Hj|Hj].
  - destruct (lookup_lt_is_Some_2 _ _ Hj) as [b Hbj]. rewrite Hbj.
    rewrite list_lookup_fmap, lookup_seq_lt by done. simpl. f_equal. unfold entry, header.
    rewrite (proj2 (get_puts _ _ _ _ Hn Hd')) by done. rewrite (list_lookup_total_correct _ _ _ Hbj).
    pose proof (Forall_lookup_1 _ _ _ _ Hb Hbj) as Hr. unfold is_blockno in Hr.
    rewrite u32_small by (unfold is_u32; lia). apply s32_small. unfold is_s32. lia.
  - rewrite (lookup_ge_None_2 bl) by lia. rewrite list_lookup_fmap, lookup_seq_ge by lia. done.
Qed.

End Header.

(** * Writes of a transaction *)

Module Txn.
Import Header.

(** The block of the log that keeps the [i]th block of a transaction. *)
Definition logpos (start : Z) (i : nat) : nat := Z.to_nat (start + Z.of_nat i + 1).

Definition log_ws (start : Z) (data : list (list Z)) : list (nat * list Z) := imap (fun i d => (logpos start i, d)) data.
Definition inst_ws (bl : list Z) (data : list (list Z)) : list (nat * list Z) := zip_with (fun b d => (Z.to_nat b, d)) bl data.

(** What a commit writes: the log, the header, the blocks themselves, the empty header. *)
Definition commit_ws (start : Z) (bl : list Z) (data : list (list Z)) (h : list Z) : list (nat * list Z) :=
  log_ws start data ++ [(Z.to_nat start, header bl h)] ++ inst_ws bl data ++ [(Z.to_nat start, header [] (header bl h))].

(** Blocks outside the log. *)
Definition home (start nlog b : Z) : Prop := is_blockno b /\ (b < start \/ start + nlog <= b).

Notation run := (foldl write_block).

Lemma run_length d ws : length (run d ws) = length d.
Proof. revert d. induction ws as [|w ws IH]; intros d; simpl; [done|]. rewrite IH. apply length_insert. Qed.

Lemma run_ne d ws b : (forall w, w ∈ ws -> w.1 <> b) -> run d ws !! b = d !! b.
Proof.
  revert d. induction ws as [|w ws IH]; intros d Hw; simpl; [done|].
  rewrite IH by set_solver. apply list_lookup_insert_ne. apply Hw. set_solver.
Qed.

Lemma run_forall (P : list Z -> Prop) d ws : Forall P d -> (forall w, w ∈ ws -> P w.2) -> Forall P (run d ws).
Proof.
  revert d. induction ws as [|w ws IH]; intros d Hd Hw; simpl; [done|].
  apply IH; [|set_solver]. apply Forall_insert; [done|]. apply Hw. set_solver.
Qed.

Lemma run_inst d bl data j b x : NoDup bl -> Forall is_blockno bl -> bl !! j = Some b -> data !! j = Some x ->
  (Z.to_nat b < length d)%nat -> run d (inst_ws bl data) !! Z.to_nat b = Some x.
Proof.
  revert d data j. induction bl as [|b0 bl IH]; intros d data j Hnd Hb Hj Hx Hlt; [done|].
  destruct data as [|x0 data]; [done|]. apply NoDup_cons in Hnd as [Hb0 Hnd]. apply Forall_cons in Hb as [Hb0' Hb]. simpl.
  destruct j as [|j]; simplify_eq/=.
  - rewrite run_ne; [by apply list_lookup_insert_eq|].
    intros w (b1 & x1 & -> & Hz)%elem_of_zip_with. simpl. destruct Hz as [Hz _].
    assert (b1 <> b) by (intros ->; done). rewrite Forall_forall in Hb. specialize (Hb b1 Hz). unfold is_blockno in *. lia.
  - by apply (IH _ data j); [..|unfold write_block; rewrite length_insert].
Qed.

Lemma inst_fst bl data w : w ∈ inst_ws bl data -> exists b, b ∈ bl /\ w.1 = Z.to_nat b.
Proof. intros (b & x & -> & Hb & _)%elem_of_zip_with. by exists b. Qed.

(** What recovery writes on a disk: the blocks named in its header, and the empty header. *)
Definition rec_ws (start : Z) (d : list (list Z)) : list (nat * list Z) :=
  let h := d !!! Z.to_nat start in
  inst_ws (logged h) ((fun i => d !!! logpos start i) <$> seq 0 (length (logged h))) ++ [(Z.to_nat start, header [] h)].

Section crash.
Variables (start nlog : Z) (bl : list Z) (data d0 : list (list Z)) (h : list Z).

(** A transaction ready to be committed: it fits in the log, its blocks are distinct
    blocks outside the log, and the header on disk is empty. *)
Record txn_ok : Prop := {
  tx_start : 0 <= start;
  tx_fits : start + nlog <= Z.of_nat (length d0);
  tx_room : Z.of_nat (length bl) < nlog <= LOGSIZE;
  tx_data : length data = length bl;
  tx_nodup : NoDup bl;
  tx_home : Forall (home start nlog) bl;
  tx_range : Forall (fun b => b < Z.of_nat (length d0)) bl;
  tx_header : d0 !! Z.to_nat start = Some h;
  tx_empty : count_of h = 0;
  tx_hlen : length h = Z.to_nat BSIZE
}.
Hypothesis Htx : txn_ok.

Lemma tx_blockno : Forall is_blockno bl.
Proof. eapply Forall_impl; [exact (tx_home Htx)|]. by intros b [? _]. Qed.

Lemma logged_empty x : count_of x = 0 -> logged x = [].
Proof. unfold logged. by intros ->. Qed.

Lemma home_ne_start b : home start nlog b -> Z.to_nat start <> Z.to_nat b.
Proof. pose proof (tx_start Htx). pose proof (tx_room Htx). unfold home, is_blockno. lia. Qed.

Lemma home_ne_logpos b i : home start nlog b -> Z.of_nat i + 1 < nlog -> logpos start i <> Z.to_nat b.
Proof. pose proof (tx_start Htx). unfold home, is_blockno, logpos. lia. Qed.

Lemma log_ws_fst w : w ∈ log_ws start data -> exists i, (i < length bl)%nat /\ w.1 = logpos start i.
Proof.
  unfold log_ws. rewrite elem_of_lookup_imap. intros (i & x & -> & Hi). exists i. split; [|done].
  rewrite <- (tx_data Htx). by eapply lookup_lt_Some.
Qed.

Lemma run_log_ws n i x d : data !! i = Some x -> (i < n)%nat -> (logpos start i < length d)%nat ->
  run d (take n (log_ws start data)) !! logpos start i = Some x.
Proof.
  intros Hx Hn Hl. pose proof (tx_start Htx). unfold log_ws.
  assert (take n (imap (fun i d => (logpos start i, d)) data) !! i = Some (logpos start i, x)) as Hi.
  { rewrite lookup_take_lt by done. by rewrite list_lookup_imap, Hx. }
  rewrite <- (take_drop_middle _ _ _ Hi), foldl_app. simpl. rewrite run_ne.
  - apply list_lookup_insert_eq. by rewrite run_length.
  - intros w (j & Hj)%list_elem_of_lookup. rewrite lookup_drop in Hj. apply lookup_take_Some in Hj as [Hj _].
    rewrite list_lookup_imap in Hj. destruct (data !! (S i + j)%nat) as [y|]; simplify_eq/=. unfold logpos. lia.
Qed.

(** Recovery with an empty header changes no block outside the log. *)
Lemma rec_empty d x b : d !! Z.to_nat start = Some x -> count_of x = 0 -> home start nlog b ->
  run d (rec_ws start d) !! Z.to_nat b = d !! Z.to_nat b.
Proof.
  intros Hx Hc Hb. unfold rec_ws. rewrite (list_lookup_total_correct _ _ _ Hx), (logged_empty x Hc). simpl.
  apply list_lookup_insert_ne. by apply home_ne_start.
Qed.

(** Recovery with the transaction's header installs its blocks, whether or not some
    of them had been installed already. *)
Lemma rec_full d b : d !! Z.to_nat start = Some (header bl h) -> length d = length d0 ->
  (forall i x, data !! i = Some x -> d !! logpos start i = Some x) ->
  (forall b, home start nlog b -> b ∉ bl -> d !! Z.to_nat b = d0 !! Z.to_nat b) ->
  home start nlog b -> run d (rec_ws start d) !! Z.to_nat b = run d0 (inst_ws bl data) !! Z.to_nat b.
Proof.
  intros Hh Hlen Hlog Hold Hb. pose proof (tx_data Htx) as Hdl. pose proof (tx_room Htx). pose proof tx_blockno as Hbl.
  assert (logged (header bl h) = bl) as El by (apply logged_header; [lia|done|apply (tx_hlen Htx)]).
  assert (((fun i => d !!! logpos start i) <$> seq 0 (length bl)) = data) as Ed.
  { apply list_eq. intros i. destruct (decide (i < length bl)%nat) as [Hi|Hi].
    - destruct (lookup_lt_is_Some_2 data i) as [x Hx]; [lia|]. rewrite Hx, list_lookup_fmap, lookup_seq_lt by done.
      simpl. f_equal. by apply list_lookup_total_correct, Hlog.
    - rewrite (lookup_ge_None_2 data) by lia. by rewrite list_lookup_fmap, lookup_seq_ge by lia. }
  unfold rec_ws. rewrite (list_lookup_total_correct _ _ _ Hh), El, Ed, foldl_app. simpl.
  unfold write_block at 1. rewrite list_lookup_insert_ne by (by apply home_ne_start).
  destruct (decide (b ∈ bl)) as [(j & Hj)%list_elem_of_lookup|Hn].
  - destruct (lookup_lt_is_Some_2 data j) as [x Hx]; [apply lookup_lt_Some in Hj; lia|].
    pose proof (Forall_lookup_1 _ _ _ _ (tx_range Htx) Hj) as Hr. cbv beta in Hr. destruct Hb as [[? ?] _].
    rewrite !(run_inst _ bl data j b x) by (first [apply (tx_nodup Htx)|done|lia]). done.
  - assert (forall w, w ∈ inst_ws bl data -> w.1 <> Z.to_nat b) as Hne.
    { intros w (b1 & Hb1 & ->)%inst_fst E. rewrite Forall_forall in Hbl. specialize (Hbl b1 Hb1). destruct Hb as [Hb0 _].
      unfold is_blockno in *. assert (b1 = b) as -> by lia. done. }
    rewrite !run_ne by done. by apply Hold.
Qed.

(** The three kinds of disk a crash can leave. *)
Inductive crashed (d : list (list Z)) : Prop :=
| crash_before :
    d !! Z.to_nat start = Some h -> (forall b, home start nlog b -> d !! Z.to_nat b = d0 !! Z.to_nat b) -> crashed d
| crash_during :
    d !! Z.to_nat start = Some (header bl h) -> (forall i x, data !! i = Some x -> d !! logpos start i = Some x) ->
    (forall b, home start nlog b -> b ∉ bl -> d !! Z.to_nat b = d0 !! Z.to_nat b) -> crashed d
| crash_after :
    d !! Z.to_nat start = Some (header [] (header bl h)) ->
    (forall b, home start nlog b -> d !! Z.to_nat b = run d0 (inst_ws bl data) !! Z.to_nat b) -> crashed d.

Lemma start_lt : (Z.to_nat start < length d0)%nat.
Proof. eapply lookup_lt_Some, (tx_header Htx). Qed.

Lemma log_ws_take_ne m b d : (forall i, (i < length bl)%nat -> logpos start i <> b) ->
  run d (take m (log_ws start data)) !! b = d !! b.
Proof.
  intros Hb. apply run_ne. intros w Hw. destruct (log_ws_fst w) as (i & Hi & ->); [|by apply Hb].
  eapply elem_of_prefix; [exact Hw|]. exists (drop m (log_ws start data)). by rewrite take_drop.
Qed.

Lemma inst_take_ne m b d : (forall x, x ∈ bl -> Z.to_nat x <> b) -> run d (take m (inst_ws bl data)) !! b = d !! b.
Proof.
  intros Hb. apply run_ne. intros w Hw. destruct (inst_fst bl data w) as (x & Hx & ->); [|by apply Hb].
  eapply elem_of_prefix; [exact Hw|]. exists (drop m (inst_ws bl data)). by rewrite take_drop.
Qed.

(** The disk once the header is written. *)
Lemma after_header d m : d = run d0 (log_ws start data ++ [(Z.to_nat start, header bl h)] ++ take m (inst_ws bl data)) ->
  d !! Z.to_nat start = Some (header bl h) /\ (forall i x, data !! i = Some x -> d !! logpos start i = Some x)
  /\ (forall b, home start nlog b -> b ∉ bl -> d !! Z.to_nat b = d0 !! Z.to_nat b).
Proof.
  intros ->. pose proof (tx_room Htx). pose proof (tx_start Htx). pose proof (tx_fits Htx). pose proof start_lt.
  pose proof (proj1 (Forall_forall _ _) (tx_home Htx)) as Hbl. rewrite foldl_app. simpl. split_and!.
  - rewrite inst_take_ne by (intros x Hx E; by apply (home_ne_start x (Hbl x Hx))).
    apply list_lookup_insert_eq. by rewrite run_length.
  - intros i x Hx. assert (i < length bl)%nat as Hi by (rewrite <- (tx_data Htx); by eapply lookup_lt_Some).
    rewrite inst_take_ne by (intros y Hy E; apply (home_ne_logpos y i (Hbl y Hy)); lia).
    unfold write_block at 1. rewrite list_lookup_insert_ne by (unfold logpos; simpl; lia).
    rewrite <- (firstn_all (log_ws start data)). apply run_log_ws; [done| |unfold logpos; lia].
    unfold log_ws. rewrite length_imap, (tx_data Htx). done.
  - intros b Hb Hn. rewrite inst_take_ne.
    + unfold write_block at 1. rewrite list_lookup_insert_ne by (by apply home_ne_start).
      rewrite <- (firstn_all (log_ws start data)). apply log_ws_take_ne. intros i Hi. apply home_ne_logpos; [done|lia].
    + intros x Hx E. destruct (Hbl x Hx) as [Hx0 _], Hb as [Hb0 _]. unfold is_blockno in *. assert (x = b) as -> by lia. done.
Qed.

(** What the whole commit leaves outside the log. *)
Lemma commit_result b : home start nlog b ->
  run d0 (commit_ws start bl data h) !! Z.to_nat b = run d0 (inst_ws bl data) !! Z.to_nat b.
Proof.
  intros Hb. pose proof (tx_room Htx). unfold commit_ws. rewrite !foldl_app. simpl. unfold write_block at 1.
  rewrite list_lookup_insert_ne by (by apply home_ne_start).
  pose proof (tx_data Htx) as Hdl. pose proof tx_blockno as Hbl. pose proof (proj1 (Forall_forall _ _) (tx_home Htx)) as Hbh.
  destruct (decide (b ∈ bl)) as [(j & Hj)%list_elem_of_lookup|Hn].
  - destruct (lookup_lt_is_Some_2 data j) as [x Hx]; [apply lookup_lt_Some in Hj; lia|].
    pose proof (Forall_lookup_1 _ _ _ _ (tx_range Htx) Hj) as Hr. cbv beta in Hr. destruct Hb as [[? ?] _].
    rewrite !(run_inst _ bl data j b x) by (first [apply (tx_nodup Htx)|done|unfold write_block; rewrite ?length_insert, ?run_length; lia]). done.
  - rewrite <- (firstn_all (inst_ws bl data)).
    rewrite !inst_take_ne by (intros x Hx E; destruct (Hbh x Hx) as [Hx0 _], Hb as [Hb0 _]; unfold is_blockno in *; assert (x = b) as -> by lia; done).
    unfold write_block at 1. rewrite list_lookup_insert_ne by (by apply home_ne_start).
    rewrite <- (firstn_all (log_ws start data)). apply log_ws_take_ne. intros i Hi. apply home_ne_logpos; [done|lia].
Qed.

Lemma crash_cases pre : pre `prefix_of` commit_ws start bl data h -> crashed (run d0 pre).
Proof.
  intros [post Hpre]. assert (pre = take (length pre) (commit_ws start bl data h)) as E by (by rewrite Hpre, take_app_length).
  rewrite E. generalize (length pre) as m. clear post pre Hpre E. intros m. pose proof (tx_room Htx).
  unfold commit_ws. rewrite take_app. set (n := length (log_ws start data)).
  destruct (m - n)%nat as [|m1] eqn:Em.
  { cbn [take]. rewrite app_nil_r. apply crash_before.
    - rewrite log_ws_take_ne; [apply (tx_header Htx)|]. intros i Hi. pose proof (tx_start Htx). unfold logpos. lia.
    - intros b Hb. apply log_ws_take_ne. intros i Hi. apply home_ne_logpos; [done|lia]. }
  rewrite take_ge by lia. simpl ([_] ++ _). cbn [take]. rewrite take_app.
  destruct (m1 - length (inst_ws bl data))%nat as [|m2] eqn:Em1.
  { cbn [take]. rewrite app_nil_r. by destruct (after_header _ m1 eq_refl) as (? & ? & ?); apply crash_during. }
  rewrite (take_ge (inst_ws bl data)) by lia. cbn [take]. rewrite take_nil.
  apply crash_after; [|by apply commit_result]. rewrite !foldl_app. simpl. rewrite foldl_app. simpl. apply list_lookup_insert_eq.
  rewrite run_length. unfold write_block. rewrite length_insert, run_length. apply start_lt.
Qed.

(** Recovery of any of them: all of the transaction or nothing. *)
Lemma crash_recovers d : crashed d -> length d = length d0 ->
  (forall b, home start nlog b -> run d (rec_ws start d) !! Z.to_nat b = d0 !! Z.to_nat b)
  \/ (forall b, home start nlog b -> run d (rec_ws start d) !! Z.to_nat b = run d0 (inst_ws bl data) !! Z.to_nat b).
Proof.
  intros [Hh Hb|Hh Hl Hb|Hh Hb] Hlen.
  - left. intros b Hhome. rewrite (rec_empty d h); [by apply Hb|done|apply (tx_empty Htx)|done].
  - right. intros b Hhome. by apply rec_full.
  - right. intros b Hhome. rewrite (rec_empty d (header [] (header bl h))); [by apply Hb|done| |done].
    pose proof (tx_room Htx). apply logged_header; [simpl; lia|constructor|].
    apply length_header; [lia|apply (tx_hlen Htx)].
Qed.

(** Recovery finds a header it can use. *)
Definition log_ok (d : list (list Z)) : Prop :=
  exists x, d !! Z.to_nat start = Some x /\ length x = Z.to_nat BSIZE /\ 0 <= count_of x < nlog
    /\ Forall (fun b => home start nlog b /\ b < Z.of_nat (length d)) (logged x).

Lemma crash_log_ok d : crashed d -> length d = length d0 -> log_ok d.
Proof.
  intros Hc Hlen. pose proof (tx_room Htx). pose proof (tx_hlen Htx) as Hhl. pose proof tx_blockno.
  pose proof (tx_empty Htx) as He. destruct Hc as [Hh _|Hh _ _|Hh _].
  - exists h. rewrite (logged_empty _ He), He. split_and!; [done|done|lia|lia|constructor].
  - exists (header bl h). destruct (logged_header bl h) as [-> ->]; [lia|done|done|].
    rewrite Hlen. split_and!; [done|apply length_header; [lia|done]|lia|lia|].
    apply Forall_and. split; [apply (tx_home Htx)|apply (tx_range Htx)].
  - exists (header [] (header bl h)).
    assert (length (header bl h) = Z.to_nat BSIZE) as Hl' by (apply length_header; [lia|done]).
    destruct (logged_header [] (header bl h)) as [-> ->]; [simpl; lia|constructor|done|].
    split_and!; [done|apply length_header; [simpl; lia|done]|simpl; lia|simpl; lia|constructor].
Qed.

End crash.
End Txn.

(** * The code *)

Module Commit.
Import Header Txn Log Cache Sleeplock Bio.
Section with_layout.
Context `{Layout}.

Lemma lh_loop_spec n (body : nat -> K unit) (I : nat -> kernel -> Prop) o :
  (forall i k, I i k -> lh_n (slog (fs k)) = Z.of_nat n) ->
  (forall i k, (i < n)%nat -> I i k -> exists k', body i o k = Ok tt o k' /\ I (S i) k') ->
  forall fuel i k, I i k -> (i <= n)%nat -> (n <= i + fuel)%nat -> exists k', lh_loop fuel i body o k = Ok tt o k' /\ I n k'.
Proof.
  intros Hn Hb fuel. induction fuel as [|fuel IH]; intros i k Hi Hin Hf.
  - assert (i = n) as -> by lia. exists k. split; [|done]. simpl. mbind_step.
    rewrite (Hn _ _ Hi). by rewrite Z.ltb_irrefl.
  - simpl. mbind_step. rewrite (Hn _ _ Hi). destruct (Z.ltb_spec (Z.of_nat i) (Z.of_nat n)).
    + destruct (Hb i k) as (k1 & E & H1); [lia|done|]. erewrite bind_ok by exact E. apply IH; [done|lia|lia].
    + assert (i = n) as -> by lia. by exists k.
Qed.

Lemma for_lh_spec n (body : nat -> K unit) (I : nat -> kernel -> Prop) o k :
  (forall i k, I i k -> lh_n (slog (fs k)) = Z.of_nat n) -> (n <= Z.to_nat LOGSIZE)%nat ->
  (forall i k, (i < n)%nat -> I i k -> exists k', body i o k = Ok tt o k' /\ I (S i) k') ->
  I 0%nat k -> exists k', for_lh body o k = Ok tt o k' /\ I n k'.
Proof. intros Hn Hl Hb H0. unfold for_lh. apply (lh_loop_spec n body I o Hn Hb); [done|lia|lia]. Qed.

(** ** Steps of code that holds buffers

    [wp m o k Q]: the computation returns, without waiting, in a state with [Q]. *)
Definition wp {A} (m : K A) (o : list (kernel -> kernel)) (k : kernel) (Q : A -> kernel -> Prop) : Prop :=
  exists a k', m o k = Ok a o k' /\ Q a k'.

Lemma wp_bind {A B} (m : K A) (f : A -> K B) o k Q : wp m o k (fun a k' => wp (f a) o k' Q) -> wp (m ≫= f) o k Q.
Proof. intros (a & k1 & E & b & k2 & E2 & HQ). exists b, k2. split; [|done]. by rewrite (bind_ok _ _ _ _ _ _ _ E). Qed.

Lemma wp_step {A B} (m : K A) (f : A -> K B) o k (P : A -> kernel -> Prop) Q :
  wp m o k P -> (forall a k', P a k' -> wp (f a) o k' Q) -> wp (m ≫= f) o k Q.
Proof. intros (a & k1 & E & HP) Hf. apply wp_bind. exists a, k1. eauto. Qed.

Lemma wp_mono {A} (m : K A) o k (P Q : A -> kernel -> Prop) : wp m o k P -> (forall a k', P a k' -> Q a k') -> wp m o k Q.
Proof. intros (a & k1 & E & HP) Hf. exists a, k1. eauto. Qed.

(** Since [k0] the process [pid] has written [tr]; [D] is pinned and [L] locked. *)
Record since (k0 : kernel) (tr : list (nat * list Z)) (pid : Z) (D : pins) (L : holds) (k : kernel) : Prop := {
  since_ev : evolves k0 k tr;
  since_rep : rep pid D L (fs k);
  since_quiet : quiet k;
  since_runs : runs k pid
}.

Lemma since_step k0 tr pid D L k tr' D' L' k' : since k0 tr pid D L k ->
  evolves k k' tr' -> rep pid D' L' (fs k') -> since k0 (tr ++ tr') pid D' L' k'.
Proof.
  intros [He Hr Hq Hu] He' Hr'. split; [by eapply evolves_trans|done|by eapply evolves_quiet|by eapply evolves_runs].
Qed.
Lemma since_step' k0 tr pid D L k D' L' k' : since k0 tr pid D L k ->
  evolves k k' [] -> rep pid D' L' (fs k') -> since k0 tr pid D' L' k'.
Proof. intros Hs He Hr. rewrite <- (app_nil_r tr). by eapply since_step. Qed.

Lemma since_disk k0 tr pid D L k : since k0 tr pid D L k -> disk (fs k) = foldl write_block (disk (fs k0)) tr.
Proof. intros [He _ _ _]. by apply evolves_disk. Qed.
Lemma since_log k0 tr pid D L k : since k0 tr pid D L k -> slog (fs k) = slog (fs k0).
Proof. intros [He _ _ _]. by eapply evolves_log. Qed.

Lemma rep_pin_range pid D L f n d : rep pid D L f -> D !! n = Some d -> on_disk n f /\ length d = Z.to_nat BSIZE.
Proof.
  intros Hr Hn. destruct (rep_pins _ _ _ _ Hr n d Hn) as (i & b & Hi & HL & Hb & Hv & Hbn & Hf).
  destruct (rep_buf _ _ _ _ Hr i b Hi Hb) as [Hx Hlen]. rewrite HL in Hx. destruct Hx as (_ & _ & Hx). subst n.
  destruct Hx as [He _|_ _ He|_ Ho _ Hd]; [congruence|by rewrite He in Hf|]. split; [done|congruence].
Qed.

Section steps.
Context (k0 : kernel) (tr : list (nat * list Z)) (pid : Z) (D : pins) (L : holds) (o : list (kernel -> kernel)) (k : kernel).
Hypothesis Hs : since k0 tr pid D L k.

Lemma wp_bread_pinned n d : D !! n = Some d -> ~ holds_block L n ->
  wp (bread 1 n) o k (fun i k' => since k0 tr pid (delete n D) (<[i := (n, true, d)]> L) k' /\ L !! i = None).
Proof.
  intros HD HL. destruct Hs as [He Hr Hq Hu]. destruct (rep_pin_range _ _ _ _ _ _ Hr HD) as [Hon _].
  destruct (bread_spec pid D L n o k) as (i & x & k' & E & He' & Hi & Hr' & Hc); [done..|by left; eauto|].
  unfold content in Hc. rewrite HD in Hc, Hr'. injection Hc as <-. exists i, k'. split; [done|].
  split; [by eapply since_step'|done].
Qed.

Lemma wp_bread_clean n d : D !! n = None -> 0 <= n -> disk (fs k) !! Z.to_nat n = Some d -> ~ holds_block L n ->
  (size D + size L < NBUF)%nat ->
  wp (bread 1 n) o k (fun i k' => since k0 tr pid D (<[i := (n, false, d)]> L) k' /\ L !! i = None).
Proof.
  intros HD Hn Hd HL Hroom. destruct Hs as [He Hr Hq Hu].
  assert (on_disk n (fs k)) as Hon by (apply lookup_lt_Some in Hd; unfold on_disk; lia).
  destruct (bread_spec pid D L n o k) as (i & x & k' & E & He' & Hi & Hr' & Hc); [done..|by right|].
  unfold content in Hc. rewrite HD in Hc, Hr'. rewrite Hd in Hc. injection Hc as <-. rewrite delete_id in Hr' by done.
  exists i, k'. split; [done|]. split; [by eapply since_step'|done].
Qed.

Lemma wp_bread n : on_disk n (fs k) -> ~ holds_block L n -> is_Some (D !! n) \/ (size D + size L < NBUF)%nat ->
  wp (bread 1 n) o k (fun i k' => exists dt d, since k0 tr pid (delete n D) (<[i := (n, dt, d)]> L) k' /\ L !! i = None).
Proof.
  intros Hon HL Hroom. destruct Hs as [He Hr Hq Hu].
  destruct (bread_spec pid D L n o k) as (i & x & k' & E & He' & Hi & Hr' & Hc); [done..|].
  exists i, k'. split; [done|]. eexists _, _. split; [by eapply since_step'|done].
Qed.

Lemma wp_get_buf i n dt d : L !! i = Some (n, dt, d) -> wp (get_buf i) o k (fun b k' => k' = k /\ b_data b = d /\ length d = Z.to_nat BSIZE).
Proof.
  intros HL. destruct (rep_holds _ _ _ _ i n dt d (since_rep _ _ _ _ _ _ Hs) HL) as (b & _ & Hb & _ & _ & _ & _ & _ & ? & ?).
  exists b, k. split; [by apply get_buf_eq|done].
Qed.

Lemma wp_set i n dt d g : L !! i = Some (n, dt, d) -> length (g d) = Z.to_nat BSIZE ->
  wp (upd_buf i (fun b => b <| b_data ::= g |>)) o k (fun _ k' => since k0 tr pid D (<[i := (n, dt, g d)]> L) k').
Proof.
  intros HL Hg. destruct (upd_data_spec pid D L i n dt d g o k (since_rep _ _ _ _ _ _ Hs) HL Hg) as (k' & E & He & Hr).
  exists tt, k'. split; [done|by eapply since_step'].
Qed.

Lemma wp_bwrite i n dt d : L !! i = Some (n, dt, d) ->
  wp (bwrite i) o k (fun _ k' => since k0 (tr ++ [(Z.to_nat n, d)]) pid D (<[i := (n, false, d)]> L) k').
Proof.
  intros HL. destruct Hs as [He Hr Hq Hu]. destruct (bwrite_spec pid D L i n dt d o k Hr Hq Hu HL) as (k' & E & He' & Hr').
  exists tt, k'. split; [done|by eapply since_step].
Qed.

Lemma wp_brelse_pinned i n d : L !! i = Some (n, true, d) ->
  wp (brelse i) o k (fun _ k' => since k0 tr pid (<[n := d]> D) (delete i L) k').
Proof.
  intros HL. destruct Hs as [He Hr Hq Hu]. destruct (brelse_spec pid D L i n true d o k Hr Hq Hu HL) as (k' & E & He' & Hr' & _); [done|].
  exists tt, k'. split; [done|by eapply since_step'].
Qed.

Lemma wp_brelse_clean i n d : L !! i = Some (n, false, d) -> disk (fs k) !! Z.to_nat n = Some d ->
  wp (brelse i) o k (fun _ k' => since k0 tr pid D (delete i L) k').
Proof.
  intros HL Hd. destruct Hs as [He Hr Hq Hu]. destruct (brelse_spec pid D L i n false d o k Hr Hq Hu HL) as (k' & E & He' & Hr' & _); [done|].
  exists tt, k'. split; [done|by eapply since_step'].
Qed.

End steps.

(** ** The log a kernel works with *)
Record log_at (start : Z) (bl : list Z) (l : log) : Prop := {
  la_dev : lg_dev l = 1;
  la_start : lg_start l = start;
  la_n : lh_n l = Z.of_nat (length bl);
  la_block : forall i b, bl !! i = Some b -> lh_block l !! i = Some b
}.

Lemma wp_get_lh i b o k : lh_block (slog (fs k)) !! i = Some b -> wp (get_lh i) o k (fun x k' => x = b /\ k' = k).
Proof. intros Hb. exists b, k. split; [by apply deref_some|done]. Qed.
Lemma wp_get_log {A} (g : log -> A) o k : wp (get_log g) o k (fun x k' => x = g (slog (fs k)) /\ k' = k).
Proof. by exists (g (slog (fs k))), k. Qed.

Lemma not_held_empty n : ~ holds_block ∅ n.
Proof. intros (? & ? & ? & E). by rewrite lookup_empty in E. Qed.
Lemma not_held_one i m dt d n : m <> n -> ~ holds_block (<[i := (m, dt, d)]> ∅) n.
Proof.
  intros Hne (j & ? & ? & E). apply lookup_insert_Some in E as [[_ [= <- _ _]]|[_ E]]; [done|by rewrite lookup_empty in E].
Qed.

(** All the buffers that were locked, [t] and [g], are released. *)
Ltac released Hs t g :=
  match type of Hs with
  | since _ _ _ _ ?M _ =>
      replace M with (∅ : holds) in Hs
        by (apply map_eq; intros j; destruct (decide (j = t)) as [->|]; [by simplify_map_eq|];
            destruct (decide (j = g)) as [->|]; by simplify_map_eq)
  end.

(** One block copied to the log. *)
Lemma write_log_step k0 tr pid D start bl i b x o k :
  since k0 tr pid D ∅ k -> log_at start bl (slog (fs k)) -> bl !! i = Some b -> D !! b = Some x ->
  let n := start + Z.of_nat i + 1 in
  on_disk n (fs k) -> is_u32 n -> is_u32 b -> D !! n = None -> (size D < NBUF)%nat ->
  wp (dev ← get_log lg_dev;
      start ← get_log lg_start;
      to ← bread dev (u32 (start + Z.of_nat i + 1));
      blk ← get_lh i;
      from ← bread dev (u32 blk);
      f ← get_buf from;
      upd_buf to (fun t => t <| b_data := b_data f |>);;
      bwrite to;;
      brelse from;;
      brelse to) o k (fun _ k' => since k0 (tr ++ [(logpos start i, x)]) pid D ∅ k').
Proof.
  intros Hs [Hdev Hst _ Hbl] Hb HD n Hn Hn32 Hb32 HDn Hroom.
  eapply wp_step; [apply wp_get_log|]. intros _ _ [-> ->]. eapply wp_step; [apply wp_get_log|]. intros _ _ [-> ->].
  rewrite Hdev, Hst. fold n. rewrite (u32_small n) by done. assert (n <> b) as Hne by congruence.
  destruct (lookup_lt_is_Some_2 (disk (fs k)) (Z.to_nat n)) as [dn Hdn]; [unfold on_disk in Hn; lia|].
  eapply wp_step.
  { apply (wp_bread_clean _ _ _ _ _ _ _ Hs n dn); [done|apply Hn|done|apply not_held_empty|]. rewrite map_size_empty. lia. }
  intros t k1 [Hs1 _]. eapply wp_step.
  { apply (wp_get_lh i b). rewrite (since_log _ _ _ _ _ _ Hs1), <- (since_log _ _ _ _ _ _ Hs). by apply Hbl. }
  intros _ _ [-> ->]. rewrite (u32_small b) by done.
  eapply wp_step; [apply (wp_bread_pinned _ _ _ _ _ _ _ Hs1 b x HD); by apply not_held_one|]. intros g k2 [Hs2 Hg].
  assert (t <> g) as Htg by (intros ->; by rewrite lookup_insert_eq in Hg).
  eapply wp_step; [apply (wp_get_buf _ _ _ _ _ _ _ Hs2 g b true x); by simplify_map_eq|]. intros bg _ (-> & Hx & Hlen).
  eapply wp_step; [apply (wp_set _ _ _ _ _ _ _ Hs2 t n false dn (fun _ => b_data bg)); [by simplify_map_eq|by rewrite Hx]|]. intros [] k3 Hs3; cbv beta in Hs3. rewrite Hx in Hs3.
  eapply wp_step; [apply (wp_bwrite _ _ _ _ _ _ _ Hs3 t n false x); by simplify_map_eq|]. intros [] k4 Hs4; cbv beta in Hs4.
  eapply wp_step; [apply (wp_brelse_pinned _ _ _ _ _ _ _ Hs4 g b x); by simplify_map_eq|]. intros [] k5 Hs5; cbv beta in Hs5.
  eapply wp_mono.
  { apply (wp_brelse_clean _ _ _ _ _ _ _ Hs5 t n x); [by simplify_map_eq|].
    rewrite (since_disk _ _ _ _ _ _ Hs5), foldl_app. simpl. apply list_lookup_insert_eq.
    rewrite <- (since_disk _ _ _ _ _ _ Hs). unfold on_disk in Hn. simpl. lia. }
  intros [] k6 Hs6; cbv beta in Hs6. rewrite insert_delete_id in Hs6 by done. by released Hs6 t g.
Qed.

Lemma wp_unit (m : K unit) o k (P : kernel -> Prop) : wp m o k (fun _ => P) -> exists k', m o k = Ok tt o k' /\ P k'.
Proof. intros ([] & k' & ?). by exists k'. Qed.

(** Where the log lies. *)
Section log_area.
Context (start nlog : Z).
Hypothesis (Hstart : 0 <= start) (Hsmall : start + nlog <= 2 ^ 31) (Hnlog : nlog <= LOGSIZE).

(** No block of the log is pinned. *)
Definition unpinned (D : pins) : Prop := forall n, start <= n < start + nlog -> D !! n = None.

Lemma home_u32 b : home start nlog b -> is_u32 b.
Proof. intros [Hb _]. unfold is_blockno, is_u32 in *. lia. Qed.

Lemma home_unpinned D : (forall b, is_Some (D !! b) -> home start nlog b) -> unpinned D.
Proof. intros HD n Hn. destruct (D !! n) eqn:E; [|done]. destruct (HD n) as [_ Hh]; [eauto|lia]. Qed.

Lemma write_log_spec k0 tr pid D bl data o k :
  since k0 tr pid D ∅ k -> log_at start bl (slog (fs k)) -> unpinned D -> (size D < NBUF)%nat ->
  Z.of_nat (length bl) < nlog -> start + nlog <= Z.of_nat (length (disk (fs k))) -> Forall (home start nlog) bl ->
  length data = length bl -> (forall i b x, bl !! i = Some b -> data !! i = Some x -> D !! b = Some x) ->
  wp write_log o k (fun _ k' => since k0 (tr ++ log_ws start data) pid D ∅ k').
Proof.
  intros Hs Hl Hun Hroom Hlen Hdisk Hhome Hdl HD.
  destruct (for_lh_spec (length bl) (fun tail =>
    dev ← get_log lg_dev;
    start ← get_log lg_start;
    to ← bread dev (u32 (start + Z.of_nat tail + 1));
    blk ← get_lh tail;
    from ← bread dev (u32 blk);
    f ← get_buf from;
    upd_buf to (fun t => t <| b_data := b_data f |>);;
    bwrite to;;
    brelse from;;
    brelse to) (fun i k' => since k0 (tr ++ take i (log_ws start data)) pid D ∅ k') o k) as (k' & E & Hs').
  - intros i k' Hs'. rewrite (since_log _ _ _ _ _ _ Hs'), <- (since_log _ _ _ _ _ _ Hs). apply (la_n _ _ _ Hl).
  - lia.
  - intros i k' Hi Hs'. destruct (lookup_lt_is_Some_2 bl i) as [b Hb]; [lia|]. destruct (lookup_lt_is_Some_2 data i) as [x Hx]; [lia|].
    apply wp_unit. eapply wp_mono.
    { eapply (write_log_step _ _ _ _ start bl i b x); [exact Hs'| |done|by eapply HD| | | | |done].
      - by rewrite (since_log _ _ _ _ _ _ Hs'), <- (since_log _ _ _ _ _ _ Hs).
      - unfold on_disk. rewrite (since_disk _ _ _ _ _ _ Hs'), run_length.
        rewrite (since_disk _ _ _ _ _ _ Hs), run_length in Hdisk. lia.
      - unfold is_u32. lia.
      - apply home_u32. by eapply Forall_lookup_1.
      - apply Hun. lia. }
    intros [] k2 Hs2. cbv beta in Hs2. rewrite (take_S_r _ _ (logpos start i, x)); [by rewrite app_assoc|].
    unfold log_ws. by rewrite list_lookup_imap, Hx.
  - rewrite take_0, app_nil_r. done.
  - exists tt, k'. split; [exact E|]. rewrite take_ge in Hs'; [done|]. unfold log_ws. rewrite length_imap. lia.
Qed.

(** The header is written. *)
Lemma write_head_spec k0 tr pid D bl x o k :
  since k0 tr pid D ∅ k -> log_at start bl (slog (fs k)) -> unpinned D -> (size D < NBUF)%nat ->
  Z.of_nat (length bl) < nlog -> disk (fs k) !! Z.to_nat start = Some x ->
  wp write_head o k (fun _ k' => since k0 (tr ++ [(Z.to_nat start, header bl x)]) pid D ∅ k').
Proof.
  intros Hs Hl Hun Hroom Hlen Hx. pose proof (lookup_lt_Some _ _ _ Hx) as Hlt. pose proof Hl as [Hdev Hst _ _].
  eapply wp_step; [apply wp_get_log|]. intros _ _ [-> ->]. eapply wp_step; [apply wp_get_log|]. intros _ _ [-> ->].
  rewrite Hdev, Hst. rewrite u32_small by (unfold is_u32; lia). eapply wp_step.
  { apply (wp_bread_clean _ _ _ _ _ _ _ Hs start x); [apply Hun; lia|done|done|apply not_held_empty|]. rewrite map_size_empty. lia. }
  intros t k1 [Hs1 _]. assert (length x = Z.to_nat BSIZE) as Hxl.
  { eapply (Forall_lookup_1 _ _ _ _ (rep_disk _ _ _ _ (since_rep _ _ _ _ _ _ Hs)) Hx). }
  assert (log_at start bl (slog (fs k1))) as Hl1 by (by rewrite (since_log _ _ _ _ _ _ Hs1), <- (since_log _ _ _ _ _ _ Hs)).
  eapply wp_step; [apply wp_get_log|]. intros _ _ [-> ->]. rewrite (la_n _ _ _ Hl1).
  eapply wp_step.
  { apply (wp_set _ _ _ _ _ _ _ Hs1 t start false x (put_u32 0 (Z.of_nat (length bl)))); [by simplify_map_eq|].
    rewrite length_put_u32; [done|]. rewrite Hxl. unfold BSIZE. lia. }
  intros [] k2 Hs2; cbv beta in Hs2. set (x0 := put_u32 0 (Z.of_nat (length bl)) x) in *.
  assert (length x0 = Z.to_nat BSIZE) as Hx0 by (unfold x0; rewrite length_put_u32; [done|rewrite Hxl; unfold BSIZE; lia]).
  rewrite insert_insert_eq in Hs2.
  destruct (for_lh_spec (length bl) (fun i => x ← get_lh i; upd_buf t (fun b => b <| b_data ::= put_u32 (4 + 4 * i) x |>))
    (fun i k' => since k0 tr pid D (<[t := (start, false, puts i bl x0)]> ∅) k') o k2) as (k3 & E3 & Hs3).
  - intros i k' Hs'. rewrite (since_log _ _ _ _ _ _ Hs'), <- (since_log _ _ _ _ _ _ Hs1). apply (la_n _ _ _ Hl1).
  - lia.
  - intros i k' Hi Hs'. destruct (lookup_lt_is_Some_2 bl i) as [b Hb]; [lia|]. apply wp_unit. eapply wp_step.
    { apply (wp_get_lh i b). rewrite (since_log _ _ _ _ _ _ Hs'), <- (since_log _ _ _ _ _ _ Hs1). by apply (la_block _ _ _ Hl1). }
    intros _ _ [-> ->]. eapply wp_mono.
    { apply (wp_set _ _ _ _ _ _ _ Hs' t start false (puts i bl x0) (put_u32 (4 + 4 * i) b)); [by simplify_map_eq|].
      rewrite length_put_u32; rewrite length_puts by (done || lia); [done|]. unfold BSIZE, LOGSIZE, MAXOPBLOCKS in *. lia. }
    intros [] k4 Hs4. cbv beta in Hs4. rewrite insert_insert_eq in Hs4. rewrite puts_S. by rewrite (list_lookup_total_correct _ _ _ Hb).
  - done.
  - apply (wp_step _ _ _ _ (fun _ k' => since k0 tr pid D (<[t := (start, false, header bl x)]> ∅) k')); [by exists tt, k3|].
    clear k2 Hs2 E3 k3 Hs3. intros [] k3 Hs3.
    eapply wp_step; [apply (wp_bwrite _ _ _ _ _ _ _ Hs3 t start false (header bl x)); by simplify_map_eq|]. intros [] k4 Hs4; cbv beta in Hs4.
    eapply wp_mono; [apply (wp_brelse_clean _ _ _ _ _ _ _ Hs4 t start (header bl x)); [by simplify_map_eq|]|].
    + rewrite (since_disk _ _ _ _ _ _ Hs4), foldl_app. simpl. apply list_lookup_insert_eq. rewrite <- (since_disk _ _ _ _ _ _ Hs). done.
    + intros [] k5 Hs5; cbv beta in Hs5. by released Hs5 t t.
Qed.

(** One block copied from the log to its place. *)
Lemma install_step k0 tr pid D bl i b x o k :
  since k0 tr pid D ∅ k -> log_at start bl (slog (fs k)) -> bl !! i = Some b -> home start nlog b ->
  Z.of_nat i + 1 < nlog -> disk (fs k) !! logpos start i = Some x -> on_disk b (fs k) -> unpinned D ->
  (size D < NBUF)%nat -> is_Some (D !! b) \/ (size D + 1 < NBUF)%nat ->
  wp (dev ← get_log lg_dev;
      start ← get_log lg_start;
      lbuf ← bread dev (u32 (start + Z.of_nat i + 1));
      blk ← get_lh i;
      dbuf ← bread dev (u32 blk);
      l ← get_buf lbuf;
      upd_buf dbuf (fun d => d <| b_data := b_data l |>);;
      bwrite dbuf;;
      brelse lbuf;;
      brelse dbuf) o k (fun _ k' => since k0 (tr ++ [(Z.to_nat b, x)]) pid (delete b D) ∅ k').
Proof.
  intros Hs [Hdev Hst _ Hbl] Hb Hhome Hi Hx Hon Hun Hroom Hroom2. set (n := start + Z.of_nat i + 1) in *.
  eapply wp_step; [apply wp_get_log|]. intros _ _ [-> ->]. eapply wp_step; [apply wp_get_log|]. intros _ _ [-> ->].
  rewrite Hdev, Hst. rewrite u32_small by (unfold is_u32; lia). fold n.
  assert (n <> b) as Hne by (destruct Hhome as [_ ?]; lia). eapply wp_step.
  { apply (wp_bread_clean _ _ _ _ _ _ _ Hs n x); [apply Hun; lia|lia|done|apply not_held_empty|]. rewrite map_size_empty. lia. }
  intros t k1 [Hs1 _]. eapply wp_step.
  { apply (wp_get_lh i b). rewrite (since_log _ _ _ _ _ _ Hs1), <- (since_log _ _ _ _ _ _ Hs). by apply Hbl. }
  intros _ _ [-> ->]. rewrite (u32_small b) by (by apply home_u32).
  assert (forall k tr D L k', since k0 tr pid D ∅ k -> since k0 tr pid D L k' -> disk (fs k') = disk (fs k)) as Hsame.
  { intros ? ? ? ? ? Ha Hb'. by rewrite (since_disk _ _ _ _ _ _ Ha), (since_disk _ _ _ _ _ _ Hb'). }
  eapply wp_step.
  { apply (wp_bread _ _ _ _ _ _ _ Hs1 b); [|by apply not_held_one|].
    - unfold on_disk. by rewrite (Hsame _ _ _ _ _ Hs Hs1).
    - rewrite map_size_insert_None, map_size_empty by done. destruct Hroom2; [by left|right; lia]. }
  intros g k2 (dt & d & Hs2 & Hg).
  assert (t <> g) as Htg by (intros ->; by rewrite lookup_insert_eq in Hg).
  eapply wp_step; [apply (wp_get_buf _ _ _ _ _ _ _ Hs2 t n false x); by simplify_map_eq|]. intros bt _ (-> & Hbt & Hlen).
  eapply wp_step; [apply (wp_set _ _ _ _ _ _ _ Hs2 g b dt d (fun _ => b_data bt)); [by simplify_map_eq|by rewrite Hbt]|].
  intros [] k3 Hs3; cbv beta in Hs3. rewrite Hbt in Hs3.
  eapply wp_step; [apply (wp_bwrite _ _ _ _ _ _ _ Hs3 g b dt x); by simplify_map_eq|]. intros [] k4 Hs4; cbv beta in Hs4.
  assert (disk (fs k4) = <[Z.to_nat b := x]> (disk (fs k))) as Hd4.
  { rewrite (since_disk _ _ _ _ _ _ Hs4), foldl_app, (since_disk _ _ _ _ _ _ Hs). done. }
  eapply wp_step; [apply (wp_brelse_clean _ _ _ _ _ _ _ Hs4 t n x); [by simplify_map_eq|]|].
  { rewrite Hd4, list_lookup_insert_ne; [done|]. unfold on_disk in Hon. lia. }
  intros [] k5 Hs5; cbv beta in Hs5. eapply wp_mono; [apply (wp_brelse_clean _ _ _ _ _ _ _ Hs5 g b x); [by simplify_map_eq|]|].
  { rewrite (since_disk _ _ _ _ _ _ Hs5), <- (since_disk _ _ _ _ _ _ Hs4), Hd4. apply list_lookup_insert_eq. unfold on_disk in Hon. lia. }
  intros [] k6 Hs6; cbv beta in Hs6. by released Hs6 t g.
Qed.

(** The pins left after the first blocks are installed. *)
Definition unpin (bl : list Z) (D : pins) : pins := foldl (fun D b => delete b D) D bl.

Lemma unpin_lookup bl D n : unpin bl D !! n = if decide (n ∈ bl) then None else D !! n.
Proof.
  revert D. induction bl as [|b bl IH]; intros D; simpl; [done|]. rewrite IH.
  destruct (decide (n ∈ bl)) as [H1|H1], (decide (n ∈ b :: bl)) as [H2|H2]; [done| | |].
  - destruct H2. by apply list_elem_of_further.
  - apply elem_of_cons in H2 as [->|]; [by rewrite lookup_delete_eq|done].
  - apply lookup_delete_ne. intros ->. apply H2, list_elem_of_here.
Qed.

Lemma unpin_size bl D : (size (unpin bl D) <= size D)%nat.
Proof.
  revert D. induction bl as [|b bl IH]; intros D; simpl; [done|]. etransitivity; [apply IH|].
  rewrite map_size_delete. destruct (D !! b); simpl; lia.
Qed.

Lemma install_spec k0 tr pid D bl data o k :
  since k0 tr pid D ∅ k -> log_at start bl (slog (fs k)) -> unpinned D -> (size D < NBUF)%nat ->
  Z.of_nat (length bl) < nlog -> start + nlog <= Z.of_nat (length (disk (fs k))) ->
  Forall (home start nlog) bl -> Forall (fun b => on_disk b (fs k)) bl -> NoDup bl \/ D = ∅ ->
  (forall b, b ∈ bl -> is_Some (D !! b)) \/ (size D + 1 < NBUF)%nat ->
  length data = length bl -> (forall i x, data !! i = Some x -> disk (fs k) !! logpos start i = Some x) ->
  wp install_trans o k (fun _ k' => since k0 (tr ++ inst_ws bl data) pid (unpin bl D) ∅ k').
Proof.
  intros Hs Hl Hun Hroom Hlen Hdisk Hhome Hon Hnd Hroom2 Hdl Hdata.
  destruct (for_lh_spec (length bl) (fun tail =>
    dev ← get_log lg_dev;
    start ← get_log lg_start;
    lbuf ← bread dev (u32 (start + Z.of_nat tail + 1));
    blk ← get_lh tail;
    dbuf ← bread dev (u32 blk);
    l ← get_buf lbuf;
    upd_buf dbuf (fun d => d <| b_data := b_data l |>);;
    bwrite dbuf;;
    brelse lbuf;;
    brelse dbuf) (fun i k' => since k0 (tr ++ take i (inst_ws bl data)) pid (unpin (take i bl) D) ∅ k') o k) as (k' & E & Hs').
  - intros i k' Hs'. rewrite (since_log _ _ _ _ _ _ Hs'), <- (since_log _ _ _ _ _ _ Hs). apply (la_n _ _ _ Hl).
  - lia.
  - intros i k' Hi Hs'. destruct (lookup_lt_is_Some_2 bl i) as [b Hb]; [lia|]. destruct (lookup_lt_is_Some_2 data i) as [x Hx]; [lia|].
    assert (disk (fs k') = foldl write_block (disk (fs k)) (take i (inst_ws bl data))) as Hd'.
    { by rewrite (since_disk _ _ _ _ _ _ Hs'), foldl_app, (since_disk _ _ _ _ _ _ Hs). }
    pose proof (unpin_size (take i bl) D) as Hsz. apply wp_unit. eapply wp_mono.
    { eapply (install_step _ _ _ _ bl i b x); [exact Hs'| |done| | | | | | |].
      - by rewrite (since_log _ _ _ _ _ _ Hs'), <- (since_log _ _ _ _ _ _ Hs).
      - by eapply Forall_lookup_1.
      - lia.
      - rewrite Hd', run_ne; [by apply Hdata|]. intros w Hw E. destruct (inst_fst bl data w) as (c & Hc & Ew).
        { eapply elem_of_prefix; [exact Hw|]. exists (drop i (inst_ws bl data)). by rewrite take_drop. }
        rewrite Forall_forall in Hhome. destruct (Hhome c Hc) as [Hc0 Hc1]. unfold is_blockno in Hc0. unfold logpos in E. lia.
      - unfold on_disk. rewrite Hd', run_length. eapply (Forall_lookup_1 _ _ _ _ Hon Hb).
      - intros n Hn. rewrite unpin_lookup. case_decide; [done|by apply Hun].
      - lia.
      - destruct Hroom2 as [Hp|]; [|right; lia]. destruct Hnd as [Hnd| ->]; [|right; unfold NBUF in *; rewrite map_size_empty in *; lia].
        left. rewrite unpin_lookup. case_decide as Hin; [|apply Hp; by eapply list_elem_of_lookup_2].
        exfalso. apply list_elem_of_lookup in Hin as (j & Hj). apply lookup_take_Some in Hj as [Hj Hji].
        pose proof (NoDup_lookup _ _ _ _ Hnd Hb Hj). lia. }
    intros [] k2 Hs2. cbv beta in Hs2. rewrite (take_S_r bl _ _ Hb), (take_S_r _ _ (Z.to_nat b, x)).
    + unfold unpin in *. rewrite foldl_snoc. by rewrite app_assoc.
    + unfold inst_ws. by rewrite lookup_zip_with, Hb, Hx.
  - rewrite !take_0, app_nil_r. done.
  - exists tt, k'. split; [exact E|]. rewrite !take_ge in Hs'; [done|lia|]. unfold inst_ws. rewrite length_zip_with. lia.
Qed.

(** ** The whole operations

    They change the cache, the log's state in memory and the disk. *)
Definition advances (k k' : kernel) (tr : list (nat * list Z)) : Prop := moves k k' /\ traced (fs k) (fs k') tr.

Lemma advances_trans k1 k2 k3 t1 t2 : advances k1 k2 t1 -> advances k2 k3 t2 -> advances k1 k3 (t1 ++ t2).
Proof. intros [H1 E1] [H2 E2]. split; [by eapply moves_trans|by eapply traced_trans]. Qed.
Lemma evolves_advances k k' tr : evolves k k' tr -> advances k k' tr.
Proof. by intros [Hm [E _]]. Qed.
Lemma upd_log_advances g o k : exists k', upd_log g o k = Ok tt o k' /\ advances k k' []
  /\ slog (fs k') = g (slog (fs k)) /\ bcache (fs k') = bcache (fs k) /\ disk (fs k') = disk (fs k).
Proof.
  eexists. split; [reflexivity|]. rsimpl. split_and!; try done. split; [apply (moves_refl (fs k <| slog ::= g |>))|].
  split; try done. by rewrite app_nil_r.
Qed.
Lemma advances_disk k k' tr : advances k k' tr -> disk (fs k') = foldl write_block (disk (fs k)) tr.
Proof. intros [_ Ht]. by apply traced_disk. Qed.

Lemma rep_same pid D L f f' : rep pid D L f -> bcache f' = bcache f -> disk f' = disk f -> rep pid D L f'.
Proof.
  intros Hr Hb Hd. destruct (rep_linked _ _ _ _ Hr) as [l Hl].
  apply (rep_core _ _ _ f f' l); [done|done|by rewrite Hb|by rewrite Hb].
Qed.

(** Forgetting the steps so far. *)
Lemma since_now k0 tr pid D L k k' : since k0 tr pid D L k -> moves k k' ->
  bcache (fs k') = bcache (fs k) -> disk (fs k') = disk (fs k) -> since k' [] pid D L k'.
Proof.
  intros [_ Hr Hq Hu] Hm Hb Hd. split; [apply evolves_refl|by eapply rep_same|by eapply moves_quiet|by eapply moves_runs].
Qed.

Lemma pins_size (D : pins) bl : (forall b, is_Some (D !! b) -> b ∈ bl) -> (size D <= length bl)%nat.
Proof.
  intros HD. rewrite <- (size_dom (D := gset Z)). unfold size, set_size, compose.
  apply submseteq_length, NoDup_submseteq; [apply NoDup_elements|]. intros b Hb%elem_of_elements%elem_of_dom. by apply HD.
Qed.

Lemma unpin_all (D : pins) bl : (forall b, is_Some (D !! b) -> b ∈ bl) -> unpin bl D = ∅.
Proof.
  intros HD. apply map_eq. intros n. rewrite unpin_lookup, lookup_empty. case_decide as Hn; [done|].
  destruct (D !! n) eqn:E; [|done]. destruct Hn. apply HD. eauto.
Qed.

(** The header is emptied. *)
Lemma clear_head_spec k0 tr pid bl x o k :
  since k0 tr pid ∅ ∅ k -> log_at start bl (slog (fs k)) -> 0 < nlog -> disk (fs k) !! Z.to_nat start = Some x ->
  wp (upd_log (fun l => l <| lh_n := 0 |>);; write_head) o k (fun _ k' =>
    advances k0 k' (tr ++ [(Z.to_nat start, header [] x)]) /\ rep pid ∅ ∅ (fs k') /\ slog (fs k') = slog (fs k0) <| lh_n := 0 |>).
Proof.
  intros Hs Hl Hn Hx. destruct (upd_log_advances (fun l => l <| lh_n := 0 |>) o k) as (k1 & E1 & Ha1 & Hl1 & Hb1 & Hd1).
  eapply (wp_step _ _ _ _ (fun _ k' => k' = k1)); [by exists tt, k1|]. clear E1. intros [] _ ->.
  pose proof (since_now _ _ _ _ _ _ k1 Hs (proj1 Ha1) Hb1 Hd1) as Hs1.
  assert (log_at start [] (slog (fs k1))) as Hla1 by (destruct Hl as [? ? _ _]; rewrite Hl1; by split).
  eapply wp_mono.
  { apply (write_head_spec k1 [] pid ∅ [] x); try done; [unfold NBUF; rewrite map_size_empty; lia|by rewrite Hd1]. }
  intros [] k2 Hs2; cbv beta in Hs2. split_and!.
  - exact (advances_trans _ _ _ _ _ (evolves_advances _ _ _ (since_ev _ _ _ _ _ _ Hs))
      (advances_trans _ _ _ _ _ Ha1 (evolves_advances _ _ _ (since_ev _ _ _ _ _ _ Hs2)))).
  - by apply (since_rep _ _ _ _ _ _ Hs2).
  - by rewrite (since_log _ _ _ _ _ _ Hs2), Hl1, (since_log _ _ _ _ _ _ Hs).
Qed.

Lemma log_at_cleared bl l : log_at start bl l -> log_at start [] (l <| lh_n := 0 |>).
Proof. intros [? ? _ _]. by split. Qed.

(** A transaction in memory: exactly its blocks are pinned. *)
Definition pinned_txn (D : pins) (bl : list Z) (data : list (list Z)) : Prop :=
  (forall b, is_Some (D !! b) -> b ∈ bl) /\ (forall i b x, bl !! i = Some b -> data !! i = Some x -> D !! b = Some x).

Lemma commit_spec pid D bl data h o k :
  rep pid D ∅ (fs k) -> quiet k -> runs k pid -> log_at start bl (slog (fs k)) -> bl <> [] ->
  txn_ok start nlog bl data (disk (fs k)) h -> pinned_txn D bl data ->
  exists k', commit o k = Ok tt o k' /\ advances k k' (commit_ws start bl data h)
    /\ rep pid ∅ ∅ (fs k') /\ slog (fs k') = slog (fs k) <| lh_n := 0 |>.
Proof.
  intros Hr Hq Hu Hl Hbl Htx [HDin HD]. pose proof (tx_room _ _ _ _ _ _ Htx) as Hlen. pose proof (tx_data _ _ _ _ _ _ Htx) as Hdl.
  pose proof (tx_home _ _ _ _ _ _ Htx) as Hhome. pose proof (tx_fits _ _ _ _ _ _ Htx) as Hfits.
  pose proof (pins_size D bl HDin) as Hsz. assert (size D < NBUF)%nat as Hroom by (unfold NBUF, LOGSIZE, MAXOPBLOCKS in *; lia).
  assert (unpinned D) as Hun.
  { apply home_unpinned. intros b Hb. apply (proj1 (Forall_forall _ _) Hhome), HDin, Hb. }
  assert (forall b, b ∈ bl -> is_Some (D !! b)) as HDbl.
  { intros b (i & Hi)%list_elem_of_lookup. destruct (lookup_lt_is_Some_2 data i) as [x Hx]; [apply lookup_lt_Some in Hi; lia|].
    exists x. by eapply HD. }
  assert (since k [] pid D ∅ k) as Hs by (split; [apply evolves_refl|done..]).
  apply (wp_unit _ _ _ (fun k' => advances k k' (commit_ws start bl data h) /\ rep pid ∅ ∅ (fs k') /\ slog (fs k') = slog (fs k) <| lh_n := 0 |>)).
  unfold commit. eapply wp_step; [apply wp_get_log|]. intros _ _ [-> ->]. rewrite (la_n _ _ _ Hl).
  destruct (Z.ltb_spec 0 (Z.of_nat (length bl))); [|destruct bl; simpl in *; [done|lia]]. cbn [when].
  eapply wp_step; [apply (write_log_spec k [] pid D bl data); (done || lia)|]. intros [] k1 Hs1; cbv beta in Hs1.
  eapply wp_step.
  { eapply (write_head_spec k _ pid D bl h); [exact Hs1|by rewrite (since_log _ _ _ _ _ _ Hs1)|done|done|lia|].
    rewrite (since_disk _ _ _ _ _ _ Hs1), run_ne; [apply (tx_header _ _ _ _ _ _ Htx)|].
    intros w (i & Hi & ->)%(log_ws_fst _ _ _ _ _ _ Htx). unfold logpos. lia. }
  intros [] k2 Hs2; cbv beta in Hs2. pose proof (since_disk _ _ _ _ _ _ Hs2) as Hd2.
  assert (length (disk (fs k2)) = length (disk (fs k))) as Hdl2 by (by rewrite Hd2, run_length).
  destruct (after_header _ _ _ _ _ _ Htx (disk (fs k2)) 0%nat) as (Hh2 & Hdata2 & _); [by rewrite Hd2, take_0, app_nil_r|].
  eapply wp_step.
  { eapply (install_spec k _ pid D bl data); [exact Hs2|..]; try done.
    - by rewrite (since_log _ _ _ _ _ _ Hs2).
    - lia.
    - by rewrite Hdl2.
    - rewrite Forall_forall. intros b Hb. unfold on_disk. rewrite Hdl2.
      pose proof (proj1 (Forall_forall _ _) (tx_range _ _ _ _ _ _ Htx) b Hb). cbv beta in *.
      destruct (proj1 (Forall_forall _ _) Hhome b Hb) as [[? ?] _]. lia.
    - left. apply (tx_nodup _ _ _ _ _ _ Htx).
    - by left. }
  intros [] k3 Hs3; cbv beta in Hs3. rewrite (unpin_all D bl HDin) in Hs3.
  eapply wp_mono; [eapply (clear_head_spec k _ pid bl (header bl h)); [exact Hs3| |lia|]|].
  - by rewrite (since_log _ _ _ _ _ _ Hs3).
  - rewrite (since_disk _ _ _ _ _ _ Hs3). rewrite !foldl_app in *. rewrite run_ne; [by rewrite <- Hd2|].
    intros w (b & Hb & ->)%inst_fst E. apply (home_ne_start _ _ _ _ _ _ Htx b); [|done].
    by apply (proj1 (Forall_forall _ _) Hhome).
  - intros [] k5 Hs5. unfold commit_ws. simpl in Hs5 |- *. by rewrite <- !app_assoc in Hs5.
Qed.

(** The log's state while [read_head] fills it. *)
Record reading (x : list Z) (i : nat) (l : log) : Prop := {
  rd_dev : lg_dev l = 1;
  rd_start : lg_start l = start;
  rd_n : lh_n l = count_of x;
  rd_len : length (lh_block l) = Z.to_nat LOGSIZE;
  rd_block : forall j, (j < i)%nat -> lh_block l !! j = Some (entry x j)
}.

Lemma reading_step x i l : reading x i l -> (i < Z.to_nat LOGSIZE)%nat ->
  reading x (S i) (l <| lh_block ::= <[i := entry x i]> |>).
Proof.
  intros [Hd Hs Hn Hl Hb] Hi. split; rsimpl; try done; [by rewrite length_insert|].
  intros j Hj. destruct (decide (j = i)) as [->|]; [apply list_lookup_insert_eq; lia|].
  rewrite list_lookup_insert_ne by done. apply Hb. lia.
Qed.

Lemma reading_done x l : 0 <= count_of x -> reading x (Z.to_nat (count_of x)) l -> log_at start (logged x) l.
Proof.
  intros Hc [Hd Hs Hn _ Hb]. unfold logged. split; [done|done| |].
  - rewrite length_fmap, length_seq. lia.
  - intros i b Hi. apply list_lookup_fmap_Some in Hi as (j & -> & Hj). apply lookup_seq in Hj as [-> Hj]. by apply Hb.
Qed.

(** A step that changes only the log's state in memory. *)
Definition relogs (k k' : kernel) : Prop := exists l, k' = k <| fs ::= fun f => f <| slog := l |> |>.

Lemma since_relogs k0 tr pid D L k k' : since k0 tr pid D L k -> relogs k k' -> since k' [] pid D L k' /\ advances k k' [].
Proof.
  intros Hs (l & ->). pose proof (moves_refl (fs k <| slog := l |>) k) as Hm. split; [by eapply (since_now _ _ _ _ _ k)|].
  split; [exact Hm|]. split; try done. by rewrite app_nil_r.
Qed.

Lemma read_head_spec pid o k x :
  rep pid ∅ ∅ (fs k) -> quiet k -> runs k pid -> lg_dev (slog (fs k)) = 1 -> lg_start (slog (fs k)) = start ->
  length (lh_block (slog (fs k))) = Z.to_nat LOGSIZE -> disk (fs k) !! Z.to_nat start = Some x -> 0 <= count_of x < nlog ->
  exists k', read_head o k = Ok tt o k' /\ advances k k' [] /\ since k' [] pid ∅ ∅ k' /\ log_at start (logged x) (slog (fs k')).
Proof.
  intros Hr Hq Hu Hdev Hst Hll Hx Hc. assert (since k [] pid ∅ ∅ k) as Hs by (split; [apply evolves_refl|done..]).
  apply (wp_unit _ _ _ (fun k' => advances k k' [] /\ since k' [] pid ∅ ∅ k' /\ log_at start (logged x) (slog (fs k')))).
  eapply wp_step; [apply wp_get_log|]. intros _ _ [-> ->]. eapply wp_step; [apply wp_get_log|]. intros _ _ [-> ->].
  rewrite Hdev, Hst. pose proof (lookup_lt_Some _ _ _ Hx) as Hlt. rewrite u32_small by (unfold is_u32; lia). eapply wp_step.
  { apply (wp_bread_clean _ _ _ _ _ _ _ Hs start x); [done|done|done|apply not_held_empty|]. unfold NBUF. rewrite !map_size_empty. lia. }
  intros t k1 [Hs1 _]. eapply wp_step; [apply (wp_get_buf _ _ _ _ _ _ _ Hs1 t start false x); by simplify_map_eq|].
  intros bt _ (-> & Hbt & _). rewrite Hbt.
  apply (wp_step _ _ _ _ (fun _ k' => relogs k1 k' /\ reading x 0 (slog (fs k')))).
  { eexists tt, _. split; [reflexivity|]. rewrite <- (since_log _ _ _ _ _ _ Hs1) in *. split.
    - exists (slog (fs k1) <| lh_n := count_of x |>). kernel_eq.
    - rsimpl. split; rsimpl; try done. lia. }
  intros [] k2 [Hrl2 Hrd2].
  destruct (for_lh_spec (Z.to_nat (count_of x)) (fun i => set_lh i (s32 (get_u32 (4 + 4 * i) x)))
    (fun i k' => relogs k1 k' /\ reading x i (slog (fs k'))) o k2) as (k3 & E3 & Hrl3 & Hrd3).
  - intros i k' [_ Hrd]. rewrite (rd_n _ _ _ Hrd). lia.
  - lia.
  - intros i k' Hi [(l & ->) Hrd]. rsimpl. unfold set_lh.
    destruct (lookup_lt_is_Some_2 (lh_block l) i) as [y Hy]; [rewrite (rd_len _ _ _ Hrd); lia|].
    erewrite bind_ok by (apply deref_some; by rsimpl). eexists. split; [reflexivity|].
    split; [by exists (l <| lh_block ::= <[i := entry x i]> |>)|]. rsimpl. apply reading_step; [done|lia].
  - done.
  - apply (wp_step _ _ _ _ (fun _ k' => k' = k3)); [by exists tt, k3|]. clear E3. intros [] _ ->.
    destruct (since_relogs _ _ _ _ _ _ _ Hs1 Hrl3) as [Hs3 Ha3].
    eapply wp_mono; [apply (wp_brelse_clean _ _ _ _ _ _ _ Hs3 t start x); [by simplify_map_eq|]|].
    { rewrite (advances_disk _ _ _ Ha3). simpl. by rewrite (since_disk _ _ _ _ _ _ Hs1). }
    intros [] k4 Hs4; cbv beta in Hs4. released Hs4 t t. split_and!.
    + exact (advances_trans _ _ _ _ _ (evolves_advances _ _ _ (since_ev _ _ _ _ _ _ Hs1))
        (advances_trans _ _ _ _ _ Ha3 (evolves_advances _ _ _ (since_ev _ _ _ _ _ _ Hs4)))).
    + split; [apply evolves_refl|apply Hs4..].
    + rewrite (since_log _ _ _ _ _ _ Hs4). apply reading_done; [lia|done].
Qed.

Lemma recover_spec pid o k :
  rep pid ∅ ∅ (fs k) -> quiet k -> runs k pid -> lg_dev (slog (fs k)) = 1 -> lg_start (slog (fs k)) = start ->
  length (lh_block (slog (fs k))) = Z.to_nat LOGSIZE -> start + nlog <= Z.of_nat (length (disk (fs k))) ->
  log_ok start nlog (disk (fs k)) ->
  exists k', recover_from_log o k = Ok tt o k' /\ advances k k' (rec_ws start (disk (fs k)))
    /\ rep pid ∅ ∅ (fs k') /\ log_at start [] (slog (fs k')).
Proof.
  intros Hr Hq Hu Hdev Hst Hll Hfits (x & Hx & Hxl & Hc & Hlog).
  destruct (read_head_spec pid o k x) as (k1 & E1 & Ha1 & Hs1 & Hl1); [done..|].
  apply (wp_unit _ _ _ (fun k' => advances k k' (rec_ws start (disk (fs k))) /\ rep pid ∅ ∅ (fs k') /\ log_at start [] (slog (fs k')))).
  apply (wp_step _ _ _ _ (fun _ k' => k' = k1)); [by exists tt, k1|]. clear E1. intros [] _ ->.
  pose proof (advances_disk _ _ _ Ha1) as Hd1. simpl in Hd1. set (bl := logged x) in *.
  assert (length bl = Z.to_nat (count_of x)) as Hbl by (unfold bl, logged; by rewrite length_fmap, length_seq).
  apply Forall_and in Hlog as [Hhome Hrange].
  set (data := (fun i => disk (fs k) !!! logpos start i) <$> seq 0 (length bl)).
  assert (length data = length bl) as Hdl by (unfold data; by rewrite length_fmap, length_seq).
  eapply wp_step.
  { apply (install_spec k1 [] pid ∅ bl data); try done.
    - unfold NBUF. rewrite map_size_empty. lia.
    - lia.
    - by rewrite Hd1.
    - rewrite Forall_forall. intros b Hb. unfold on_disk. rewrite Hd1.
      pose proof (proj1 (Forall_forall _ _) Hrange b Hb). cbv beta in *.
      destruct (proj1 (Forall_forall _ _) Hhome b Hb) as [[? ?] _]. lia.
    - by right.
    - right. unfold NBUF. rewrite map_size_empty. lia.
    - intros i y Hi. apply list_lookup_fmap_Some in Hi as (j & -> & Hj). apply lookup_seq in Hj as [-> Hj].
      rewrite Hd1. apply list_lookup_lookup_total_lt. unfold logpos. lia. }
  intros [] k2 Hs2; cbv beta in Hs2. rewrite unpin_all in Hs2 by (intros b [? E]; by rewrite lookup_empty in E).
  eapply wp_mono; [eapply (clear_head_spec k1 _ pid bl x); [exact Hs2| |lia|]|].
  - by rewrite (since_log _ _ _ _ _ _ Hs2).
  - rewrite (since_disk _ _ _ _ _ _ Hs2). simpl. rewrite run_ne; [by rewrite Hd1|].
    intros w (b & Hb & ->)%inst_fst E. destruct (proj1 (Forall_forall _ _) Hhome b Hb) as [[? ?] ?]. lia.
  - intros [] k3 (Ha & Hr3 & Hl3). split; [|split; [done|rewrite Hl3; by eapply log_at_cleared]]. unfold rec_ws. rewrite (list_lookup_total_correct _ _ _ Hx).
    exact (advances_trans _ _ _ _ _ Ha1 Ha).
Qed.

(** The last operation of a transaction ends: it commits. *)
Lemma end_op_spec pid D bl data h o k :
  rep pid D ∅ (fs k) -> quiet k -> runs k pid -> log_at start bl (slog (fs k)) -> bl <> [] ->
  lg_outstanding (slog (fs k)) = 1 -> lg_committing (slog (fs k)) = 0 ->
  txn_ok start nlog bl data (disk (fs k)) h -> pinned_txn D bl data ->
  exists k', end_op o k = Ok tt o k' /\ advances k k' (commit_ws start bl data h)
    /\ rep pid ∅ ∅ (fs k') /\ log_at start [] (slog (fs k'))
    /\ lg_outstanding (slog (fs k')) = 0 /\ lg_committing (slog (fs k')) = 0.
Proof.
  intros Hr Hq Hu Hl Hbl Ho Hc Htx HD. pose proof Hq as (Hqp & _ & Hql & _).
  set (l1 := slog (fs k) <| lg_outstanding := 0 |> <| lg_committing := 1 |>).
  set (k1 := k <| fs ::= fun f => f <| slog := l1 |> |>).
  assert (since k [] pid D ∅ k) as Hs by (split; [apply evolves_refl|done..]).
  destruct (since_relogs _ _ _ _ _ _ k1 Hs) as [Hs1 Ha1]; [by exists l1|].
  destruct (commit_spec pid D bl data h o k1) as (k2 & E2 & Ha2 & Hr2 & Hl2); try apply Hs1; try done; [by destruct Hl|].
  assert (quiet k2) as Hq2 by (eapply moves_quiet; [apply Ha2|]; apply Hs1). destruct Hq2 as (Hqp2 & _ & Hql2 & _).
  eexists. split.
  - unfold end_op. mbind_step. mbind_step. mbind_step. unfold id. rsimpl. rewrite Ho, Hc. change (s32 (1 - 1)) with 0. cbn [Z.eqb negb].
    rewrite bind_assoc. mbind_step. mbind_step. erewrite bind_ok by (apply release_locked; solve_lock). cbn [when].
    erewrite bind_ok.
    2:{ rewrite <- E2. f_equal. unfold k1, l1. kernel_eq. destruct (fs k); simpl in *. unfold setf. simpl. by rewrite Ho. }
    mbind_step. mbind_step. erewrite bind_ok by (apply Sched.wakeup_eq; solve_lock). apply release_locked. solve_lock.
  - rsimpl. rewrite Hl2. unfold k1, l1. rsimpl. split_and!; try done.
    + rewrite <- (app_nil_r (commit_ws start bl data h)).
      apply (advances_trans k k1 _ [] _ Ha1), (advances_trans k1 k2 _ _ [] Ha2). split.
      * exists (Sched.wakeup1_proc CLog <$> ptable k2). split; [apply rtc_once; eauto|]. kernel_eq.
      * split; try done. by rewrite app_nil_r.
    + eapply rep_same; [exact Hr2|done..].
    + destruct Hl as [? ? _ _]. by split.
Qed.

(** The blocks of the transaction after one more write: a block written twice is
    logged once. *)
Definition absorb (n : Z) (bl : list Z) : list Z := if decide (n ∈ bl) then bl else bl ++ [n].

Lemma log_at_take bl l : log_at start bl l -> length (lh_block l) = Z.to_nat LOGSIZE -> Z.of_nat (length bl) <= LOGSIZE ->
  take (Z.to_nat (lh_n l)) (lh_block l) = bl.
Proof.
  intros [_ _ Hn Hb] Hlen Hle. rewrite Hn, Nat2Z.id. apply list_eq. intros i. destruct (decide (i < length bl)%nat) as [Hi|Hi].
  - rewrite lookup_take_lt by done. destruct (lookup_lt_is_Some_2 _ _ Hi) as [b E]. rewrite E. by apply Hb.
  - rewrite lookup_take_ge by lia. symmetry. apply lookup_ge_None_2. lia.
Qed.

Lemma u32_s32_blockno b : is_blockno b -> u32 b = b /\ s32 b = b.
Proof.
  intros Hb. unfold is_blockno in Hb. split; [apply u32_small; unfold is_u32; lia|apply s32_small; unfold is_s32; lia].
Qed.

Lemma lh_index_absorb n bl l : log_at start bl l -> length (lh_block l) = Z.to_nat LOGSIZE -> Z.of_nat (length bl) < LOGSIZE ->
  Forall is_blockno bl -> is_blockno n ->
  let i := lh_index n l in
  let l' := l <| lh_block ::= <[i := s32 n]> |> in
  is_Some (lh_block l !! i) /\
  log_at start (absorb n bl) (if Z.of_nat i =? lh_n l then l' <| lh_n ::= fun x => s32 (x + 1) |> else l').
Proof.
  intros Hl Hlen Hle Hbl Hn. assert (Z.of_nat (length bl) <= LOGSIZE) as Hle' by lia.
  pose proof (log_at_take bl l Hl Hlen Hle') as Ht. pose proof Hl as [Hd Hs Hln Hb].
  unfold lh_index. rewrite Ht. destruct (u32_s32_blockno n Hn) as [_ ->]. unfold absorb.
  destruct (list_find (fun x => u32 x = n) bl) as [[i x]|] eqn:E.
  - apply list_find_Some in E as (Hi & Hx & _). pose proof (Forall_lookup_1 _ _ _ _ Hbl Hi) as Hxb.
    destruct (u32_s32_blockno x Hxb) as [Hxu _]. assert (x = n) as -> by congruence. simpl.
    pose proof (lookup_lt_Some _ _ _ Hi) as Hlt. pose proof (Hb i n Hi) as Hbi. split; [eauto|].
    rewrite decide_True by (by eapply list_elem_of_lookup_2). destruct (Z.eqb_spec (Z.of_nat i) (lh_n l)); [lia|].
    split; rsimpl; try done. intros j c Hj. by rewrite list_insert_id; [apply Hb|].
  - apply list_find_None in E. rewrite Hln, Nat2Z.id, Z.eqb_refl. simpl. split.
    { apply lookup_lt_is_Some_2. lia. }
    rewrite decide_False.
    2:{ intros Hin. rewrite Forall_forall in E, Hbl. apply (E n Hin). by apply u32_s32_blockno. }
    split; rsimpl; try done.
    + rewrite Hln, length_app. simpl. rewrite s32_small; [lia|]. unfold is_s32, LOGSIZE, MAXOPBLOCKS in *. lia.
    + intros j c Hj. apply lookup_app_Some in Hj as [Hj|[Hge Hj]].
      * rewrite list_lookup_insert_ne; [by apply Hb|]. apply lookup_lt_Some in Hj. lia.
      * apply list_lookup_singleton_Some in Hj as [Hj <-]. replace j with (length bl) by lia. apply list_lookup_insert_eq. lia.
Qed.

Lemma log_write_spec k0 tr pid D L bl i n dt d o k :
  since k0 tr pid D L k -> log_at start bl (slog (fs k)) -> length (lh_block (slog (fs k))) = Z.to_nat LOGSIZE ->
  Z.of_nat (length bl) < LOGSIZE -> Z.of_nat (length bl) < lg_size (slog (fs k)) - 1 -> 1 <= lg_outstanding (slog (fs k)) ->
  Forall is_blockno bl -> is_blockno n -> L !! i = Some (n, dt, d) ->
  exists k', log_write i o k = Ok tt o k' /\ advances k k' [] /\ since k' [] pid D (<[i := (n, true, d)]> L) k'
    /\ log_at start (absorb n bl) (slog (fs k')) /\ lg_outstanding (slog (fs k')) = lg_outstanding (slog (fs k))
    /\ lg_committing (slog (fs k')) = lg_committing (slog (fs k)) /\ lg_size (slog (fs k')) = lg_size (slog (fs k))
    /\ length (lh_block (slog (fs k'))) = length (lh_block (slog (fs k))).
Proof.
  intros Hs Hl Hlen Hle Hsz Hout Hbl Hn HL. pose proof (since_quiet _ _ _ _ _ _ Hs) as (_ & _ & Hql & _).
  destruct (lh_index_absorb n bl (slog (fs k)) Hl Hlen Hle Hbl Hn) as [Hi Hl'].
  destruct (rep_holds _ _ _ _ _ _ _ _ (since_rep _ _ _ _ _ _ Hs) HL) as (b & _ & Hb & [_ Hbn] & _).
  set (j := lh_index n (slog (fs k))) in *. set (l' := if Z.of_nat j =? lh_n (slog (fs k)) then _ else _) in Hl'.
  set (k1 := k <| fs ::= fun f => f <| slog := l' |> |>).
  destruct (since_relogs _ _ _ _ _ _ k1 Hs) as [Hs1 Ha1]; [by exists l'|].
  destruct (pin_spec pid D L i n dt d o k1 (since_rep _ _ _ _ _ _ Hs1) HL) as (k2 & E2 & He2 & Hr2).
  exists k2. split_and!.
  - unfold log_write. mbind_step. unfold id. rewrite (la_n _ _ _ Hl).
    destruct (Z.leb_spec LOGSIZE (Z.of_nat (length bl))); [lia|]. destruct (Z.leb_spec (lg_size (slog (fs k)) - 1) (Z.of_nat (length bl))); [lia|].
    cbn [orb]. destruct (Z.ltb_spec (lg_outstanding (slog (fs k))) 1); [lia|].
    mbind_step. erewrite bind_ok by (by apply get_buf_eq). mbind_step. rsimpl.
    rewrite Hbn. fold j. unfold set_lh. destruct Hi as [y Hy]. rewrite bind_assoc.
    erewrite bind_ok by (apply deref_some; rsimpl; exact Hy). mbind_step.
    erewrite bind_ok.
    2:{ unfold when, upd_log, upd_fs, modify, mret, M_ret. instantiate (1 := k1 <| locks ::= <[LLog := Me]> |>). instantiate (1 := o). instantiate (1 := tt).
        unfold k1, l'. destruct (Z.of_nat j =? lh_n (slog (fs k))); f_equal; kernel_eq; by destruct (fs k). }
    mbind_step. rewrite release_locked by (unfold k1; solve_lock).
    injection E2 as <-. unfold k1. f_equal. kernel_eq.
  - exact (advances_trans _ _ _ _ _ Ha1 (evolves_advances _ _ _ He2)).
  - pose proof (since_step' _ _ _ _ _ _ _ _ _ Hs1 He2 Hr2) as [_ ? ? ?]. split; [apply evolves_refl|done..].
  - by rewrite (evolves_log _ _ _ He2).
  - rewrite (evolves_log _ _ _ He2). unfold k1, l'. rsimpl. by case_match.
  - rewrite (evolves_log _ _ _ He2). unfold k1, l'. rsimpl. by case_match.
  - rewrite (evolves_log _ _ _ He2). unfold k1, l'. rsimpl. by case_match.
  - rewrite (evolves_log _ _ _ He2). unfold k1, l'. rsimpl. case_match; rsimpl; by rewrite length_insert.
Qed.

End log_area.
(** A system call is admitted when its blocks surely fit in the log. *)
Lemma begin_op_spec o k : unlocked LLog k -> lg_committing (slog (fs k)) = 0 ->
  s32 (lh_n (slog (fs k)) + (lg_outstanding (slog (fs k)) + 1) * MAXOPBLOCKS) <= LOGSIZE ->
  begin_op o k = Ok tt o (k <| fs ::= fun f => f <| slog ::= fun l => l <| lg_outstanding ::= fun n => s32 (n + 1) |> |> |>).
Proof.
  intros Hu Hc Hn. unfold begin_op. mbind_step. apply repeat_once. mbind_step. unfold id. rsimpl. rewrite Hc. cbn [Z.eqb negb].
  destruct (Z.ltb_spec LOGSIZE (s32 (lh_n (slog (fs k)) + (lg_outstanding (slog (fs k)) + 1) * MAXOPBLOCKS))); [lia|].
  mbind_step. mbind_step. unfold mret, M_ret. f_equal. kernel_eq.
Qed.

Lemma s32_add_mul a b c : s32 (a + s32 b * c) = s32 (a + b * c).
Proof.
  assert (forall z, s32 z mod 2 ^ 32 = z mod 2 ^ 32) as Hm.
  { intros z. unfold s32. pose proof (Z.mod_pos_bound z (2 ^ 32) ltac:(lia)).
    destruct (z mod 2 ^ 32 <? 2 ^ 31); [by rewrite Z.mod_mod|].
    rewrite Zminus_mod, Z_mod_same_full, Z.sub_0_r, !Z.mod_mod by lia. done. }
  assert ((a + s32 b * c) mod 2 ^ 32 = (a + b * c) mod 2 ^ 32) as E.
  { rewrite Z.add_mod, Z.mul_mod, Hm, <- Z.mul_mod, <- Z.add_mod by lia. done. }
  unfold s32 at 1 3. by rewrite E.
Qed.

(** C26. A system call starts its transaction only when the log has room for it:
    whatever the other threads do while it waits, begin_op returns in a state in
    which no commit is running and the blocks in the log, with [MAXOPBLOCKS] for each
    outstanding system call, this one included, fit in it; holding the lock of the log
    it has counted itself in, and then given up the lock, with nothing else changed. *)
Theorem begin_op_reserves o k o' k' : begin_op o k = Ok tt o' k' ->
  let l := slog (fs k') in lg_committing l = 0 /\ s32 (lh_n l + lg_outstanding l * MAXOPBLOCKS) <= LOGSIZE /\
  exists k1, locked LLog k1 /\
    k' = k1 <| fs ::= (fun f => f <| slog ::= (fun l => l <| lg_outstanding ::= (fun n => s32 (n + 1)) |>) |>) |>
            <| locks ::= delete LLog |>.
Proof.
  unfold begin_op, repeat_until. intros ([] & o1 & k1 & _ & E)%bind_ok_inv.
  revert E. generalize (S (length o1)) as n. intros n. revert o1 k1. induction n as [|n IH]; intros o1 k1; simpl; [done|].
  intros (r & o2 & k2 & E & Hr)%bind_ok_inv. apply bind_ok_inv in E as (l & o3 & k3 & [= <- <- <-] & E). unfold id in E.
  destruct (negb (lg_committing (slog (fs k1)) =? 0)) eqn:Hc.
  { apply bind_ok_inv in E as (? & ? & ? & _ & [= <- <- <-]). by apply IH in Hr. }
  destruct (Z.ltb_spec LOGSIZE (s32 (lh_n (slog (fs k1)) + (lg_outstanding (slog (fs k1)) + 1) * MAXOPBLOCKS))) as [Hn|Hn].
  { apply bind_ok_inv in E as (? & ? & ? & _ & [= <- <- <-]). by apply IH in Hr. }
  apply bind_ok_inv in E as (? & ? & ? & [= <- <- <-] & E). apply bind_ok_inv in E as ([] & o4 & k4 & E & [= <- <- <-]).
  injection Hr as -> ->. unfold release in E.
  apply bind_ok_inv in E as (? & ? & ? & [= <- <- <-] & E). case_match; [|done]. injection E as <- <-. simpl. rsimpl.
  rewrite s32_add_mul. apply negb_false_iff, Z.eqb_eq in Hc. split_and!; [done|done|]. exists k1. split; [|done].
  by eapply bool_decide_eq_true.
Qed.

(** What the blocks of a transaction are once it is installed. *)
Lemma installed_content start nlog D bl data h f b :
  txn_ok start nlog bl data (disk f) h -> pinned_txn D bl data -> home start nlog b ->
  foldl write_block (disk f) (inst_ws bl data) !! Z.to_nat b = content D f b.
Proof.
  intros Htx [HDin HD] Hb. pose proof (tx_data _ _ _ _ _ _ Htx) as Hdl. unfold content.
  pose proof (tx_blockno _ _ _ _ _ _ Htx) as Hbl. destruct (decide (b ∈ bl)) as [(j & Hj)%list_elem_of_lookup|Hn].
  - destruct (lookup_lt_is_Some_2 data j) as [x Hx]; [apply lookup_lt_Some in Hj; lia|]. rewrite (HD j b x Hj Hx).
    pose proof (Forall_lookup_1 _ _ _ _ (tx_range _ _ _ _ _ _ Htx) Hj) as Hr. cbv beta in Hr. destruct Hb as [[? ?] _].
    apply (run_inst _ bl data j); [apply (tx_nodup _ _ _ _ _ _ Htx)|done..|lia].
  - destruct (D !! b) eqn:E; [destruct Hn; apply HDin; eauto|]. apply run_ne.
    intros w (c & Hc & ->)%inst_fst Ec. rewrite Forall_forall in Hbl. specialize (Hbl c Hc). destruct Hb as [Hb0 _].
    unfold is_blockno in *. assert (c = b) as -> by lia. done.
Qed.

(** C1. Transactions survive a crash entirely or not at all.  When the last
    outstanding operation ends, end_op commits: afterwards every block outside the
    log has on disk the contents the transaction gave it.  And if the machine stops
    after any prefix of the disk writes commit makes, recover_from_log at the next
    boot returns, with every block outside the log as it was before the transaction,
    or every one as it is after it. *)
Theorem end_op_crash_safe start nlog pid D bl data h o k :
  0 <= start -> start + nlog <= 2 ^ 31 -> nlog <= LOGSIZE ->
  rep pid D ∅ (fs k) -> quiet k -> runs k pid -> log_at start bl (slog (fs k)) -> bl <> [] ->
  lg_outstanding (slog (fs k)) = 1 -> lg_committing (slog (fs k)) = 0 ->
  txn_ok start nlog bl data (disk (fs k)) h -> pinned_txn D bl data ->
  exists k' ws, end_op o k = Ok tt o k' /\ d_trace (fs k') = d_trace (fs k) ++ ws
    /\ rep pid ∅ ∅ (fs k') /\ lg_outstanding (slog (fs k')) = 0 /\ lg_committing (slog (fs k')) = 0
    /\ (forall b, home start nlog b -> disk (fs k') !! Z.to_nat b = content D (fs k) b)
    /\ forall pre pid' o' kb, pre `prefix_of` ws ->
       disk (fs kb) = foldl write_block (disk (fs k)) pre -> rep pid' ∅ ∅ (fs kb) -> quiet kb -> runs kb pid' ->
       lg_dev (slog (fs kb)) = 1 -> lg_start (slog (fs kb)) = start -> length (lh_block (slog (fs kb))) = Z.to_nat LOGSIZE ->
       exists k'', recover_from_log o' kb = Ok tt o' k'' /\ rep pid' ∅ ∅ (fs k'')
         /\ ((forall b, home start nlog b -> disk (fs k'') !! Z.to_nat b = disk (fs k) !! Z.to_nat b)
             \/ (forall b, home start nlog b -> disk (fs k'') !! Z.to_nat b = content D (fs k) b)).
Proof.
  intros Hst Hsm Hnl Hr Hq Hu Hl Hbl Ho Hc Htx HD.
  destruct (end_op_spec start nlog Hst Hsm Hnl pid D bl data h o k) as (k' & E & Ha & Hr' & _ & Ho' & Hc'); [done..|].
  pose proof (crash_cases _ _ _ _ _ _ Htx) as Hcr. pose proof (fun b => installed_content start nlog D bl data h (fs k) b Htx HD) as Hins.
  exists k', (commit_ws start bl data h). split_and!; try done; [apply Ha| |].
  - intros b Hb. rewrite (advances_disk _ _ _ Ha), <- (Hins b Hb). by apply (commit_result _ _ _ _ _ _ Htx).
  - intros pre pid' o' kb Hpre Hd Hrb Hqb Hub Hdb Hsb Hlb. specialize (Hcr pre Hpre). rewrite <- Hd in Hcr.
    assert (length (disk (fs kb)) = length (disk (fs k))) as Hlen by (by rewrite Hd, run_length).
    destruct (recover_spec start nlog Hst Hsm Hnl pid' o' kb) as (k'' & E'' & Ha'' & Hr'' & _); try done.
    { rewrite Hlen. apply (tx_fits _ _ _ _ _ _ Htx). }
    { by eapply crash_log_ok. }
    exists k''. split_and!; [done|done|]. rewrite (advances_disk _ _ _ Ha'').
    destruct (crash_recovers _ _ _ _ _ _ Htx _ Hcr Hlen) as [Hold|Hnew]; [by left|right].
    intros b Hb. rewrite <- (Hins b Hb). by apply Hnew.
Qed.

End with_layout.
End Commit.

(** * A transaction on a small disk *)

Module CrashExample.
Import Header Txn Log Cache Sleeplock Bio Commit.
#[local] Existing Instance Kalloc.small_layout.

Definition zeros : list Z := replicate (Z.to_nat BSIZE) 0.
Definition ones : list Z := replicate (Z.to_nat BSIZE) 1.

(** Forty empty blocks, with a log of 30 blocks from block 2 on. *)
Definition booted : kernel :=
  Sched.small_kernel <| fs ::= fun f => f <| d_image := replicate 40 zeros |>
    <| slog ::= fun l => l <| lg_dev := 1 |> <| lg_start := 2 |> <| lg_size := 30 |> |> |>.

Lemma booted_state : exists k, since k [] 1 ∅ ∅ k /\ slog (fs k) = slog (fs booted) /\ disk (fs k) = replicate 40 zeros.
Proof.
  destruct (binit_spec 1 [] booted) as (ls & bs & _ & Hls & _ & Hr); [done|by apply Forall_replicate|].
  exists (booted <| locks := ls |> <| fs ::= fun f => f <| bcache := bs |> |>). split; [|done].
  assert (ls = ∅) as ->.
  { apply map_eq. intros l. rewrite lookup_empty. destruct (ls !! l) as [h|] eqn:E; [|done]. apply Hls in E. by vm_compute in E. }
  split; [apply evolves_refl|exact Hr|done|]. by exists 0%nat, Sched.running_proc.
Qed.

(** The state in which the block 35 was written in a transaction. *)
Lemma written_state : exists k, rep 1 {[35 := ones]} ∅ (fs k) /\ quiet k /\ runs k 1 /\ log_at 2 [35] (slog (fs k))
  /\ lg_outstanding (slog (fs k)) = 1 /\ lg_committing (slog (fs k)) = 0 /\ disk (fs k) = replicate 40 zeros.
Proof.
  destruct booted_state as (k0 & Hs0 & Hl0 & Hd0).
  set (k1 := k0 <| fs ::= fun f => f <| slog ::= fun l => l <| lg_outstanding := 1 |> |> |>).
  destruct (since_relogs _ _ _ _ _ _ k1 Hs0) as [Hs1 Ha1]; [by eexists|].
  assert (disk (fs k1) = replicate 40 zeros) as Hd1 by exact Hd0.
  assert (slog (fs k1) = slog (fs booted) <| lg_outstanding := 1 |>) as Hl1 by (unfold k1; rsimpl; by rewrite Hl0).
  destruct (wp_bread_clean _ _ _ _ _ [] _ Hs1 35 zeros) as (i & k2 & _ & Hs2 & _); [done|lia|by rewrite Hd1|apply not_held_empty|by vm_compute; lia|].
  destruct (wp_set _ _ _ _ _ [] _ Hs2 i 35 false zeros (fun _ => ones)) as ([] & k3 & _ & Hs3); [by rewrite lookup_insert_eq|done|].
  cbv beta in Hs3. rewrite insert_insert_eq in Hs3.
  pose proof (since_log _ _ _ _ _ _ Hs3) as Hl3. rewrite Hl1 in Hl3.
  destruct (log_write_spec 2 _ _ _ _ _ [] i 35 false ones [] k3 Hs3) as (k4 & _ & Ha4 & Hs4 & Hl4 & Ho4 & Hc4 & _); rewrite ?Hl3; try done.
  { by rewrite lookup_insert_eq. }
  rewrite insert_insert_eq in Hs4.
  destruct (wp_brelse_pinned _ _ _ _ _ [] _ Hs4 i 35 ones) as ([] & k5 & _ & Hs5); [by rewrite lookup_insert_eq|].
  rewrite delete_insert_id in Hs5 by done.
  exists k5. rewrite (since_log _ _ _ _ _ _ Hs5), Ho4, Hc4, Hl3. destruct Hs5 as [He Hr Hq Hu]. split_and!; try done.
  rewrite (evolves_disk _ _ _ He), (advances_disk _ _ _ Ha4), (since_disk _ _ _ _ _ _ Hs3), Hd1. done.
Qed.

Lemma end_op_crash_safe_witness : exists k k', disk (fs k) !! 35%nat = Some zeros /\ end_op [] k = Ok tt [] k'
  /\ disk (fs k') !! 35%nat = Some ones.
Proof.
  destruct written_state as (k & Hr & Hq & Hu & Hl & Ho & Hc & Hd).
  destruct (end_op_crash_safe 2 30 1 {[35 := ones]} [35] [ones] zeros [] k) as (k' & ws & E & _ & _ & _ & _ & Hnew & _); try done.
  - rewrite Hd. split; try done.
    + apply NoDup_singleton.
    + apply Forall_singleton. split; [done|lia].
    + by apply Forall_singleton.
  - split.
    + intros b [x Hx]. apply lookup_singleton_Some in Hx as [<- _]. constructor.
    + intros [|i] b x Hb Hx; simplify_eq/=. by rewrite lookup_singleton_eq.
  - exists k, k'. split; [by rewrite Hd|]. split; [exact E|]. apply (Hnew 35). split; [done|]. right. lia.
Defined.

Lemma begin_op_reserves_witness : exists k', begin_op [] booted = Ok tt [] k' /\ lg_committing (slog (fs k')) = 0.
Proof.
  eexists. assert (begin_op [] booted = Ok tt [] _) as E by (apply begin_op_spec; [done|done|by vm_compute]).
  split; [exact E|]. exact (proj1 (begin_op_reserves _ _ _ _ E)).
Defined.

Lemma cache_refines_witness : exists k i k', run_cop (CRead 35) [] k = Ok (Some i) [] k'
  /\ represents 1 (mkStore (replicate 40 zeros) ∅ {[i := (35, false, zeros)]}) (fs k').
Proof.
  destruct booted_state as (k & [_ Hr Hq Hu] & _ & Hd).
  destruct (cache_refines 1 (mkStore (replicate 40 zeros) ∅ ∅) (CRead 35) [] k) as (r & s' & k' & E & Hc & Hr' & _); [done| |done|done|].
  - split; [done|]. split; [apply not_held_empty|]. right. by vm_compute; lia.
  - inversion Hc as [n i d Hi Hx| | | | |]; subst. exists k, i, k'. split; [done|].
    cbn [st_disk st_pins st_held] in Hx, Hr'. rewrite lookup_empty in Hx, Hr'. rewrite delete_empty in Hr'.
    assert (d = zeros) as -> by (change (Some zeros = Some d) in Hx; congruence). done.
Defined.

End CrashExample.
