(* ===== verification/Join.v ===== *)
(** The life of a kernel thread (proc.c): creation, exit, and the join that waits
    for it. *)

From S2P Require Import Prelude Monad State Spinlock Console Kalloc Sched Mmu Vm Mutex Sleeplock Bytes Bio Log Fs Uaccess Ring Pipe File Threads ConsoleIn.

Module Join.
Import Threads.
Section with_layout.
Context `{Layout, Devsw}.
Hypothesis end_high : KERNBASE < sym_end.

(** * Creation *)

Lemma create_null start stack o k ct :
  cpu_thread k = Some ct -> start = 0 \/ stack = 0 -> kthread_create start stack o k = Ok (-1) o k.
Proof.
  intros Hct Hz. unfold kthread_create. mbind_step. rewrite Hct.
  assert ((start =? 0) || (stack =? 0) = true) as -> by (apply orb_true_iff; rewrite !Z.eqb_eq; done). done.
Qed.

(** What the thread of a new thread looks like: it starts at [start] on the user
    stack, with the other registers of its creator. *)
Record created (start stack : Z) (p : nat) (tid ks : Z) (creator th : thread) : Prop := {
  cr_tid : t_tid th = tid;
  cr_state : t_state th = T_RUNNABLE;
  cr_frame : t_frame th = t_frame creator <| tf_esp := stack |> <| tf_eip := start |>;
  cr_kstack : t_kstack th = ks;
  cr_parent : t_parent th = Some p;
  cr_ctx : t_ctx th = Sched.fresh_context;
  cr_die : t_shouldDie th = 0
}.

Definition start_thread (start stack : Z) (creator : thread) (t : thread) : thread :=
  t <| t_name ::= fun s => safestrcpy s (str "thread") 7 |> <| t_frame := t_frame creator |>
    <| t_frame ::= fun f => f <| tf_esp := stack |> |> <| t_frame ::= fun f => f <| tf_eip := start |> |>
    <| t_state := T_RUNNABLE |>.

Lemma create_ok start stack o k k1 p ct cth i th :
  cpu_thread k = Some ct -> cpu_proc k = Some p -> start <> 0 -> stack <> 0 ->
  Sched.allocthread p o k = Ok (Some (p, i)) o k1 -> thread_at k1 (p, i) = Some th -> thread_at k1 ct = Some cth ->
  ct <> (p, i) -> unlocked LPtable k1 ->
  kthread_create start stack o k = Ok (t_tid th) o (alter_thread (p, i) (start_thread start stack cth) k1).
Proof.
  intros Hct Hp Hs1 Hs2 E Hat Hcth Hne Hu1. unfold kthread_create. mbind_step. rewrite Hct.
  destruct (Z.eqb_spec start 0); [done|]. destruct (Z.eqb_spec stack 0); [done|]. cbn [orb].
  erewrite (bind_ok curproc) by (by apply deref_some). erewrite bind_ok by exact E. cbv iota beta.
  mbind_step. unfold upd_thread, get_thread. mbind_step.
  erewrite bind_ok by (apply deref_some; by rewrite thread_at_alter_ne).
  do 4 mbind_step. set (k2 := alter_thread (p, i) (start_thread start stack cth) k1).
  erewrite bind_ok by (apply release_locked; unfold alter_thread; solve_lock).
  match goal with |- (_ ≫= _) o ?x = _ => assert (x = k2) as -> end.
  { unfold k2, alter_thread. kernel_eq. unfold start_thread. simpl. proc_eq. }
  erewrite bind_ok by (apply deref_some; unfold k2; by rewrite thread_at_alter_eq, Hat). done.
Qed.

(** C28. kthread_create starts a thread in the first unused entry of the process's
    table: runnable, with a fresh id, which it returns, its own kernel stack, and the
    creator's registers except for the instruction and stack pointers; no other thread
    changes and thread ids stay distinct.  A null argument or a full table gives -1
    and changes nothing. *)
Theorem kthread_create_spec start stack o k p pr ct cth x l :
  cpu_thread k = Some ct -> thread_at k ct = Some cth -> t_state cth <> T_UNUSED -> cpu_proc k = Some p ->
  ptable k !! p = Some pr -> unlocked LPtable k -> Kalloc.kmem_ready k -> Kalloc.kmem_inv k (x :: l) ->
  tid_inv k -> nexttid k < 2 ^ 31 - 1 ->
  (start = 0 \/ stack = 0 -> kthread_create start stack o k = Ok (-1) o k)
  /\ (start <> 0 -> stack <> 0 -> Forall (fun t => t_state t <> T_UNUSED) (p_ttable pr) ->
      kthread_create start stack o k = Ok (-1) o k)
  /\ (start <> 0 -> stack <> 0 -> ~ Forall (fun t => t_state t <> T_UNUSED) (p_ttable pr) ->
      exists i t th k', kthread_create start stack o k = Ok (nexttid k) o k'
        /\ p_ttable pr !! i = Some t /\ t_state t = T_UNUSED
        /\ thread_at k' (p, i) = Some th /\ created start stack p (nexttid k) x cth th
        /\ (forall q, q <> (p, i) -> thread_at k' q = thread_at k q)
        /\ tid_inv k' /\ Kalloc.kmem_inv k' l /\ locks k' = locks k).
Proof.
  intros Hct Hcth Hcs Hp Hpr Hu Hkr Hki Hti Hn. split_and!; [by apply (create_null _ _ _ _ ct)| |]; intros Hs1 Hs2 Hall;
    destruct (Sched.allocthread_fresh end_high o k p pr x l Hu Hkr Hki Hpr Hti Hn) as [[Hno E]|(i & t & k1 & E & Hi & Ht & Hat & Hoth & Hti1 & Hki1 & Hl1)].
  - unfold kthread_create. mbind_step. rewrite Hct. destruct (Z.eqb_spec start 0); [done|]. destruct (Z.eqb_spec stack 0); [done|].
    cbn [orb]. erewrite (bind_ok curproc) by (by apply deref_some). by erewrite bind_ok by exact E.
  - exfalso. apply (proj1 (Forall_lookup _ _) Hall i t Hi Ht).
  - done.
  - assert (ct <> (p, i)) as Hne.
    { intros ->. unfold thread_at in Hcth. simpl in Hcth. rewrite Hpr in Hcth. simpl in Hcth. congruence. }
    assert (unlocked LPtable k1) as Hu1 by (unfold unlocked in *; by rewrite Hl1).
    eexists i, t, _, _. split; [apply (create_ok start stack o k k1 p ct cth i _ Hct Hp Hs1 Hs2 E Hat); [by rewrite Hoth|done|done]|].
    split_and!; [done|done|by rewrite thread_at_alter_eq, Hat|by split| | |by eapply Kalloc.kmem_inv_frame; [..|exact Hki1]|done].
    + intros q Hq. rewrite thread_at_alter_ne by done. by apply Hoth.
    + eapply tid_inv_threads; [| |exact Hti1]; [done|]. intros q t' Hq. rewrite thread_at_alter in Hq. case_decide; [|eauto].
      apply fmap_Some in Hq as (t0 & ? & ->). exists t0. split; [done|]. by left.
Qed.

(** * Join *)

(** One pass of the loop of [kthread_join]. *)
Definition join_body (tid : Z) : K (option Z) :=
  ct ← curthread;
  cth ← get_thread ct;
  if negb (t_shouldDie cth =? 0) then release LPtable;; kthread_exit;; mret (Some 0) else
  ps ← gets ptable;
  match find_thread tid 0 ps with
  | None => release LPtable;; mret (Some (-1))
  | Some t =>
      th ← get_thread t;
      if bool_decide (t_state th = T_UNUSED) then panic "kthread_join-thread unused is necessary" else
      if bool_decide (t_state th = T_ZOMBIE) then
        release LPtable;;
        Kalloc.kfree (t_kstack th);;
        upd_thread t (fun t => t <| t_kstack := 0 |>);;
        upd_thread t (fun t => t <| t_tid := 0 |>);;
        upd_thread t (fun t => t <| t_shouldDie := 0 |>);;
        upd_thread t (fun t => t <| t_state := T_UNUSED |>);;
        mret (Some 0)
      else
        Sched.sleep (CThread t.1 t.2) (Some LPtable);;
        mret None
  end.

Lemma join_unfold tid : kthread_join tid = (acquire LPtable;; repeat_until (join_body tid)).
Proof. done. Qed.

(** The entry of a thread that was joined. *)
Definition freed (t : thread) : thread := t <| t_kstack := 0 |> <| t_tid := 0 |> <| t_shouldDie := 0 |> <| t_state := T_UNUSED |>.

(** The caller of [kthread_join] is running and was not told to die. *)
Record joiner (ct : tptr) (cth : thread) (k : kernel) : Prop := {
  jn_cpu : cpu_thread k = Some ct;
  jn_at : thread_at k ct = Some cth;
  jn_live : t_shouldDie cth = 0
}.

Lemma join_enter tid ct cth t th o k : joiner ct cth k -> find_thread tid 0 (ptable k) = Some t -> thread_at k t = Some th ->
  join_body tid o k =
    (if bool_decide (t_state th = T_UNUSED) then panic "kthread_join-thread unused is necessary" else
     if bool_decide (t_state th = T_ZOMBIE) then
        release LPtable;;
        Kalloc.kfree (t_kstack th);;
        upd_thread t (fun t => t <| t_kstack := 0 |>);;
        upd_thread t (fun t => t <| t_tid := 0 |>);;
        upd_thread t (fun t => t <| t_shouldDie := 0 |>);;
        upd_thread t (fun t => t <| t_state := T_UNUSED |>);;
        mret (Some 0)
      else
        Sched.sleep (CThread t.1 t.2) (Some LPtable);;
        mret None) o k.
Proof.
  intros [Hc Ha Hd] Hf Ht. unfold join_body, curthread, get_thread. do 2 (erewrite bind_ok by (by apply deref_some)).
  rewrite Hd. cbn [Z.eqb negb]. mbind_step. rewrite Hf. by erewrite bind_ok by (by apply deref_some).
Qed.

Lemma join_reap tid ct cth t th o k : joiner ct cth k -> find_thread tid 0 (ptable k) = Some t -> thread_at k t = Some th ->
  t_state th = T_ZOMBIE -> locked LPtable k -> Kalloc.kmem_ready k -> Kalloc.page_ok (t_kstack th) ->
  join_body tid o k = Ok (Some 0) o (alter_thread t freed (k <| locks ::= delete LPtable |>
    <| pages ::= <[t_kstack th := Kalloc.freed_page (freelist k)]> |> <| freelist := t_kstack th |>)).
Proof.
  intros Hj Hf Ht Hz Hl Hr Hpg. rewrite (join_enter tid ct cth t th) by done.
  rewrite Hz. do 2 (case_bool_decide; [done|]) || case_bool_decide; try done.
  erewrite bind_ok by (by apply release_locked).
  erewrite bind_ok.
  2:{ apply Kalloc.kfree_eq; [done|done|]. unfold Kalloc.kmem_ready, unlocked in *. rsimpl. intros Hul. rewrite lookup_delete_ne by done. auto. }
  unfold upd_thread. do 4 mbind_step. unfold mret, M_ret. f_equal. unfold alter_thread. kernel_eq. unfold freed. simpl. proc_eq.
Qed.

(** A pass that gives no result has slept. *)
Lemma join_waits tid : waits (join_body tid).
Proof.
  intros o k o' k' E. unfold join_body in E.
  apply bind_ok_inv in E as (ct & o1 & k1 & E1 & E). apply (consumes_deref "mythread" cpu_thread) in E1.
  apply bind_ok_inv in E as (cth & o2 & k2 & E2 & E). apply (consumes_deref "thread" (fun k => thread_at k ct)) in E2.
  destruct (negb _).
  { apply bind_ok_inv in E as (? & ? & ? & _ & E). by apply bind_ok_inv in E as (? & ? & ? & _ & E). }
  apply bind_ok_inv in E as (ps & o3 & k3 & E3 & E). apply consumes_gets in E3. destruct (find_thread tid 0 ps) as [t|].
  2:{ by apply bind_ok_inv in E as (? & ? & ? & _ & E). }
  apply bind_ok_inv in E as (th & o4 & k4 & E4 & E). apply (consumes_deref "thread" (fun k => thread_at k t)) in E4.
  case_bool_decide; [done|]. case_bool_decide.
  { do 6 apply bind_ok_inv in E as (? & ? & ? & _ & E). done. }
  apply bind_ok_inv in E as ([] & o5 & k5 & E5 & E). apply Sched.consumes_sleep in E5. injection E as <- <-. lia.
Qed.

(** * What the search for a thread depends on *)

Definition fkey (p : proc) : bool * list Z := (bool_decide (p_state p = UNUSED), t_tid <$> p_ttable p).

Lemma find_tid tid (l : list thread) :
  fst <$> list_find (fun t => t_tid t = tid) l = fst <$> list_find (fun x => x = tid) (t_tid <$> l).
Proof. rewrite list_find_fmap. by destruct (list_find _ l) as [[i x]|]. Qed.

Lemma find_thread_keys tid i (ps ps' : list proc) : fkey <$> ps' = fkey <$> ps -> find_thread tid i ps' = find_thread tid i ps.
Proof.
  revert i ps'. induction ps as [|p ps IH]; intros i [|p' ps'] E; try done. simpl. injection E as E1 E2 E3.
  rewrite E1. destruct (bool_decide (p_state p = UNUSED)); [by apply IH|].
  pose proof (find_tid tid (p_ttable p')) as F1. pose proof (find_tid tid (p_ttable p)) as F2. rewrite E2, <- F2 in F1.
  destruct (list_find _ (p_ttable p')) as [[j x]|], (list_find _ (p_ttable p)) as [[j' x']|]; simpl in F1; try done; [congruence|by apply IH].
Qed.

Lemma keys_alter (g : proc -> proc) (i : nat) (ps : list proc) : (forall p, ps !! i = Some p -> fkey (g p) = fkey p) -> fkey <$> alter g i ps = fkey <$> ps.
Proof.
  intros Hg. apply list_eq. intros j. rewrite !list_lookup_fmap, list_lookup_alter. case_decide as E; [|done]. subst j.
  destruct (ps !! i) as [p|] eqn:E; [|done]. simpl. by rewrite Hg.
Qed.

Lemma keys_thread t f k : (forall th, t_tid (f th) = t_tid th) -> fkey <$> ptable (alter_thread t f k) = fkey <$> ptable k.
Proof.
  intros Hf. unfold alter_thread. rsimpl. apply keys_alter. intros p _. unfold fkey. rsimpl. f_equal.
  apply list_eq. intros j. rewrite !list_lookup_fmap, list_lookup_alter. case_decide as E; [|done]. subst.
  destruct (p_ttable p !! t.2); simpl; by rewrite ?Hf.
Qed.

(** Nothing sleeps in an unused process. *)
Definition unused_idle (ps : list proc) : Prop :=
  forall i p, ps !! i = Some p -> p_state p = UNUSED -> Forall (fun t => t_state t <> T_SLEEPING) (p_ttable p).

Lemma keys_wakeup ch (ps : list proc) : unused_idle ps -> fkey <$> (Sched.wakeup1_proc ch <$> ps) = fkey <$> ps.
Proof.
  intros Hi. apply list_eq. intros j. rewrite !list_lookup_fmap. destruct (ps !! j) as [p|] eqn:E; [|done]. simpl. f_equal.
  assert (t_tid <$> (Sched.wakeup1_thread ch <$> p_ttable p) = t_tid <$> p_ttable p) as Ht.
  { rewrite <- list_fmap_compose. apply list_fmap_ext. intros n t _. unfold compose, Sched.wakeup1_thread. by case_match. }
  unfold Sched.wakeup1_proc, fkey. destruct (existsb (Sched.wakes ch) (p_ttable p)) eqn:Ex; rsimpl; rewrite Ht; [|done].
  f_equal. apply existsb_exists in Ex as (th & Hth & Hw). rewrite !bool_decide_false; [done| |done].
  intros Hun. apply list_elem_of_In in Hth. pose proof (proj1 (Forall_forall _ _) (Hi j p E Hun) th Hth) as Hns.
  unfold Sched.wakes in Hw. apply andb_prop in Hw as [Hw%bool_decide_eq_true _]. done.
Qed.

Lemma used_alter_idle (g : proc -> proc) (i : nat) (ps : list proc) : unused_idle ps -> (forall p, ps !! i = Some p -> p_state (g p) <> UNUSED) -> unused_idle (alter g i ps).
Proof.
  intros Hi Hg j p Hj Hs. rewrite list_lookup_alter in Hj. case_decide as E; [|by eapply Hi]. subst j.
  apply fmap_Some in Hj as (p0 & Hp0 & ->). by destruct (Hg p0 Hp0).
Qed.

Definition used (t : tptr) (k : kernel) : Prop := exists p, ptable k !! t.1 = Some p /\ p_state p <> UNUSED.

Lemma find_thread_used tid (i : nat) (ps : list proc) t : find_thread tid i ps = Some t ->
  exists p th, (i <= t.1)%nat /\ ps !! (t.1 - i)%nat = Some p /\ p_state p <> UNUSED /\ p_ttable p !! t.2 = Some th /\ t_tid th = tid.
Proof.
  revert i. induction ps as [|p ps IH]; intros i; simpl; [done|].
  assert (find_thread tid (S i) ps = Some t -> exists p0 th, (i <= t.1)%nat /\ (p :: ps) !! (t.1 - i)%nat = Some p0 /\ p_state p0 <> UNUSED /\ p_ttable p0 !! t.2 = Some th /\ t_tid th = tid) as Hnext.
  { intros (p0 & th & Hle & Hp & ?)%IH. exists p0, th. split; [lia|]. split; [|done].
    replace (t.1 - i)%nat with (S (t.1 - S i)) by lia. done. }
  case_bool_decide; [done|]. destruct (list_find _ _) as [[j th]|] eqn:E; [|done]. intros [= <-].
  apply list_find_Some in E as (Hj & Ht & _). exists p, th. simpl. rewrite Nat.sub_diag. done.
Qed.

(** * Exit and join *)

Lemma sleep_ptable_eq t th ch o k :
  cpu_proc k = Some t.1 -> cpu_thread k = Some t -> thread_at k t = Some th -> locked LPtable k -> ncli k = 1%nat ->
  Sched.sleep ch (Some LPtable) o k =
    (Sched.resume t ≫= fun _ => Sched.sleep_tail t LPtable) o (alter_thread t (fun th => th <| t_chan := Some ch |> <| t_state := T_SLEEPING |>) k).
Proof.
  intros Hp Ht Hth Hl Hn. unfold Sched.sleep, myproc, mythread, upd_thread. mbind_step. mbind_step. rewrite Hp, Ht.
  rewrite (bool_decide_true (LPtable = LPtable)) by done. cbn [negb when]. mbind_step. mbind_step. mbind_step.
  match goal with |- _ o ?x = _ => assert (x = alter_thread t (fun th => th <| t_chan := Some ch |> <| t_state := T_SLEEPING |>) k) as -> end.
  { unfold alter_thread. kernel_eq. proc_eq. }
  unfold Sched.sleep_tail. rewrite (bool_decide_true (LPtable = LPtable)) by done. cbn [negb when].
  apply bind_ext. eapply Sched.sched_eq; [done|by rewrite thread_at_alter_eq, Hth|done|done|done].
Qed.

(** The state in which a thread that exits leaves the CPU. *)
Definition gone (t : tptr) (k : kernel) : kernel :=
  alter_thread t (fun th => th <| t_shouldDie := 0 |> <| t_state := T_ZOMBIE |>)
    (k <| locks ::= <[LPtable := Me]> |> <| ptable ::= fmap (Sched.wakeup1_proc (CThread t.1 t.2)) |>).

Lemma for_each_idemp {A} (l : list A) (f : kernel -> kernel) o k : l <> [] -> (forall k, f (f k) = f k) ->
  for_each l (fun _ => modify f) o k = Ok tt o (f k).
Proof.
  intros Hl Hf. destruct l as [|x l]; [done|]. clear Hl. revert x k. induction l as [|y l IH]; intros x k; [done|].
  change ((modify f ≫= fun _ => for_each (y :: l) (fun _ => modify f)) o k = Ok tt o (f k)). mbind_step. by rewrite IH, Hf.
Qed.

Lemma gone_at t k q : thread_at (gone t k) q =
  (if decide (q = t) then fun th => th <| t_shouldDie := 0 |> <| t_state := T_ZOMBIE |> else id)
    <$> (Sched.wakeup1_thread (CThread t.1 t.2) <$> thread_at k q).
Proof.
  unfold gone. rewrite thread_at_alter. rewrite (Sched.thread_at_wakeup (CThread t.1 t.2) (k <| locks ::= <[LPtable := Me]> |>) q).
  assert (thread_at (k <| locks ::= <[LPtable := Me]> |>) q = thread_at k q) as -> by by apply thread_at_ext.
  destruct (decide (q = t)), (decide (t = q)); try congruence. by destruct (_ <$> thread_at k q).
Qed.

Lemma exit_thread_eq t th o k : cpu_thread k = Some t -> thread_at k t = Some th -> t_state th <> T_SLEEPING ->
  unlocked LPtable k -> ncli k = 0%nat ->
  exitThread o k = (Sched.resume t ≫= fun _ => panic "exitThread exit") o (gone t k).
Proof.
  intros Hc Ht Hs Hu Hn. unfold exitThread, curthread, upd_thread. erewrite bind_ok by (by apply acquire_unlocked).
  erewrite bind_ok by (by apply deref_some). erewrite bind_ok.
  2:{ apply for_each_idemp; [done|]. intros k'. kernel_eq. apply Sched.wakeup_ptable_idemp. }
  do 2 mbind_step.
  match goal with |- _ o ?x = _ => assert (x = gone t k) as -> end.
  { unfold gone, alter_thread. kernel_eq. proc_eq. }
  assert (ncli (gone t k) = 1%nat) as Hn1.
  { transitivity (ncli (k <| locks ::= <[LPtable := Me]> |>)); [done|]. rewrite ncli_insert by done. lia. }
  apply bind_ext. eapply Sched.sched_eq; [done| |unfold locked, gone; rsimpl; apply lookup_insert_eq|done|].
  - by rewrite gone_at, decide_True, Ht.
  - done.
Qed.

(** The state in which [kthread_join] waits for the thread. *)
Definition joining (j t : tptr) (k : kernel) : kernel :=
  alter_thread j (fun th => th <| t_chan := Some (CThread t.1 t.2) |> <| t_state := T_SLEEPING |>)
    (k <| locks ::= <[LPtable := Me]> |>).

(** The joiner back on the CPU. *)
Definition rejoined (j : tptr) (k : kernel) : kernel :=
  alter_thread j (fun th => th <| t_chan := None |>) (Sched.dispatched j k).

Lemma join_sleep tid j jth t th o k : cpu_proc k = Some j.1 -> joiner j jth k -> locked LPtable k -> ncli k = 1%nat ->
  find_thread tid 0 (ptable k) = Some t -> thread_at k t = Some th -> t_state th <> T_UNUSED -> t_state th <> T_ZOMBIE ->
  join_body tid o k =
    ((Sched.resume j ≫= fun _ => Sched.sleep_tail j LPtable) ≫= fun _ => mret None) o
      (alter_thread j (fun th => th <| t_chan := Some (CThread t.1 t.2) |> <| t_state := T_SLEEPING |>) k).
Proof.
  intros Hp Hj Hl Hn Hf Ht Hu Hz. rewrite (join_enter tid j jth t th) by done. rewrite !bool_decide_false by done.
  destruct Hj as [Hc Ha _]. pose proof (sleep_ptable_eq j jth (CThread t.1 t.2) o k Hp Hc Ha Hl Hn) as E.
  revert E. generalize (Sched.sleep (CThread t.1 t.2) (Some LPtable)) (Sched.resume j ≫= fun _ => Sched.sleep_tail j LPtable).
  intros m1 m2 E. unfold mbind, M_bind. by rewrite E.
Qed.

Lemma sleep_tail_ptable j th o k : thread_at k j = Some th -> t_shouldDie th = 0 ->
  Sched.sleep_tail j LPtable o k = Ok tt o (alter_thread j (fun th => th <| t_chan := None |>) k).
Proof.
  intros Ht Hd. unfold Sched.sleep_tail, get_thread, upd_thread. erewrite bind_ok by (by apply deref_some).
  rewrite Hd, bool_decide_true by done. cbn [Z.eqb negb when]. mbind_step. by mbind_step.
Qed.

(** The thread [t] runs while [j], of a process in use, sleeps in [kthread_join] for it. *)
Record meets (tid : Z) (j t : tptr) (jth tth : thread) (l : list Z) (k : kernel) : Prop := {
  me_cpu : cpu_thread k = Some t;
  me_at : thread_at k t = Some tth;
  me_awake : t_state tth <> T_SLEEPING;
  me_lock : unlocked LPtable k;
  me_ncli : ncli k = 0%nat;
  me_joiner : thread_at k j = Some jth;
  me_sleeps : t_state jth = T_SLEEPING /\ t_chan jth = Some (CThread t.1 t.2);
  me_live : t_shouldDie jth = 0;
  me_run : Sched.can_run j k;
  me_used : used j k;
  me_idle : unused_idle (ptable k);
  me_find : find_thread tid 0 (ptable k) = Some t;
  me_kmem : Kalloc.kmem_ready k /\ Kalloc.kmem_inv k l;
  me_stack : Kalloc.page_ok (t_kstack tth) /\ t_kstack tth ∉ l
}.

Lemma meets_ne tid j t jth tth l k : meets tid j t jth tth l k -> j <> t.
Proof. intros M ->. destruct (me_sleeps _ _ _ _ _ _ _ M). apply (me_awake _ _ _ _ _ _ _ M). pose proof (me_joiner _ _ _ _ _ _ _ M). pose proof (me_at _ _ _ _ _ _ _ M). congruence. Qed.

Lemma gone_joiner tid j t jth tth l k : meets tid j t jth tth l k ->
  thread_at (gone t k) j = Some (jth <| t_state := T_RUNNABLE |>).
Proof.
  intros M. rewrite gone_at, decide_False by by eapply meets_ne. rewrite (me_joiner _ _ _ _ _ _ _ M). simpl.
  destruct (me_sleeps _ _ _ _ _ _ _ M) as [Hs Hc]. unfold Sched.wakeup1_thread, Sched.wakes. by rewrite Hs, Hc, !bool_decide_true.
Qed.

Lemma gone_target tid j t jth tth l k : meets tid j t jth tth l k ->
  thread_at (gone t k) t = Some (tth <| t_shouldDie := 0 |> <| t_state := T_ZOMBIE |>).
Proof.
  intros M. rewrite gone_at, decide_True, (me_at _ _ _ _ _ _ _ M) by done. simpl. unfold Sched.wakeup1_thread, Sched.wakes.
  by rewrite bool_decide_false by apply (me_awake _ _ _ _ _ _ _ M).
Qed.

Lemma gone_ready tid j t jth tth l k : meets tid j t jth tth l k -> Sched.sched_ready j (gone t k) = true.
Proof.
  intros M. apply Sched.sched_ready_spec. split_and!.
  - unfold locked, gone, alter_thread. rsimpl. apply lookup_insert_eq.
  - transitivity (ncli (k <| locks ::= <[LPtable := Me]> |>)); [done|].
    rewrite ncli_insert by apply (me_lock _ _ _ _ _ _ _ M). rewrite (me_ncli _ _ _ _ _ _ _ M). done.
  - eexists. split; [by eapply gone_joiner|done].
Qed.

Lemma gone_can_run q t k : Sched.can_run q k -> Sched.can_run q (gone t k).
Proof.
  intros (p & th & Hp & Ht & Hk & Hd). assert (thread_at k q = Some th) as Hq by (unfold thread_at; by rewrite Hp).
  pose proof (gone_at t k q) as E. rewrite Hq in E. unfold thread_at in E. cbn [fmap option_fmap option_map] in E.
  destruct (ptable (gone t k) !! q.1) as [p'|] eqn:E'; [|done]. cbn [mbind option_bind] in E.
  eexists p', _. split; [done|]. split; [exact E|]. split.
  - unfold Sched.wakeup1_thread. by destruct (decide (q = t)), (Sched.wakes (CThread t.1 t.2) th).
  - unfold gone, alter_thread in E'. revert E'. rsimpl. rewrite list_lookup_alter.
    destruct (decide (t.1 = q.1)) as [->|]; rewrite list_lookup_fmap, Hp; intros [= <-]; unfold Sched.wakeup1_proc; by destruct (existsb _ _).
Qed.

Lemma used_alter q pt f k : used q k -> used q (alter_thread pt f k).
Proof.
  intros (p & Hp & Hs). unfold used, alter_thread. rsimpl. rewrite list_lookup_alter. case_decide as E; [|by exists p].
  rewrite E, Hp. simpl. by eexists.
Qed.

Lemma used_gone q t k : used q k -> used q (gone t k).
Proof.
  intros (p & Hp & Hs). apply used_alter. exists (Sched.wakeup1_proc (CThread t.1 t.2) p). rsimpl. rewrite list_lookup_fmap, Hp.
  split; [done|]. unfold Sched.wakeup1_proc. by destruct (existsb _ _).
Qed.

Lemma keys_dispatched j k : used j k -> fkey <$> ptable (Sched.dispatched j k) = fkey <$> ptable k.
Proof.
  intros Hu. etransitivity; [|by apply (keys_thread j (fun th => th <| t_state := T_RUNNING |>))].
  unfold Sched.dispatched. rsimpl. apply keys_alter. intros p Hp.
  apply (used_alter j j (fun th => th <| t_state := T_RUNNING |>)) in Hu as (p' & Hp' & Hs).
  assert (p' = p) as -> by (rewrite Hp' in Hp; by injection Hp). unfold fkey. rsimpl. by rewrite !bool_decide_false.
Qed.

(** The joiner still finds the thread when it runs again. *)
Lemma rejoined_find tid j t k : used j k -> unused_idle (ptable k) -> find_thread tid 0 (ptable k) = Some t ->
  find_thread tid 0 (ptable (rejoined j (gone t k))) = Some t.
Proof.
  intros Hu Hi <-. apply find_thread_keys. unfold rejoined. rewrite keys_thread by done.
  rewrite keys_dispatched by by apply used_gone. unfold gone. rewrite keys_thread by done. rsimpl. by apply keys_wakeup.
Qed.

Lemma rejoined_at j k q : thread_at (rejoined j k) q =
  (if decide (q = j) then fun th => th <| t_state := T_RUNNING |> <| t_chan := None |> else id) <$> thread_at k q.
Proof.
  unfold rejoined. rewrite thread_at_alter.
  assert (thread_at (Sched.dispatched j k) q = thread_at (alter_thread j (fun th => th <| t_state := T_RUNNING |>) k) q) as ->.
  { transitivity (thread_at (alter_thread j (fun th => th <| t_state := T_RUNNING |>) k
      <| ptable ::= alter (fun p => p <| p_state := USED |>) j.1 |>) q); [by apply thread_at_ext|by rewrite thread_at_proc]. }
  rewrite thread_at_alter. destruct (decide (q = j)), (decide (j = q)); try congruence; by destruct (thread_at k q).
Qed.

(** The whole wait: the joiner sleeps through [o1] and is picked in the state that the
    exit of the thread left. *)
Lemma join_pass tid j jth0 t th0 jth tth l o1 f o2 k kt :
  cpu_proc k = Some j.1 -> joiner j jth0 k -> locked LPtable k -> ncli k = 1%nat ->
  find_thread tid 0 (ptable k) = Some t -> thread_at k t = Some th0 -> t_state th0 <> T_UNUSED -> t_state th0 <> T_ZOMBIE ->
  let ks := alter_thread j (fun th => th <| t_chan := Some (CThread t.1 t.2) |> <| t_state := T_SLEEPING |>) k in
  meets tid j t jth tth l kt -> Sched.never_ready j o1 ks -> f (Sched.env_run o1 ks) = gone t kt ->
  join_body tid (o1 ++ f :: o2) k = Ok None o2 (rejoined j (gone t kt)).
Proof.
  intros Hp Hj Hl Hn Hf Ht Hu Hz ks M Hnr Hfz. rewrite (join_sleep tid j jth0 t th0) by done. fold ks.
  assert ((Sched.resume j ≫= fun _ => Sched.sleep_tail j LPtable) (o1 ++ f :: o2) ks = Ok tt o2 (rejoined j (gone t kt))) as E.
  { erewrite bind_ok.
    2:{ rewrite Sched.resume_app by done. cbn [Sched.resume]. rewrite Hfz. erewrite gone_ready by done.
        apply Sched.dispatch_eq. apply gone_can_run, (me_run _ _ _ _ _ _ _ M). }
    eapply sleep_tail_ptable; [apply Sched.dispatched_at; by eapply gone_joiner|apply (me_live _ _ _ _ _ _ _ M)]. }
  by erewrite bind_ok by exact E.
Qed.

Lemma meets_reap tid j t jth tth l kt o : meets tid j t jth tth l kt ->
  join_body tid o (rejoined j (gone t kt)) = Ok (Some 0) o (alter_thread t freed (rejoined j (gone t kt) <| locks ::= delete LPtable |>
    <| pages ::= <[t_kstack tth := Kalloc.freed_page (freelist kt)]> |> <| freelist := t_kstack tth |>)).
Proof.
  intros M. erewrite (join_reap tid j _ t (tth <| t_shouldDie := 0 |> <| t_state := T_ZOMBIE |>)).
  - done.
  - split; [done|rewrite rejoined_at, decide_True by done; by erewrite gone_joiner|apply (me_live _ _ _ _ _ _ _ M)].
  - apply rejoined_find; [apply (me_used _ _ _ _ _ _ _ M)|apply (me_idle _ _ _ _ _ _ _ M)|apply (me_find _ _ _ _ _ _ _ M)].
  - rewrite rejoined_at, decide_False by (intros ->; by eapply meets_ne). by erewrite gone_target.
  - done.
  - unfold locked, rejoined, Sched.dispatched, gone, alter_thread. rsimpl. apply lookup_insert_eq.
  - intros Hul. apply (proj1 (me_kmem _ _ _ _ _ _ _ M)) in Hul. unfold unlocked in *.
    change (<[LPtable := Me]> (locks kt) !! LKmem = None). by rewrite lookup_insert_ne.
  - apply (proj1 (me_stack _ _ _ _ _ _ _ M)).
Qed.

(** C10. Exit and join meet.  A thread in kthread_join for a live thread sleeps; when
    that thread calls exitThread it becomes a zombie and leaves the CPU for good,
    having made the joiner runnable; the join then returns 0, with the entry of the
    exited thread unused, its id cleared and its kernel stack back on the free list,
    the joiner running and the lock of the table released.  Nobody else changes. *)
Theorem join_rendezvous tid j jth0 t th0 jth tth l o1 f o2 k kt :
  cpu_proc k = Some j.1 -> joiner j jth0 k -> unlocked LPtable k -> ncli k = 0%nat ->
  find_thread tid 0 (ptable k) = Some t -> thread_at k t = Some th0 -> t_state th0 <> T_UNUSED -> t_state th0 <> T_ZOMBIE ->
  meets tid j t jth tth l kt ->
  Sched.never_ready j o1 (joining j t k) -> exitThread [] kt = Waiting (f (Sched.env_run o1 (joining j t k))) ->
  exists k', kthread_join tid (o1 ++ f :: o2) k = Ok 0 o2 k'
    /\ thread_at k' t = Some (freed tth) /\ thread_at k' j = Some (jth <| t_state := T_RUNNING |> <| t_chan := None |>)
    /\ (forall q, q <> t -> q <> j -> thread_at k' q = Sched.wakeup1_thread (CThread t.1 t.2) <$> thread_at kt q)
    /\ Kalloc.kmem_inv k' (t_kstack tth :: l) /\ unlocked LPtable k' /\ cpu_thread k' = Some j.
Proof.
  intros Hp Hj Hu Hn Hf Ht Hun Hz M Hnr Hex.
  rewrite (exit_thread_eq t tth) in Hex; [|by apply M..]. injection Hex as Hex.
  rewrite join_unfold. eexists. split.
  { erewrite bind_ok by (by apply acquire_unlocked). rewrite repeat_unfold by apply join_waits.
    erewrite bind_ok.
    2:{ eapply (join_pass tid j jth0 t th0 jth tth l o1 f o2 _ kt); try done.
        - by destruct Hj.
        - unfold locked. rsimpl. apply lookup_insert_eq.
        - rewrite ncli_insert by done. lia. }
    cbv iota beta. apply repeat_once. by eapply meets_reap. }
  assert (forall q, thread_at (rejoined j (gone t kt) <| locks ::= delete LPtable |>
    <| pages ::= <[t_kstack tth := Kalloc.freed_page (freelist kt)]> |> <| freelist := t_kstack tth |>) q
    = thread_at (rejoined j (gone t kt)) q) as Hat by (intros q; by apply thread_at_ext).
  pose proof (meets_ne _ _ _ _ _ _ _ M) as Hne. split_and!; [| | | | |done].
  - rewrite thread_at_alter_eq, Hat, rejoined_at, decide_False by auto. erewrite gone_target by exact M. simpl. done.
  - rewrite thread_at_alter_ne, Hat, rejoined_at, decide_True by auto. by erewrite gone_joiner.
  - intros q Hq1 Hq2. rewrite thread_at_alter_ne, Hat, rejoined_at, decide_False by auto.
    rewrite gone_at, decide_False by done. by destruct (thread_at kt q).
  - destruct M. eapply Kalloc.kmem_inv_frame; [| |apply (Kalloc.kmem_inv_push (t_kstack tth) kt l); by intuition]; done.
  - unfold unlocked, alter_thread. rsimpl. apply lookup_delete_eq.
Qed.

(** C29. The outcomes of kthread_join that do not wait: an id that no thread has gives
    -1 and changes nothing; the entry of a zombie is freed at once; and an id found on
    an unused entry, which 0 is, stops the kernel. *)
Theorem join_outcomes tid ct cth o k :
  joiner ct cth k -> unlocked LPtable k ->
  (find_thread tid 0 (ptable k) = None -> kthread_join tid o k = Ok (-1) o k)
  /\ (forall t th, find_thread tid 0 (ptable k) = Some t -> thread_at k t = Some th ->
      (t_state th = T_UNUSED -> kthread_join tid o k = Panic "kthread_join-thread unused is necessary" (k <| locks ::= <[LPtable := Me]> |>))
      /\ (t_state th = T_ZOMBIE -> Kalloc.kmem_ready k -> Kalloc.page_ok (t_kstack th) ->
          kthread_join tid o k = Ok 0 o (alter_thread t freed (k <| pages ::= <[t_kstack th := Kalloc.freed_page (freelist k)]> |>
            <| freelist := t_kstack th |>)))).
Proof.
  intros Hj Hu. assert (joiner ct cth (k <| locks ::= <[LPtable := Me]> |>)) as Hj1 by by destruct Hj.
  rewrite join_unfold. erewrite bind_ok by (by apply acquire_unlocked). split.
  - intros Hf. apply repeat_once. destruct Hj1. unfold join_body, curthread, get_thread.
    do 2 (erewrite bind_ok by (by apply deref_some)). rewrite jn_live0. cbn [Z.eqb negb]. mbind_step. rsimpl. rewrite Hf.
    erewrite bind_ok by (apply release_locked; solve_lock). unfold mret, M_ret. f_equal. kernel_eq.
  - intros t th Hf Ht. split.
    + intros Hs. unfold repeat_until. cbn [repeat_fuel]. apply bind_panic. rewrite (join_enter tid ct cth t th) by done. by rewrite Hs.
    + intros Hs Hr Hpg. apply repeat_once. rewrite (join_reap tid ct cth t th); try done.
      * f_equal. unfold alter_thread. kernel_eq.
      * solve_lock.
      * intros Hul. unfold unlocked. rsimpl. rewrite lookup_insert_ne by done. by apply Hr.
Qed.

End with_layout.
End Join.

(** * Witnesses

    A process with two threads: the first joins the second. *)
Module JoinExample.
Import Threads Join.
#[local] Existing Instance Kalloc.small_layout.

Definition second_thread : thread :=
  Sched.running_thread <| t_state := T_RUNNABLE |> <| t_tid := 2 |> <| t_kstack := 0x80500000 |>.
Definition two_threads : kernel :=
  Sched.small_kernel <| ptable := [Sched.running_proc <| p_ttable := [Sched.running_thread; second_thread; zero_thread] |>] |> <| nexttid := 3 |>.

(** The second thread runs while the first one sleeps. *)
Definition second_runs : kernel :=
  alter_thread (0, 1)%nat (fun t => t <| t_state := T_RUNNING |>) (joining (0, 0)%nat (0, 1)%nat two_threads)
    <| locks := ∅ |> <| cpu_thread := Some (0, 1)%nat |>.

Definition first_sleeps : thread :=
  Sched.running_thread <| t_chan := Some (CThread 0 1) |> <| t_state := T_SLEEPING |>.

Lemma second_meets : meets 2 (0, 0)%nat (0, 1)%nat first_sleeps (second_thread <| t_state := T_RUNNING |>) [0x80200000] second_runs.
Proof.
  split; try reflexivity; try discriminate.
  - by split.
  - do 2 eexists. split_and!; [reflexivity|reflexivity|discriminate|discriminate].
  - eexists. split; [reflexivity|discriminate].
  - intros [|[|i]] p [= <-]; discriminate.
  - split; [discriminate|]. by eapply Kalloc.kmem_inv_frame; [| |apply Sched.small_kmem].
  - split; [split; [reflexivity|by vm_compute]|]. set_solver.
Qed.

Lemma join_rendezvous_witness :
  exists k', kthread_join 2 [id; fun _ => gone (0, 1)%nat second_runs] two_threads = Ok 0 [] k'
    /\ thread_at k' (0, 1)%nat = Some (freed second_thread) /\ Kalloc.kmem_inv k' [0x80500000; 0x80200000].
Proof.
  destruct (join_rendezvous Kalloc.small_layout_high 2 (0, 0)%nat Sched.running_thread (0, 1)%nat second_thread first_sleeps
    (second_thread <| t_state := T_RUNNING |>) [0x80200000] [id] (fun _ => gone (0, 1)%nat second_runs) [] two_threads second_runs)
    as (k' & E & Ht & _ & _ & Hk & _); try reflexivity; try discriminate.
  - by split.
  - exact second_meets.
  - by split.
  - exists k'. by split.
Defined.

Lemma join_outcomes_witness :
  kthread_join 7 [] two_threads = Ok (-1) [] two_threads
  /\ exists k', kthread_join 0 [] two_threads = Panic "kthread_join-thread unused is necessary" k'.
Proof.
  destruct (join_outcomes Kalloc.small_layout_high 7 (0, 0)%nat Sched.running_thread [] two_threads) as [Hn _]; [by split|reflexivity|].
  destruct (join_outcomes Kalloc.small_layout_high 0 (0, 0)%nat Sched.running_thread [] two_threads) as [_ Hp]; [by split|reflexivity|].
  split; [by apply Hn|]. eexists. by apply (Hp (0, 2)%nat zero_thread).
Defined.

Lemma two_tids : tid_inv two_threads.
Proof.
  split; [done| |].
  - intros [[|i] [|[|[|j]]]] t [= <-]; done.
  - intros [[|i] [|[|[|j]]]] [[|i'] [|[|[|j']]]] t u [= <-] [= <-]; done.
Qed.

Lemma kthread_create_spec_witness :
  exists th k', kthread_create 0x1000 0x8000 [] two_threads = Ok 3 [] k' /\ thread_at k' (0, 2)%nat = Some th
    /\ created 0x1000 0x8000 0 3 0x80200000 Sched.running_thread th.
Proof.
  destruct (kthread_create_spec Kalloc.small_layout_high 0x1000 0x8000 [] two_threads 0%nat
    (Sched.running_proc <| p_ttable := [Sched.running_thread; second_thread; zero_thread] |>) (0, 0)%nat Sched.running_thread 0x80200000 [])
    as (_ & _ & Hc); try reflexivity; try discriminate; [|exact two_tids|].
  - by eapply Kalloc.kmem_inv_frame; [| |apply Sched.small_kmem].
  - destruct Hc as (i & t & th & k' & E & Hi & Hs & Hth & Hcr & _); [discriminate|discriminate| |].
    { intros Hall. apply (proj1 (Forall_lookup _ _) Hall 2%nat zero_thread); reflexivity. }
    exists th, k'. destruct i as [|[|[|i]]]; [injection Hi as <-; discriminate|injection Hi as <-; discriminate| |discriminate]. by split.
Defined.
End JoinExample.
