(* ===== verification/Tx.v ===== *)
(** The blocks of the disk as the code inside a transaction sees them: every block
    has its current contents, whether these are on disk, pinned in the cache by the
    log, or in a buffer that the code has locked. *)

From S2P Require Import Prelude Monad State Spinlock Console Kalloc Sched Sleeplock Bytes Bio Log Fs Cache Crash.

Module Tx.
Import Header Txn Log Cache Sleeplock Bio Commit Fs.
Section with_layout.
Context `{Layout}.

(** What a locked buffer holds when the current contents are [V] and the blocks [bl]
    are in the log. *)
Definition hold (V : list block) (bl : list Z) (n : Z) : Z * bool * block :=
  (n, bool_decide (n ∈ bl), V !!! Z.to_nat n).

Definition not_held (Hd : gmap nat Z) (n : Z) : Prop := forall i, Hd !! i <> Some n.

(** What the operations on blocks leave alone: the trace of disk writes, the super
    block, the open files and the state of the log but for the blocks in it. *)
Record fsame (f f' : fsys) : Prop := {
  fs_image : d_image f' = d_image f;
  fs_trace : d_trace f' = d_trace f;
  fs_sb : sb f' = sb f;
  fs_files : ftable f' = ftable f;
  fs_queue : idequeue f' = idequeue f;
  fs_one : fs_first f' = fs_first f;
  fs_out : lg_outstanding (slog f') = lg_outstanding (slog f);
  fs_com : lg_committing (slog f') = lg_committing (slog f);
  fs_size : lg_size (slog f') = lg_size (slog f);
  fs_lhlen : length (lh_block (slog f')) = length (lh_block (slog f))
}.

#[export] Instance fsame_preorder : PreOrder fsame.
Proof. split; [by intros f; split|]. intros f1 f2 f3 [] []. split; congruence. Qed.

(** The process [pid] is in a transaction that began in [k0]; the log lies at [start]. *)
Section in_transaction.
Context (k0 : kernel) (pid start : Z) (o : list (kernel -> kernel)).

(** [V]: the contents of the blocks; [Hd]: the blocks in locked buffers; [bl]: the
    blocks in the log; [ic]: the inode cache. *)
Record tx (V : list block) (Hd : gmap nat Z) (bl : list Z) (ic : list inode) (k : kernel) : Prop := {
  tx_rep : exists D, rep pid D (hold V bl <$> Hd) (fs k) /\
    forall n d, D !! n = Some d <-> n ∈ bl /\ not_held Hd n /\ V !! Z.to_nat n = Some d;
  tx_disk : forall n, 0 <= n -> n ∉ bl -> disk (fs k) !! Z.to_nat n = V !! Z.to_nat n;
  tx_len : length (disk (fs k)) = length V;
  tx_bl : Forall is_blockno bl;
  tx_quiet : quiet k;
  tx_runs : runs k pid;
  tx_log : log_at start bl (slog (fs k));
  tx_lh : length (lh_block (slog (fs k))) = Z.to_nat LOGSIZE;
  tx_out : 1 <= lg_outstanding (slog (fs k));
  tx_moves : moves k0 k;
  tx_same : fsame (fs k0) (fs k);
  tx_ic : icache (fs k) = ic
}.

Lemma evolves_fsame k k' : evolves k k' [] -> fsame (fs k) (fs k').
Proof. intros [_ [[] El]]. rewrite app_nil_r in *. split; congruence. Qed.

Lemma evolves_icache k k' tr : evolves k k' tr -> icache (fs k') = icache (fs k).
Proof. by intros [_ [[] _]]. Qed.

(** A step that leaves the log's state alone. *)
Lemma tx_step V Hd bl ic k D V' Hd' k' :
  tx V Hd bl ic k -> evolves k k' [] -> rep pid D (hold V' bl <$> Hd') (fs k') ->
  (forall n d, D !! n = Some d <-> n ∈ bl /\ not_held Hd' n /\ V' !! Z.to_nat n = Some d) ->
  length V' = length V -> (forall n, 0 <= n -> n ∉ bl -> V' !! Z.to_nat n = V !! Z.to_nat n) ->
  tx V' Hd' bl ic k'.
Proof.
  intros [_ Hd0 Hl Hb Hq Hr Hlog Hlh Ho Hm Hsm Hic] He Hrep HD Hlen HV.
  pose proof (evolves_disk _ _ _ He) as Ed. pose proof (evolves_log _ _ _ He) as El. simpl in Ed. split.
  - eauto.
  - intros n ? ?. rewrite Ed, HV by done. by apply Hd0.
  - by rewrite Ed, Hlen.
  - done.
  - by eapply evolves_quiet.
  - by eapply evolves_runs.
  - by rewrite El.
  - by rewrite El.
  - by rewrite El.
  - eapply moves_trans; [done|apply He].
  - etransitivity; [done|by apply evolves_fsame].
  - by rewrite (evolves_icache _ _ _ He).
Qed.

Lemma hold_held V bl Hd n : holds_block (hold V bl <$> Hd) n <-> ~ not_held Hd n.
Proof.
  split.
  - intros (i & dt & d & Hi) Hn. rewrite lookup_fmap in Hi. destruct (Hd !! i) as [m|] eqn:E; [|done].
    injection Hi as -> _ _. by apply (Hn i).
  - intros Hn. destruct (decide (map_Exists (fun _ m => m = n) Hd)) as [(i & m & Hi & ->)|Hno].
    + exists i, (bool_decide (n ∈ bl)), (V !!! Z.to_nat n). by rewrite lookup_fmap, Hi.
    + destruct Hn. intros i Hi. apply Hno. by exists i, n.
Qed.

Lemma not_holds V bl Hd n : not_held Hd n -> ~ holds_block (hold V bl <$> Hd) n.
Proof. intros Hn Hh. by apply hold_held in Hh. Qed.

Lemma not_held_insert Hd i n m : not_held (<[i := n]> Hd) m -> Hd !! i = None -> m <> n /\ not_held Hd m.
Proof.
  intros Hn Hi. split.
  - intros ->. by apply (Hn i); rewrite lookup_insert_eq.
  - intros j Hj. apply (Hn j). rewrite lookup_insert_ne; [done|]. intros ->. congruence.
Qed.

Lemma insert_not_held Hd i n m : m <> n -> not_held Hd m -> not_held (<[i := n]> Hd) m.
Proof. intros Hmn Hn j. rewrite lookup_insert_Some. intros [[_ ?]|[_ ?]]; [done|by apply (Hn j)]. Qed.

Lemma tx_bread V Hd bl ic k n :
  tx V Hd bl ic k -> 0 <= n < Z.of_nat (length V) -> not_held Hd n -> (length bl + size Hd < NBUF)%nat ->
  wp (bread 1 n) o k (fun i k' => tx V (<[i := n]> Hd) bl ic k' /\ Hd !! i = None).
Proof.
  intros Ht Hn Hnh Hroom. pose proof Ht as [(D & Hr & HD) Hdk Hl Hb Hq Hru _ _ _ _ _ _].
  destruct (lookup_lt_is_Some_2 V (Z.to_nat n)) as [x Hx]; [lia|].
  assert (is_Some (D !! n) <-> n ∈ bl) as HDn.
  { split; [intros [d Hd']; by apply HD in Hd' as [? _]|]. intros Hin. exists x. by apply HD. }
  destruct (bread_spec pid D (hold V bl <$> Hd) n o k) as (i & d & k' & E & He & Hi & Hr' & Hc); try done.
  { unfold on_disk. by rewrite Hl. }
  { by apply not_holds. }
  { right. rewrite map_size_fmap.
    assert (size D <= length bl)%nat; [|lia]. apply pins_size. intros m [d Hd']. by apply HD in Hd' as [? _]. }
  assert (d = V !!! Z.to_nat n) as ->.
  { rewrite (list_lookup_total_correct _ _ _ Hx). unfold content in Hc. destruct (D !! n) as [d'|] eqn:E'.
    - apply HD in E' as (_ & _ & E'). congruence.
    - rewrite Hdk in Hc; [congruence|lia|]. intros Hin. apply HDn in Hin as [? ?]. congruence. }
  assert (Hd !! i = None) as Hi' by (rewrite lookup_fmap in Hi; by destruct (Hd !! i)).
  exists i, k'. split; [done|]. split; [|done].
  eapply (tx_step V Hd bl ic k (delete n D)); [done|done| | |done|done].
  - rewrite fmap_insert. unfold hold at 1. by rewrite <- (bool_decide_ext _ _ HDn).
  - intros m y. rewrite lookup_delete_Some, HD. split.
    + intros (Hne & ? & ? & ?). split_and!; [done|by apply insert_not_held|done].
    + intros (? & [? ?]%not_held_insert & ?); [done|done].
Qed.

Lemma tx_get_buf V Hd bl ic k i n : tx V Hd bl ic k -> Hd !! i = Some n ->
  wp (get_buf i) o k (fun b k' => k' = k /\ b_data b = V !!! Z.to_nat n /\ length (V !!! Z.to_nat n) = Z.to_nat BSIZE).
Proof.
  intros Ht Hi. destruct Ht as [(D & Hr & HD) _ _ _ _ _ _ _ _ _ _ _].
  destruct (rep_holds _ _ _ _ i n (bool_decide (n ∈ bl)) (V !!! Z.to_nat n) Hr) as (b & _ & Hb & _ & _ & _ & _ & _ & ? & ?).
  { by rewrite lookup_fmap, Hi. }
  exists b, k. split; [by apply get_buf_eq|done].
Qed.

Lemma tx_held V Hd bl ic k i n : tx V Hd bl ic k -> Hd !! i = Some n ->
  0 <= n < Z.of_nat (length V) /\ length (V !!! Z.to_nat n) = Z.to_nat BSIZE /\ forall j, Hd !! j = Some n -> j = i.
Proof.
  intros Ht Hi. destruct Ht as [(D & Hr & HD) _ Hl _ _ _ _ _ _ _ _ _].
  assert (forall j, Hd !! j = Some n -> (hold V bl <$> Hd) !! j = Some (hold V bl n)) as Hh by (intros j Hj; by rewrite lookup_fmap, Hj).
  destruct (rep_holds _ _ _ _ i n _ _ Hr (Hh i Hi)) as (b & Hib & Hb & [Hv Hbn] & Hon & _ & _ & _ & _ & Hlen).
  split; [unfold on_disk in Hon; by rewrite Hl in Hon|]. split; [done|]. intros j Hj.
  destruct (rep_holds _ _ _ _ j n _ _ Hr (Hh j Hj)) as (c & Hjb & Hc & [Hv' Hbn'] & _).
  apply (rep_unique _ _ _ _ Hr j i c b); congruence.
Qed.

(** Every block has the size of one. *)
Lemma tx_block_len V Hd bl ic k n : tx V Hd bl ic k -> 0 <= n < Z.of_nat (length V) -> length (V !!! Z.to_nat n) = Z.to_nat BSIZE.
Proof.
  intros Ht Hn. destruct (lookup_lt_is_Some_2 V (Z.to_nat n)) as [x Hx]; [lia|].
  pose proof Ht as [(D & Hr & HD) Hdk _ _ _ _ _ _ _ _ _ _].
  destruct (decide (map_Exists (fun _ m => m = n) Hd)) as [(i & m & Hi & ->)|Hno].
  { by apply (tx_held _ _ _ _ _ _ _ Ht Hi). }
  rewrite (list_lookup_total_correct _ _ _ Hx). destruct (decide (n ∈ bl)) as [Hin|Hin].
  - eapply (rep_pin_range pid D _ (fs k) n x Hr). apply HD. split_and!; [done| |done]. intros i Hi. apply Hno. by exists i, n.
  - apply (Forall_lookup_1 _ _ (Z.to_nat n) x (rep_disk _ _ _ _ Hr)). rewrite Hdk; [done|lia|done].
Qed.

Lemma tx_brelse V Hd bl ic k i n : tx V Hd bl ic k -> Hd !! i = Some n ->
  wp (brelse i) o k (fun _ k' => tx V (delete i Hd) bl ic k').
Proof.
  intros Ht Hi. pose proof (tx_held _ _ _ _ _ _ _ Ht Hi) as ([Hn0 Hn1] & _ & Huniq).
  pose proof Ht as [(D & Hr & HD) Hdk Hl Hb Hq Hru _ _ _ _ _ _].
  assert (V !! Z.to_nat n = Some (V !!! Z.to_nat n)) as Hx by (apply list_lookup_lookup_total_lt; lia).
  destruct (brelse_spec pid D (hold V bl <$> Hd) i n (bool_decide (n ∈ bl)) (V !!! Z.to_nat n) o k) as (k' & E & He & Hr' & _); try done.
  { by rewrite lookup_fmap, Hi. }
  { intros Hf%bool_decide_eq_false. by rewrite Hdk. }
  exists tt, k'. split; [done|]. rewrite <- fmap_delete in Hr'.
  assert (forall m, not_held (delete i Hd) m <-> m = n \/ not_held Hd m) as Hnh.
  { intros m. split.
    - intros Hm. destruct (decide (m = n)) as [|Hne]; [by left|right]. intros j Hj. apply (Hm j). rewrite lookup_delete_ne; [done|].
      intros ->. congruence.
    - intros [->|Hm] j Hj; apply lookup_delete_Some in Hj as [Hne Hj]; [by rewrite (Huniq j Hj) in Hne|by apply (Hm j)]. }
  eapply (tx_step V Hd bl ic k); [done|done|exact Hr'| |done|done].
  intros m y. case_bool_decide as Hin; [rewrite lookup_insert_Some|]; rewrite HD, Hnh; split.
  - intros [[<- <-]|(Hne & ? & ? & ?)]; [|by auto]. split_and!; [done|by left|done].
  - intros (? & [->|?] & Hy); [left; split; [done|congruence]|]. destruct (decide (n = m)) as [->|]; [left; split; [done|congruence]|by right].
  - intros (? & ? & ?). by auto.
  - intros (? & [->|?] & ?); done.
Qed.

Lemma absorb_elem n bl m : m ∈ absorb n bl <-> m = n \/ m ∈ bl.
Proof. unfold absorb. case_decide; [|set_solver]. split; [by right|by intros [->|]]. Qed.

Lemma absorb_length n bl : (length bl <= length (absorb n bl) <= S (length bl))%nat.
Proof. unfold absorb. case_decide; [lia|]. rewrite length_app. simpl. lia. Qed.

Lemma absorb_in n bl : n ∈ bl -> absorb n bl = bl.
Proof. intros. unfold absorb. by rewrite decide_True. Qed.

(** A change to a block, logged. *)
Lemma tx_log_write V Hd bl ic k i n g :
  let d := g (V !!! Z.to_nat n) in
  tx V Hd bl ic k -> Hd !! i = Some n -> is_blockno n -> length d = Z.to_nat BSIZE ->
  Z.of_nat (length bl) < LOGSIZE -> Z.of_nat (length bl) < lg_size (slog (fs k0)) - 1 ->
  wp (upd_buf i (fun b => b <| b_data ::= g |>) ≫= fun _ => log_write i) o k
    (fun _ k' => tx (<[Z.to_nat n := d]> V) Hd (absorb n bl) ic k').
Proof.
  intros d Ht Hi Hn Hd' Hsz1 Hsz2. pose proof (tx_held _ _ _ _ _ _ _ Ht Hi) as ([Hn0 Hn1] & _ & Huniq).
  pose proof Ht as [(D & Hr & HD) Hdk Hl Hb Hq Hru Hlog Hlh Hout Hm Hsm Hic].
  destruct (upd_data_spec pid D (hold V bl <$> Hd) i n (bool_decide (n ∈ bl)) (V !!! Z.to_nat n) g o k Hr) as (k1 & E1 & He1 & Hr1); [by rewrite lookup_fmap, Hi|done|]. fold d in Hr1.
  assert (since k1 [] pid D (<[i := (n, bool_decide (n ∈ bl), d)]> (hold V bl <$> Hd)) k1) as Hs1.
  { split; [apply evolves_refl|done|by eapply evolves_quiet|by eapply evolves_runs]. }
  pose proof (evolves_log _ _ _ He1) as El1.
  destruct (log_write_spec start k1 [] pid D (<[i := (n, bool_decide (n ∈ bl), d)]> (hold V bl <$> Hd)) bl i n (bool_decide (n ∈ bl)) d o k1)
    as (k2 & E2 & [Hm2 Ht2] & Hs2 & Hlog2 & Ho2 & Hc2 & Hz2 & Hlh2); try done; try by rewrite El1.
  { rewrite El1. by rewrite (fs_size _ _ Hsm). }
  { apply lookup_insert_eq. }
  rewrite insert_insert_eq in Hs2. exists tt, k2. split; [by rewrite (bind_ok _ _ _ _ _ _ _ E1)|].
  destruct Hs2 as [_ Hr2 Hq2 Hru2]. pose proof (traced_disk _ _ _ Ht2) as Ed2. pose proof (evolves_disk _ _ _ He1) as Ed1. simpl in Ed1, Ed2.
  assert (length (<[Z.to_nat n := d]> V) = length V) as HlV by apply length_insert.
  assert (forall m, 0 <= m -> m <> n -> <[Z.to_nat n := d]> V !! Z.to_nat m = V !! Z.to_nat m) as HVm.
  { intros m Hm0 Hmn. apply list_lookup_insert_ne. lia. }
  split.
  - exists D. split.
    + assert (hold (<[Z.to_nat n := d]> V) (absorb n bl) <$> Hd = <[i := (n, true, d)]> (hold V bl <$> Hd)) as ->; [|done]. apply map_eq. intros j. rewrite lookup_fmap. destruct (decide (j = i)) as [->|Hji].
      * rewrite lookup_insert_eq, Hi. simpl. unfold hold. rewrite bool_decide_true by (apply absorb_elem; by left).
        by rewrite list_lookup_total_insert_eq by lia.
      * rewrite lookup_insert_ne, lookup_fmap by done. destruct (Hd !! j) as [m|] eqn:Ej; [|done]. simpl. f_equal. unfold hold.
        assert (m <> n) as Hmn by (intros ->; by apply Hji, Huniq).
        destruct (tx_held _ _ _ _ _ _ _ Ht Ej) as ([? _] & _).
        f_equal; [f_equal; apply bool_decide_ext; rewrite absorb_elem; naive_solver|].
        rewrite list_lookup_total_insert_ne by lia. done.
    + intros m y. rewrite HD, absorb_elem. destruct (decide (m = n)) as [->|Hmn].
      * split; intros (_ & Hno & _); by destruct (Hno i).
      * split; intros (Hin & Hno & Hy); (split; [naive_solver|split; [done|]]).
        -- rewrite HVm; [done| |done]. pose proof (proj1 (Forall_forall _ _) Hb m Hin) as [? _]. done.
        -- destruct Hin as [|Hin]; [done|]. rewrite HVm in Hy; [done| |done]. pose proof (proj1 (Forall_forall _ _) Hb m Hin) as [? _]. done.
  - intros m Hm0 Hmb. rewrite absorb_elem in Hmb. rewrite Ed2, Ed1, HVm by naive_solver. apply Hdk; naive_solver.
  - by rewrite Ed2, Ed1, HlV.
  - apply Forall_forall. intros m [->|Hin]%absorb_elem; [done|]. by apply (proj1 (Forall_forall _ _) Hb).
  - done.
  - done.
  - done.
  - rewrite Hlh2, El1. done.
  - rewrite Ho2, El1. done.
  - eapply moves_trans; [exact Hm|]. eapply moves_trans; [apply He1|done].
  - etransitivity; [exact Hsm|]. etransitivity; [by apply evolves_fsame|]. destruct Ht2. rewrite app_nil_r in *. by split.
  - by rewrite (tr_icache _ _ _ Ht2), (evolves_icache _ _ _ He1).
Qed.

(** There is room in the log for one more block, and in the cache for two buffers
    beside the blocks in the log. *)
Definition fits (bl : list Z) : Prop :=
  Z.of_nat (length bl) <= LOGSIZE - 2 /\ Z.of_nat (length bl) < lg_size (slog (fs k0)) - 1.

Lemma fits_bread bl (Hd : gmap nat Z) : fits bl -> (size Hd <= 1)%nat -> (length bl + size Hd < NBUF)%nat.
Proof. unfold fits, LOGSIZE, MAXOPBLOCKS, NBUF. lia. Qed.

Lemma fits_less bl bl' : fits bl -> (length bl' <= length bl)%nat -> fits bl'.
Proof. unfold fits. lia. Qed.

Lemma wp_logged {B} V Hd bl ic k i n g (f : unit -> K B) Q :
  tx V Hd bl ic k -> Hd !! i = Some n -> is_blockno n -> length (g (V !!! Z.to_nat n)) = Z.to_nat BSIZE -> fits bl ->
  (forall k', tx (<[Z.to_nat n := g (V !!! Z.to_nat n)]> V) Hd (absorb n bl) ic k' -> wp (f tt) o k' Q) ->
  wp (upd_buf i (fun b => b <| b_data ::= g |>) ≫= fun _ => log_write i ≫= f) o k Q.
Proof.
  intros Ht Hi Hn Hg Hr Hf. destruct (tx_log_write V Hd bl ic k i n g Ht Hi Hn Hg) as ([] & k1 & E & Ht1); [unfold fits in Hr; lia|unfold fits in Hr; lia|].
  destruct (Hf k1 Ht1) as (b & k2 & E2 & HQ). exists b, k2. split; [|done].
  rewrite <- bind_assoc. by rewrite (bind_ok _ _ _ _ _ _ _ E).
Qed.

(** ** The inode cache and the super block *)

Lemma tx_get_ino V Hd bl ic k ip i : tx V Hd bl ic k -> ic !! ip = Some i -> wp (get_ino ip) o k (fun a k' => a = i /\ k' = k).
Proof. intros Ht Hi. exists i, k. split; [|done]. apply deref_some. by rewrite (tx_ic _ _ _ _ _ Ht). Qed.

Lemma tx_upd_ino V Hd bl ic k ip g : tx V Hd bl ic k -> wp (upd_ino ip g) o k (fun _ k' => tx V Hd bl (alter g ip ic) k').
Proof.
  intros [(D & Hr & HD) Hdk Hl Hb Hq Hru Hlog Hlh Ho Hm Hsm Hic].
  set (f' := fs k <| icache ::= alter g ip |>). exists tt, (k <| fs := f' |>). split; [unfold upd_ino, upd_fs, modify, f'; f_equal; kernel_eq|].
  assert (disk f' = disk (fs k)) as Ed by done. assert (slog f' = slog (fs k)) as El by done.
  split; rsimpl; try done; rewrite ?Ed, ?El; try done.
  - exists D. split; [|done]. eapply rep_same; [exact Hr|done..].
  - eapply moves_trans; [exact Hm|]. apply moves_refl.
  - etransitivity; [exact Hsm|]. by split.
  - by rewrite <- Hic.
Qed.

Lemma tx_get_sb V Hd bl ic k : tx V Hd bl ic k -> wp get_sb o k (fun s k' => s = sb (fs k0) /\ k' = k).
Proof. intros Ht. exists (sb (fs k)), k. split; [done|]. split; [apply (fs_sb _ _ (tx_same _ _ _ _ _ Ht))|done]. Qed.

End in_transaction.
End with_layout.
End Tx.
