(* ===== verification/Alloc.v ===== *)
(** Allocation of disk blocks (fs.c): the free map as a set of blocks. *)

From S2P Require Import Prelude Monad State Console Sched Sleeplock Bytes Bio Log Fs Cache Crash Tx.

Module Alloc.
Import Header Txn Log Cache Sleeplock Bio Commit Fs Tx.

(** * Bits of a block *)

Lemma has_pow2 x m : 0 <= m -> has_bits x (Z.shiftl 1 m) = Z.testbit x m.
Proof.
  intros Hm. unfold has_bits. rewrite Z.shiftl_1_l.
  assert (forall i, 0 <= i -> Z.testbit (Z.land x (2 ^ m)) i = Z.testbit x i && (m =? i)) as Hb.
  { intros i Hi. by rewrite Z.land_spec, Z.pow2_bits_eqb. }
  destruct (Z.testbit x m) eqn:E.
  - destruct (Z.eqb_spec (Z.land x (2 ^ m)) 0) as [E0|]; [|done]. specialize (Hb m Hm).
    by rewrite E0, E, Z.eqb_refl, Z.bits_0 in Hb.
  - apply negb_false_iff, Z.eqb_eq, Z.bits_inj'. intros i Hi. rewrite Hb, Z.bits_0 by done.
    destruct (Z.eqb_spec m i) as [<-|]; [by rewrite E|by rewrite andb_false_r].
Qed.

Lemma bit_set_testbit d bi : bit_set d bi = Z.testbit (default 0 (d !! Z.to_nat (bi / 8))) (bi mod 8).
Proof. apply has_pow2, Z.mod_pos_bound. lia. Qed.

Definition set_bit (bi : Z) (d : list Z) : list Z := alter (fun c => Z.lor c (bit_mask bi)) (Z.to_nat (bi / 8)) d.
Definition clear_bit (bi : Z) (d : list Z) : list Z := alter (fun c => Z.land c (Z.lnot (bit_mask bi))) (Z.to_nat (bi / 8)) d.

Lemma mask_bit bi i : 0 <= i -> Z.testbit (bit_mask bi) i = (bi mod 8 =? i).
Proof. intros. unfold bit_mask. pose proof (Z.mod_pos_bound bi 8 ltac:(lia)). by rewrite Z.shiftl_1_l, Z.pow2_bits_eqb by lia. Qed.

(** A change to the byte of one bit that leaves the other bits of the byte alone. *)
Lemma bit_alter g v bi bj d : 0 <= bi < 8 * Z.of_nat (length d) -> 0 <= bj ->
  (forall c i, 0 <= i -> Z.testbit (g c) i = if bi mod 8 =? i then v else Z.testbit c i) ->
  bit_set (alter g (Z.to_nat (bi / 8)) d) bj = if bi =? bj then v else bit_set d bj.
Proof.
  intros Hi Hj Hg. rewrite !bit_set_testbit, list_lookup_alter.
  pose proof (Z.mod_pos_bound bj 8 ltac:(lia)) as Hm. pose proof (Z.div_mod bi 8 ltac:(lia)). pose proof (Z.div_mod bj 8 ltac:(lia)).
  pose proof (Z.div_pos bi 8 ltac:(lia) ltac:(lia)). pose proof (Z.div_pos bj 8 ltac:(lia) ltac:(lia)).
  pose proof (Z.div_lt_upper_bound bi 8 (Z.of_nat (length d)) ltac:(lia) ltac:(lia)). destruct (decide (Z.to_nat (bi / 8) = Z.to_nat (bj / 8))) as [E|E].
  - assert (bi / 8 = bj / 8) as E' by lia. rewrite E'.
    destruct (lookup_lt_is_Some_2 d (Z.to_nat (bj / 8))) as [c Hc]; [lia|]. rewrite Hc. simpl. rewrite Hg by lia.
    destruct (Z.eqb_spec (bi mod 8) (bj mod 8)), (Z.eqb_spec bi bj); try done; congruence || lia.
  - destruct (Z.eqb_spec bi bj); [congruence|done].
Qed.

Lemma set_bit_get bi bj d : 0 <= bi < 8 * Z.of_nat (length d) -> 0 <= bj ->
  bit_set (set_bit bi d) bj = (bi =? bj) || bit_set d bj.
Proof.
  intros Hi Hj. unfold set_bit. rewrite (bit_alter _ true) by (done || intros c i Hi0; rewrite Z.lor_spec, mask_bit by done; destruct (_ =? _); by rewrite ?orb_true_r, ?orb_false_r).
  by destruct (bi =? bj).
Qed.

Lemma clear_bit_get bi bj d : 0 <= bi < 8 * Z.of_nat (length d) -> 0 <= bj ->
  bit_set (clear_bit bi d) bj = negb (bi =? bj) && bit_set d bj.
Proof.
  intros Hi Hj. unfold clear_bit. rewrite (bit_alter _ false) by (done || intros c i Hi0; rewrite Z.land_spec, Z.lnot_spec, mask_bit by done; destruct (_ =? _); by rewrite ?andb_true_r, ?andb_false_r).
  by destruct (bi =? bj).
Qed.

Lemma length_set_bit bi d : length (set_bit bi d) = length d.
Proof. apply length_alter. Qed.
Lemma length_clear_bit bi d : length (clear_bit bi d) = length d.
Proof. apply length_alter. Qed.

Lemma find_clear_spec n d b bi size :
  match find_clear n d b bi size with
  | Some r => bi <= r < BPB /\ b + r < size /\ bit_set d r = false /\ forall c, bi <= c < r -> bit_set d c = true
  | None => forall c, bi <= c < bi + Z.of_nat n -> c < BPB -> b + c < size -> bit_set d c = true
  end.
Proof.
  revert bi. induction n as [|n IH]; intros bi; simpl; [intros; lia|].
  destruct (Z.ltb_spec bi BPB); simpl; [|intros; lia]. destruct (Z.ltb_spec (b + bi) size); [|intros; lia].
  destruct (bit_set d bi) eqn:E.
  - specialize (IH (bi + 1)). destruct (find_clear n d b (bi + 1) size) as [r|].
    + destruct IH as (? & ? & ? & Hc). split_and!; try done; try lia. intros c Hc'. destruct (decide (c = bi)) as [->|]; [done|]. apply Hc. lia.
    + intros c Hc' ? ?. destruct (decide (c = bi)) as [->|]; [done|]. apply IH; lia.
  - split_and!; try done; lia.
Qed.
(** * Where things are on the disk *)

(** The first data block. *)
Definition datastart (s : superblock) : Z := sb_bmapstart s + sb_size s / BPB + 1.

(** The log, the inodes, the free map and the data blocks follow each other on a
    disk of [len] blocks. *)
Record geometry (s : superblock) (start nlog : Z) (len : nat) : Prop := {
  ge_log : 0 <= start /\ 0 <= nlog /\ start + nlog <= sb_inodestart s;
  ge_inodes : 0 <= sb_ninodes s /\ sb_inodestart s + sb_ninodes s / IPB + 1 <= sb_bmapstart s;
  ge_map : datastart s <= sb_size s;
  ge_size : sb_size s <= Z.of_nat len /\ sb_size s <= 2 ^ 31
}.

(** The bit of the free map for a block. *)
Definition used (s : superblock) (V : list block) (b : Z) : bool := bit_set (V !!! Z.to_nat (BBLOCK b s)) (b mod BPB).

(** The first free block. *)
Record is_first (s : superblock) (V : list block) (b : Z) : Prop := {
  if_range : 0 <= b < sb_size s;
  if_free : used s V b = false;
  if_least : forall c, 0 <= c < b -> used s V c = true
}.

Definition zeros : block := replicate (Z.to_nat BSIZE) 0.

(** The blocks after the allocation of [b]. *)
Definition alloc_view (s : superblock) (b : Z) (V : list block) : list block :=
  <[Z.to_nat b := zeros]> (<[Z.to_nat (BBLOCK b s) := set_bit (b mod BPB) (V !!! Z.to_nat (BBLOCK b s))]> V).
(** And those after [b] was freed. *)
Definition free_view (s : superblock) (b : Z) (V : list block) : list block :=
  <[Z.to_nat (BBLOCK b s) := clear_bit (b mod BPB) (V !!! Z.to_nat (BBLOCK b s))]> V.

Section geometry.
Context (s : superblock) (start nlog : Z) (len : nat).
Hypothesis Hg : geometry s start nlog len.

Lemma BBLOCK_eq b : 0 <= b < sb_size s -> BBLOCK b s = b / BPB + sb_bmapstart s /\ sb_bmapstart s <= BBLOCK b s < datastart s.
Proof.
  intros Hb. destruct Hg as [? [? ?] ? ?]. pose proof (Z.div_pos b BPB ltac:(lia) ltac:(done)).
  pose proof (Z.div_le_mono b (sb_size s) BPB ltac:(done) ltac:(lia)). pose proof (Z.div_pos (sb_ninodes s) IPB ltac:(lia) ltac:(done)).
  unfold datastart in *. unfold BBLOCK. rewrite u32_small by (unfold is_u32; lia). lia.
Qed.

Lemma BBLOCK_range b : 0 <= b < sb_size s -> 0 <= BBLOCK b s < Z.of_nat len /\ is_blockno (BBLOCK b s).
Proof.
  intros Hb. destruct (BBLOCK_eq b Hb) as [_ ?]. destruct Hg as [? [? ?] ? ?].
  pose proof (Z.div_pos (sb_ninodes s) IPB ltac:(lia) ltac:(done)). unfold is_blockno. lia.
Qed.

Lemma datastart_gt : 1 < datastart s.
Proof.
  destruct Hg as [? [? ?] ? ?]. pose proof (Z.div_pos (sb_ninodes s) IPB ltac:(lia) ltac:(done)).
  unfold datastart in *. pose proof (Z.div_mod (sb_size s) BPB ltac:(done)). pose proof (Z.mod_pos_bound (sb_size s) BPB ltac:(done)).
  change BPB with 4096 in *. lia.
Qed.

Lemma first_unique V b c : is_first s V b -> is_first s V c -> b = c.
Proof.
  intros [Hb Fb Lb] [Hc Fc Lc]. destruct (Z.lt_trichotomy b c) as [|[|]]; [|done|].
  - rewrite Lc in Fb by lia. done.
  - rewrite Lb in Fc by lia. done.
Qed.

(** There is a first free block when there is a free one. *)
Lemma first_exists V b : 0 <= b < sb_size s -> used s V b = false -> exists c, is_first s V c /\ c <= b.
Proof.
  induction b as [b IH] using (well_founded_induction (Z.lt_wf 0)). intros Hb Hf. destruct (decide (Exists (fun i => used s V (Z.of_nat i) = false) (seq 0 (Z.to_nat b)))) as [Hex|Hno].
  - apply Exists_exists in Hex as (i & Hi%elem_of_seq & Hu). destruct (IH (Z.of_nat i)) as (c & ? & ?); [lia|lia|done|]. exists c. split; [done|lia].
  - exists b. split; [|lia]. split; [done|done|]. intros c Hc. apply not_false_iff_true. intros Hu. apply Hno, Exists_exists.
    exists (Z.to_nat c). rewrite elem_of_seq, Z2Nat.id by lia. split; [lia|done].
Qed.

(** How the free map changes. *)
Lemma used_update V b c f v : 0 <= b < sb_size s -> 0 <= c < sb_size s -> length V = len ->
  (bit_set (f (V !!! Z.to_nat (BBLOCK b s))) (c mod BPB) = if b mod BPB =? c mod BPB then v else bit_set (V !!! Z.to_nat (BBLOCK b s)) (c mod BPB)) ->
  used s (<[Z.to_nat (BBLOCK b s) := f (V !!! Z.to_nat (BBLOCK b s))]> V) c = if b =? c then v else used s V c.
Proof.
  intros Hb Hc HV Hf. unfold used. destruct (BBLOCK_eq b Hb) as [Eb _], (BBLOCK_eq c Hc) as [Ec _].
  destruct (BBLOCK_range b Hb) as [Rb _], (BBLOCK_range c Hc) as [Rc _].
  pose proof (Z.div_mod b BPB ltac:(done)). pose proof (Z.div_mod c BPB ltac:(done)).
  destruct (decide (b / BPB = c / BPB)) as [E|E].
  - assert (BBLOCK c s = BBLOCK b s) as -> by congruence. rewrite list_lookup_total_insert_eq by lia. rewrite Hf.
    destruct (Z.eqb_spec (b mod BPB) (c mod BPB)), (Z.eqb_spec b c); try done; congruence || lia.
  - rewrite list_lookup_total_insert_ne by lia. destruct (Z.eqb_spec b c); [congruence|done].
Qed.

Lemma bit_index b : 0 <= b mod BPB < 8 * Z.of_nat (Z.to_nat BSIZE).
Proof. pose proof (Z.mod_pos_bound b BPB ltac:(done)). unfold BPB, BSIZE in *. lia. Qed.

Lemma used_alloc V b c : datastart s <= b < sb_size s -> 0 <= c < sb_size s -> length V = len ->
  length (V !!! Z.to_nat (BBLOCK b s)) = Z.to_nat BSIZE -> used s (alloc_view s b V) c = (b =? c) || used s V c.
Proof.
  intros Hb Hc HV Hl. pose proof Hg as [? [? ?] ? ?]. pose proof (Z.div_pos (sb_ninodes s) IPB ltac:(lia) ltac:(done)).
  pose proof (Z.div_pos (sb_size s) BPB ltac:(lia) ltac:(done)). assert (0 <= b < sb_size s) as Hb0 by (unfold datastart in *; lia).
  destruct (BBLOCK_eq c Hc) as [_ ?]. destruct (BBLOCK_range c Hc) as [? _]. unfold alloc_view. unfold used at 1. rewrite list_lookup_total_insert_ne by lia.
  change (used s (<[Z.to_nat (BBLOCK b s) := set_bit (b mod BPB) (V !!! Z.to_nat (BBLOCK b s))]> V) c = (b =? c) || used s V c).
  rewrite (used_update V b c (set_bit (b mod BPB)) true) by (done || (rewrite set_bit_get; [by destruct (_ =? _)|rewrite Hl; apply bit_index|by apply bit_index])).
  by destruct (b =? c).
Qed.

Lemma used_free V b c : 0 <= b < sb_size s -> 0 <= c < sb_size s -> length V = len ->
  length (V !!! Z.to_nat (BBLOCK b s)) = Z.to_nat BSIZE -> used s (free_view s b V) c = negb (b =? c) && used s V c.
Proof.
  intros Hb Hc HV Hl. unfold free_view.
  rewrite (used_update V b c (clear_bit (b mod BPB)) false) by (done || (rewrite clear_bit_get; [by destruct (_ =? _)|rewrite Hl; apply bit_index|by apply bit_index])).
  by destruct (b =? c).
Qed.

Lemma alloc_view_ne V b n : n <> b -> n <> BBLOCK b s -> 0 <= n -> 0 <= b < sb_size s -> alloc_view s b V !!! Z.to_nat n = V !!! Z.to_nat n.
Proof.
  intros ? ? ? Hb. destruct (BBLOCK_range b Hb) as [? _]. unfold alloc_view. by rewrite !list_lookup_total_insert_ne by lia.
Qed.

Lemma length_alloc_view V b : length (alloc_view s b V) = length V.
Proof. unfold alloc_view. by rewrite !length_insert. Qed.

End geometry.

(** * The operations *)

Section operations.
Context `{Layout} (k0 : kernel) (pid start nlog : Z) (o : list (kernel -> kernel)).
Notation s := (sb (fs k0)).
Notation tx := (tx k0 pid start).
Notation fits := (fits k0).

Lemma bzero_spec V Hd bl ic k n : tx V Hd bl ic k -> 0 <= n < Z.of_nat (length V) -> is_blockno n -> not_held Hd n ->
  (size Hd <= 1)%nat -> fits bl ->
  wp (bzero 1 n) o k (fun _ k' => tx (<[Z.to_nat n := zeros]> V) Hd (absorb n bl) ic k').
Proof.
  intros Ht Hn Hb Hnh Hh Hr. unfold bzero.
  eapply wp_step; [apply (tx_bread k0 pid start o V Hd bl ic k n Ht Hn Hnh); by eapply fits_bread|]. intros i k1 [Ht1 Hi].
  eapply (wp_logged k0 pid start o V _ bl ic k1 i n (fun _ => zeros)); [exact Ht1|apply lookup_insert_eq|done|done|done|].
  intros k2 Ht2. eapply wp_mono; [apply (tx_brelse k0 pid start o _ _ _ _ _ i n Ht2); apply lookup_insert_eq|].
  intros [] k3 Ht3; cbv beta in Ht3. by rewrite delete_insert_id in Ht3.
Qed.

Hypothesis Hg : geometry s start nlog (length (disk (fs k0))).

(** The locked buffers are of data blocks in use. *)
Definition data_held (V : list block) (Hd : gmap nat Z) : Prop :=
  forall i n, Hd !! i = Some n -> datastart s <= n < sb_size s /\ used s V n = true.

Lemma tx_length V Hd bl ic k : tx V Hd bl ic k -> length V = length (disk (fs k0)).
Proof.
  intros Ht. rewrite <- (tx_len _ _ _ _ _ _ _ _ Ht). pose proof (tx_same _ _ _ _ _ _ _ _ Ht) as [Ei Et _ _ _ _ _ _ _ _].
  unfold disk. by rewrite Ei, Et.
Qed.

Lemma bitmap_not_held V Hd b : data_held V Hd -> 0 <= b < sb_size s -> not_held Hd (BBLOCK b s).
Proof. intros Hh Hb i Hi. destruct (Hh i _ Hi) as [? _]. destruct (BBLOCK_eq s start nlog _ Hg b Hb). lia. Qed.

Lemma balloc_loop_spec V Hd bl ic b :
  is_first s V b -> datastart s <= b -> data_held V Hd -> (size Hd <= 1)%nat -> fits bl -> fits (absorb (BBLOCK b s) bl) ->
  forall n c k, tx V Hd bl ic k -> c mod BPB = 0 -> 0 <= c <= b -> sb_size s <= c + Z.of_nat n * BPB ->
  wp (balloc_loop n 1 c) o k (fun a k' => a = b /\ tx (alloc_view s b V) Hd (absorb b (absorb (BBLOCK b s) bl)) ic k').
Proof.
  intros Hf Hdata Hdh Hh Hr Hr2 n. pose proof Hf as [Hb Hfree Hleast]. induction n as [|n IH]; intros c k Ht Hc Hcb Hn.
  { exfalso. lia. }
  cbn [balloc_loop]. eapply wp_step; [by eapply tx_get_sb|]. intros _ _ [-> ->]. destruct (Z.ltb_spec c (sb_size s)) as [Hcs|]; [|exfalso; lia].
  assert (0 <= c < sb_size s) as Hc0 by lia. pose proof (tx_length _ _ _ _ _ Ht) as HV.
  destruct (BBLOCK_range s start nlog _ Hg c Hc0) as [Rc Bc].
  eapply wp_step; [apply (tx_bread k0 pid start o V Hd bl ic k (BBLOCK c s) Ht); [lia|by eapply bitmap_not_held|by eapply fits_bread]|].
  intros i k1 [Ht1 Hi]. eapply wp_step; [apply (tx_get_buf k0 pid start o _ _ _ _ _ i (BBLOCK c s) Ht1), lookup_insert_eq|].
  intros bb _ (-> & -> & Hlen). pose proof (find_clear_spec (Z.to_nat BPB) (V !!! Z.to_nat (BBLOCK c s)) c 0 (sb_size s)) as Hfc.
  pose proof (Z.div_mod c BPB ltac:(done)) as Hdm. assert (forall x, 0 <= x < BPB -> (c + x) / BPB = c / BPB /\ (c + x) mod BPB = x) as Hcx.
  { intros x Hx. split; symmetry; [apply (Z.div_unique _ _ _ x)|apply (Z.mod_unique _ _ (c / BPB))]; lia. }
  assert (forall x, 0 <= x < BPB -> c + x < sb_size s -> used s V (c + x) = bit_set (V !!! Z.to_nat (BBLOCK c s)) x) as Hux.
  { intros x Hx Hxs. destruct (Hcx x Hx) as [E1 E2]. unfold used, BBLOCK. by rewrite E1, E2. }
  destruct (find_clear _ _ c 0 (sb_size s)) as [bi|].
  - destruct Hfc as (Hbi & Hbs & Hcl & Hall). assert (c + bi = b) as Eb.
    { apply (first_unique s V); [|done]. split; [lia|by rewrite Hux by lia|]. intros x Hx. destruct (Z.lt_ge_cases x c) as [Hxc|Hxc]; [apply Hleast; lia|].
      replace x with (c + (x - c)) by lia. rewrite Hux by lia. apply Hall. lia. }
    destruct (Hcx bi) as [E1 E2]; [lia|]. rewrite Eb in E1, E2. assert (BBLOCK b s = BBLOCK c s) as EB by (unfold BBLOCK; by rewrite E1).
    eapply (wp_logged k0 pid start o V _ bl ic k1 i (BBLOCK c s) (set_bit bi)); [exact Ht1|apply lookup_insert_eq|done|by rewrite length_set_bit|done|].
    intros k2 Ht2. eapply wp_step; [apply (tx_brelse k0 pid start o _ _ _ _ _ i (BBLOCK c s) Ht2), lookup_insert_eq|].
    intros [] k3 Ht3; cbv beta in Ht3. rewrite delete_insert_id in Ht3 by done.
    eapply wp_step.
    { rewrite Eb. eapply (bzero_spec _ Hd _ ic k3 b Ht3); [rewrite length_insert; destruct Hg; lia|destruct Hg; unfold is_blockno; lia| |done|by rewrite <- EB].
      intros j Hj. destruct (Hdh j b Hj) as [_ Hu]. congruence. }
    intros [] k4 Ht4; cbv beta in Ht4. rewrite Eb. exists b, k4. split; [done|]. split; [done|]. unfold alloc_view. rewrite EB, E2. exact Ht4.
  - eapply wp_step; [apply (tx_brelse k0 pid start o _ _ _ _ _ i (BBLOCK c s) Ht1), lookup_insert_eq|].
    intros [] k2 Ht2; cbv beta in Ht2. rewrite delete_insert_id in Ht2 by done. apply IH; [done| | |lia].
    + rewrite <- Z.add_mod_idemp_l, Hc by done. done.
    + split; [unfold BPB, BSIZE in *; lia|]. destruct (Z.le_gt_cases (c + BPB) b) as [|Hlt]; [done|]. exfalso.
      pose proof (Hfc (b - c)) as Hb'. rewrite <- Hux in Hb' by lia. replace (c + (b - c)) with b in Hb' by lia. rewrite Hb' in Hfree; [done|lia..].
Qed.

Lemma balloc_spec V Hd bl ic k b :
  tx V Hd bl ic k -> is_first s V b -> datastart s <= b -> data_held V Hd -> (size Hd <= 1)%nat -> fits bl -> fits (absorb (BBLOCK b s) bl) ->
  wp (balloc 1) o k (fun a k' => a = b /\ tx (alloc_view s b V) Hd (absorb b (absorb (BBLOCK b s) bl)) ic k').
Proof.
  intros Ht Hf Hdata Hdh Hh Hr Hr2. unfold balloc. eapply wp_step; [by eapply tx_get_sb|]. intros _ _ [-> ->].
  pose proof (if_range _ _ _ Hf). apply (balloc_loop_spec V Hd bl ic b); try done; [lia|].
  pose proof (Z.div_mod (sb_size s) BPB ltac:(done)). pose proof (Z.mod_pos_bound (sb_size s) BPB ltac:(done)).
  pose proof (Z.div_pos (sb_size s) BPB ltac:(lia) ltac:(done)). change BPB with 4096 in *. lia.
Qed.

Lemma readsb_spec V Hd bl ic k : tx V Hd bl ic k -> not_held Hd 1 -> (size Hd <= 1)%nat -> (1 < length V)%nat ->
  (length bl + size Hd < NBUF)%nat ->
  wp (readsb 1) o k (fun a k' => a = superblock_of (V !!! 1%nat) /\ tx V Hd bl ic k').
Proof.
  intros Ht Hn Hh HV Hr. unfold readsb.
  eapply wp_step; [apply (tx_bread k0 pid start o V Hd bl ic k 1 Ht); [lia|done|done]|]. intros i k1 [Ht1 Hi].
  eapply wp_step; [apply (tx_get_buf k0 pid start o _ _ _ _ _ i 1 Ht1), lookup_insert_eq|]. intros b _ (-> & -> & _).
  eapply wp_step; [apply (tx_brelse k0 pid start o _ _ _ _ _ i 1 Ht1), lookup_insert_eq|]. intros [] k2 Ht2; cbv beta in Ht2.
  rewrite delete_insert_id in Ht2 by done. by eexists _, _.
Qed.

(** The super block in memory is the one on disk. *)
Definition sb_on_disk (V : list block) : Prop := superblock_of (V !!! 1%nat) = s.

Lemma set_sb_same V Hd bl ic k : tx V Hd bl ic k -> wp (upd_fs (fun f => f <| sb := s |>)) o k (fun _ k' => k' = k).
Proof.
  intros Ht. exists tt, k. split; [|done]. unfold upd_fs, modify. f_equal. pose proof (fs_sb _ _ (tx_same _ _ _ _ _ _ _ _ Ht)) as <-. kernel_eq.
  by destruct (fs k).
Qed.

Lemma bfree_spec V Hd bl ic k b :
  tx V Hd bl ic k -> sb_on_disk V -> 0 <= b < sb_size s -> data_held V Hd -> (size Hd <= 1)%nat -> fits bl ->
  if used s V b then wp (bfree 1 b) o k (fun _ k' => tx (free_view s b V) Hd (absorb (BBLOCK b s) bl) ic k')
  else exists k', bfree 1 b o k = Panic "freeing free block" k'.
Proof.
  intros Ht Hsb Hb Hdh Hh Hr. pose proof (tx_length _ _ _ _ _ Ht) as HV. destruct (BBLOCK_range s start nlog _ Hg b Hb) as [Rb Bb].
  pose proof (datastart_gt _ _ _ _ Hg) as Hds. pose proof Hg as [? [? ?] ? ?].
  destruct (readsb_spec V Hd bl ic k Ht) as (s' & k1 & E1 & Es & Ht1); [|done|lia|by eapply fits_bread|].
  { intros i Hi. destruct (Hdh i 1 Hi) as [? _]. lia. }
  rewrite Hsb in Es. subst s'. destruct (set_sb_same _ _ _ _ _ Ht1) as ([] & k1' & E1' & ->).
  destruct (tx_bread k0 pid start o V Hd bl ic k1 (BBLOCK b s) Ht1) as (i & k2 & E2 & Ht2 & Hi); [lia|by eapply bitmap_not_held|by eapply fits_bread|].
  destruct (tx_get_buf k0 pid start o _ _ _ _ _ i (BBLOCK b s) Ht2) as (bb & k2' & E3 & -> & Hbb & Hlen); [apply lookup_insert_eq|].
  unfold bfree, wp. rewrite (bind_ok _ _ _ _ _ _ _ E1), (bind_ok _ _ _ _ _ _ _ E1'), (bind_ok _ _ _ _ _ _ _ E2), (bind_ok _ _ _ _ _ _ _ E3).
  rewrite Hbb. fold (used s V b). destruct (used s V b); cbn [negb]; [|by eexists].
  change (wp (upd_buf i (fun x => x <| b_data ::= clear_bit (b mod BPB) |>) ≫= fun _ => log_write i ≫= fun _ => brelse i) o k2
    (fun _ k' => tx (free_view s b V) Hd (absorb (BBLOCK b s) bl) ic k')).
  eapply (wp_logged k0 pid start o V _ bl ic k2 i (BBLOCK b s) (clear_bit (b mod BPB))); [exact Ht2|apply lookup_insert_eq|done|by rewrite length_clear_bit|done|].
  intros k3 Ht3. eapply wp_mono; [apply (tx_brelse k0 pid start o _ _ _ _ _ i (BBLOCK b s) Ht3), lookup_insert_eq|].
  intros [] k4 Ht4; cbv beta in Ht4. by rewrite delete_insert_id in Ht4.
Qed.

Lemma balloc_full V Hd bl ic : (forall b, 0 <= b < sb_size s -> used s V b = true) -> data_held V Hd -> (size Hd <= 1)%nat -> fits bl ->
  forall n c k, tx V Hd bl ic k -> 0 <= c -> sb_size s <= c + Z.of_nat n * BPB -> c mod BPB = 0 ->
  exists k', balloc_loop n 1 c o k = Panic "balloc: out of blocks" k'.
Proof.
  intros Hall Hdh Hh Hr n. induction n as [|n IH]; intros c k Ht Hc Hn Hcm; cbn [balloc_loop];
    (destruct (tx_get_sb k0 pid start o _ _ _ _ _ Ht) as (? & ? & E & -> & ->); rewrite (bind_ok _ _ _ _ _ _ _ E); clear E;
     destruct (Z.ltb_spec c (sb_size s)) as [Hcs|]; [|by eexists]); [lia|].
  assert (0 <= c < sb_size s) as Hc0 by lia. pose proof (tx_length _ _ _ _ _ Ht) as HV. destruct (BBLOCK_range s start nlog _ Hg c Hc0) as [Rc Bc].
  destruct (tx_bread k0 pid start o V Hd bl ic k (BBLOCK c s) Ht) as (i & k1 & E & Ht1 & Hi); [lia|by eapply bitmap_not_held|by eapply fits_bread|].
  rewrite (bind_ok _ _ _ _ _ _ _ E). clear E.
  destruct (tx_get_buf k0 pid start o _ _ _ _ _ i (BBLOCK c s) Ht1) as (bb & ? & E & -> & Hbb & _); [apply lookup_insert_eq|].
  rewrite (bind_ok _ _ _ _ _ _ _ E), Hbb. clear E Hbb. pose proof (find_clear_spec (Z.to_nat BPB) (V !!! Z.to_nat (BBLOCK c s)) c 0 (sb_size s)) as Hfc.
  destruct (find_clear _ _ c 0 (sb_size s)) as [bi|].
  - exfalso. destruct Hfc as (Hbi & Hbs & Hcl & _). specialize (Hall (c + bi) ltac:(lia)).
    pose proof (Z.div_mod c BPB ltac:(done)). assert ((c + bi) / BPB = c / BPB) as E1 by (symmetry; apply (Z.div_unique _ _ _ bi); lia).
    assert ((c + bi) mod BPB = bi) as E2 by (symmetry; apply (Z.mod_unique _ _ (c / BPB)); lia).
    unfold used, BBLOCK in Hall. rewrite E1, E2 in Hall. unfold BBLOCK in Hcl. congruence.
  - destruct (tx_brelse k0 pid start o _ _ _ _ _ i (BBLOCK c s) Ht1) as ([] & k2 & E & Ht2); [apply lookup_insert_eq|].
    rewrite (bind_ok _ _ _ _ _ _ _ E). cbv beta in Ht2. rewrite delete_insert_id in Ht2 by done. apply IH; [done|unfold BPB, BSIZE in *; lia|lia|].
    rewrite <- Z.add_mod_idemp_l, Hcm by done. done.
Qed.

(** C17. Block allocation, inside a transaction with room in the log: balloc finds the
    first free block, marks it and only it in the free map, zeroes it and changes no
    other block; with every block in use it panics.  bfree of a block in use clears
    its mark and nothing else, and of a free block panics. *)
Theorem balloc_bfree V bl ic k :
  tx V ∅ bl ic k -> (forall c, 0 <= c < datastart s -> used s V c = true) -> sb_on_disk V -> fits bl -> (forall b, fits (absorb b bl)) ->
  (forall b, 0 <= b < sb_size s -> used s V b = false ->
    exists a k' V', balloc 1 o k = Ok a o k' /\ is_first s V a /\ a <= b /\ tx V' ∅ (absorb a (absorb (BBLOCK a s) bl)) ic k'
      /\ V' !!! Z.to_nat a = zeros /\ (forall c, 0 <= c < sb_size s -> used s V' c = (a =? c) || used s V c)
      /\ forall n, 0 <= n -> n <> a -> n <> BBLOCK a s -> V' !!! Z.to_nat n = V !!! Z.to_nat n)
  /\ ((forall b, 0 <= b < sb_size s -> used s V b = true) -> exists k', balloc 1 o k = Panic "balloc: out of blocks" k')
  /\ (forall b, 0 <= b < sb_size s -> used s V b = true ->
    exists k' V', bfree 1 b o k = Ok tt o k' /\ tx V' ∅ (absorb (BBLOCK b s) bl) ic k'
      /\ (forall c, 0 <= c < sb_size s -> used s V' c = negb (b =? c) && used s V c)
      /\ forall n, 0 <= n -> n <> BBLOCK b s -> V' !!! Z.to_nat n = V !!! Z.to_nat n)
  /\ (forall b, 0 <= b < sb_size s -> used s V b = false -> exists k', bfree 1 b o k = Panic "freeing free block" k').
Proof.
  intros Ht Hm Hsb Hf1 Hf2. pose proof (tx_length _ _ _ _ _ Ht) as HV. assert (data_held V ∅) as Hdh by (intros i n E; by rewrite lookup_empty in E).
  assert (size (∅ : gmap nat Z) <= 1)%nat as Hh by (rewrite map_size_empty; lia).
  assert (forall b, 0 <= b < sb_size s -> length (V !!! Z.to_nat (BBLOCK b s)) = Z.to_nat BSIZE) as Hlen.
  { intros b Hb. apply (tx_block_len k0 pid start V ∅ bl ic k); [done|]. destruct (BBLOCK_range s start nlog _ Hg b Hb). lia. }
  split_and!.
  - intros b Hb Hu. destruct (first_exists s V b Hb Hu) as (a & Ha & Hab). pose proof (if_range _ _ _ Ha) as Hra.
    assert (datastart s <= a) as Had by (destruct (Z.le_gt_cases (datastart s) a) as [|Hlt]; [done|]; pose proof (if_free _ _ _ Ha); rewrite Hm in *; done || lia).
    destruct (balloc_spec V ∅ bl ic k a Ht Ha Had Hdh Hh Hf1 (Hf2 _)) as (? & k' & E & -> & Ht'). exists a, k', (alloc_view s a V). split_and!; try done.
    + unfold alloc_view. apply list_lookup_total_insert_eq. rewrite length_insert. pose proof Hg as [_ _ _ ?]. lia.
    + intros c Hc. apply (used_alloc s start nlog _ Hg); auto. lia.
    + intros n Hn Hna Hnb. by apply (alloc_view_ne s start nlog _ Hg).
  - intros Hall. unfold balloc. destruct (tx_get_sb k0 pid start o _ _ _ _ _ Ht) as (? & ? & E & -> & ->). rewrite (bind_ok _ _ _ _ _ _ _ E).
    apply (balloc_full V ∅ bl ic); try done. pose proof (Z.div_mod (sb_size s) BPB ltac:(done)). pose proof (Z.mod_pos_bound (sb_size s) BPB ltac:(done)).
    change BPB with 4096 in *. lia.
  - intros b Hb Hu. pose proof (bfree_spec V ∅ bl ic k b Ht Hsb Hb Hdh Hh Hf1) as Hw. rewrite Hu in Hw. destruct Hw as ([] & k' & E & Ht').
    exists k', (free_view s b V). split_and!; try done.
    + intros c Hc. by apply (used_free s start nlog _ Hg); auto.
    + intros n Hn Hne. destruct (BBLOCK_range s start nlog _ Hg b Hb). unfold free_view. by rewrite list_lookup_total_insert_ne by lia.
  - intros b Hb Hu. pose proof (bfree_spec V ∅ bl ic k b Ht Hsb Hb Hdh Hh Hf1) as Hw. by rewrite Hu in Hw.
Qed.

End operations.
End Alloc.
