(* ===== verification/Inode.v ===== *)
(** The blocks and the contents of a file (fs.c): [bmap], [readi] and [writei] against
    the list of bytes that the file is. *)

From S2P Require Import Prelude Monad State Console Kalloc Sched Sleeplock Bytes Bio Log Fs Uaccess Pipe File ConsoleIn Cache Crash Tx Alloc.

Module Inode.
Import Header Txn Log Cache Sleeplock Bio Commit Fs Tx Alloc.

(** * The blocks of a file *)

Definition NMAX : nat := 140.

Definition indirect (ad : list Z) : Z := ad !!! NDIRECT.

(** The block with the [j]th part of the file whose addresses are [ad]; 0 for none. *)
Definition baddr (V : list block) (ad : list Z) (j : nat) : Z :=
  if (j <? NDIRECT)%nat then ad !!! j else
  if indirect ad =? 0 then 0 else get_u32 (4 * (j - NDIRECT)) (V !!! Z.to_nat (indirect ad)).

(** The bytes of the file. *)
Definition fbyte (V : list block) (ad : list Z) (p : nat) : Z :=
  (V !!! Z.to_nat (baddr V ad (p / Z.to_nat BSIZE))) !!! (p mod Z.to_nat BSIZE)%nat.
Definition contents (V : list block) (ad : list Z) (n : Z) : list Z := fbyte V ad <$> seq 0 (Z.to_nat n).

(** Every part of the file below its size has a block. *)
Definition no_holes (V : list block) (ad : list Z) (n : Z) : Prop :=
  forall j, Z.of_nat j * BSIZE < n -> baddr V ad j <> 0.

(** A data block in use. *)
Definition data (s : superblock) (V : list block) (b : Z) : Prop := datastart s <= b < sb_size s /\ used s V b = true.

Record inode_ok (s : superblock) (V : list block) (ad : list Z) : Prop := {
  io_len : length ad = S NDIRECT;
  io_ind : indirect ad = 0 \/ data s V (indirect ad);
  io_addr : forall j, (j < NMAX)%nat -> baddr V ad j = 0 \/ data s V (baddr V ad j);
  io_inj : forall j j', (j < NMAX)%nat -> (j' < NMAX)%nat -> baddr V ad j = baddr V ad j' -> baddr V ad j <> 0 -> j = j';
  io_own : forall j, (j < NMAX)%nat -> baddr V ad j <> 0 -> baddr V ad j <> indirect ad
}.

(** The blocks below the first data block are marked used. *)
Definition meta_used (s : superblock) (V : list block) : Prop := forall c, 0 <= c < datastart s -> used s V c = true.

(** How many blocks are free. *)
Definition nfree (s : superblock) (V : list block) : nat :=
  length (filter (fun b => used s V (Z.of_nat b) = false) (seq 0 (Z.to_nat (sb_size s)))).

Lemma baddr_direct V ad j : (j < NDIRECT)%nat -> baddr V ad j = ad !!! j.
Proof. intros Hj. unfold baddr. by rewrite (proj2 (Nat.ltb_lt j NDIRECT)). Qed.

Lemma baddr_indirect V ad j : (NDIRECT <= j)%nat ->
  baddr V ad j = if indirect ad =? 0 then 0 else get_u32 (4 * (j - NDIRECT)) (V !!! Z.to_nat (indirect ad)).
Proof. intros Hj. unfold baddr. by rewrite (proj2 (Nat.ltb_ge j NDIRECT)). Qed.

(** Only the indirect block matters. *)
Lemma baddr_view V V' ad j : indirect ad = 0 \/ V' !!! Z.to_nat (indirect ad) = V !!! Z.to_nat (indirect ad) -> baddr V' ad j = baddr V ad j.
Proof. intros [E|E]; unfold baddr; by rewrite E. Qed.

Lemma baddr_set_direct V ad i a j : (i < NDIRECT)%nat -> length ad = S NDIRECT ->
  baddr V (<[i := a]> ad) j = if decide (j = i) then a else baddr V ad j.
Proof.
  intros Hi Hl. assert (indirect (<[i := a]> ad) = indirect ad) as E by (unfold indirect; rewrite list_lookup_total_insert_ne; [done|lia]).
  case_decide as Hj.
  - subst. rewrite baddr_direct by done. apply list_lookup_total_insert_eq. lia.
  - unfold baddr. rewrite E. destruct (j <? NDIRECT)%nat; [|done]. by rewrite list_lookup_total_insert_ne.
Qed.

Lemma indirect_set ad a : length ad = S NDIRECT -> indirect (<[NDIRECT := a]> ad) = a.
Proof. intros Hl. apply list_lookup_total_insert_eq. lia. Qed.

Lemma get_u32_zeros off : get_u32 off zeros = 0.
Proof.
  unfold get_u32, slice, zeros. rewrite drop_replicate, take_replicate. generalize (4 `min` (Z.to_nat BSIZE - off))%nat. intros n.
  induction n as [|n IH]; [done|]. cbn [replicate le_value]. lia.
Qed.

Lemma contents_lookup V ad n p : contents V ad n !! p = if decide (p < Z.to_nat n)%nat then Some (fbyte V ad p) else None.
Proof.
  unfold contents. rewrite list_lookup_fmap. case_decide as Hp; [by rewrite lookup_seq_lt|]. by rewrite lookup_seq_ge by lia.
Qed.

Lemma length_file_contents V ad n : length (contents V ad n) = Z.to_nat n.
Proof. unfold contents. by rewrite length_fmap, length_seq. Qed.

(** The part of the file in one block. *)
Lemma contents_block V ad n off m :
  let d := V !!! Z.to_nat (baddr V ad (off / Z.to_nat BSIZE)) in
  length d = Z.to_nat BSIZE -> Z.of_nat (off + m) <= n -> (off mod Z.to_nat BSIZE + m <= Z.to_nat BSIZE)%nat ->
  slice off m (contents V ad n) = slice (off mod Z.to_nat BSIZE) m d.
Proof.
  intros d Hd Hn Hm. assert (Z.to_nat BSIZE <> 0%nat) as HB by done. apply list_eq. intros i. rewrite !slice_lookup. case_decide as Hi; [|done].
  rewrite contents_lookup, decide_True by lia. unfold fbyte. pose proof (Nat.div_mod_eq off (Z.to_nat BSIZE)) as Ho.
  pose proof (Nat.mod_upper_bound off (Z.to_nat BSIZE) HB). set (B := Z.to_nat BSIZE) in *.
  assert ((off + i) / B = off / B)%nat as -> by (symmetry; apply (Nat.div_unique _ _ _ (off mod B + i)); lia).
  assert ((off + i) mod B = off mod B + i)%nat as -> by (symmetry; apply (Nat.mod_unique _ _ (off / B)); lia).
  symmetry. apply list_lookup_lookup_total_lt. fold d. lia.
Qed.

Lemma next_block off m : m = BSIZE - off mod BSIZE -> (off + m) mod BSIZE = 0.
Proof.
  intros ->. pose proof (Z.div_mod off BSIZE ltac:(done)) as Hdm. symmetry. apply (Z.mod_unique _ _ (off / BSIZE + 1)); [left; done|lia].
Qed.

Lemma block_nat off : 0 <= off -> (Z.to_nat off / Z.to_nat BSIZE)%nat = Z.to_nat (off / BSIZE) /\ (Z.to_nat off mod Z.to_nat BSIZE)%nat = Z.to_nat (off mod BSIZE).
Proof. intros Ho. by rewrite Z2Nat.inj_div, Z2Nat.inj_mod. Qed.

Lemma slice_app off a b (l : list Z) : slice off a l ++ slice (off + a) b l = slice off (a + b) l.
Proof.
  unfold slice. by rewrite <- take_take_drop, drop_drop.
Qed.

Lemma slice_spliced off bs (d : list Z) : (off <= length d)%nat -> slice off (length bs) (splice off bs d) = bs.
Proof.
  intros Hl. unfold slice, splice. assert (length (take off d) = off) as Ht by (rewrite length_take; lia).
  rewrite <- Ht at 1. rewrite drop_app_length, take_app_length. done.
Qed.

(** ** Inodes on disk *)

Lemma length_addr_bytes (l : list Z) : length (l ≫= le_bytes 4) = (4 * length l)%nat.
Proof. induction l as [|a l IH]; [done|]. rewrite bind_cons, length_app, length_le_bytes, IH. simpl. lia. Qed.

Lemma addr_bytes_slice (l : list Z) j a : l !! j = Some a -> slice (4 * j) 4 (l ≫= le_bytes 4) = le_bytes 4 a.
Proof.
  revert j. induction l as [|x l IH]; intros j Hj; [done|]. rewrite bind_cons. destruct j as [|j].
  - injection Hj as ->. unfold slice. rewrite Nat.mul_0_r, drop_0. rewrite <- (length_le_bytes 4 a) at 1. apply take_app_length.
  - simpl in Hj. rewrite <- (IH j Hj). unfold slice. f_equal.
    replace (4 * S j)%nat with (length (le_bytes 4 x) + 4 * j)%nat by (rewrite length_le_bytes; lia). rewrite <- drop_drop, drop_app_length. done.
Qed.

(** The stores of [iupdate], in order. *)
Definition dinode_fields (i : inode) : list (nat * list Z) :=
  [(0%nat, le_bytes 2 (i_type i)); (2%nat, le_bytes 2 (i_major i)); (4%nat, le_bytes 2 (i_minor i)); (6%nat, le_bytes 2 (i_nlink i));
   (8%nat, le_bytes 4 (i_size i)); (12%nat, i_addrs i ≫= le_bytes 4)].

Definition store_fields (off : nat) (l : list (nat * list Z)) (d : list Z) : list Z := foldl (fun d f => splice (off + f.1) f.2 d) d l.

Lemma write_dinode_fields off i d : write_dinode off i d = store_fields off (dinode_fields i) d.
Proof. unfold write_dinode, store_fields, put_u16, put_u32. simpl. by rewrite Nat.add_0_r. Qed.

Lemma length_store_fields off l d : Forall (fun f => (off + f.1 + length f.2 <= length d)%nat) l -> length (store_fields off l d) = length d.
Proof.
  revert d. induction l as [|f l IH]; intros d Hl; [done|]. apply Forall_cons in Hl as [Hf Hl]. simpl.
  assert (length (splice (off + f.1) f.2 d) = length d) as E by (by apply length_splice). rewrite <- E. apply IH. by rewrite E.
Qed.

(** What is read after stores that do not overlap is what was stored. *)
Lemma store_fields_get off l d f : Forall (fun f => (off + f.1 + length f.2 <= length d)%nat) l -> f ∈ l ->
  ForallOrdPairs (fun a b => (a.1 + length a.2 <= b.1)%nat) l -> slice (off + f.1) (length f.2) (store_fields off l d) = f.2.
Proof.
  revert d. induction l as [|g l IH]; intros d Hl Hf Ho; [by apply not_elem_of_nil in Hf|]. apply Forall_cons in Hl as [Hg Hl]. simpl.
  assert (length (splice (off + g.1) g.2 d) = length d) as E by (by apply length_splice). inversion Ho as [|? ? Hfirst Hrest]; subst.
  apply elem_of_cons in Hf as [->|Hf]; [|apply IH; [by rewrite E|done|done]]. clear IH Ho Hrest.
  assert (forall d', length d' = length d -> slice (off + g.1) (length g.2) d' = g.2 -> slice (off + g.1) (length g.2) (store_fields off l d') = g.2) as Hgo.
  { clear E. induction l as [|h l IH]; intros d' Hd' Hs; [done|]. simpl. apply Forall_cons in Hl as [Hh Hl], Hfirst as [Hgh Hfirst].
    apply IH; [done|done|rewrite length_splice; [done|lia]|]. rewrite slice_splice_ne; [done|lia|lia]. }
  apply Hgo; [done|]. by apply slice_splice.
Qed.

(** The fields have values of their types. *)
Definition is_s16 (z : Z) : Prop := - 2 ^ 15 <= z < 2 ^ 15.
Record dinode_range (i : inode) : Prop := {
  dr_type : is_s16 (i_type i);
  dr_major : is_s16 (i_major i);
  dr_minor : is_s16 (i_minor i);
  dr_nlink : is_s16 (i_nlink i);
  dr_size : is_u32 (i_size i);
  dr_len : length (i_addrs i) = S NDIRECT;
  dr_addrs : Forall is_u32 (i_addrs i)
}.

Lemma s16_le z : is_s16 z -> s16 (le_value (le_bytes 2 z)) = z.
Proof.
  intros Hz. rewrite le_value_bytes. change (256 ^ Z.of_nat 2) with (2 ^ 16). unfold s16, is_s16 in *. rewrite Z.mod_mod by lia.
  destruct (Z.ltb_spec (z mod 2 ^ 16) (2 ^ 15)) as [Hlt|Hge].
  - destruct (Z.lt_ge_cases z 0); [|apply Z.mod_small; lia]. rewrite <- (Z.mod_unique z (2 ^ 16) (-1) (z + 2 ^ 16)) in Hlt by lia. lia.
  - destruct (Z.lt_ge_cases z 0); [|rewrite Z.mod_small in Hge by lia; lia]. rewrite <- (Z.mod_unique z (2 ^ 16) (-1) (z + 2 ^ 16)) by lia. lia.
Qed.

Lemma dinode_fields_ok off i (d : list Z) : (off + sizeof_dinode <= length d)%nat -> length (i_addrs i) = S NDIRECT ->
  Forall (fun f => (off + f.1 + length f.2 <= length d)%nat) (dinode_fields i) /\ ForallOrdPairs (fun a b => (a.1 + length a.2 <= b.1)%nat) (dinode_fields i).
Proof.
  intros Hl Ha. assert (length (i_addrs i ≫= le_bytes 4) = 52%nat) as E by (rewrite length_addr_bytes, Ha; done). unfold sizeof_dinode in Hl.
  split; repeat constructor; cbn [fst snd]; rewrite ?length_le_bytes, ?E; lia.
Qed.

Lemma length_write_dinode off i d : (off + sizeof_dinode <= length d)%nat -> length (i_addrs i) = S NDIRECT -> length (write_dinode off i d) = length d.
Proof. intros Hl Ha. rewrite write_dinode_fields. by apply length_store_fields, dinode_fields_ok. Qed.

Lemma read_write_dinode off i d c : (off + sizeof_dinode <= length d)%nat -> dinode_range i ->
  read_dinode off (write_dinode off i d) c =
    c <| i_type := i_type i |> <| i_major := i_major i |> <| i_minor := i_minor i |> <| i_nlink := i_nlink i |> <| i_size := i_size i |> <| i_addrs := i_addrs i |>.
Proof.
  intros Hl [Ht Hma Hmi Hn Hs Hal Ha]. rewrite write_dinode_fields. destruct (dinode_fields_ok off i d Hl Hal) as [Hin Hord].
  pose proof (fun f Hf => store_fields_get off (dinode_fields i) d f Hin Hf Hord) as Hget. set (d' := store_fields off (dinode_fields i) d) in *.
  assert (forall p z, (p, le_bytes 2 z) ∈ dinode_fields i -> is_s16 z -> s16 (get_u16 (off + p) d') = z) as H16.
  { intros p z Hp Hz. unfold get_u16. specialize (Hget _ Hp). cbn [fst snd] in Hget. rewrite length_le_bytes in Hget. rewrite Hget. by apply s16_le. }
  assert (get_u32 (off + 8) d' = i_size i) as Esz.
  { unfold get_u32. specialize (Hget (8%nat, le_bytes 4 (i_size i)) ltac:(set_solver)). cbn [fst snd] in Hget. rewrite length_le_bytes in Hget. rewrite Hget, le_value_bytes. by apply u32_small. }
  assert (addrs_of off d' = i_addrs i) as Ead.
  { apply list_eq. intros j. unfold addrs_of. rewrite list_lookup_fmap. destruct (decide (j < S NDIRECT)%nat) as [Hj|Hj].
    - rewrite lookup_seq_lt by (unfold NDIRECT in *; lia). destruct (lookup_lt_is_Some_2 (i_addrs i) j) as [a Haj]; [lia|]. rewrite Haj. simpl. f_equal.
      specialize (Hget (12%nat, i_addrs i ≫= le_bytes 4) ltac:(set_solver)). cbn [fst snd] in Hget. unfold get_u32.
      rewrite <- (u32_small a) by (by apply (Forall_lookup_1 _ _ _ _ Ha Haj)). unfold u32. change (2 ^ 32) with (256 ^ Z.of_nat 4). rewrite <- le_value_bytes. f_equal.
      rewrite <- (addr_bytes_slice _ _ _ Haj), <- Hget, length_addr_bytes, Hal. unfold slice.
      rewrite <- drop_drop. apply list_eq. intros q. rewrite !lookup_take. case_decide; [|done].
      rewrite !lookup_drop, lookup_take, decide_True by (unfold NDIRECT in *; lia). by rewrite lookup_drop.
    - rewrite lookup_seq_ge by (unfold NDIRECT in *; lia). symmetry. apply lookup_ge_None. lia. }
  assert (s16 (get_u16 off d') = i_type i) as Ety by (rewrite <- (H16 0%nat (i_type i)); [by rewrite Nat.add_0_r|set_solver|done]).
  unfold read_dinode. rewrite Esz, Ead, Ety. rewrite (H16 2%nat (i_major i)), (H16 4%nat (i_minor i)), (H16 6%nat (i_nlink i)) by (done || set_solver).
  done.
Qed.

Lemma store_fields_ne off l d p n : Forall (fun f => (off + f.1 + length f.2 <= length d)%nat) l ->
  Forall (fun f => (f.1 + length f.2 <= sizeof_dinode)%nat) l -> (p + n <= off \/ off + sizeof_dinode <= p)%nat ->
  slice p n (store_fields off l d) = slice p n d.
Proof.
  intros Hl Hs Hp. revert d Hl. induction l as [|f l IH]; intros d Hl; [done|]. apply Forall_cons in Hl as [Hf Hl], Hs as [Hfs Hs]. simpl.
  rewrite IH; [apply slice_splice_ne; [done|lia]|done|]. by rewrite length_splice.
Qed.

(** The inode block: what ilock reads back from the place iupdate stored an inode
    are its type, device numbers, link count, size and addresses, for fields in the
    range of their C types; and the other inodes of the block are not disturbed. *)
Theorem dinode_roundtrip inum i d c :
  length d = Z.to_nat BSIZE -> dinode_range i ->
  read_dinode (dinode_off inum) (write_dinode (dinode_off inum) i d) c =
    c <| i_type := i_type i |> <| i_major := i_major i |> <| i_minor := i_minor i |> <| i_nlink := i_nlink i |> <| i_size := i_size i |> <| i_addrs := i_addrs i |>
  /\ length (write_dinode (dinode_off inum) i d) = Z.to_nat BSIZE
  /\ forall inum', inum' mod IPB <> inum mod IPB ->
     read_dinode (dinode_off inum') (write_dinode (dinode_off inum) i d) c = read_dinode (dinode_off inum') d c.
Proof.
  intros Hd Hi. pose proof (Z.mod_pos_bound inum IPB ltac:(done)) as Hm. unfold IPB in Hm.
  assert (dinode_off inum + sizeof_dinode <= length d)%nat as Hl by (rewrite Hd; unfold dinode_off, sizeof_dinode, BSIZE, IPB; lia).
  split_and!; [by apply read_write_dinode|rewrite length_write_dinode by (done || apply Hi); done|].
  intros inum' Hne. pose proof (Z.mod_pos_bound inum' IPB ltac:(done)) as Hm'. unfold IPB in Hm'.
  destruct (dinode_fields_ok (dinode_off inum) i d Hl (dr_len _ Hi)) as [Hin _].
  assert (Forall (fun f => (f.1 + length f.2 <= sizeof_dinode)%nat) (dinode_fields i)) as Hs.
  { assert (length (i_addrs i ≫= le_bytes 4) = 52%nat) as E by (rewrite length_addr_bytes, (dr_len _ Hi); done).
    unfold dinode_fields, sizeof_dinode. rewrite !Forall_cons, Forall_nil. cbn [fst snd]. rewrite !length_le_bytes, E. split_and!; lia || done. }
  assert (forall p n, (p + n <= sizeof_dinode)%nat -> slice (dinode_off inum' + p) n (write_dinode (dinode_off inum) i d) = slice (dinode_off inum' + p) n d) as Hsl.
  { intros p n Hp. rewrite write_dinode_fields. apply store_fields_ne; try done. unfold dinode_off, sizeof_dinode, IPB in *. lia. }
  pose proof (Hsl 0%nat 2%nat ltac:(unfold sizeof_dinode; lia)) as H0. rewrite Nat.add_0_r in H0.
  assert (addrs_of (dinode_off inum') (write_dinode (dinode_off inum) i d) = addrs_of (dinode_off inum') d) as Ead.
  { apply list_fmap_ext. intros j x Hj. apply lookup_seq in Hj as [-> Hj]. unfold get_u32. rewrite <- Nat.add_assoc, Hsl; [done|]. unfold sizeof_dinode, NDIRECT in *. lia. }
  unfold read_dinode, get_u16, get_u32. by rewrite Ead, H0, !Hsl by (unfold sizeof_dinode; lia).
Qed.

Section geometry.
Context (s : superblock) (start nlog : Z) (len : nat).
Hypothesis Hg : geometry s start nlog len.

Lemma data_not_map V b c : data s V b -> 0 <= c < sb_size s -> b <> BBLOCK c s.
Proof. intros [? _] Hc. destruct (BBLOCK_eq s start nlog len Hg c Hc). lia. Qed.

Lemma data_pos V b : data s V b -> 0 < b < sb_size s.
Proof. intros [? _]. pose proof (datastart_gt _ _ _ _ Hg). lia. Qed.

Lemma filter_minus {A} (P Q : A -> Prop) `{forall x, Decision (P x)} `{forall x, Decision (Q x)} (l : list A) a :
  NoDup l -> a ∈ l -> P a -> (forall c, c ∈ l -> Q c <-> c <> a /\ P c) -> S (length (filter Q l)) = length (filter P l).
Proof.
  intros Hnd Ha HP HQ. induction Hnd as [|x l Hx Hnd IH]; [by apply not_elem_of_nil in Ha|].
  apply elem_of_cons in Ha as [<-|Ha].
  - rewrite (filter_cons_True P), (filter_cons_False Q); [|intros [? _]%HQ; [done|by left]|done]. simpl. f_equal.
    assert (forall c, c ∈ l -> Q c <-> P c) as E.
    { intros c Hc. rewrite HQ by by right. split; [by intros [_ ?]|]. intros. split; [|done]. by intros ->. }
    clear -E. induction l as [|y l IH]; [done|]. assert (Q y <-> P y) as Ey by (apply E; by left).
    destruct (decide (P y)).
    + rewrite !filter_cons_True by tauto. simpl. f_equal. apply IH. intros; apply E. by right.
    + rewrite !filter_cons_False by tauto. apply IH. intros; apply E. by right.
  - assert (Q x <-> P x) as Ex.
    { rewrite HQ by by left. split; [by intros [_ ?]|]. intros. split; [|done]. by intros ->. }
    specialize (IH Ha (fun c Hc => HQ c ltac:(by right))). destruct (decide (P x)).
    + rewrite !filter_cons_True by tauto. simpl. by rewrite IH.
    + rewrite !filter_cons_False by tauto. done.
Qed.

Lemma nfree_alloc V b : datastart s <= b < sb_size s -> used s V b = false -> length V = len ->
  length (V !!! Z.to_nat (BBLOCK b s)) = Z.to_nat BSIZE -> S (nfree s (alloc_view s b V)) = nfree s V.
Proof.
  intros Hb Hu HV Hl. pose proof (datastart_gt _ _ _ _ Hg). unfold nfree.
  apply (filter_minus _ _ _ (Z.to_nat b)); [apply NoDup_seq|apply elem_of_seq; lia|rewrite Z2Nat.id by lia; exact Hu|].
  intros c [_ Hc]%elem_of_seq. rewrite (used_alloc s start nlog len Hg) by (done || lia). rewrite orb_false_iff, Z.eqb_neq. split; intros [? ?]; (split; [lia|done]).
Qed.

(** The count depends on the free map only. *)
Lemma nfree_ext V V' : (forall c, 0 <= c < sb_size s -> used s V' c = used s V c) -> nfree s V' = nfree s V.
Proof.
  intros E. unfold nfree. f_equal.
  assert (forall l : list nat, (forall c, c ∈ l -> Z.of_nat c < sb_size s) ->
    filter (fun b => used s V' (Z.of_nat b) = false) l = filter (fun b => used s V (Z.of_nat b) = false) l) as Hl.
  { intros l. induction l as [|x l IH]; intros Hl; [done|]. rewrite !filter_cons, IH by (intros; apply Hl; by right).
    rewrite E by (split; [lia|apply Hl; by left]). done. }
  apply Hl. intros c [_ Hc]%elem_of_seq. lia.
Qed.

Lemma used_ne V n x c : 0 <= c < sb_size s -> 0 <= n -> n <> BBLOCK c s -> used s (<[Z.to_nat n := x]> V) c = used s V c.
Proof.
  intros Hc Hn Hne. destruct (BBLOCK_range s start nlog len Hg c Hc) as [? _]. unfold used. by rewrite list_lookup_total_insert_ne by lia.
Qed.

(** A free block, when there is one. *)
Lemma free_first V : meta_used s V -> (0 < nfree s V)%nat -> exists b, is_first s V b /\ datastart s <= b.
Proof.
  intros Hm Hn. unfold nfree in Hn. match type of Hn with (_ < length ?l)%nat => destruct l as [|x l'] eqn:E; [simpl in Hn; lia|] end.
  assert (x ∈ x :: l') as Hx by by left. rewrite <- E in Hx.
  apply list_elem_of_filter in Hx as [Hu [_ Hx]%elem_of_seq]. destruct (first_exists s V (Z.of_nat x)) as (b & Hb & _); [lia|done|].
  exists b. split; [done|]. destruct (Z.le_gt_cases (datastart s) b) as [|Hlt]; [done|]. destruct Hb as [? Hf _]. rewrite Hm in Hf by lia. done.
Qed.

(** A block that no allocation touches. *)
Definition stable (V : list block) (n : Z) : Prop := 0 <= n /\ (used s V n = true \/ sb_size s <= n) /\ n <> sb_bmapstart s.

(** How a file changes when [bmap] adds blocks to it: those it has stay, new ones are
    zero, and nothing else is touched but the free map and the indirect block. *)
Record grown (V : list block) (ad : list Z) (V' : list block) (ad' : list Z) : Prop := {
  gw_ok : inode_ok s V' ad';
  gw_meta : meta_used s V';
  gw_len : length V' = length V;
  gw_addr : forall j, (j < NMAX)%nat -> baddr V ad j <> 0 -> baddr V' ad' j = baddr V ad j;
  gw_new : forall j, (j < NMAX)%nat -> baddr V ad j = 0 -> baddr V' ad' j <> 0 ->
    used s V (baddr V' ad' j) = false /\ V' !!! Z.to_nat (baddr V' ad' j) = zeros;
  gw_used : forall c, 0 <= c < sb_size s -> used s V c = true -> used s V' c = true;
  gw_ind : indirect ad' = indirect ad \/ (indirect ad = 0 /\ datastart s <= indirect ad' < sb_size s /\ used s V (indirect ad') = false);
  gw_same : forall n, stable V n -> (n = indirect ad' -> n = 0) -> V' !!! Z.to_nat n = V !!! Z.to_nat n
}.

Hypothesis Hone : sb_size s <= BPB.

Lemma BBLOCK_one c : 0 <= c < sb_size s -> BBLOCK c s = sb_bmapstart s.
Proof. intros Hc. destruct (BBLOCK_eq s start nlog len Hg c Hc) as [-> _]. rewrite Z.div_small; lia. Qed.

Lemma data_stable V c : data s V c -> stable V c.
Proof.
  intros Hc. pose proof (data_pos _ _ Hc). split_and!; [lia|left; apply Hc|]. rewrite <- (BBLOCK_one 0) by lia.
  apply (data_not_map V); [done|lia].
Qed.

Section alloc.
Context (V : list block) (b : Z).
Hypothesis (HV : length V = len) (HVl : forall n, 0 <= n < Z.of_nat len -> length (V !!! Z.to_nat n) = Z.to_nat BSIZE).
Hypothesis (Hf : is_first s V b) (Hb : datastart s <= b) (Hm : meta_used s V).
Notation V1 := (alloc_view s b V).

Lemma alloc_range : datastart s <= b < sb_size s.
Proof. pose proof (if_range _ _ _ Hf). lia. Qed.

Lemma alloc_used c : 0 <= c < sb_size s -> used s V1 c = (b =? c) || used s V c.
Proof.
  intros Hc. pose proof alloc_range as Hr. pose proof (if_range _ _ _ Hf) as Hr'. apply (used_alloc s start nlog len Hg); try done.
  apply HVl. by apply (BBLOCK_range s start nlog len Hg).
Qed.

Lemma alloc_same n : stable V n -> V1 !!! Z.to_nat n = V !!! Z.to_nat n.
Proof.
  intros (Hn & Hu & Hm'). pose proof (if_range _ _ _ Hf) as Hr. apply (alloc_view_ne s start nlog len Hg); try done.
  - intros ->. destruct Hu as [Hu|]; [|lia]. by rewrite (if_free _ _ _ Hf) in Hu.
  - by rewrite BBLOCK_one.
Qed.

Lemma alloc_stable n : stable V n -> stable V1 n.
Proof.
  intros (Hn & Hu & Hm'). split_and!; try done. destruct (Z.lt_ge_cases n (sb_size s)); [|by right].
  left. rewrite alloc_used by lia. destruct Hu as [->|]; [by rewrite orb_true_r|lia].
Qed.

Lemma alloc_meta : meta_used s V1.
Proof. intros c Hc. rewrite alloc_used by (destruct Hg; lia). by rewrite Hm, orb_true_r. Qed.

Lemma alloc_data c : data s V c -> data s V1 c.
Proof. intros Hc. pose proof (data_pos _ _ Hc). destruct Hc as [? Hu]. split; [done|]. by rewrite alloc_used, Hu, orb_true_r by lia. Qed.

Lemma alloc_new : data s V1 b /\ V1 !!! Z.to_nat b = zeros.
Proof.
  pose proof alloc_range as Hr. pose proof (if_range _ _ _ Hf) as Hr'. split.
  - split; [done|]. by rewrite alloc_used, Z.eqb_refl by done.
  - unfold alloc_view. apply list_lookup_total_insert_eq. rewrite length_insert. destruct Hg. lia.
Qed.

Lemma data_ne c : data s V c -> c <> b.
Proof. intros [_ Hc] ->. by rewrite (if_free _ _ _ Hf) in Hc. Qed.

Lemma alloc_baddr ad j : indirect ad = 0 \/ data s V (indirect ad) -> baddr V1 ad j = baddr V ad j.
Proof. intros [E|E]; apply baddr_view; [by left|right]. by apply alloc_same, data_stable. Qed.

Lemma direct_baddr ad i j : inode_ok s V ad -> (i < NDIRECT)%nat ->
  baddr V1 (<[i := b]> ad) j = if decide (j = i) then b else baddr V ad j.
Proof. intros [Hl Hi _ _ _] Hin. rewrite baddr_set_direct by done. case_decide; [done|]. by apply alloc_baddr. Qed.

Lemma indirect_baddr ad j : inode_ok s V ad -> indirect ad = 0 -> baddr V1 (<[NDIRECT := b]> ad) j = baddr V ad j.
Proof.
  intros [Hl _ _ _ _] H0. destruct alloc_new as [_ Hzb]. destruct (Nat.lt_ge_cases j NDIRECT) as [Hj|Hj].
  - rewrite !baddr_direct by done. apply list_lookup_total_insert_ne. lia.
  - rewrite !baddr_indirect by done. rewrite (indirect_set _ _ Hl), H0, Hzb, get_u32_zeros. cbn [Z.eqb]. by destruct (b =? 0).
Qed.

Lemma entry_baddr ad i j : inode_ok s V ad -> indirect ad <> 0 -> (NDIRECT <= i < NMAX)%nat -> (j < NMAX)%nat ->
  baddr (<[Z.to_nat (indirect ad) := put_u32 (4 * (i - NDIRECT)) b (V1 !!! Z.to_nat (indirect ad))]> V1) ad j
    = if decide (j = i) then b else baddr V ad j.
Proof.
  intros [_ Hi _ _ _] H0 Hi12 Hj. destruct Hi as [|Hi]; [done|]. set (ind := indirect ad) in *.
  destruct alloc_new as [Hdb _]. pose proof (data_pos _ _ Hdb) as Hbp. pose proof (data_pos _ _ Hi) as Hip. pose proof Hg as [_ _ _ Hsz].
  assert (length (V1 !!! Z.to_nat ind) = Z.to_nat BSIZE) as Hlen by (rewrite alloc_same by (by apply data_stable); apply HVl; lia).
  destruct (Nat.lt_ge_cases j NDIRECT) as [Hj'|Hj'].
  - rewrite decide_False by lia. by rewrite !baddr_direct.
  - rewrite !baddr_indirect by done. fold ind. destruct (Z.eqb_spec ind 0); [done|].
    rewrite list_lookup_total_insert_eq by (rewrite length_alloc_view; lia). unfold NMAX, NDIRECT, BSIZE in *. case_decide as Ej.
    + subst j. rewrite get_put_u32 by lia. apply u32_small. unfold is_u32. lia.
    + rewrite get_put_u32_ne by lia. by rewrite alloc_same by by apply data_stable.
Qed.

Lemma grown_direct ad i : inode_ok s V ad -> (i < NDIRECT)%nat -> baddr V ad i = 0 -> grown V ad V1 (<[i := b]> ad).
Proof.
  intros Hok Hin H0. pose proof (fun j => direct_baddr ad i j Hok Hin) as Hbj. destruct Hok as [Hl Hi Ha Hinj Hown]. destruct alloc_new as [Hdb Hzb].
  assert (indirect (<[i := b]> ad) = indirect ad) as Eind by (unfold indirect; rewrite list_lookup_total_insert_ne; [done|lia]).
  pose proof (data_pos _ _ Hdb) as Hbp.
  assert (forall j, (j < NMAX)%nat -> baddr V ad j <> b) as Hne.
  { intros j Hj E. destruct (Ha j Hj) as [E0|Hd]; [lia|]. by apply (data_ne _ Hd). }
  split.
  - split.
    + by rewrite length_insert.
    + rewrite Eind. destruct Hi as [|Hi]; [by left|right]. by apply alloc_data.
    + intros j Hj. rewrite Hbj. case_decide; [by right|]. destruct (Ha j Hj); [by left|right]. by apply alloc_data.
    + intros j j' Hj Hj'. rewrite !Hbj. repeat case_decide; subst; try done.
      * intros E. by destruct (Hne j' Hj').
      * intros E. by destruct (Hne j Hj).
      * by apply Hinj.
    + intros j Hj. rewrite Hbj, Eind. case_decide; [|by apply Hown]. intros _ E. destruct Hi as [Hi|Hi]; [lia|by apply (data_ne _ Hi)].
  - apply alloc_meta.
  - apply length_alloc_view.
  - intros j Hj Hne0. rewrite Hbj. case_decide; [congruence|done].
  - intros j Hj Hz. rewrite Hbj. case_decide; [|done]. intros _. split; [apply Hf|done].
  - intros c Hc Hu. by rewrite alloc_used, Hu, orb_true_r by done.
  - by left.
  - intros n Hn _. by apply alloc_same.
Qed.

Lemma grown_indirect ad : inode_ok s V ad -> indirect ad = 0 -> grown V ad V1 (<[NDIRECT := b]> ad).
Proof.
  intros Hok H0. pose proof (fun j => indirect_baddr ad j Hok H0) as Hbj. destruct Hok as [Hl Hi Ha Hinj Hown].
  destruct alloc_new as [Hdb Hzb]. pose proof (data_pos _ _ Hdb) as Hbp.
  assert (indirect (<[NDIRECT := b]> ad) = b) as Eind by by apply indirect_set.
  split.
  - split.
    + by rewrite length_insert.
    + right. by rewrite Eind.
    + intros j Hj. rewrite Hbj. destruct (Ha j Hj); [by left|right]. by apply alloc_data.
    + intros j j' Hj Hj'. rewrite !Hbj. by apply Hinj.
    + intros j Hj. rewrite Hbj, Eind. intros Hne E. destruct (Ha j Hj) as [|Hd]; [done|]. by apply (data_ne _ Hd).
  - apply alloc_meta.
  - apply length_alloc_view.
  - intros j Hj _. by rewrite Hbj.
  - intros j Hj Hz. by rewrite Hbj.
  - intros c Hc Hu. by rewrite alloc_used, Hu, orb_true_r by done.
  - right. rewrite Eind. split; [done|]. split; [apply alloc_range|apply Hf].
  - intros n Hn _. by apply alloc_same.
Qed.

Lemma grown_entry ad i : inode_ok s V ad -> indirect ad <> 0 -> (NDIRECT <= i < NMAX)%nat -> baddr V ad i = 0 ->
  grown V ad (<[Z.to_nat (indirect ad) := put_u32 (4 * (i - NDIRECT)) b (V1 !!! Z.to_nat (indirect ad))]> V1) ad.
Proof.
  intros Hok H0 Hi12 Hz. pose proof (fun j => entry_baddr ad i j Hok H0 Hi12) as Hbj. destruct Hok as [Hl Hi Ha Hinj Hown].
  destruct Hi as [|Hi]; [done|]. set (ind := indirect ad) in *.
  destruct alloc_new as [Hdb Hzb]. pose proof (data_pos _ _ Hdb) as Hbp. pose proof (data_pos _ _ Hi) as Hip.
  set (V2 := <[Z.to_nat ind := _]> V1) in *. assert (forall n, 0 <= n -> n <> ind -> V2 !!! Z.to_nat n = V1 !!! Z.to_nat n) as E2n.
  { intros n Hn Hne. apply list_lookup_total_insert_ne. lia. }
  assert (forall c, 0 <= c < sb_size s -> used s V2 c = used s V1 c) as Hu2.
  { intros c Hc. unfold used. destruct (BBLOCK_range s start nlog len Hg c Hc) as [? _]. rewrite E2n; [done|lia|]. intros E. by apply (data_not_map V ind c). }
  assert (forall c, data s V c -> data s V2 c) as Hd2.
  { intros c Hc%alloc_data. pose proof (data_pos _ _ Hc). destruct Hc. split; [done|]. by rewrite Hu2 by lia. }
  assert (forall j, (j < NMAX)%nat -> baddr V ad j <> b) as Hne.
  { intros j Hj E. destruct (Ha j Hj) as [E0|Hd]; [lia|]. by apply (data_ne _ Hd). }
  split.
  - split; [done|right; by apply Hd2| | |].
    + intros j Hj. rewrite Hbj by done. case_decide; [right; split; [apply Hdb|rewrite Hu2 by lia; apply Hdb]|].
      destruct (Ha j Hj); [by left|right]. by apply Hd2.
    + intros j j' Hj Hj'. rewrite !Hbj by done. repeat case_decide; subst; try done.
      * intros E. by destruct (Hne j' Hj').
      * intros E. by destruct (Hne j Hj).
      * by apply Hinj.
    + intros j Hj. rewrite Hbj by done. case_decide; [|by apply Hown]. intros _ E. by apply (data_ne ind Hi).
  - intros c Hc. rewrite Hu2 by lia. by apply alloc_meta.
  - unfold V2. rewrite length_insert. apply length_alloc_view.
  - intros j Hj Hne0. rewrite Hbj by done. case_decide; [congruence|done].
  - intros j Hj Hz'. rewrite Hbj by done. case_decide; [|done]. intros _. split; [apply Hf|]. rewrite E2n; [done|lia|]. intros E. by apply (data_ne ind Hi).
  - intros c Hc Hu. rewrite Hu2 by done. by rewrite alloc_used, Hu, orb_true_r by done.
  - by left.
  - intros n Hn Hnz. rewrite E2n; [by apply alloc_same|apply Hn|]. intros E. fold ind in Hnz. specialize (Hnz E). lia.
Qed.

End alloc.

Lemma grown_trans V ad V1 ad1 V2 ad2 : grown V ad V1 ad1 -> grown V1 ad1 V2 ad2 -> grown V ad V2 ad2.
Proof.
  intros G1 G2. assert (forall n, stable V n -> stable V1 n) as Hst.
  { intros n (Hn & Hu & Hm). split_and!; try done. destruct (Z.lt_ge_cases n (sb_size s)); [|by right]. left. apply (gw_used _ _ _ _ G1); [lia|]. destruct Hu; [done|lia]. }
  split.
  - apply G2.
  - apply G2.
  - by rewrite (gw_len _ _ _ _ G2), (gw_len _ _ _ _ G1).
  - intros j Hj Hne. pose proof (gw_addr _ _ _ _ G1 j Hj Hne) as E1. rewrite (gw_addr _ _ _ _ G2 j Hj); [done|congruence].
  - intros j Hj Hz Hne. destruct (io_addr _ _ _ (gw_ok _ _ _ _ G2) j Hj) as [|Hd2]; [done|]. pose proof (data_pos _ _ Hd2) as Hp2.
    destruct (decide (baddr V1 ad1 j = 0)) as [Ez|Enz].
    + destruct (gw_new _ _ _ _ G2 j Hj Ez Hne) as [Hu ?]. split; [|done]. apply not_true_is_false. intros Hu'.
      rewrite (gw_used _ _ _ _ G1) in Hu; [done|lia|done].
    + pose proof (gw_addr _ _ _ _ G2 j Hj Enz) as E. destruct (gw_new _ _ _ _ G1 j Hj Hz Enz) as [Hu Hzero]. rewrite E. split; [done|].
      rewrite (gw_same _ _ _ _ G2); [done| |].
      * apply data_stable. destruct (io_addr _ _ _ (gw_ok _ _ _ _ G1) j Hj); done.
      * intros E'. destruct (io_own _ _ _ (gw_ok _ _ _ _ G2) j Hj Hne). congruence.
  - intros c Hc Hu. apply (gw_used _ _ _ _ G2), (gw_used _ _ _ _ G1); done.
  - destruct (gw_ind _ _ _ _ G1) as [E1|(E1 & ? & ?)], (gw_ind _ _ _ _ G2) as [E2|(E2 & R2 & U2)].
    + left. congruence.
    + right. split; [congruence|]. split; [done|]. apply not_true_is_false. intros Hu'. pose proof (datastart_gt _ _ _ _ Hg).
      rewrite (gw_used _ _ _ _ G1) in U2; [done|lia|done].
    + right. by rewrite E2.
    + exfalso. pose proof (datastart_gt _ _ _ _ Hg). lia.
  - intros n Hn Hnz. rewrite (gw_same _ _ _ _ G2), (gw_same _ _ _ _ G1); auto.
    intros E. destruct (gw_ind _ _ _ _ G2) as [E2|(E2 & _)]; [apply Hnz; congruence|congruence].
Qed.

Lemma grown_refl V ad : inode_ok s V ad -> meta_used s V -> grown V ad V ad.
Proof. intros Hi Hm. split; try done. by left. Qed.

(** ** Writing *)

Notation B := (Z.to_nat BSIZE).

(** The file after [bs] was written at [off]: it has those bytes, the others it had,
    and nothing else is touched but the free map and the indirect block. *)
Record written (V : list block) (ad : list Z) (off : nat) (bs : list Z) (V' : list block) (ad' : list Z) : Prop := {
  wr_max : (off + length bs <= NMAX * B)%nat;
  wr_ok : inode_ok s V' ad';
  wr_meta : meta_used s V';
  wr_len : length V' = length V;
  wr_addr : forall j, (j < NMAX)%nat -> baddr V ad j <> 0 -> baddr V' ad' j = baddr V ad j;
  wr_new : forall j, (j < NMAX)%nat -> baddr V ad j = 0 -> baddr V' ad' j <> 0 -> used s V (baddr V' ad' j) = false;
  wr_have : forall p, (off <= p < off + length bs)%nat -> baddr V' ad' (p / B)%nat <> 0;
  wr_bytes : forall p b, bs !! p = Some b -> fbyte V' ad' (off + p)%nat = b;
  wr_old : forall p, (p < NMAX * B)%nat -> baddr V ad (p / B)%nat <> 0 -> ~ (off <= p < off + length bs)%nat -> fbyte V' ad' p = fbyte V ad p;
  wr_used : forall c, 0 <= c < sb_size s -> used s V c = true -> used s V' c = true;
  wr_ind : indirect ad' = indirect ad \/ (indirect ad = 0 /\ datastart s <= indirect ad' < sb_size s /\ used s V (indirect ad') = false);
  wr_same : forall n, stable V n -> (n = indirect ad' -> n = 0) -> (forall j, (j < NMAX)%nat -> baddr V ad j = n -> n = 0) ->
    V' !!! Z.to_nat n = V !!! Z.to_nat n
}.

Lemma pos_block p : (p < NMAX * B)%nat -> (p / B < NMAX)%nat.
Proof. intros Hp. apply Nat.Div0.div_lt_upper_bound. lia. Qed.

Lemma fbyte_grown V ad V' ad' p : inode_ok s V ad -> grown V ad V' ad' -> (p < NMAX * B)%nat -> baddr V ad (p / B)%nat <> 0 -> fbyte V' ad' p = fbyte V ad p.
Proof.
  intros Hok Hgr Hp Hne. apply pos_block in Hp. unfold fbyte. pose proof (gw_addr _ _ _ _ Hgr _ Hp Hne) as E. rewrite E. f_equal.
  destruct (io_addr _ _ _ Hok _ Hp) as [|Hd]; [done|]. apply (gw_same _ _ _ _ Hgr); [by apply data_stable|].
  intros E'. destruct (io_own _ _ _ (gw_ok _ _ _ _ Hgr) (p / B)%nat Hp); congruence.
Qed.

(** A data block of the file with other contents. *)
Lemma data_update V ad j d : inode_ok s V ad -> meta_used s V -> (j < NMAX)%nat -> baddr V ad j <> 0 -> length V = len ->
  let V' := <[Z.to_nat (baddr V ad j) := d]> V in
  inode_ok s V' ad /\ meta_used s V' /\ (forall c, 0 <= c < sb_size s -> used s V' c = used s V c) /\ (forall i, baddr V' ad i = baddr V ad i)
  /\ forall p, (p < NMAX * B)%nat -> fbyte V' ad p = if decide (p / B = j)%nat then d !!! (p mod B)%nat else fbyte V ad p.
Proof.
  intros Hok Hm Hj Hne HV V'. destruct (io_addr _ _ _ Hok j Hj) as [|Hd]; [done|]. pose proof (data_pos _ _ Hd) as Hp. pose proof Hg as [_ _ Hgm Hgs].
  assert (forall n, 0 <= n -> n <> baddr V ad j -> V' !!! Z.to_nat n = V !!! Z.to_nat n) as Hn by (intros; apply list_lookup_total_insert_ne; lia).
  assert (forall c, 0 <= c < sb_size s -> used s V' c = used s V c) as Hu.
  { intros c Hc. apply used_ne; [done|lia|]. by apply (data_not_map V). }
  assert (forall i, baddr V' ad i = baddr V ad i) as Hb.
  { intros i. apply baddr_view. destruct (io_ind _ _ _ Hok) as [|Hi]; [by left|right]. pose proof (data_pos _ _ Hi). apply Hn; [lia|].
    intros E. by apply (io_own _ _ _ Hok j Hj Hne). }
  assert (forall c, data s V c -> data s V' c) as Hdt.
  { intros c Hc. pose proof (data_pos _ _ Hc). destruct Hc. split; [done|]. by rewrite Hu by lia. }
  split_and!; try done.
  - destruct Hok as [Hl Hi Ha Hinj Hown]. split; [done| | | |].
    + destruct Hi; [by left|right; auto].
    + intros i Hi'. rewrite Hb. destruct (Ha i Hi'); [by left|right; auto].
    + intros i i'. rewrite !Hb. apply Hinj.
    + intros i. rewrite Hb. apply Hown.
  - intros c Hc. rewrite Hu by lia. by apply Hm.
  - intros p Hpm. unfold fbyte. rewrite Hb. pose proof (pos_block _ Hpm) as Hpj. case_decide as E.
    + rewrite E. unfold V'. rewrite list_lookup_total_insert_eq by lia. done.
    + destruct (decide (baddr V ad (p / B)%nat = 0)) as [Ez|Enz].
      * rewrite Ez. by rewrite (Hn 0) by lia.
      * destruct (io_addr _ _ _ Hok _ Hpj) as [|Hdp]; [done|]. pose proof (data_pos _ _ Hdp). rewrite Hn; [done|lia|]. intros E'. apply E, (io_inj _ _ _ Hok); done.
Qed.

Lemma written_nil V ad off : inode_ok s V ad -> meta_used s V -> (off <= NMAX * B)%nat -> written V ad off [] V ad.
Proof.
  intros Hok Hm Ho. split; cbn [length]; [lia|done|done|done|done|intros; congruence|intros; lia|intros p b E; by rewrite lookup_nil in E|done|done|by left|done].
Qed.

Lemma written_step V ad V1 ad1 off bs : inode_ok s V ad -> grown V ad V1 ad1 -> length V = len ->
  let j := (off / B)%nat in let a := baddr V1 ad1 j in
  (off < NMAX * B)%nat -> a <> 0 -> (off mod B + length bs <= B)%nat -> length (V1 !!! Z.to_nat a) = B ->
  written V ad off bs (<[Z.to_nat a := splice (off mod B) bs (V1 !!! Z.to_nat a)]> V1) ad1.
Proof.
  intros Hok Hgr HV j a Hoff Ha Hbs Hlen. assert (B <> 0%nat) as HB by done. pose proof (pos_block off Hoff) as Hj. fold j in Hj.
  pose proof (Nat.div_mod_eq off B) as Hdm. fold j in Hdm. pose proof (Nat.mod_upper_bound off B HB).
  destruct (data_update V1 ad1 j (splice (off mod B) bs (V1 !!! Z.to_nat a))) as (Hok2 & Hm2 & Hu2 & Hb2 & Hf2); [apply Hgr|apply Hgr|done|done|by rewrite (gw_len _ _ _ _ Hgr)|].
  fold a in Hok2, Hm2, Hu2, Hb2, Hf2. set (V2 := <[Z.to_nat a := _]> V1) in *.
  assert (off + length bs <= NMAX * B)%nat as Hmax by (unfold NMAX in *; nia).
  assert (forall p, (off <= p < off + length bs)%nat -> (p / B = j /\ p mod B = off mod B + (p - off))%nat) as Hin.
  { intros p Hp. split; symmetry; [apply (Nat.div_unique _ _ _ (off mod B + (p - off)))|apply (Nat.mod_unique _ _ j)]; lia. }
  split; [done|done|done|unfold V2; rewrite length_insert; apply (gw_len _ _ _ _ Hgr)| | | | | | | |].
  - intros i Hi Hne. rewrite Hb2. by apply (gw_addr _ _ _ _ Hgr).
  - intros i Hi Hz. rewrite Hb2. intros Hne. by apply (gw_new _ _ _ _ Hgr).
  - intros p Hp. rewrite Hb2, (proj1 (Hin p Hp)). done.
  - intros p b Hp. pose proof (lookup_lt_Some _ _ _ Hp) as Hpl. destruct (Hin (off + p)%nat) as [E1 E2]; [lia|]. rewrite Hf2 by lia. rewrite decide_True, E2 by done.
    apply list_lookup_total_correct. rewrite splice_lookup by lia. rewrite decide_True by lia. by replace (off mod B + (off + p - off) - off mod B)%nat with p by lia.
  - intros p Hp Hne Hno. rewrite Hf2 by done. case_decide as E; [|by apply fbyte_grown].
    rewrite <- (fbyte_grown V ad V1 ad1) by done. unfold fbyte. rewrite E. fold a.
    pose proof (Nat.div_mod_eq p B) as Hdp. pose proof (Nat.mod_upper_bound p B HB). rewrite E in Hdp.
    apply list_lookup_total_correct. rewrite splice_lookup by lia. rewrite decide_False by lia. apply list_lookup_lookup_total_lt. lia.
  - intros c Hc Hu. rewrite Hu2 by done. by apply (gw_used _ _ _ _ Hgr).
  - apply Hgr.
  - intros n Hn Hni Hno. unfold V2. assert (n <> a) as Hna.
    { intros ->. destruct (decide (baddr V ad j = 0)) as [Ez|Enz].
      - pose proof (proj1 (gw_new _ _ _ _ Hgr j Hj Ez Ha)) as Hu. destruct Hn as (_ & [Hu'|Hge] & _); [unfold a in Hu'; congruence|].
        destruct (io_addr _ _ _ (gw_ok _ _ _ _ Hgr) j Hj) as [|Hd]; [done|]. pose proof (data_pos _ _ Hd). unfold a in Hge. lia.
      - apply Ha, (Hno j Hj). symmetry. by apply (gw_addr _ _ _ _ Hgr). }
    destruct Hn as (Hn0 & Hn'). destruct (io_addr _ _ _ (gw_ok _ _ _ _ Hgr) j Hj) as [|Hd]; [done|]. pose proof (data_pos _ _ Hd). assert (0 < a) by (unfold a; lia).
    rewrite list_lookup_total_insert_ne by lia. by apply (gw_same _ _ _ _ Hgr).
Qed.

Lemma written_trans V ad off bs1 V1 ad1 bs2 V2 ad2 :
  written V ad off bs1 V1 ad1 -> written V1 ad1 (off + length bs1) bs2 V2 ad2 -> written V ad off (bs1 ++ bs2) V2 ad2.
Proof.
  intros W1 W2. pose proof (wr_max _ _ _ _ _ _ W2) as Hmax.
  assert (forall n, stable V n -> stable V1 n) as Hst.
  { intros n (Hn & Hu & Hm). split_and!; try done. destruct (Z.lt_ge_cases n (sb_size s)); [|by right]. left. apply (wr_used _ _ _ _ _ _ W1); [lia|]. destruct Hu; [done|lia]. }
  assert (forall j, (j < NMAX)%nat -> baddr V2 ad2 j <> 0 -> 0 < baddr V2 ad2 j < sb_size s) as Hr2.
  { intros j Hj Hne. destruct (io_addr _ _ _ (wr_ok _ _ _ _ _ _ W2) j Hj) as [|Hd]; [done|]. by apply (data_pos V2). }
  split; rewrite ?length_app.
  - lia.
  - apply W2.
  - apply W2.
  - by rewrite (wr_len _ _ _ _ _ _ W2), (wr_len _ _ _ _ _ _ W1).
  - intros j Hj Hne. pose proof (wr_addr _ _ _ _ _ _ W1 j Hj Hne) as E. rewrite (wr_addr _ _ _ _ _ _ W2 j Hj); congruence.
  - intros j Hj Hz Hne. destruct (decide (baddr V1 ad1 j = 0)) as [Ez|Enz].
    + apply not_true_is_false. intros Hu. pose proof (wr_new _ _ _ _ _ _ W2 j Hj Ez Hne) as Hu'. pose proof (Hr2 j Hj Hne).
      rewrite (wr_used _ _ _ _ _ _ W1) in Hu'; [done|lia|done].
    + rewrite (wr_addr _ _ _ _ _ _ W2 j Hj Enz). by apply (wr_new _ _ _ _ _ _ W1).
  - intros p Hp. destruct (Nat.lt_ge_cases p (off + length bs1)) as [Hlt|Hge].
    + pose proof (wr_have _ _ _ _ _ _ W1 p ltac:(lia)) as Hh. rewrite (wr_addr _ _ _ _ _ _ W2); [done|apply pos_block; lia|done].
    + apply (wr_have _ _ _ _ _ _ W2). lia.
  - intros p b Hp. apply lookup_app_Some in Hp as [Hp|[Hge Hp]].
    + pose proof (lookup_lt_Some _ _ _ Hp). rewrite (wr_old _ _ _ _ _ _ W2); [by apply (wr_bytes _ _ _ _ _ _ W1)|lia| |lia]. apply (wr_have _ _ _ _ _ _ W1). lia.
    + rewrite <- (wr_bytes _ _ _ _ _ _ W2 _ _ Hp). f_equal. lia.
  - intros p Hp Hne Hno. pose proof (wr_addr _ _ _ _ _ _ W1 _ (pos_block _ Hp) Hne) as E.
    rewrite (wr_old _ _ _ _ _ _ W2), (wr_old _ _ _ _ _ _ W1); try done; [lia|congruence|lia].
  - intros c Hc Hu. apply (wr_used _ _ _ _ _ _ W2), (wr_used _ _ _ _ _ _ W1); done.
  - pose proof (datastart_gt _ _ _ _ Hg). destruct (wr_ind _ _ _ _ _ _ W1) as [E1|(E1 & ? & ?)], (wr_ind _ _ _ _ _ _ W2) as [E2|(E2 & R2 & U2)].
    + left. congruence.
    + right. split; [congruence|]. split; [done|]. apply not_true_is_false. intros Hu'. rewrite (wr_used _ _ _ _ _ _ W1) in U2; [done|lia|done].
    + right. by rewrite E2.
    + exfalso. lia.
  - intros n Hn Hni Hno. rewrite (wr_same _ _ _ _ _ _ W2), (wr_same _ _ _ _ _ _ W1); auto.
    + intros E. destruct (wr_ind _ _ _ _ _ _ W2) as [E2|(E2 & _)]; [apply Hni; congruence|congruence].
    + intros j Hj E. destruct (decide (baddr V ad j = 0)) as [Ez|Enz]; [|apply (Hno j Hj); rewrite <- E; symmetry; by apply (wr_addr _ _ _ _ _ _ W1)].
      destruct (decide (n = 0)) as [|Hn0]; [done|]. pose proof (wr_new _ _ _ _ _ _ W1 j Hj Ez ltac:(congruence)) as Hu. rewrite E in Hu.
      destruct Hn as (? & [Hu'|Hge] & _); [congruence|]. destruct (io_addr _ _ _ (wr_ok _ _ _ _ _ _ W1) j Hj) as [|Hd]; [congruence|]. pose proof (data_pos _ _ Hd). lia.
Qed.

(** ** Whole files *)

(** A file: its blocks are its own, and every byte below its size has one. *)
Record file_state (V : list block) (i : inode) : Prop := {
  fi_ok : inode_ok s V (i_addrs i);
  fi_holes : no_holes V (i_addrs i) (i_size i);
  fi_size : 0 <= i_size i <= MAXFILE * BSIZE
}.

Definition file_bytes (V : list block) (i : inode) : list Z := contents V (i_addrs i) (i_size i).

(** The blocks that belong to a file. *)
Definition owned (V : list block) (ad : list Z) (n : Z) : Prop :=
  n <> 0 /\ (n = indirect ad \/ exists j, (j < NMAX)%nat /\ baddr V ad j = n).

Lemma owned_data V ad n : inode_ok s V ad -> owned V ad n -> data s V n.
Proof.
  intros Hok [Hn [->|(j & Hj & <-)]]; [destruct (io_ind _ _ _ Hok)|destruct (io_addr _ _ _ Hok j Hj)]; done.
Qed.

(** A file whose blocks are left alone, and stay in use, is left alone. *)
Lemma file_frame V V' c : file_state V c -> (forall n, owned V (i_addrs c) n -> V' !!! Z.to_nat n = V !!! Z.to_nat n) ->
  (forall n, 0 <= n < sb_size s -> used s V n = true -> used s V' n = true) ->
  file_state V' c /\ file_bytes V' c = file_bytes V c /\ forall j, baddr V' (i_addrs c) j = baddr V (i_addrs c) j.
Proof.
  intros [Hok Hh Hsz] Hsame Hused. set (ad := i_addrs c) in *.
  assert (forall j, baddr V' ad j = baddr V ad j) as Hb.
  { intros j. apply baddr_view. destruct (decide (indirect ad = 0)); [by left|right]. apply Hsame. split; [done|by left]. }
  assert (forall n, data s V n -> data s V' n) as Hd.
  { intros n Hn. pose proof (data_pos _ _ Hn). destruct Hn. split; [done|]. apply Hused; [lia|done]. }
  split_and!; [| |done].
  - split; [|by intros j Hj; rewrite Hb; apply Hh|done]. destruct Hok as [Hl Hi Ha Hinj Hown]. split; [done| | | |].
    + destruct Hi; [by left|right; auto].
    + intros j Hj. rewrite Hb. destruct (Ha j Hj); [by left|right; auto].
    + intros i j. rewrite !Hb. apply Hinj.
    + intros j. rewrite Hb. apply Hown.
  - unfold file_bytes, contents. apply list_fmap_ext. intros p x Hp. apply lookup_seq in Hp as [-> Hp]. simpl. unfold fbyte. rewrite Hb. f_equal.
    apply Hsame. assert (p / B < NMAX)%nat as Hj by (apply pos_block; unfold MAXFILE, NINDIRECT, NMAX in *; change BSIZE with 512 in *; lia).
    split; [|right; eauto]. apply Hh. pose proof (Nat.div_mod_eq p B). change BSIZE with 512 in *. lia.
Qed.

Lemma written_bytes V i off bs V' ad' :
  file_state V i -> written V (i_addrs i) off bs V' ad' -> Z.of_nat off <= i_size i -> length V = len ->
  let n := Z.max (i_size i) (Z.of_nat (off + length bs)) in
  file_state V' (i <| i_addrs := ad' |> <| i_size := n |>) /\
  file_bytes V' (i <| i_addrs := ad' |> <| i_size := n |>) = splice off bs (file_bytes V i).
Proof.
  intros [Hok Hh Hsz] W Hoff HV n. pose proof (wr_max _ _ _ _ _ _ W) as Hmax. set (ad := i_addrs i) in *.
  assert (0 <= n <= MAXFILE * BSIZE) as Hn by (unfold n, MAXFILE, NINDIRECT, NMAX in *; change BSIZE with 512 in *; lia).
  assert (forall p, Z.of_nat p < i_size i -> baddr V ad (p / B)%nat <> 0) as Hhp.
  { intros p Hp. apply Hh. pose proof (Nat.div_mod_eq p B). change BSIZE with 512 in *. lia. }
  split.
  - split; rsimpl; [apply W| |done]. intros j Hj. destruct (Z.lt_ge_cases (Z.of_nat j * BSIZE) (i_size i)) as [Hlt|Hge].
    + rewrite (wr_addr _ _ _ _ _ _ W); [by apply Hh| |by apply Hh]. unfold MAXFILE, NINDIRECT, NMAX in *. change BSIZE with 512 in *. lia.
    + pose proof (wr_have _ _ _ _ _ _ W (j * B)%nat) as Hw. rewrite Nat.div_mul in Hw by done. apply Hw. unfold n in *. change BSIZE with 512 in *. lia.
  - unfold file_bytes. rsimpl. fold ad. apply list_eq. intros p.
    assert (length (contents V ad (i_size i)) = Z.to_nat (i_size i)) as Hl by apply length_file_contents.
    rewrite contents_lookup. unfold splice, n. destruct (Nat.lt_ge_cases p off) as [Hp|Hp].
    + rewrite lookup_app_l by (rewrite length_take, Hl; lia). rewrite lookup_take_lt, contents_lookup by done. rewrite !decide_True by lia. f_equal.
      apply (wr_old _ _ _ _ _ _ W); [|apply Hhp; lia|lia]. unfold MAXFILE, NINDIRECT, NMAX in *. change BSIZE with 512 in *. lia.
    + rewrite lookup_app_r by (rewrite length_take, Hl; lia). rewrite length_take, Hl, Nat.min_l by lia.
      destruct (Nat.lt_ge_cases p (off + length bs)) as [Hp'|Hp'].
      * rewrite decide_True by lia. rewrite lookup_app_l by lia. destruct (lookup_lt_is_Some_2 bs (p - off)) as [b Hb]; [lia|]. rewrite Hb. f_equal.
        rewrite <- (wr_bytes _ _ _ _ _ _ W _ _ Hb). f_equal. lia.
      * rewrite lookup_app_r by lia. rewrite lookup_drop, contents_lookup. replace (off + length bs + (p - off - length bs))%nat with p by lia.
        destruct (decide (p < Z.to_nat (i_size i))%nat); [|by rewrite decide_False by lia]. rewrite decide_True by lia. f_equal.
        apply (wr_old _ _ _ _ _ _ W); [|apply Hhp; lia|lia]. unfold MAXFILE, NINDIRECT, NMAX in *. change BSIZE with 512 in *. lia.
Qed.

End geometry.

(** * Room in the log *)

(** Whether a block is still to be added to the log. *)
Definition fresh_in (n : Z) (bl : list Z) : nat := if decide (n ∈ bl) then 0 else 1.

Lemma absorb_len n bl : length (absorb n bl) = (length bl + fresh_in n bl)%nat.
Proof. unfold absorb, fresh_in. case_decide; [lia|]. by rewrite length_app. Qed.

Lemma fresh_absorb m n bl : fresh_in m (absorb n bl) = if decide (m = n) then 0%nat else fresh_in m bl.
Proof.
  unfold fresh_in. pose proof (absorb_elem n bl m) as He.
  destruct (decide (m ∈ absorb n bl)), (decide (m = n)), (decide (m ∈ bl)); try done; exfalso; tauto.
Qed.

Lemma fresh_le m bl : (fresh_in m bl <= 1)%nat.
Proof. unfold fresh_in. case_decide; lia. Qed.

(** The blocks of the log when the free map and the indirect block have their places
    in it. *)
Definition cost (s : superblock) (bl : list Z) (ad : list Z) : nat :=
  (length bl + fresh_in (sb_bmapstart s) bl + (if (indirect ad =? 0)%Z then 1 else fresh_in (indirect ad) bl))%nat.

Lemma cost_absorb s a bl ad : (cost s (absorb a bl) ad <= cost s bl ad + fresh_in a bl)%nat.
Proof.
  unfold cost. rewrite absorb_len, !fresh_absorb. destruct (indirect ad =? 0); repeat case_decide; lia.
Qed.

Definition allow (k : kernel) (c : nat) : Prop := Z.of_nat c <= LOGSIZE - 2 /\ Z.of_nat c < lg_size (slog (fs k)) - 1.

Lemma allow_less k c c' : allow k c -> (c' <= c)%nat -> allow k c'.
Proof. unfold allow. lia. Qed.

(** * The inode in memory *)

Definition with_addrs (ip : nat) (ad : list Z) (ic : list inode) : list inode := alter (fun n => n <| i_addrs := ad |>) ip ic.

Lemma alter_as_insert {A} (f : A -> A) i (l : list A) x : l !! i = Some x -> alter f i l = <[i := f x]> l.
Proof.
  intros Hx. apply list_eq. intros j. rewrite list_lookup_alter. destruct (decide (i = j)) as [<-|Hne]; [|by rewrite list_lookup_insert_ne].
  rewrite Hx, list_lookup_insert_eq; [done|by apply lookup_lt_Some in Hx].
Qed.

Lemma with_addrs_lookup ip ad ic i : ic !! ip = Some i -> with_addrs ip ad ic !! ip = Some (i <| i_addrs := ad |>).
Proof. intros Hi. unfold with_addrs. by rewrite list_lookup_alter_eq, Hi. Qed.

Lemma with_addrs_twice ip ad1 ad2 ic : with_addrs ip ad2 (with_addrs ip ad1 ic) = with_addrs ip ad2 ic.
Proof. unfold with_addrs. rewrite list_alter_alter_eq. by apply list_alter_ext. Qed.

Lemma with_addrs_same ip i ic : ic !! ip = Some i -> with_addrs ip (i_addrs i) ic = ic.
Proof.
  intros Hi. apply list_eq. intros j. unfold with_addrs. rewrite list_lookup_alter. case_decide as Hj; [|done]. subst. rewrite Hi. simpl. by destruct i.
Qed.

Lemma set_addr_eq ip j a ic i : ic !! ip = Some i ->
  alter (fun n => n <| i_addrs ::= <[j := a]> |>) ip ic = with_addrs ip (<[j := a]> (i_addrs i)) ic.
Proof.
  intros Hi. apply list_eq. intros x. unfold with_addrs. rewrite !list_lookup_alter. case_decide as Hx; [|done]. subst. by rewrite Hi.
Qed.

Section operations.
Context `{Layout} (k0 : kernel) (pid start nlog : Z) (o : list (kernel -> kernel)).
Notation s := (sb (fs k0)).
Notation tx := (tx k0 pid start).
Hypothesis Hg : geometry s start nlog (length (disk (fs k0))).
Hypothesis Hone : sb_size s <= BPB.

Lemma tx_lens V Hd bl ic k : tx V Hd bl ic k -> length V = length (disk (fs k0)) /\
  forall n, 0 <= n < Z.of_nat (length (disk (fs k0))) -> length (V !!! Z.to_nat n) = Z.to_nat BSIZE.
Proof.
  intros Ht. pose proof (tx_length _ _ _ _ _ _ _ _ Ht) as HV. split; [done|]. intros n Hn.
  apply (tx_block_len k0 pid start V Hd bl ic k); [done|lia].
Qed.

Lemma allow_fits bl c : allow k0 c -> (length bl <= c)%nat -> fits k0 bl.
Proof. unfold allow, fits. lia. Qed.

Lemma bread_room (bl : list Z) c : allow k0 c -> (length bl <= c)%nat -> (length bl + size (∅ : gmap nat Z) < NBUF)%nat.
Proof. rewrite map_size_empty. unfold allow, LOGSIZE, MAXOPBLOCKS, NBUF. lia. Qed.

Lemma balloc_step V Hd bl ic k c :
  tx V Hd bl ic k -> meta_used s V -> (0 < nfree s V)%nat -> data_held k0 V Hd -> (size Hd <= 1)%nat ->
  allow k0 c -> (length bl + fresh_in (sb_bmapstart s) bl <= c)%nat ->
  wp (balloc 1) o k (fun b k' => is_first s V b /\ datastart s <= b /\ tx (alloc_view s b V) Hd (absorb b (absorb (sb_bmapstart s) bl)) ic k').
Proof.
  intros Ht Hm Hn Hdh Hh Hc Hlen. destruct (free_first s V Hm Hn) as (b & Hf & Hb).
  assert (BBLOCK b s = sb_bmapstart s) as EB by (apply (BBLOCK_one _ _ _ _ Hg Hone), Hf).
  eapply wp_mono; [eapply (balloc_spec k0 pid start nlog o Hg V Hd bl ic k b); try done|].
  - eapply allow_fits; [done|lia].
  - rewrite EB. eapply allow_fits; [done|]. by rewrite absorb_len.
  - intros a k' [-> Ht']. by rewrite EB in Ht'.
Qed.

(** The end of [bmap], which works on the indirect block. *)
Definition bmap_tail (addr : Z) (off : nat) : K Z :=
  bp ← bread 1 addr;
  b ← get_buf bp;
  let addr := get_u32 off (b_data b) in
  addr ← (if addr =? 0 then
            a ← balloc 1;
            upd_buf bp (fun b => b <| b_data ::= put_u32 off a |>);;
            log_write bp;;
            mret a
          else mret addr);
  brelse bp;;
  mret addr.

Lemma bmap_tail_hit V bl ic k ad j c : tx V ∅ bl ic k -> inode_ok s V ad -> indirect ad <> 0 -> (NDIRECT <= j < NMAX)%nat ->
  baddr V ad j <> 0 -> allow k0 c -> (length bl <= c)%nat ->
  wp (bmap_tail (indirect ad) (4 * (j - NDIRECT))) o k (fun a k' => a = baddr V ad j /\ tx V ∅ bl ic k').
Proof.
  intros Ht Hok Hi Hj Hne Hc Hlen. unfold bmap_tail. destruct (tx_lens _ _ _ _ _ Ht) as [HV HVl].
  destruct (io_ind _ _ _ Hok) as [|Hd]; [done|]. pose proof (data_pos _ _ _ _ Hg _ _ Hd) as Hp. pose proof Hg as [_ _ _ Hsz].
  rewrite baddr_indirect in * by lia. destruct (Z.eqb_spec (indirect ad) 0); [done|].
  eapply wp_step; [apply (tx_bread k0 pid start o V ∅ bl ic k (indirect ad) Ht); [lia|by intros x|by eapply bread_room]|].
  intros i k1 [Ht1 Hi1]. eapply wp_step; [apply (tx_get_buf k0 pid start o _ _ _ _ _ i (indirect ad) Ht1), lookup_insert_eq|].
  intros b _ (-> & -> & _). destruct (Z.eqb_spec (get_u32 (4 * (j - NDIRECT)) (V !!! Z.to_nat (indirect ad))) 0); [done|].
  apply wp_bind. eexists _, k1. split; [done|]. eapply wp_step; [apply (tx_brelse k0 pid start o _ _ _ _ _ i (indirect ad) Ht1), lookup_insert_eq|].
  intros [] k2 Ht2; cbv beta in Ht2. rewrite delete_insert_id in Ht2 by done. by eexists _, _.
Qed.

Lemma bmap_tail_new V bl ic k ad j c : tx V ∅ bl ic k -> inode_ok s V ad -> meta_used s V -> indirect ad <> 0 -> (NDIRECT <= j < NMAX)%nat ->
  baddr V ad j = 0 -> (0 < nfree s V)%nat -> allow k0 c -> (cost s bl ad + 1 <= c)%nat ->
  wp (bmap_tail (indirect ad) (4 * (j - NDIRECT))) o k (fun b k' => is_first s V b /\ datastart s <= b /\
    tx (<[Z.to_nat (indirect ad) := put_u32 (4 * (j - NDIRECT)) b (alloc_view s b V !!! Z.to_nat (indirect ad))]> (alloc_view s b V)) ∅
      (absorb (indirect ad) (absorb b (absorb (sb_bmapstart s) bl))) ic k').
Proof.
  intros Ht Hok Hm Hi Hj Hz Hfr Hc Hlen. unfold bmap_tail. destruct (tx_lens _ _ _ _ _ Ht) as [HV HVl].
  destruct (io_ind _ _ _ Hok) as [|Hd]; [done|]. pose proof (data_pos _ _ _ _ Hg _ _ Hd) as Hp. pose proof Hg as [_ _ _ Hsz].
  rewrite baddr_indirect in * by lia. unfold cost in Hlen. destruct (Z.eqb_spec (indirect ad) 0); [done|].
  eapply wp_step; [apply (tx_bread k0 pid start o V ∅ bl ic k (indirect ad) Ht); [lia|by intros x|eapply bread_room; [done|lia]]|].
  intros i k1 [Ht1 Hi1]. eapply wp_step; [apply (tx_get_buf k0 pid start o _ _ _ _ _ i (indirect ad) Ht1), lookup_insert_eq|].
  intros b _ (-> & -> & _). rewrite Hz. cbn [Z.eqb].
  assert (data_held k0 V (<[i := indirect ad]> ∅)) as Hdh.
  { intros x m [[_ <-]|[_ E]]%lookup_insert_Some; [done|by rewrite lookup_empty in E]. }
  apply wp_bind. eapply wp_step; [eapply (balloc_step _ _ _ _ _ c Ht1); try done; [rewrite map_size_insert_None, map_size_empty by done; lia|lia]|].
  intros a k2 (Hf & Ha & Ht2). eapply (wp_logged k0 pid start o _ _ _ _ k2 i (indirect ad) (put_u32 (4 * (j - NDIRECT)) a) _ _ Ht2);
    [apply lookup_insert_eq|unfold is_blockno; lia| | |].
  - assert (length (alloc_view s a V !!! Z.to_nat (indirect ad)) = Z.to_nat BSIZE) as Hl.
    { apply (tx_block_len _ _ _ _ _ _ _ _ _ Ht2). rewrite length_alloc_view. lia. }
    rewrite length_put_u32; [done|]. rewrite Hl. unfold NMAX, NDIRECT, BSIZE in *. lia.
  - eapply (allow_fits _ c); [done|]. rewrite !absorb_len, fresh_absorb. pose proof (fresh_le a bl). case_decide; lia.
  - intros k3 Ht3. eexists _, k3. split; [done|]. eapply wp_step; [apply (tx_brelse k0 pid start o _ _ _ _ _ i (indirect ad) Ht3), lookup_insert_eq|].
    intros [] k4 Ht4; cbv beta in Ht4. rewrite delete_insert_id in Ht4 by done. by eexists _, _.
Qed.

(** What [bmap] does: the file has the block asked for, and otherwise only grew. *)
Record mapped (V : list block) (bl ad : list Z) (j : nat) (V' : list block) (bl' ad' : list Z) : Prop := {
  mp_have : baddr V' ad' j <> 0;
  mp_grown : grown s V ad V' ad';
  mp_rest : forall x, (x < NMAX)%nat -> x <> j -> baddr V' ad' x = baddr V ad x;
  mp_free : (nfree s V <= nfree s V' + (if (baddr V ad j =? 0)%Z then 2 else 0))%nat;
  mp_cost : (cost s bl' ad' + fresh_in (baddr V' ad' j) bl' <= cost s bl ad + 1)%nat
}.

Lemma wp_get_addr V Hd bl ic k ip i j a : tx V Hd bl ic k -> ic !! ip = Some i -> i_addrs i !! j = Some a ->
  wp (get_addr ip j) o k (fun x k' => x = a /\ k' = k).
Proof. intros Ht Hi Ha. exists a, k. split; [|done]. apply deref_some. rewrite (tx_ic _ _ _ _ _ _ _ _ Ht), Hi. done. Qed.

Lemma mapped_hit V bl ad j : inode_ok s V ad -> meta_used s V -> baddr V ad j <> 0 -> mapped V bl ad j V bl ad.
Proof.
  intros Hok Hm Hne. split; try done; [by apply grown_refl|lia|]. pose proof (fresh_le (baddr V ad j) bl). lia.
Qed.

Definition sized (V : list block) : Prop := length V = length (disk (fs k0)) /\
  forall n, 0 <= n < Z.of_nat (length (disk (fs k0))) -> length (V !!! Z.to_nat n) = Z.to_nat BSIZE.

Lemma nfree_first V b : is_first s V b -> datastart s <= b -> sized V -> S (nfree s (alloc_view s b V)) = nfree s V.
Proof.
  intros Hf Hb [HV HVl]. pose proof (if_range _ _ _ Hf). apply (nfree_alloc s start nlog _ Hg); [lia|apply Hf|done|]. by apply HVl, (BBLOCK_range s start nlog _ Hg).
Qed.

Lemma mapped_direct V bl ad j b : inode_ok s V ad -> meta_used s V -> (j < NDIRECT)%nat -> baddr V ad j = 0 ->
  is_first s V b -> datastart s <= b -> sized V ->
  mapped V bl ad j (alloc_view s b V) (absorb b (absorb (sb_bmapstart s) bl)) (<[j := b]> ad)
  /\ baddr (alloc_view s b V) (<[j := b]> ad) j = b.
Proof.
  intros Hok Hm Hj Hz Hf Hb Hsz. destruct (Hsz) as [HV HVl]. pose proof (datastart_gt _ _ _ _ Hg).
  pose proof (fun x => direct_baddr s start nlog _ Hg Hone V b HV Hf ad j x Hok Hj) as Hbj.
  assert (baddr (alloc_view s b V) (<[j := b]> ad) j = b) as Eb by (by rewrite Hbj, decide_True). split; [|done]. split.
  - rewrite Eb. lia.
  - by apply (grown_direct s start nlog _ Hg Hone).
  - intros x Hx Hne. by rewrite Hbj, decide_False.
  - pose proof (nfree_first V b Hf Hb Hsz). rewrite Hz. cbn [Z.eqb]. lia.
  - rewrite Eb. unfold cost. assert (indirect (<[j := b]> ad) = indirect ad) as -> by (unfold indirect; rewrite list_lookup_total_insert_ne; [done|lia]).
    rewrite !absorb_len, !fresh_absorb. pose proof (fresh_le b bl). pose proof (fresh_le (indirect ad) bl). repeat case_decide; destruct (indirect ad =? 0); subst; lia.
Qed.

Lemma mapped_entry V bl ad j b : inode_ok s V ad -> meta_used s V -> indirect ad <> 0 -> (NDIRECT <= j < NMAX)%nat -> baddr V ad j = 0 ->
  is_first s V b -> datastart s <= b -> sized V ->
  let V' := <[Z.to_nat (indirect ad) := put_u32 (4 * (j - NDIRECT)) b (alloc_view s b V !!! Z.to_nat (indirect ad))]> (alloc_view s b V) in
  mapped V bl ad j V' (absorb (indirect ad) (absorb b (absorb (sb_bmapstart s) bl))) ad
  /\ baddr V' ad j = b /\ (nfree s V <= nfree s V' + 1)%nat.
Proof.
  intros Hok Hm Hi Hj Hz Hf Hb Hsz V'. destruct (Hsz) as [HV HVl]. pose proof (datastart_gt _ _ _ _ Hg).
  pose proof (fun x => entry_baddr s start nlog _ Hg Hone V b HV HVl Hf Hb ad j x Hok Hi Hj) as Hbj.
  assert (baddr V' ad j = b) as Eb by (unfold V'; rewrite Hbj by lia; by rewrite decide_True).
  assert (nfree s V' = nfree s (alloc_view s b V)) as En.
  { destruct (io_ind _ _ _ Hok) as [|Hd]; [done|]. pose proof (data_pos _ _ _ _ Hg _ _ Hd). apply nfree_ext. intros c Hc.
    apply (used_ne s start nlog _ Hg); [done|lia|by apply (data_not_map s start nlog _ Hg V)]. }
  pose proof (nfree_first V b Hf Hb Hsz). split; [|split; [done|lia]]. split.
  - rewrite Eb. lia.
  - by apply (grown_entry s start nlog _ Hg Hone).
  - intros x Hx Hne. unfold V'. by rewrite Hbj, decide_False.
  - rewrite Hz. cbn [Z.eqb]. lia.
  - rewrite Eb. unfold cost. destruct (Z.eqb_spec (indirect ad) 0); [done|].
    rewrite !absorb_len, !fresh_absorb. clear. pose proof (fresh_le b bl). pose proof (fresh_le (indirect ad) bl). repeat case_decide; subst; lia.
Qed.

(** A block behind a new indirect block. *)
Lemma mapped_after V bl ad a1 V' bl' ad' j : inode_ok s V ad -> meta_used s V -> indirect ad = 0 -> (NDIRECT <= j < NMAX)%nat -> baddr V ad j = 0 ->
  is_first s V a1 -> datastart s <= a1 -> sized V ->
  let V1 := alloc_view s a1 V in let ad1 := <[NDIRECT := a1]> ad in let bl1 := absorb a1 (absorb (sb_bmapstart s) bl) in
  mapped V1 bl1 ad1 j V' bl' ad' -> (nfree s V1 <= nfree s V' + 1)%nat -> mapped V bl ad j V' bl' ad'.
Proof.
  intros Hok Hm Hi Hj Hz Hf Hb Hsz V1 ad1 bl1 [Mh Mg Mr _ Mc] Hn. destruct (Hsz) as [HV HVl]. pose proof (datastart_gt _ _ _ _ Hg).
  pose proof (fun x => indirect_baddr s start nlog _ Hg V a1 HV HVl Hf Hb ad x Hok Hi) as Hbj. fold V1 ad1 in Hbj. split.
  - done.
  - eapply (grown_trans s start nlog _ Hg Hone); [|exact Mg]. by apply (grown_indirect s start nlog _ Hg Hone).
  - intros x Hx Hne. by rewrite Mr, Hbj.
  - pose proof (nfree_first V a1 Hf Hb Hsz). fold V1 in Hn. unfold V1 in *. rewrite Hz. cbn [Z.eqb]. lia.
  - etransitivity; [exact Mc|]. unfold cost. assert (indirect ad1 = a1) as -> by apply indirect_set, Hok. rewrite Hi. cbn [Z.eqb].
    destruct (Z.eqb_spec a1 0); [lia|]. unfold bl1. rewrite !absorb_len, !fresh_absorb. clear. pose proof (fresh_le a1 bl). repeat case_decide; subst; lia.
Qed.

Lemma wp_set_addr V Hd bl ic k ip i j a : tx V Hd bl ic k -> ic !! ip = Some i ->
  wp (set_addr ip j a) o k (fun _ k' => tx V Hd bl (with_addrs ip (<[j := a]> (i_addrs i)) ic) k').
Proof. intros Ht Hi. rewrite <- (set_addr_eq _ _ _ _ _ Hi). by apply tx_upd_ino. Qed.

Lemma bmap_tail_spec V bl ic k ad j : tx V ∅ bl ic k -> inode_ok s V ad -> meta_used s V -> indirect ad <> 0 -> (NDIRECT <= j < NMAX)%nat ->
  (baddr V ad j = 0 -> (1 <= nfree s V)%nat) -> allow k0 (cost s bl ad + 1) ->
  wp (bmap_tail (indirect ad) (4 * (j - NDIRECT))) o k (fun a k' => exists V' bl', a = baddr V' ad j /\ tx V' ∅ bl' ic k' /\
    mapped V bl ad j V' bl' ad /\ (nfree s V <= nfree s V' + 1)%nat).
Proof.
  intros Ht Hok Hm Hi Hj Hfr Hc. destruct (decide (baddr V ad j = 0)) as [Hz|Hne].
  - eapply wp_mono; [eapply bmap_tail_new; try done; by apply Hfr|]. intros b k' (Hf & Hb & Ht').
    destruct (mapped_entry V bl ad j b) as (Hmp & Eb & Hn); [done..|by eapply tx_lens|]. eexists _, _. split; [symmetry; exact Eb|]. by split.
  - eapply wp_mono; [eapply bmap_tail_hit; try done; unfold cost; lia|]. intros a k' [-> Ht']. exists V, bl. split; [done|]. split; [done|].
    split; [by apply mapped_hit|lia].
Qed.

Lemma bmap_spec V bl ic k ip i j :
  tx V ∅ bl ic k -> ic !! ip = Some i -> i_dev i = 1 -> inode_ok s V (i_addrs i) -> meta_used s V -> (j < NMAX)%nat ->
  (baddr V (i_addrs i) j = 0 -> (2 <= nfree s V)%nat) -> allow k0 (cost s bl (i_addrs i) + 1) ->
  wp (bmap ip (Z.of_nat j)) o k (fun a k' => exists V' bl' ad', a = baddr V' ad' j /\
    tx V' ∅ bl' (with_addrs ip ad' ic) k' /\ mapped V bl (i_addrs i) j V' bl' ad').
Proof.
  intros Ht Hi Hdev Hok Hm Hj Hfr Hc. set (ad := i_addrs i) in *. pose proof (tx_lens _ _ _ _ _ Ht) as Hsz.
  assert (length bl <= cost s bl ad + 1)%nat as Hlen by (unfold cost; lia).
  unfold bmap. eapply wp_step; [by eapply tx_get_ino|]. intros _ _ [-> ->]. rewrite Hdev.
  destruct (Z.ltb_spec (Z.of_nat j) (Z.of_nat NDIRECT)) as [Hd|Hd].
  - rewrite Nat2Z.id. destruct (lookup_lt_is_Some_2 ad j) as [a Ha]; [rewrite (io_len _ _ _ Hok); lia|].
    assert (baddr V ad j = a) as Ea by (rewrite baddr_direct by lia; by apply list_lookup_total_correct).
    eapply wp_step; [by eapply wp_get_addr|]. intros _ _ [-> ->]. destruct (Z.eqb_spec a 0) as [->|Hne].
    + specialize (Hfr Ea). eapply wp_step; [eapply (balloc_step V ∅ bl ic k _ Ht Hm); [lia|by intros x n ?|by rewrite map_size_empty; lia|exact Hc|unfold cost; lia]|].
      intros b k1 (Hf & Hb & Ht1). eapply wp_step; [by eapply (wp_set_addr _ _ _ _ _ ip i j b)|]. intros [] k2 Ht2; cbv beta in Ht2.
      destruct (mapped_direct V bl ad j b) as [Hmp Eb]; [done|done|lia|done..|]. exists b, k2. split; [done|]. eexists _, _, _. split; [symmetry; exact Eb|]. by split.
    + exists a, k. split; [done|]. exists V, bl, ad. split; [done|]. split; [by unfold ad; rewrite with_addrs_same|]. apply mapped_hit; [done|done|congruence].
  - unfold NMAX in Hj. destruct (Z.ltb_spec (Z.of_nat j - Z.of_nat NDIRECT) NINDIRECT) as [_|Hx]; [|unfold NDIRECT, NINDIRECT in Hx; lia].
    assert (NDIRECT <= j < NMAX)%nat as Hj' by (unfold NMAX; lia).
    replace (4 * Z.to_nat (Z.of_nat j - Z.of_nat NDIRECT))%nat with (4 * (j - NDIRECT))%nat by lia.
    destruct (lookup_lt_is_Some_2 ad NDIRECT) as [a Ha]; [rewrite (io_len _ _ _ Hok); lia|].
    assert (indirect ad = a) as Ea by by apply list_lookup_total_correct.
    eapply wp_step; [by eapply wp_get_addr|]. intros _ _ [-> ->].
    destruct (Z.eqb_spec a 0) as [Ez|Hne].
    + assert (baddr V ad j = 0) as Hz by (rewrite baddr_indirect, Ea, Ez by lia; done). specialize (Hfr Hz). rewrite Ez in Ea.
      eapply (wp_step _ _ _ _ (fun b k2 => is_first s V b /\ datastart s <= b /\
        tx (alloc_view s b V) ∅ (absorb b (absorb (sb_bmapstart s) bl)) (with_addrs ip (<[NDIRECT := b]> ad) ic) k2)).
      { eapply wp_step; [eapply (balloc_step V ∅ bl ic k _ Ht Hm); [lia|by intros x n ?|by rewrite map_size_empty; lia|exact Hc|unfold cost; lia]|].
        intros b k1 (Hf & Hb & Ht1). eapply wp_step; [by eapply (wp_set_addr _ _ _ _ _ ip i NDIRECT b)|]. intros [] k2 Ht2; cbv beta in Ht2.
        by exists b, k2. }
      intros b k2 (Hf & Hb & Ht2). set (ad1 := <[NDIRECT := b]> ad) in *. pose proof (datastart_gt _ _ _ _ Hg).
      assert (indirect ad1 = b) as E1 by apply indirect_set, Hok. destruct (Hsz) as [HV HVl].
      pose proof (grown_indirect s start nlog _ Hg Hone V b HV HVl Hf Hb Hm ad Hok Ea) as G1. fold ad1 in G1.
      pose proof (indirect_baddr s start nlog _ Hg V b HV HVl Hf Hb ad j Hok Ea) as Ej. fold ad1 in Ej.
      pose proof (nfree_first V b Hf Hb Hsz) as Hn1.
      pose proof (bmap_tail_spec _ _ _ k2 ad1 j Ht2 (gw_ok _ _ _ _ _ G1) (gw_meta _ _ _ _ _ G1) ltac:(lia) Hj' ltac:(intros _; lia)) as Hw.
      rewrite E1 in Hw. eapply wp_mono; [apply Hw|].
      { eapply allow_less; [exact Hc|]. unfold cost. rewrite E1, Ea. cbn [Z.eqb]. destruct (Z.eqb_spec b 0); [lia|].
        rewrite !absorb_len, !fresh_absorb. clear. pose proof (fresh_le b bl). repeat case_decide; subst; lia. }
      intros a' k3 (V' & bl' & -> & Ht3 & Hmp & Hn2). exists V', bl', ad1. split; [done|]. split; [done|]. by eapply mapped_after.
    + eapply (wp_step _ _ _ _ (fun x k' => x = a /\ k' = k)); [by exists a, k|]. intros _ _ [-> ->]. rewrite <- Ea in *.
      eapply wp_mono; [by eapply (bmap_tail_spec V bl ic k ad j); try done; intros Hz; specialize (Hfr Hz); lia|].
      intros a' k3 (V' & bl' & -> & Ht3 & Hmp & _). exists V', bl', ad. split; [done|]. split; [|done]. unfold ad. by rewrite with_addrs_same.
Qed.

Lemma bmap_hit V bl ic k ip i j :
  tx V ∅ bl ic k -> ic !! ip = Some i -> i_dev i = 1 -> inode_ok s V (i_addrs i) -> (j < NMAX)%nat ->
  baddr V (i_addrs i) j <> 0 -> allow k0 (length bl) ->
  wp (bmap ip (Z.of_nat j)) o k (fun a k' => a = baddr V (i_addrs i) j /\ tx V ∅ bl ic k').
Proof.
  intros Ht Hi Hdev Hok Hj Hne Hc. set (ad := i_addrs i) in *. unfold bmap. eapply wp_step; [by eapply tx_get_ino|]. intros _ _ [-> ->]. rewrite Hdev.
  destruct (Z.ltb_spec (Z.of_nat j) (Z.of_nat NDIRECT)) as [Hd|Hd].
  - rewrite Nat2Z.id. destruct (lookup_lt_is_Some_2 ad j) as [a Ha]; [rewrite (io_len _ _ _ Hok); lia|].
    rewrite baddr_direct in * by lia. rewrite (list_lookup_total_correct _ _ _ Ha) in *.
    eapply wp_step; [by eapply wp_get_addr|]. intros _ _ [-> ->]. destruct (Z.eqb_spec a 0); [done|]. by exists a, k.
  - unfold NMAX in Hj. destruct (Z.ltb_spec (Z.of_nat j - Z.of_nat NDIRECT) NINDIRECT) as [_|Hx]; [|unfold NDIRECT, NINDIRECT in Hx; lia].
    replace (4 * Z.to_nat (Z.of_nat j - Z.of_nat NDIRECT))%nat with (4 * (j - NDIRECT))%nat by lia.
    destruct (lookup_lt_is_Some_2 ad NDIRECT) as [a Ha]; [rewrite (io_len _ _ _ Hok); lia|].
    assert (indirect ad = a) as Ea by by apply list_lookup_total_correct.
    assert (a <> 0) as Hna. { intros ->. rewrite baddr_indirect, Ea in Hne by lia. done. }
    eapply wp_step; [by eapply wp_get_addr|]. intros _ _ [-> ->]. destruct (Z.eqb_spec a 0); [done|].
    eapply (wp_step _ _ _ _ (fun x k' => x = a /\ k' = k)); [by exists a, k|]. intros _ _ [-> ->]. rewrite <- Ea in *.
    eapply (bmap_tail_hit V bl ic k ad j (length bl)); try done. unfold NMAX. lia.
Qed.

Context `{Devsw}.

(** A [readi] that reaches no hole changes nothing and gives the bytes of the file. *)
Lemma readi_loop_spec V bl ic ip i (dst : sink) n :
  ic !! ip = Some i -> i_dev i = 1 -> inode_ok s V (i_addrs i) -> no_holes V (i_addrs i) (i_size i) -> i_size i <= MAXFILE * BSIZE ->
  allow k0 (length bl) ->
  (forall t bs Hd k, tx V Hd bl ic k -> wp (dst t bs) o k (fun _ k' => tx V Hd bl ic k')) ->
  forall fuel tot off k, tx V ∅ bl ic k -> 0 <= tot -> 0 <= off -> off + (n - tot) <= i_size i ->
  (tot < n -> n - tot + off mod BSIZE <= Z.of_nat fuel * BSIZE) ->
  wp (readi_loop fuel ip dst tot off n) o k (fun bs k' => bs = slice (Z.to_nat off) (Z.to_nat (n - tot)) (contents V (i_addrs i) (i_size i)) /\ tx V ∅ bl ic k').
Proof.
  intros Hi Hdev Hok Hnh Hsz Hc Hdst fuel. set (ad := i_addrs i) in *. induction fuel as [|fuel IH]; intros tot off k Ht Ht0 Ho0 Hos Hf.
  { cbn [readi_loop]. pose proof (Z.mod_pos_bound off BSIZE ltac:(done)). destruct (Z.ltb_spec tot n); [lia|].
    exists [], k. split; [done|]. split; [|done]. by replace (Z.to_nat (n - tot)) with 0%nat by lia. }
  cbn [readi_loop]. destruct (Z.ltb_spec tot n) as [Hlt|Hge].
  2:{ exists [], k. split; [done|]. split; [|done]. by replace (Z.to_nat (n - tot)) with 0%nat by lia. }
  pose proof (Z.mod_pos_bound off BSIZE ltac:(done)) as Hmb. pose proof (Z.div_mod off BSIZE ltac:(done)) as Hdm. pose proof (Z.div_pos off BSIZE Ho0 ltac:(done)) as Hdp.
  set (m := Z.min (n - tot) (BSIZE - off mod BSIZE)). set (j := Z.to_nat (off / BSIZE)).
  assert (Z.of_nat j = off / BSIZE) as Ej by (unfold j; lia).
  assert (j < NMAX)%nat as Hj by (unfold NMAX, MAXFILE, NINDIRECT in *; change BSIZE with 512 in *; lia).
  assert (baddr V ad j <> 0) as Hne by (apply Hnh; change BSIZE with 512 in *; lia).
  eapply wp_step; [by eapply tx_get_ino|]. intros _ _ [-> ->].
  eapply wp_step; [rewrite <- Ej; by eapply (bmap_hit V bl ic k ip i j)|]. intros a k1 [-> Ht1]. fold ad. rewrite Hdev.
  destruct (io_addr _ _ _ Hok j Hj) as [|Hd]; [done|]. pose proof (data_pos _ _ _ _ Hg _ _ Hd) as Hp. pose proof Hg as [_ _ _ Hgs].
  destruct (tx_lens _ _ _ _ _ Ht1) as [HV HVl].
  eapply wp_step; [apply (tx_bread k0 pid start o V ∅ bl ic k1 (baddr V ad j) Ht1); [lia|by intros x|by eapply bread_room]|]. intros x k2 [Ht2 Hx].
  eapply wp_step; [apply (tx_get_buf k0 pid start o _ _ _ _ _ x (baddr V ad j) Ht2), lookup_insert_eq|]. intros b _ (-> & -> & Hlen).
  eapply wp_step; [apply Hdst; exact Ht2|]. intros [] k3 Ht3; cbv beta in Ht3.
  eapply wp_step; [apply (tx_brelse k0 pid start o _ _ _ _ _ x (baddr V ad j) Ht3), lookup_insert_eq|]. intros [] k4 Ht4; cbv beta in Ht4.
  rewrite delete_insert_id in Ht4 by done. eapply wp_step; [apply (IH (tot + m) (off + m) k4 Ht4); [lia|lia|lia|]|].
  - intros Hm. assert (m = BSIZE - off mod BSIZE) as Em by lia.
    rewrite (next_block off m) by done. change BSIZE with 512 in *. lia.
  - intros rest k5 [-> Ht5]. eexists _, k5. split; [done|]. split; [|done]. destruct (block_nat off Ho0) as [Ed Em]. fold j in Ed. rewrite <- Ed in Hlen |- *.
    rewrite <- Em, <- (contents_block V ad (i_size i) (Z.to_nat off)); [|done|lia|rewrite Em; change BSIZE with 512 in *; lia].
    replace (Z.to_nat (off + m)) with (Z.to_nat off + Z.to_nat m)%nat by lia. rewrite slice_app. f_equal. lia.
Qed.

Lemma readi_spec V bl ic k ip i (dst : sink) off n :
  tx V ∅ bl ic k -> ic !! ip = Some i -> i_dev i = 1 -> i_type i <> T_DEV -> inode_ok s V (i_addrs i) ->
  no_holes V (i_addrs i) (i_size i) -> i_size i <= MAXFILE * BSIZE -> allow k0 (length bl) -> 0 <= off -> 0 <= n ->
  (forall t bs Hd k, tx V Hd bl ic k -> wp (dst t bs) o k (fun _ k' => tx V Hd bl ic k')) ->
  wp (readi ip dst off n) o k (fun r k' => tx V ∅ bl ic k' /\
    r = if (i_size i <? off) || (u32 (off + n) <? off) then (-1, []) else
        let m := if i_size i <? off + n then i_size i - off else n in
        (m, slice (Z.to_nat off) (Z.to_nat m) (contents V (i_addrs i) (i_size i)))).
Proof.
  intros Ht Hi Hdev Hty Hok Hnh Hsz Hc Hoff Hn Hdst. unfold readi. eapply wp_step; [by eapply tx_get_ino|]. intros _ _ [-> ->].
  destruct (Z.eqb_spec (i_type i) T_DEV); [done|]. destruct ((i_size i <? off) || (u32 (off + n) <? off)) eqn:E; [by eexists _, _|].
  apply orb_false_iff in E as [E1%Z.ltb_ge _]. set (m := if i_size i <? off + n then i_size i - off else n).
  assert (0 <= m /\ off + m <= i_size i) as [Hm0 Hm] by (unfold m; destruct (Z.ltb_spec (i_size i) (off + n)); lia).
  eapply wp_step; [eapply (readi_loop_spec V bl ic ip i dst m); try done; [lia|]|].
  - intros _. pose proof (Z.mod_pos_bound off BSIZE ltac:(done)). pose proof (Z.div_mod m BSIZE ltac:(done)). pose proof (Z.mod_pos_bound m BSIZE ltac:(done)).
    pose proof (Z.div_pos m BSIZE Hm0 ltac:(done)). change BSIZE with 512 in *. lia.
  - intros bs k' [-> Ht']. eexists _, k'. split; [done|]. split; [done|]. by rewrite Z.sub_0_r.
Qed.

(** The bytes that [writei] takes are [bs]. *)
Definition supplies (src : source) (bs : list Z) : Prop :=
  forall t m V Hd bl ic k, tx V Hd bl ic k -> 0 <= t -> 0 <= m -> t + m <= Z.of_nat (length bs) ->
  wp (src t m) o k (fun x k' => x = slice (Z.to_nat t) (Z.to_nat m) bs /\ k' = k).

Lemma bytes_at_supplies bs : supplies (bytes_at bs) bs.
Proof. intros t m V Hd bl ic k _ _ _ _. by eexists _, _. Qed.

(** The part of one block. *)
Lemma writei_pass V bl ic k ip i ad src bs tot off m (f : unit -> K Z) Q :
  let j := Z.to_nat (off / BSIZE) in
  tx V ∅ bl (with_addrs ip ad ic) k -> ic !! ip = Some i -> i_dev i = 1 -> inode_ok s V ad -> meta_used s V -> supplies src bs ->
  0 <= tot -> 0 <= off -> 0 < m -> tot + m <= Z.of_nat (length bs) -> off mod BSIZE + m <= BSIZE -> (j < NMAX)%nat ->
  (2 <= nfree s V)%nat -> allow k0 (cost s bl ad + 1) ->
  (forall V' bl' ad' k', tx V' ∅ bl' (with_addrs ip ad' ic) k' ->
    written s V ad (Z.to_nat off) (slice (Z.to_nat tot) (Z.to_nat m) bs) V' ad' -> (cost s bl' ad' <= cost s bl ad + 1)%nat ->
    (nfree s V <= nfree s V' + 2)%nat -> wp (f tt) o k' Q) ->
  wp (get_ino ip ≫= fun i =>
      bmap ip (off / BSIZE) ≫= fun addr =>
      bread (i_dev i) addr ≫= fun bp =>
      src tot m ≫= fun bs =>
      upd_buf bp (fun b => b <| b_data ::= splice (Z.to_nat (off mod BSIZE)) bs |>) ≫= fun _ =>
      log_write bp ≫= fun _ =>
      brelse bp ≫= f) o k Q.
Proof.
  intros j Ht Hi Hdev Hok Hm Hsrc Htot Hoff Hm0 Hmn Hmb Hj Hfr Hc Hk. pose proof (Z.div_pos off BSIZE Hoff ltac:(done)) as Hdp.
  assert (Z.of_nat j = off / BSIZE) as Ej by (unfold j; lia). destruct (block_nat off Hoff) as [Ed Em].
  pose proof (with_addrs_lookup ip ad ic i Hi) as Hi'. eapply wp_step; [by eapply tx_get_ino|]. intros _ _ [-> ->]. rsimpl. rewrite Hdev.
  eapply wp_step; [rewrite <- Ej; eapply (bmap_spec V bl _ k ip _ j Ht Hi'); rsimpl; try done; lia|].
  rsimpl. intros a k1 (V1 & bl1 & ad1 & -> & Ht1 & [Mh Mg Mr Mf Mc]). rewrite with_addrs_twice in Ht1. set (a := baddr V1 ad1 j) in *.
  destruct (io_addr _ _ _ (gw_ok _ _ _ _ _ Mg) j Hj) as [|Hd]; [done|]. fold a in Hd. pose proof (data_pos _ _ _ _ Hg _ _ Hd) as Hp. pose proof Hg as [_ _ _ Hgs].
  destruct (tx_lens _ _ _ _ _ Ht) as [HV0 _]. destruct (tx_lens _ _ _ _ _ Ht1) as [HV HVl].
  assert (length bl1 <= cost s bl ad + 1)%nat as Hbl1 by (unfold cost in *; lia).
  eapply wp_step; [apply (tx_bread k0 pid start o V1 ∅ bl1 _ k1 a Ht1); [lia|by intros x|by eapply bread_room]|]. intros x k2 [Ht2 Hx].
  eapply wp_step; [by eapply Hsrc; [exact Ht2|lia..]|]. intros _ _ [-> ->]. set (bs' := slice (Z.to_nat tot) (Z.to_nat m) bs).
  assert (length bs' = Z.to_nat m) as Hbs by (apply length_slice; lia).
  assert (length (splice (Z.to_nat (off mod BSIZE)) bs' (V1 !!! Z.to_nat a)) = Z.to_nat BSIZE) as Hspl.
  { rewrite length_splice; rewrite HVl by lia; [done|]. pose proof (Z.mod_pos_bound off BSIZE ltac:(done)). lia. }
  eapply (wp_logged k0 pid start o V1 _ bl1 _ k2 x a (splice (Z.to_nat (off mod BSIZE)) bs')); [exact Ht2|apply lookup_insert_eq|unfold is_blockno; lia|done|by eapply allow_fits|].
  intros k3 Ht3. eapply wp_step; [apply (tx_brelse k0 pid start o _ _ _ _ _ x a Ht3), lookup_insert_eq|]. intros [] k4 Ht4; cbv beta in Ht4.
  rewrite delete_insert_id in Ht4 by done. apply (Hk _ _ _ _ Ht4).
  - pose proof (Z.div_mod off BSIZE ltac:(done)) as Hdm. pose proof (Z.mod_pos_bound off BSIZE ltac:(done)).
    assert (Z.to_nat off < NMAX * Z.to_nat BSIZE)%nat as Hmax by (unfold NMAX in *; change BSIZE with 512 in *; lia).
    rewrite <- Em. unfold a, j in *. rewrite <- Ed in *. apply (written_step s start nlog _ Hg Hone); try done; [|apply HVl; lia].
    rewrite Em, Hbs. lia.
  - pose proof (cost_absorb s a bl1 ad1). lia.
  - match goal with |- (_ <= nfree s ?V2 + 2)%nat => assert (nfree s V2 = nfree s V1) as -> end; [|destruct (baddr V ad j =? 0); lia].
    apply nfree_ext. intros c Hc'. apply (used_ne s start nlog _ Hg); [done|lia|by apply (data_not_map s start nlog _ Hg V1)].
Qed.

Lemma writei_loop_spec ip i ic src bs : ic !! ip = Some i -> i_dev i = 1 -> supplies src bs ->
  let n := Z.of_nat (length bs) in
  forall nb fuel tot off V bl ad k, (nb <= fuel)%nat -> tx V ∅ bl (with_addrs ip ad ic) k -> inode_ok s V ad -> meta_used s V ->
  0 <= tot <= n -> 0 <= off -> off + (n - tot) <= MAXFILE * BSIZE -> (tot < n -> n - tot + off mod BSIZE <= Z.of_nat nb * BSIZE) ->
  (2 * nb <= nfree s V)%nat -> allow k0 (cost s bl ad + nb) ->
  wp (writei_loop fuel ip src tot off n) o k (fun r k' => r = off + (n - tot) /\ exists V' bl' ad', tx V' ∅ bl' (with_addrs ip ad' ic) k' /\
    written s V ad (Z.to_nat off) (drop (Z.to_nat tot) bs) V' ad' /\ (cost s bl' ad' <= cost s bl ad + nb)%nat).
Proof.
  intros Hi Hdev Hsrc n nb. assert (forall fuel tot off V bl ad k, tx V ∅ bl (with_addrs ip ad ic) k -> inode_ok s V ad -> meta_used s V ->
    n <= tot <= n -> 0 <= off -> off <= MAXFILE * BSIZE -> forall nb, wp (writei_loop fuel ip src tot off n) o k (fun r k' => r = off + (n - tot) /\ exists V' bl' ad', tx V' ∅ bl' (with_addrs ip ad' ic) k' /\
    written s V ad (Z.to_nat off) (drop (Z.to_nat tot) bs) V' ad' /\ (cost s bl' ad' <= cost s bl ad + nb)%nat)) as Hdone.
  { intros fuel tot off V bl ad k Ht Hok Hm Htn Ho Hom nb'. exists off, k. split.
    - destruct fuel; cbn [writei_loop]; destruct (Z.ltb_spec tot n); lia || done.
    - split; [lia|]. exists V, bl, ad. split; [done|]. rewrite drop_ge by (unfold n in *; lia). split; [|lia].
      apply written_nil; [done|done|]. unfold MAXFILE, NINDIRECT, NMAX in *. change BSIZE with 512 in *. lia. }
  induction nb as [|nb IH]; intros fuel tot off V bl ad k Hfu Ht Hok Hm Htot Hoff Hmax Hnb Hfr Hc; pose proof (Z.mod_pos_bound off BSIZE ltac:(done)) as Hmb.
  { apply Hdone; try done; lia. }
  destruct (Z.lt_ge_cases tot n) as [Hlt|Hge]; [|apply Hdone; try done; lia]. specialize (Hnb Hlt).
  destruct fuel as [|fuel]; [lia|]. cbn [writei_loop]. destruct (Z.ltb_spec tot n); [|lia].
  set (m := Z.min (n - tot) (BSIZE - off mod BSIZE)). pose proof (Z.div_mod off BSIZE ltac:(done)) as Hdm. pose proof (Z.div_pos off BSIZE Hoff ltac:(done)).
  eapply (writei_pass V bl ic k ip i ad src bs tot off m); try done; try lia.
  { unfold MAXFILE, NINDIRECT, NMAX in *. change BSIZE with 512 in *. lia. }
  { eapply allow_less; [exact Hc|lia]. }
  intros V1 bl1 ad1 k1 Ht1 Hw1 Hc1 Hn1. assert (length (slice (Z.to_nat tot) (Z.to_nat m) bs) = Z.to_nat m) as Hl by (apply length_slice; unfold n in *; lia).
  eapply wp_mono; [eapply (IH fuel (tot + m) (off + m) V1 bl1 ad1 k1); try done; [lia|apply Hw1|apply Hw1|lia|lia|lia| |lia|eapply allow_less; [exact Hc|lia]]|].
  { intros Hm'. rewrite next_block by lia. change BSIZE with 512 in *. lia. }
  intros r k2 (-> & V2 & bl2 & ad2 & Ht2 & Hw2 & Hc2). split; [lia|]. exists V2, bl2, ad2. split; [done|]. split; [|lia].
  replace (Z.to_nat (off + m)) with (Z.to_nat off + length (slice (Z.to_nat tot) (Z.to_nat m) bs))%nat in Hw2 by lia.
  replace (drop (Z.to_nat tot) bs) with (slice (Z.to_nat tot) (Z.to_nat m) bs ++ drop (Z.to_nat (tot + m)) bs);
    [by eapply (written_trans s start nlog _ Hg)|].
  replace (Z.to_nat (tot + m)) with (Z.to_nat tot + Z.to_nat m)%nat by lia. unfold slice. rewrite <- drop_drop. apply take_drop.
Qed.

Lemma IBLOCK_range inum : 0 <= inum < sb_ninodes s -> sb_inodestart s <= IBLOCK inum s < sb_bmapstart s /\ is_blockno (IBLOCK inum s)
  /\ 0 <= IBLOCK inum s < Z.of_nat (length (disk (fs k0))).
Proof.
  intros Hi. pose proof Hg as [? [? ?] ? ?]. pose proof (Z.div_pos inum IPB ltac:(lia) ltac:(done)). pose proof (Z.div_le_mono inum (sb_ninodes s) IPB ltac:(done) ltac:(lia)).
  pose proof (datastart_gt _ _ _ _ Hg). assert (0 <= sb_size s) as Hs0 by (unfold datastart in *; lia). pose proof (Z.div_pos (sb_size s) BPB Hs0 ltac:(done)).
  unfold datastart, is_blockno in *. unfold IBLOCK. rewrite u32_small by (unfold is_u32; lia). lia.
Qed.

Lemma iupdate_spec V bl ic k ip i : tx V ∅ bl ic k -> ic !! ip = Some i -> i_dev i = 1 -> 0 <= i_inum i < sb_ninodes s ->
  length (i_addrs i) = S NDIRECT -> allow k0 (length bl) ->
  let b := IBLOCK (i_inum i) s in
  wp (iupdate ip) o k (fun _ k' => tx (<[Z.to_nat b := write_dinode (dinode_off (i_inum i)) i (V !!! Z.to_nat b)]> V) ∅ (absorb b bl) ic k').
Proof.
  intros Ht Hi Hdev Hin Hal Hc b. destruct (IBLOCK_range _ Hin) as (Hr & Hbn & Hlen). fold b in Hr, Hbn, Hlen. destruct (tx_lens _ _ _ _ _ Ht) as [HV HVl].
  unfold iupdate. eapply wp_step; [by eapply tx_get_ino|]. intros _ _ [-> ->]. eapply wp_step; [by eapply tx_get_sb|]. intros _ _ [-> ->]. rewrite Hdev. fold b.
  eapply wp_step; [apply (tx_bread k0 pid start o V ∅ bl ic k b Ht); [lia|by intros x|by eapply bread_room]|]. intros x k1 [Ht1 Hx].
  eapply wp_step; [by eapply tx_get_ino|]. intros _ _ [-> ->].
  eapply (wp_logged k0 pid start o V _ bl ic k1 x b (write_dinode (dinode_off (i_inum i)) i)); [exact Ht1|apply lookup_insert_eq|done| |by eapply allow_fits|].
  - pose proof (Z.mod_pos_bound (i_inum i) IPB ltac:(done)). rewrite length_write_dinode; rewrite ?HVl by lia; try done.
    unfold dinode_off, sizeof_dinode, BSIZE, IPB in *. lia.
  - intros k2 Ht2. eapply wp_mono; [apply (tx_brelse k0 pid start o _ _ _ _ _ x b Ht2), lookup_insert_eq|]. intros [] k3 Ht3; cbv beta in Ht3.
    by rewrite delete_insert_id in Ht3.
Qed.

(** Nothing of the files changes with a block below the free map. *)
Lemma low_update V n x : 0 <= n < sb_bmapstart s -> sized V ->
  let V' := <[Z.to_nat n := x]> V in
  (forall c, 0 <= c < sb_size s -> used s V' c = used s V c) /\ (meta_used s V -> meta_used s V') /\
  (forall c, file_state s V c -> file_state s V' c /\ file_bytes V' c = file_bytes V c /\ forall j, baddr V' (i_addrs c) j = baddr V (i_addrs c) j)
  /\ forall m, 0 <= m -> m <> n -> V' !!! Z.to_nat m = V !!! Z.to_nat m.
Proof.
  intros Hn Hsz V'. pose proof Hg as [_ _ Hgm _]. assert (forall m, 0 <= m -> m <> n -> V' !!! Z.to_nat m = V !!! Z.to_nat m) as Hm.
  { intros m Hm Hne. apply list_lookup_total_insert_ne. lia. }
  assert (forall c, 0 <= c < sb_size s -> used s V' c = used s V c) as Hu.
  { intros c Hc. apply (used_ne s start nlog _ Hg); [done|lia|]. destruct (BBLOCK_eq s start nlog _ Hg c Hc). lia. }
  split_and!; [done| | |done].
  - intros Hmu c Hc. rewrite Hu by lia. by apply Hmu.
  - intros c Hc. apply (file_frame s start nlog _ Hg); [done| |intros m Hm'; by rewrite Hu].
    intros m Hown. apply (owned_data s V _ m (fi_ok _ _ _ Hc)) in Hown. pose proof (data_pos _ _ _ _ Hg _ _ Hown). apply Hm; [lia|].
    destruct Hown as [? _]. destruct (BBLOCK_eq s start nlog _ Hg 0) as [_ ?]; lia.
Qed.

(** Two files have no block in common. *)
Definition disjoint (V : list block) (c i : inode) : Prop := forall n, owned V (i_addrs c) n -> ~ owned V (i_addrs i) n.

(** What a file is after [bs] was written at [off]: [V'] are the blocks and [i'] the
    inode in memory. *)
Record wrote (V : list block) (i : inode) (off : nat) (bs : list Z) (V' : list block) (i' : inode) : Prop := {
  wt_inode : i' = i <| i_addrs := i_addrs i' |> <| i_size := Z.max (i_size i) (Z.of_nat (off + length bs)) |>;
  wt_meta : meta_used s V';
  wt_file : file_state s V' i';
  wt_bytes : file_bytes V' i' = splice off bs (file_bytes V i);
  wt_others : forall c, file_state s V c -> disjoint V c i -> file_state s V' c /\ file_bytes V' c = file_bytes V c /\ disjoint V' c i'
}.

Lemma written_others V i off bs V' ad' c : file_state s V i -> written s V (i_addrs i) off bs V' ad' -> file_state s V c -> disjoint V c i ->
  file_state s V' c /\ file_bytes V' c = file_bytes V c /\ (forall j, baddr V' (i_addrs c) j = baddr V (i_addrs c) j)
  /\ forall n, owned V (i_addrs c) n -> ~ owned V' ad' n.
Proof.
  intros Hi W Hc Hd. assert (forall n, owned V (i_addrs c) n -> data s V n) as Hdat by (intros n; apply owned_data, Hc).
  assert (forall n, owned V (i_addrs c) n -> n <> indirect ad') as Hni.
  { intros n Hn E. pose proof (Hdat n Hn) as [_ Hu]. destruct (wr_ind _ _ _ _ _ _ _ W) as [E'|(_ & _ & Hf)]; [|congruence].
    apply (Hd n Hn). destruct Hn as [Hn0 _]. split; [done|]. left. congruence. }
  assert (forall n j, owned V (i_addrs c) n -> (j < NMAX)%nat -> baddr V (i_addrs i) j <> n) as Hnb.
  { intros n j Hn Hj E. apply (Hd n Hn). destruct Hn as [Hn0 _]. split; [done|]. right. eauto. }
  destruct (file_frame s start nlog _ Hg V V' c Hc) as (? & ? & ?).
  - intros n Hn. apply (wr_same _ _ _ _ _ _ _ W); [by apply (data_stable s start nlog _ Hg Hone), Hdat| |].
    + intros E. by destruct (Hni n Hn).
    + intros j Hj E. by destruct (Hnb n j Hn Hj).
  - apply (wr_used _ _ _ _ _ _ _ W).
  - split_and!; try done. intros n Hn [_ [E|(j & Hj & E)]]; [by apply (Hni n Hn)|]. destruct (decide (baddr V (i_addrs i) j = 0)) as [Ez|Enz].
    + pose proof (Hdat n Hn) as [_ Hu]. destruct Hn as [Hn0 _]. rewrite <- E in Hu. rewrite (wr_new _ _ _ _ _ _ _ W j Hj Ez) in Hu; [done|congruence].
    + apply (Hnb n j Hn Hj). rewrite <- E. symmetry. by apply (wr_addr _ _ _ _ _ _ _ W).
Qed.

Lemma written_wrote V i off bs V' ad' : file_state s V i -> written s V (i_addrs i) off bs V' ad' -> Z.of_nat off <= i_size i -> sized V ->
  wrote V i off bs V' (i <| i_addrs := ad' |> <| i_size := Z.max (i_size i) (Z.of_nat (off + length bs)) |>).
Proof.
  intros Hi W Hoff [HV _]. destruct (written_bytes s _ V i off bs V' ad' Hi W Hoff HV) as [Hf Hb]. split; try done; [apply W|].
  intros c Hc Hd. destruct (written_others V i off bs V' ad' c Hi W Hc Hd) as (? & ? & Hba & Hn). split_and!; try done.
  intros n [Hn0 Hn']. rsimpl. apply Hn. split; [done|]. destruct Hn' as [|(x & ? & E)]; [by left|right]. exists x. by rewrite <- Hba.
Qed.

(** A change to a block below the free map preserves it. *)
Lemma wrote_low V i off bs V' i' n x : wrote V i off bs V' i' -> 0 <= n < sb_bmapstart s -> sized V' -> wrote V i off bs (<[Z.to_nat n := x]> V') i'.
Proof.
  intros [Hi Hm Hf Hb Ho] Hn Hsz. destruct (low_update V' n x Hn Hsz) as (_ & Hm' & Hfile & _). destruct (Hfile i' Hf) as (Hf' & Hb' & Hba).
  split; [done|by apply Hm'|done|congruence|]. intros c Hc Hd. destruct (Ho c Hc Hd) as (Hc' & Hcb & Hcd). destruct (Hfile c Hc') as (? & ? & Hbc).
  split_and!; [done|congruence|]. intros m [Hm0 Hm1] [_ Hm2]. apply (Hcd m); (split; [done|]).
  - destruct Hm1 as [|(y & ? & E)]; [by left|right]. exists y. by rewrite <- Hbc.
  - destruct Hm2 as [|(y & ? & E)]; [by left|right]. exists y. by rewrite <- Hba.
Qed.

(** How many blocks a range of bytes touches. *)
Definition nblocks (off n : Z) : nat := Z.to_nat ((off mod BSIZE + n + BSIZE - 1) / BSIZE).

Lemma nblocks_enough off n : 0 <= n -> n + off mod BSIZE <= Z.of_nat (nblocks off n) * BSIZE /\ (nblocks off n <= Z.to_nat (n / BSIZE + 2))%nat.
Proof.
  intros Hn. pose proof (Z.mod_pos_bound off BSIZE ltac:(done)). pose proof (Z.div_mod n BSIZE ltac:(done)). pose proof (Z.mod_pos_bound n BSIZE ltac:(done)).
  pose proof (Z.div_pos n BSIZE Hn ltac:(done)). unfold nblocks. set (x := off mod BSIZE + n + BSIZE - 1).
  pose proof (Z.div_mod x BSIZE ltac:(done)). pose proof (Z.mod_pos_bound x BSIZE ltac:(done)). change BSIZE with 512 in *. unfold x in *. lia.
Qed.

Lemma writei_spec V bl ic k ip i src bs off :
  let n := Z.of_nat (length bs) in let nb := nblocks off n in
  tx V ∅ bl ic k -> ic !! ip = Some i -> i_dev i = 1 -> i_type i <> T_DEV -> 0 <= i_inum i < sb_ninodes s -> file_state s V i -> meta_used s V ->
  supplies src bs -> 0 <= off <= i_size i -> off + n <= MAXFILE * BSIZE -> (2 * nb <= nfree s V)%nat -> allow k0 (cost s bl (i_addrs i) + nb + 1) ->
  wp (writei ip src off n) o k (fun r k' => r = n /\ exists V' bl' i', tx V' ∅ bl' (<[ip := i']> ic) k' /\
    wrote V i (Z.to_nat off) bs V' i' /\ (length bl' <= cost s bl (i_addrs i) + nb + 1)%nat).
Proof.
  intros n nb Ht Hi Hdev Hty Hin Hf Hm Hsrc Hoff Hmax Hfr Hc. destruct (nblocks_enough off n) as [Hnb Hnf]; [unfold n; lia|]. fold nb in Hnb, Hnf.
  unfold writei. eapply wp_step; [by eapply tx_get_ino|]. intros _ _ [-> ->].
  destruct (Z.eqb_spec (i_type i) T_DEV); [done|]. destruct (Z.ltb_spec (i_size i) off); [lia|].
  assert (is_u32 (off + n)) as Hu by (unfold is_u32, MAXFILE, NINDIRECT in *; change BSIZE with 512 in *; lia). rewrite (u32_small _ Hu).
  destruct (Z.ltb_spec (off + n) off); [lia|]. cbn [orb]. destruct (Z.ltb_spec (MAXFILE * BSIZE) (off + n)); [lia|].
  eapply wp_step.
  { eapply (writei_loop_spec ip i ic src bs Hi Hdev Hsrc nb (Z.to_nat (n / BSIZE + 2)) 0 off V bl (i_addrs i) k); try done; try lia.
    - by rewrite with_addrs_same.
    - apply Hf.
    - eapply allow_less; [exact Hc|lia]. }
  intros r k1 (-> & V1 & bl1 & ad1 & Ht1 & W & Hc1). fold n. rewrite Z.sub_0_r in *. change (drop (Z.to_nat 0) bs) with bs in W.
  pose proof (tx_lens _ _ _ _ _ Ht) as Hsz. pose proof (tx_lens _ _ _ _ _ Ht1) as Hsz1.
  pose proof (written_wrote V i (Z.to_nat off) bs V1 ad1 Hf W ltac:(lia) Hsz) as Hw. replace (Z.of_nat (Z.to_nat off + length bs)) with (off + n) in Hw by (unfold n; lia).
  pose proof (with_addrs_lookup ip ad1 ic i Hi) as Hi1. eapply wp_step; [by eapply tx_get_ino|]. intros _ _ [-> ->]. rsimpl.
  assert (with_addrs ip ad1 ic = <[ip := i <| i_addrs := ad1 |>]> ic) as Eic by by apply alter_as_insert.
  assert (length bl1 <= cost s bl (i_addrs i) + nb)%nat as Hl1 by (unfold cost in *; lia).
  destruct (decide (0 < n /\ i_size i < off + n)) as [[Hn0 Hgrow]|Hno].
  - destruct (Z.ltb_spec 0 n); [|lia]. destruct (Z.ltb_spec (i_size i) (off + n)); [|lia]. cbn [andb when].
    rewrite Z.max_r in Hw by lia. set (i2 := i <| i_addrs := ad1 |> <| i_size := off + n |>) in *.
    eapply wp_step.
    { eapply wp_step; [by eapply (tx_upd_ino _ _ _ _ _ _ _ _ _ ip (fun i => i <| i_size := off + n |>))|]. intros [] k2 Ht2; cbv beta in Ht2.
      rewrite Eic, (alter_as_insert _ _ _ (i <| i_addrs := ad1 |>)), list_insert_insert_eq in Ht2 by (rewrite <- Eic; done). fold i2 in Ht2.
      eapply (iupdate_spec V1 bl1 _ k2 ip i2 Ht2); try done; [apply list_lookup_insert_eq; by apply lookup_lt_Some in Hi|apply (wr_ok _ _ _ _ _ _ _ W)|eapply allow_less; [exact Hc|lia]]. }
    intros [] k3 Ht3; cbv beta in Ht3. exists n, k3. split; [done|]. split; [done|]. eexists _, _, i2. split; [exact Ht3|]. split.
    + apply wrote_low; [done| |done]. destruct (IBLOCK_range (i_inum i2) Hin) as (? & ? & ?). rsimpl. lia.
    + rewrite absorb_len. pose proof (fresh_le (IBLOCK (i_inum i2) s) bl1). lia.
  - assert ((0 <? n) && (i_size i <? off + n) = false) as ->.
    { apply andb_false_iff. destruct (Z.ltb_spec 0 n), (Z.ltb_spec (i_size i) (off + n)); try (by left); try (by right). lia. }
    eapply (wp_step _ _ _ _ (fun _ k' => k' = k1)); [by exists tt, k1|]. intros [] _ ->. exists n, k1. split; [done|]. split; [done|].
    rewrite Z.max_l in Hw by (unfold n in *; lia). eexists V1, bl1, _. split; [|split; [exact Hw|lia]].
    assert (i <| i_addrs := ad1 |> <| i_size := i_size i |> = i <| i_addrs := ad1 |>) as -> by by destruct i. by rewrite <- Eic.
Qed.

Lemma local_sink V bl ic t bs Hd k : tx V Hd bl ic k -> wp (local t bs) o k (fun _ k' => tx V Hd bl ic k').
Proof. intros Ht. by exists tt, k. Qed.

Lemma write_max_blocks off n : 0 <= n <= File.write_max -> (nblocks off n <= 4)%nat.
Proof.
  intros Hn. change File.write_max with 1536 in Hn. pose proof (Z.mod_pos_bound off BSIZE ltac:(done)). unfold nblocks.
  set (x := off mod BSIZE + n + BSIZE - 1). pose proof (Z.div_mod x BSIZE ltac:(done)). pose proof (Z.mod_pos_bound x BSIZE ltac:(done)).
  change BSIZE with 512 in *. unfold x in *. lia.
Qed.

(** C3. Files store what is written to them.  In a transaction that was admitted by
    begin_op, writei of a chunk as filewrite cuts them (at most [write_max] bytes)
    stores all of it, never overflowing the log: the bytes of the file are the old
    ones with the chunk in its place, the file still has its own blocks and no holes,
    files that share no block with it keep their bytes and stay disjoint from it, and
    at most seven blocks were added to the log.  A readi of the same range then
    returns the chunk. *)
Theorem writei_roundtrip V bl ic k ip i bs off :
  let n := Z.of_nat (length bs) in
  tx V ∅ bl ic k -> ic !! ip = Some i -> i_dev i = 1 -> i_type i <> T_DEV -> 0 <= i_inum i < sb_ninodes s -> file_state s V i -> meta_used s V ->
  0 <= off <= i_size i -> off + n <= MAXFILE * BSIZE -> n <= File.write_max -> (8 <= nfree s V)%nat ->
  Z.of_nat (length bl) + MAXOPBLOCKS <= LOGSIZE -> lg_size (slog (fs k0)) = LOGSIZE ->
  exists k' V' bl' i', writei ip (bytes_at bs) off n o k = Ok n o k' /\ tx V' ∅ bl' (<[ip := i']> ic) k' /\ wrote V i (Z.to_nat off) bs V' i'
    /\ (length bl' <= length bl + 7)%nat
    /\ exists k'', readi ip local off n o k' = Ok (n, bs) o k'' /\ tx V' ∅ bl' (<[ip := i']> ic) k''.
Proof.
  intros n Ht Hi Hdev Hty Hin Hf Hm Hoff Hmax Hwm Hfr Hbl Hlg. pose proof (write_max_blocks off n ltac:(unfold n in *; lia)) as Hnb.
  assert (cost s bl (i_addrs i) <= length bl + 2)%nat as Hcost.
  { unfold cost. pose proof (fresh_le (sb_bmapstart s) bl). pose proof (fresh_le (indirect (i_addrs i)) bl). destruct (_ =? 0)%Z; lia. }
  destruct (writei_spec V bl ic k ip i (bytes_at bs) bs off) as (_ & k1 & E1 & -> & V1 & bl1 & i1 & Ht1 & Hw & Hl1); try done.
  { apply bytes_at_supplies. }
  { fold n. lia. }
  { fold n. unfold allow. rewrite Hlg. unfold LOGSIZE, MAXOPBLOCKS in *. lia. }
  fold n in Hl1, E1. exists k1, V1, bl1, i1. split_and!; try done; [lia|].
  pose proof (wt_inode _ _ _ _ _ _ Hw) as Ei. assert (i_size i1 = Z.max (i_size i) (off + n)) as Esz by (rewrite Ei; rsimpl; unfold n; lia).
  pose proof (wt_file _ _ _ _ _ _ Hw) as [Hok1 Hh1 Hs1].
  destruct (readi_spec V1 bl1 (<[ip := i1]> ic) k1 ip i1 local off n) as (r & k2 & E2 & Ht2 & ->); try done; try lia.
  - apply list_lookup_insert_eq. by apply lookup_lt_Some in Hi.
  - by rewrite Ei.
  - by rewrite Ei.
  - unfold allow. rewrite Hlg. unfold LOGSIZE, MAXOPBLOCKS in *. lia.
  - intros t x Hd kx. apply local_sink.
  - exists k2. split; [|done]. rewrite E2. f_equal. rewrite Esz. destruct (Z.ltb_spec (Z.max (i_size i) (off + n)) off); [lia|].
    rewrite u32_small by (unfold is_u32, MAXFILE, NINDIRECT in *; change BSIZE with 512 in *; unfold n in *; lia).
    destruct (Z.ltb_spec (off + n) off); [lia|]. cbn [orb]. destruct (Z.ltb_spec (Z.max (i_size i) (off + n)) (off + n)); [lia|]. f_equal.
    rewrite <- Esz. change (contents V1 (i_addrs i1) (i_size i1)) with (file_bytes V1 i1). rewrite (wt_bytes _ _ _ _ _ _ Hw).
    replace (Z.to_nat n) with (length bs) by (unfold n; lia). apply slice_spliced. unfold file_bytes. rewrite length_file_contents. lia.
Qed.

End operations.
End Inode.

(** * A small file system

    Sixty blocks: the log at 2, the inodes at 32, the free map at 34 and the data from
    35 on; the cached inode 0 is an empty file. *)
Module InodeExample.
Import Header Txn Log Cache Sleeplock Bio Commit Fs Tx Alloc Inode.
#[local] Existing Instance Kalloc.small_layout.
#[local] Existing Instance ConsoleIn.console_devsw.

Definition small_sb : superblock := mkSuperblock 60 25 8 30 2 32 34.
Definition small_map : block := [255; 255; 255; 255; 7] ++ replicate 507 0.
Definition sb_block : block := ([60; 25; 8; 30; 2; 32; 34] ≫= le_bytes 4) ++ replicate 484 0.
Definition small_disk : list block := [zeros; sb_block] ++ replicate 32 zeros ++ [small_map] ++ replicate 25 zeros.
Definition empty_file : inode := zero_inode <| i_dev := 1 |> <| i_inum := 1 |> <| i_ref := 1 |> <| i_valid := 1 |> <| i_type := T_FILE |> <| i_nlink := 1 |>.

(** A transaction is open on the disk [V] with the inode cache [ic]. *)
Definition mounted_on (V : list block) (ic : list inode) : kernel :=
  Sched.small_kernel <| fs ::= fun f => f <| d_image := V |> <| sb := small_sb |> <| icache := ic |>
    <| slog ::= fun l => l <| lg_dev := 1 |> <| lg_start := 2 |> <| lg_size := 30 |> <| lg_outstanding := 1 |> |> |>.
Definition mounted : kernel := mounted_on small_disk [empty_file].

Lemma mounted_on_state V ic : Forall (fun b => length b = Z.to_nat BSIZE) V ->
  exists k, tx k 1 2 V ∅ [] ic k /\ slog (fs k) = slog (fs (mounted_on V ic)) /\ sb (fs k) = small_sb /\ disk (fs k) = V /\ locks k = ∅.
Proof.
  intros HV. destruct (binit_spec 1 [] (mounted_on V ic)) as (ls & bs & _ & Hls & _ & Hr); [done|done|].
  assert (ls = ∅) as ->.
  { apply map_eq. intros l. rewrite lookup_empty. destruct (ls !! l) as [h|] eqn:E; [|done]. apply Hls in E. by vm_compute in E. }
  exists (mounted_on V ic <| locks := ∅ |> <| fs ::= fun f => f <| bcache := bs |> |>). split; [|done].
  split; try done.
  - exists ∅. split; [by rewrite fmap_empty|]. intros n d. rewrite lookup_empty. split; [done|]. by intros (Hin & _); apply not_elem_of_nil in Hin.
  - by exists 0%nat, Sched.running_proc.
  - apply (proj1 (evolves_refl _)).
Qed.

Lemma mounted_state : exists k, tx k 1 2 small_disk ∅ [] [empty_file] k /\ slog (fs k) = slog (fs mounted) /\ sb (fs k) = small_sb /\ disk (fs k) = small_disk.
Proof.
  destruct (mounted_on_state small_disk [empty_file]) as (k & ? & ? & ? & ? & _); [|by exists k].
  unfold small_disk. rewrite !Forall_app, !Forall_cons, !Forall_nil. split_and!; try done; by apply Forall_replicate.
Qed.

Lemma small_geometry : geometry small_sb 2 30 60.
Proof. split; by vm_compute. Qed.

Lemma small_meta : meta_used small_sb small_disk.
Proof.
  intros c Hc. change (datastart small_sb) with 35 in Hc.
  assert (forallb (fun c => used small_sb small_disk (Z.of_nat c)) (seq 0 35) = true) as Hall by by vm_compute.
  rewrite <- (Z2Nat.id c) by lia. apply (proj1 (forallb_forall _ _) Hall). apply in_seq. lia.
Qed.

Lemma empty_state : file_state small_sb small_disk empty_file.
Proof.
  assert (forall j, baddr small_disk (i_addrs empty_file) j = 0 \/ (NMAX <= j)%nat) as Hz.
  { intros j. destruct (Nat.lt_ge_cases j NDIRECT) as [Hj|Hj]; [left|].
    - rewrite baddr_direct by done. unfold NDIRECT in Hj. do 12 (destruct j as [|j]; [done|]). lia.
    - left. by rewrite baddr_indirect. }
  split; [split; [done|by left| | |]|intros j Hj; simpl in Hj; change BSIZE with 512 in Hj; lia|by vm_compute].
  - intros j Hj. destruct (Hz j); [by left|lia].
  - intros j j' Hj. destruct (Hz j); [done|lia].
  - intros j Hj. destruct (Hz j); [done|lia].
Qed.

Lemma writei_roundtrip_witness : exists k k', writei 0 (bytes_at [104; 105]) 0 2 [] k = Ok 2 [] k' /\
  exists k'', readi 0 local 0 2 [] k' = Ok (2, [104; 105]) [] k''.
Proof.
  destruct mounted_state as (k & Ht & Hl & Hs & Hd).
  destruct (writei_roundtrip k 1 2 30 [] ltac:(rewrite Hs, Hd; exact small_geometry) ltac:(by rewrite Hs) small_disk [] [empty_file] k 0 empty_file [104; 105] 0)
    as (k' & V' & bl' & i' & E & _ & _ & _ & k'' & E' & _); rewrite ?Hs, ?Hl; try done.
  - exact empty_state.
  - exact small_meta.
  - by vm_compute; lia.
  - exists k, k'. split; [exact E|]. exists k''. exact E'.
Defined.

Lemma balloc_bfree_witness : exists k k', balloc 1 [] k = Ok 35 [] k' /\ exists k2, bfree 1 50 [] k = Panic "freeing free block" k2.
Proof.
  destruct mounted_state as (k & Ht & Hl & Hs & Hd).
  destruct (balloc_bfree k 1 2 30 [] ltac:(rewrite Hs, Hd; exact small_geometry) small_disk [] [empty_file] k Ht) as (Ha & _ & _ & Hf).
  - rewrite Hs. exact small_meta.
  - unfold sb_on_disk. rewrite Hs. by vm_compute.
  - unfold fits. rewrite Hl. by vm_compute.
  - intros b. unfold fits. rewrite Hl. by vm_compute.
  - rewrite Hs in *. destruct (Ha 35) as (a & k' & V' & E & Hfirst & Hle & _); [done|by vm_compute|].
    assert (35 <= a) as Hge.
    { destruct (Z.le_gt_cases 35 a) as [|Hlt]; [done|]. destruct Hfirst as [[? _] Hu _]. rewrite small_meta in Hu; [done|]. change (datastart small_sb) with 35. lia. }
    exists k, k'. split; [rewrite E; f_equal; lia|]. apply (Hf 50); [done|by vm_compute].
Defined.

Lemma dinode_roundtrip_witness : i_nlink (read_dinode (dinode_off 3) (write_dinode (dinode_off 3) empty_file zeros) zero_inode) = 1.
Proof.
  destruct (dinode_roundtrip 3 empty_file zeros zero_inode) as (E & _); [done| |by rewrite E].
  split; try done. by apply Forall_replicate.
Defined.
End InodeExample.
