(* ===== verification/Path.v ===== *)
(** Path names (fs.c): [skipelem] against the elements of a path, and the loop of
    [namex]. *)

From S2P Require Import Prelude Monad State Console Kalloc Sched Sleeplock Bytes Bio Log Fs.

Module Path.
Import Fs.

(** * The elements of a path *)

(** The non-empty runs of characters between slashes: [acc] is the run in progress. *)
Fixpoint runs_of (acc path : list Z) : list (list Z) :=
  match path with
  | [] => match acc with [] => [] | _ => [acc] end
  | c :: path' => if c =? 47 then match acc with [] => runs_of [] path' | _ => acc :: runs_of [] path' end
                  else runs_of (acc ++ [c]) path'
  end.
(** An element keeps its first [DIRSIZ] characters. *)
Definition elems (path : list Z) : list (list Z) := take DIRSIZ <$> runs_of [] path.

Lemma runs_skip path : runs_of [] (skip_slashes path) = runs_of [] path.
Proof. induction path as [|c path IH]; [done|]. simpl. destruct (c =? 47) eqn:E; simpl; by rewrite ?E. Qed.

Lemma skip_slashes_head path : skip_slashes path = [] \/ exists c r, skip_slashes path = c :: r /\ c <> 47.
Proof.
  induction path as [|c path IH]; [by left|]. simpl. destruct (Z.eqb_spec c 47); [done|]. right. eauto.
Qed.

Lemma skip_slashes_length path : (length (skip_slashes path) <= length path)%nat.
Proof. induction path as [|c path IH]; [done|]. simpl. destruct (c =? 47); simpl; lia. Qed.

Lemma runs_span acc path : acc <> [] ->
  runs_of acc path = (acc ++ (span_elem path).1) :: runs_of [] (span_elem path).2.
Proof.
  revert acc. induction path as [|c path IH]; intros acc Hacc; simpl.
  - rewrite app_nil_r. by destruct acc.
  - destruct (Z.eqb_spec c 47) as [->|Hc]; simpl.
    + rewrite app_nil_r. by destruct acc.
    + rewrite IH by (by destruct acc). destruct (span_elem path) as [e r]. simpl. by rewrite <- app_assoc.
Qed.

Lemma span_length path : (length (span_elem path).1 + length (span_elem path).2 = length path)%nat.
Proof.
  induction path as [|c path IH]; [done|]. simpl. destruct (c =? 47); [done|]. destruct (span_elem path). simpl in *. lia.
Qed.

(** [skipelem] takes the first element. *)
Lemma skipelem_spec path :
  match skipelem path with
  | None => elems path = []
  | Some (rest, name) => elems path = name :: elems rest /\ (length rest < length path)%nat /\ rest !! 0%nat <> Some 47
  end.
Proof.
  unfold skipelem, elems. rewrite <- (runs_skip path). pose proof (skip_slashes_length path) as Hl.
  destruct (skip_slashes_head path) as [->|(c & r & E & Hc)]; [done|]. rewrite E in *. cbn [span_elem runs_of app].
  destruct (Z.eqb_spec c 47); [done|]. pose proof (runs_span [c] r ltac:(done)) as Hr. pose proof (span_length r) as Hs.
  destruct (span_elem r) as [e r']. cbn [fst snd] in *. cbn [runs_of]. rewrite Hr. split_and!.
  - rewrite fmap_cons, runs_skip. f_equal. destruct (Nat.leb_spec DIRSIZ (length (c :: e))); [done|]. apply take_ge. simpl in *. lia.
  - pose proof (skip_slashes_length r'). simpl in *. lia.
  - destruct (skip_slashes_head r') as [->|(c' & r'' & -> & ?)]; [done|]. simpl. congruence.
Qed.
(** The names that a loop over [skipelem] sees. *)
Fixpoint names (n : nat) (path : list Z) : list (list Z) :=
  match n with
  | O => []
  | S n' => match skipelem path with None => [] | Some (rest, name) => name :: names n' rest end
  end.

(** C35. skipelem walks the path: called until it returns 0 it yields exactly the
    non-empty runs of characters between slashes, in order, each cut to [DIRSIZ]
    characters; every call that yields one leaves a shorter path that does not begin
    with a slash, so it returns 0 after at most as many calls as the path has
    characters. *)
Theorem skipelem_elements path :
  names (length path) path = elems path
  /\ match skipelem path with
     | None => elems path = []
     | Some (rest, name) => elems path = name :: elems rest /\ (length rest < length path)%nat /\ rest !! 0%nat <> Some 47
     end.
Proof.
  split; [|apply skipelem_spec]. assert (forall n path, (length path <= n)%nat -> names n path = elems path) as Hn; [|by apply Hn].
  intros n. induction n as [|n IH]; intros p Hp; [by destruct p; simpl in Hp; [|lia]|]. simpl. pose proof (skipelem_spec p) as Hs.
  destruct (skipelem p) as [[rest name]|]; [|done]. destruct Hs as (-> & Hl & _). rewrite IH by lia. done.
Qed.

(** * The loop of [namex] *)

Section with_layout.
Context `{Layout, Devsw}.

Lemma bind_cong {S A B} (m : M S A) (f g : A -> M S B) o s : (forall a o s, f a o s = g a o s) -> (m ≫= f) o s = (m ≫= g) o s.
Proof. intros E. unfold mbind, M_bind. by destruct (m o s). Qed.

Lemma namex_loop_fuel n : forall m ip path np name o k, (length (elems path) <= n)%nat -> (length (elems path) <= m)%nat ->
  namex_loop n ip path np name o k = namex_loop m ip path np name o k.
Proof.
  induction n as [|n IH]; intros m ip path np name o k Hn Hm.
  - pose proof (skipelem_spec path) as Hs. destruct m; [done|]. simpl. destruct (skipelem path) as [[rest nm]|]; [|done]. destruct Hs as (E & _). rewrite E in Hn. simpl in Hn. lia.
  - destruct m as [|m]; simpl; pose proof (skipelem_spec path) as Hs; destruct (skipelem path) as [[rest nm]|]; try done.
    + destruct Hs as (E & _). rewrite E in Hm. simpl in Hm. lia.
    + destruct Hs as (E & _). rewrite E in Hn, Hm. simpl in Hn, Hm.
      apply bind_cong. intros _ o1 k1. apply bind_cong. intros i o2 k2. destruct (negb _); [done|]. destruct (_ && _); [done|].
      apply bind_cong. intros [[next x]|] o3 k3; [|done]. apply bind_cong. intros _ o4 k4. apply IH; lia.
Qed.

Lemma elems_length path : (length (elems path) <= length path)%nat.
Proof.
  assert (forall acc p, (length (runs_of acc p) <= length p + match acc with [] => 0 | _ => 1 end)%nat) as Hr.
  { intros acc p. revert acc. induction p as [|c p IH]; intros acc; simpl; [by destruct acc|]. destruct (c =? 47).
    - destruct acc; simpl; pose proof (IH []); simpl in *; lia.
    - etransitivity; [apply IH|]. destruct acc; simpl; lia. }
  unfold elems. rewrite length_fmap. specialize (Hr [] path). simpl in Hr. lia.
Qed.

(** [while] without a bound: [while body n x o k r] when the loop whose passes are
    [body], started in [x], is left after [n] passes with the outcome [r].  A pass ends
    with what the next one starts in, or with the result. *)
Inductive while {X A} (body : X -> K (X + A)) : nat -> X -> list (kernel -> kernel) -> kernel -> outcome kernel A -> Prop :=
| while_left x o k r :
    (forall y o' k', body x o k <> Ok (inl y) o' k') ->
    r = (body x ≫= fun z => match z with inl _ => fault "the loop goes on" | inr a => mret a end) o k ->
    while body 1 x o k r
| while_next n x o k y o' k' r :
    body x o k = Ok (inl y) o' k' -> while body n y o' k' r -> while body (S n) x o k r.

(** A pass of the loop of [namex], and what follows the loop. *)
Definition namex_pass (nameiparent : bool) (x : nat * list Z * list Z) : K ((nat * list Z * list Z) + (option nat * list Z)) :=
  let '(ip, path, name) := x in
  match skipelem path with
  | None => if nameiparent then iput ip;; mret (inr (None, name)) else mret (inr (Some ip, name))
  | Some (path, name) =>
      ilock ip;;
      i ← get_ino ip;
      if negb (i_type i =? T_DIR) then iunlockput ip;; mret (inr (None, name)) else
      if nameiparent && bool_decide (path = []) then iunlock ip;; mret (inr (Some ip, name)) else
      next ← dirlookup ip name;
      match next with
      | None => iunlockput ip;; mret (inr (None, name))
      | Some (next, _) => iunlockput ip;; mret (inl (next, path, name))
      end
  end.

(** The loop of the model is passes, one after the other. *)
Lemma namex_loop_pass n ip path np name o k :
  namex_loop (S n) ip path np name o k =
  (namex_pass np (ip, path, name) ≫= fun z =>
     match z with inl (ip, path, name) => namex_loop n ip path np name | inr a => mret a end) o k.
Proof.
  cbn [namex_loop namex_pass]. destruct (skipelem path) as [[rest nm]|].
  - rewrite bind_assoc. apply bind_cong. intros _ o1 k1. rewrite bind_assoc. apply bind_cong. intros i o2 k2.
    destruct (negb _); [by rewrite bind_assoc|]. destruct (_ && _); [by rewrite bind_assoc|].
    rewrite bind_assoc. apply bind_cong. intros [[next off]|] o3 k3; by rewrite bind_assoc.
  - destruct np; [by rewrite bind_assoc|done].
Qed.

(** A pass that goes on has taken the first element off the path. *)
Lemma namex_pass_next np ip path name o k ip' path' name' o' k' :
  namex_pass np (ip, path, name) o k = Ok (inl (ip', path', name')) o' k' -> length (elems path) = S (length (elems path')).
Proof.
  cbn [namex_pass]. pose proof (skipelem_spec path) as Hs. destruct (skipelem path) as [[rest nm]|].
  - destruct Hs as (-> & _). intros (? & ? & ? & _ & H1)%bind_ok_inv. apply bind_ok_inv in H1 as (i & o2 & k2 & _ & H1).
    destruct (negb _); [by apply bind_ok_inv in H1 as (? & ? & ? & _ & [=])|].
    destruct (_ && _); [by apply bind_ok_inv in H1 as (? & ? & ? & _ & [=])|].
    apply bind_ok_inv in H1 as ([[next off]|] & o3 & k3 & _ & H1); apply bind_ok_inv in H1 as (? & ? & ? & _ & [=]). by subst.
  - destruct np; [by intros (? & ? & ? & _ & [=])%bind_ok_inv|done].
Qed.

(** C32. The loop of namex ends: on every path and in every state the C loop, which has
    no bound, is left after at most one pass more than the path has elements, with the
    outcome that the bounded loop of the model has; so the bound that namex gives it is
    never reached. *)
Theorem namex_loop_ends ip path nameiparent name o k :
  exists n, (n <= S (length (elems path)))%nat /\
    while (namex_pass nameiparent) n (ip, path, name) o k (namex_loop (S (length path)) ip path nameiparent name o k).
Proof.
  assert (length (elems path) <= length path)%nat as Hm by apply elems_length. revert Hm. generalize (length path) as m.
  intros m. revert ip path name o k. induction m as [|m IH]; intros ip path name o k Hm; rewrite namex_loop_pass.
  - exists 1%nat. split; [lia|]. assert (forall y o' k', namex_pass nameiparent (ip, path, name) o k <> Ok (inl y) o' k') as Hno.
    { intros [[ip' path'] name'] o' k' E%namex_pass_next. lia. }
    apply while_left; [done|]. unfold mbind, M_bind. destruct (namex_pass _ _ o k) as [[y|a] o' k'| | | |]; try done. by destruct (Hno y o' k').
  - destruct (namex_pass nameiparent (ip, path, name) o k) as [[[[ip' path'] name']|a] o' k'| | | |] eqn:E.
    2-6: exists 1%nat; split; [lia|]; apply while_left; [by rewrite E|]; unfold mbind, M_bind; by rewrite E.
    pose proof (namex_pass_next _ _ _ _ _ _ _ _ _ _ _ E) as Hl. destruct (IH ip' path' name' o' k') as (n & Hn & Hw); [lia|].
    exists (S n). split; [lia|]. eapply while_next; [exact E|]. unfold mbind, M_bind. by rewrite E.
Qed.

End with_layout.
End Path.
