(* ===== verification/Icache.v ===== *)
(** The inode cache (fs.c): [iget], [idup], [ilock], [iunlock] and [iput] inside a
    transaction, against a multiset of references to inodes. *)

From stdpp Require Import gmultiset.
From S2P Require Import Prelude Monad State Console Kalloc Sched Sleeplock Bytes Bio Log Fs Cache Crash Tx Alloc Inode.

Module Icache.
Import Header Txn Log Cache Sleeplock Bio Commit Fs Tx Alloc Inode.

(** * What the cache means *)

Section meaning.
Context (s : superblock).

(** The inode [inum] as the disk has it, over the fields that only memory has. *)
Definition node (V : list block) (inum : Z) (i : inode) : inode := read_dinode (dinode_off inum) (V !!! Z.to_nat (IBLOCK inum s)) i.

(** The cache holds the references [R]; the process [pid] has locked the entries [L].
    An inode in use has one entry, and a valid entry agrees with the disk. *)
Record cached (pid : Z) (V : list block) (R : gmultiset Z) (L : gset nat) (ic : list inode) : Prop := {
  ca_ref : forall ip i, ic !! ip = Some i -> 0 <= i_ref i;
  ca_in : forall ip i, ic !! ip = Some i -> 0 < i_ref i -> i_dev i = 1 /\ i_ref i = Z.of_nat (multiplicity (i_inum i) R);
  ca_out : forall inum, inum ∈ R -> exists ip i, ic !! ip = Some i /\ 0 < i_ref i /\ i_inum i = inum;
  ca_unique : forall ip ip' i i', ic !! ip = Some i -> ic !! ip' = Some i' -> 0 < i_ref i -> 0 < i_ref i' -> i_inum i = i_inum i' -> ip = ip';
  ca_valid : forall ip i, ic !! ip = Some i -> 0 < i_ref i -> i_valid i <> 0 -> node V (i_inum i) i = i;
  ca_lock : forall ip i, ic !! ip = Some i -> if decide (ip ∈ L) then i_lock i = mkSleeplock 1 pid else sl_locked (i_lock i) = 0
}.

(** The entry [ip] is for the inode [inum]. *)
Definition entry (ic : list inode) (ip : nat) (inum : Z) : Prop := exists i, ic !! ip = Some i /\ 0 < i_ref i /\ i_inum i = inum.

(** The fields that an inode has on the disk. *)
Definition disk_fields (i : inode) : Z * Z * Z * Z * Z * list Z := (i_type i, i_major i, i_minor i, i_nlink i, i_size i, i_addrs i).
Definition with_fields (x : Z * Z * Z * Z * Z * list Z) (i : inode) : inode :=
  let '(t, ma, mi, nl, sz, ad) := x in
  i <| i_type := t |> <| i_major := ma |> <| i_minor := mi |> <| i_nlink := nl |> <| i_size := sz |> <| i_addrs := ad |>.

Lemma with_fields_get x i : disk_fields (with_fields x i) = x.
Proof. by destruct x as [[[[[t ma] mi] nl] sz] ad], i. Qed.
Lemma with_fields_id x i : with_fields x i = i <-> disk_fields i = x.
Proof. split; [intros E; rewrite <- E; apply with_fields_get|]. intros <-. by destruct i. Qed.

Definition on_disk_fields (V : list block) (inum : Z) : Z * Z * Z * Z * Z * list Z :=
  let d := V !!! Z.to_nat (IBLOCK inum s) in let off := dinode_off inum in
  (s16 (get_u16 off d), s16 (get_u16 (off + 2) d), s16 (get_u16 (off + 4) d), s16 (get_u16 (off + 6) d), get_u32 (off + 8) d, addrs_of off d).

Lemma node_eq V inum i : node V inum i = with_fields (on_disk_fields V inum) i.
Proof. done. Qed.

Lemma node_id V inum i : node V inum i = i <-> disk_fields i = on_disk_fields V inum.
Proof. rewrite node_eq. apply with_fields_id. Qed.

Lemma node_node V inum i : node V inum (node V inum i) = node V inum i.
Proof. rewrite node_id, node_eq. apply with_fields_get. Qed.

Lemma free_entry pid V R L ic : cached pid V R L ic -> (size (dom R) < length ic)%nat -> exists ip i, ic !! ip = Some i /\ i_ref i = 0.
Proof.
  intros Hc Hs. destruct (decide (Forall (fun i => 0 < i_ref i) ic)) as [Hall|Hno].
  - exfalso. assert (length (i_inum <$> ic) <= size (dom R))%nat as Hle; [|rewrite length_fmap in Hle; lia].
    assert (NoDup (i_inum <$> ic)) as Hnd.
    { apply NoDup_alt. intros x y v Hx Hy. rewrite list_lookup_fmap in Hx, Hy. apply fmap_Some in Hx as (i & Hi & ->), Hy as (j & Hj & E).
      eapply (ca_unique _ _ _ _ _ Hc); try done; by eapply (Forall_lookup_1 _ _ _ _ Hall). }
    rewrite <- (size_list_to_set (C := gset Z) _ Hnd). apply subseteq_size. intros v Hv%elem_of_list_to_set.
    apply list_elem_of_fmap in Hv as (i & -> & [ip Hi]%list_elem_of_lookup_1). pose proof (Forall_lookup_1 _ _ _ _ Hall Hi) as Hp.
    destruct (ca_in _ _ _ _ _ Hc _ _ Hi Hp) as [_ E]. apply gmultiset_elem_of_dom. unfold elem_of, gmultiset_elem_of. simpl in Hp. lia.
  - apply not_Forall_Exists in Hno; [|apply _]. apply Exists_exists in Hno as (i & [ip Hi]%list_elem_of_lookup_1 & Hn). exists ip, i. split; [done|].
    pose proof (ca_ref _ _ _ _ _ Hc _ _ Hi). simpl in Hn. lia.
Qed.

Lemma node_fields V n i i' : node V n i = i -> disk_fields i' = disk_fields i -> node V n i' = i'.
Proof. rewrite !node_id. by intros <-. Qed.

(** A change of one entry. *)
Lemma cached_set pid V R L ic ip i i' R' L' : cached pid V R L ic -> ic !! ip = Some i -> 0 <= i_ref i' ->
  (0 < i_ref i' -> i_dev i' = 1 /\ i_ref i' = Z.of_nat (multiplicity (i_inum i') R') /\ (i_valid i' <> 0 -> node V (i_inum i') i' = i')) ->
  (0 < i_ref i' -> forall jp j, jp <> ip -> ic !! jp = Some j -> 0 < i_ref j -> i_inum j <> i_inum i') ->
  (forall n, (0 < i_ref i -> n <> i_inum i) -> (0 < i_ref i' -> n <> i_inum i') -> multiplicity n R' = multiplicity n R) ->
  (0 < i_ref i -> i_inum i ∈ R' -> 0 < i_ref i' /\ i_inum i' = i_inum i) ->
  (if decide (ip ∈ L') then i_lock i' = mkSleeplock 1 pid else sl_locked (i_lock i') = 0) ->
  (forall jp, jp <> ip -> jp ∈ L' <-> jp ∈ L) ->
  cached pid V R' L' (<[ip := i']> ic).
Proof.
  intros [Cr Ci Co Cu Cv Cl] Hi H0 Hin Hnew HR Hold Hl HL. pose proof (lookup_lt_Some _ _ _ Hi) as Hlt.
  assert (forall jp j, <[ip := i']> ic !! jp = Some j -> jp = ip /\ j = i' \/ jp <> ip /\ ic !! jp = Some j) as Hcase.
  { intros jp j. rewrite list_lookup_insert_Some. naive_solver. }
  split.
  - intros jp j [[-> ->]|[_ Hj]]%Hcase; [done|by apply (Cr _ _ Hj)].
  - intros jp j [[-> ->]|[Hne Hj]]%Hcase Hp; [by destruct (Hin Hp) as (? & ? & _)|]. destruct (Ci _ _ Hj Hp) as [? E]. split; [done|]. rewrite E, HR; [done| |].
    + intros Hp' En. apply Hne. by eapply Cu.
    + intros Hp' En. by eapply Hnew.
  - intros n Hn. destruct (decide (0 < i_ref i' /\ n = i_inum i')) as [[Hp ->]|Hno].
    { exists ip, i'. split; [by apply list_lookup_insert_eq|done]. }
    destruct (decide (0 < i_ref i /\ n = i_inum i)) as [[Hp ->]|Hno']; [destruct (Hold Hp Hn) as [? E]; by destruct Hno|].
    assert (n ∈ R) as HnR by (unfold elem_of, gmultiset_elem_of in *; rewrite HR in Hn; naive_solver).
    destruct (Co n HnR) as (jp & j & Hj & Hp & <-). exists jp, j. split; [|done]. rewrite list_lookup_insert_ne; [done|]. intros <-. naive_solver.
  - intros jp jp' j j' [[-> ->]|[Hne Hj]]%Hcase [[-> ->]|[Hne' Hj']]%Hcase Hp Hp' E; [done| | |by eapply Cu].
    + by destruct (Hnew Hp jp' j' Hne' Hj' Hp').
    + by destruct (Hnew Hp' jp j Hne Hj Hp).
  - intros jp j [[-> ->]|[Hne Hj]]%Hcase Hp Hv; [by apply Hin|by eapply Cv].
  - intros jp j [[-> ->]|[Hne Hj]]%Hcase; [done|]. specialize (Cl _ _ Hj). specialize (HL jp Hne).
    destruct (decide (jp ∈ L')), (decide (jp ∈ L)); tauto || done.
Qed.

(** A change that keeps the identity and the count. *)
Lemma cached_touch pid V R L ic ip i i' L' : cached pid V R L ic -> ic !! ip = Some i ->
  i_ref i' = i_ref i -> i_dev i' = i_dev i -> i_inum i' = i_inum i -> (0 < i_ref i -> i_valid i' <> 0 -> node V (i_inum i) i' = i') ->
  (if decide (ip ∈ L') then i_lock i' = mkSleeplock 1 pid else sl_locked (i_lock i') = 0) ->
  (forall jp, jp <> ip -> jp ∈ L' <-> jp ∈ L) ->
  cached pid V R L' (<[ip := i']> ic).
Proof.
  intros Hc Hi Er Ed En Hv Hl HL. pose proof (ca_in _ _ _ _ _ Hc _ _ Hi) as Hin. rewrite <- Er in Hin, Hv. eapply (cached_set pid V R L ic ip i i'); try done.
  - rewrite Er. by eapply ca_ref.
  - rewrite Ed, En. naive_solver.
  - intros Hp jp j Hne Hj Hpj E. apply Hne. eapply (ca_unique _ _ _ _ _ Hc); try done; [lia|congruence].
  - intros Hp _. split; [lia|done].
Qed.

Lemma entry_touch ic ip i i' jp n : ic !! ip = Some i -> i_ref i' = i_ref i -> i_inum i' = i_inum i -> entry ic jp n -> entry (<[ip := i']> ic) jp n.
Proof.
  intros Hi Er En (j & Hj & ? & ?). destruct (decide (jp = ip)) as [->|]; [|exists j; by rewrite list_lookup_insert_ne].
  simplify_eq. exists i'. rewrite list_lookup_insert_eq by (by eapply lookup_lt_Some). split; [done|]. by rewrite Er, En.
Qed.

End meaning.
(** * The operations *)

Section operations.
Context `{Layout} (k0 : kernel) (pid start nlog : Z) (o : list (kernel -> kernel)).
Notation s := (sb (fs k0)).
Notation tx := (tx k0 pid start).
Notation cached := (cached s pid).
Hypothesis Hg : geometry s start nlog (length (disk (fs k0))).
Hypothesis Hu : unlocked LIcache k0.

Lemma tx_icache_unlocked V Hd bl ic k : tx V Hd bl ic k -> unlocked LIcache k.
Proof. intros Ht. destruct (tx_moves _ _ _ _ _ _ _ _ Ht) as (ps & _ & ->). unfold unlocked in *. by rsimpl. Qed.

(** A change of the cached inodes that may wake threads. *)
Lemma tx_ic_step V Hd bl ic k g ps : tx V Hd bl ic k -> woken (ptable k) ps ->
  tx V Hd bl (g ic) (k <| fs ::= fun f => f <| icache ::= g |> |> <| ptable := ps |>).
Proof.
  intros [(D & Hr & HD) Hdk Hl Hb Hq Hru Hlog Hlh Ho Hm Hsm Hic] Hw. set (f' := fs k <| icache ::= g |>).
  set (k' := k <| fs ::= fun f => f <| icache ::= g |> |> <| ptable := ps |>). assert (fs k' = f') as Ef by done.
  assert (disk f' = disk (fs k)) as Ed by done. assert (slog f' = slog (fs k)) as El by done. assert (moves k k') as Hm' by (exists ps; split; [done|by destruct k]).
  split; rewrite ?Ef, ?Ed, ?El; try done.
  - exists D. split; [|done]. eapply rep_same; [exact Hr|done..].
  - by eapply moves_runs.
  - by eapply moves_trans.
  - etransitivity; [exact Hsm|]. by split.
  - unfold f'. rsimpl. by rewrite Hic.
Qed.

Lemma tx_ic_only V Hd bl ic k g : tx V Hd bl ic k -> tx V Hd bl (g ic) (k <| fs ::= fun f => f <| icache ::= g |> |>).
Proof.
  intros Ht. pose proof (tx_ic_step V Hd bl ic k g (ptable k) Ht ltac:(apply rtc_refl)) as Ht'.
  replace (k <| fs ::= fun f => f <| icache ::= g |> |>) with (k <| fs ::= fun f => f <| icache ::= g |> |> <| ptable := ptable k |>); [done|by destruct k].
Qed.

(** A change of one entry inside the lock of the cache. *)
Lemma locked_upd_ino {A} V Hd bl ic k ip g (a : A) : tx V Hd bl ic k ->
  exists k', (upd_ino ip g;; release LIcache;; mret a) o (k <| locks ::= <[LIcache := Me]> |>) = Ok a o k' /\ tx V Hd bl (alter g ip ic) k'.
Proof.
  intros Ht. eexists. split; [|exact (tx_ic_only V Hd bl ic k (alter g ip) Ht)]. pose proof (tx_icache_unlocked _ _ _ _ _ Ht) as Hk.
  unfold upd_ino, upd_fs. mbind_step. erewrite bind_ok by (apply release_locked; solve_lock). unfold mret, M_ret. f_equal. kernel_eq.
Qed.

Lemma multiplicity_add n m (R : gmultiset Z) : multiplicity n (R ⊎ {[+ m +]}) = (multiplicity n R + if decide (n = m) then 1 else 0)%nat.
Proof. by rewrite multiplicity_disj_union, multiplicity_singleton. Qed.

Lemma multiplicity_size n (R : gmultiset Z) : (multiplicity n R <= size R)%nat.
Proof.
  destruct (multiplicity n R) as [|m] eqn:E; [lia|]. rewrite <- E. assert ((multiplicity n R) *: {[+ n +]} ⊆ R) as Hs.
  { intros x. rewrite multiplicity_scalar_mul, multiplicity_singleton. destruct (decide (x = n)) as [->|]; lia. }
  apply gmultiset_subseteq_size in Hs. rewrite gmultiset_size_scalar_mul, gmultiset_size_singleton in Hs. lia.
Qed.

Notation fresh_entry inum := (fun i => i <| i_dev := 1 |> <| i_inum := inum |> <| i_ref := 1 |> <| i_valid := 0 |>).
Notation next_ref := (fun i => i <| i_ref ::= fun n => s32 (n + 1) |>).

(** The effect of one more reference on the entries. *)
Lemma cached_hit V R L ic ip i : cached V R L ic -> ic !! ip = Some i -> 0 < i_ref i -> Z.of_nat (size R) + 1 < 2 ^ 31 ->
  cached V (R ⊎ {[+ i_inum i +]}) L (alter next_ref ip ic) /\ forall jp n, entry ic jp n -> entry (alter next_ref ip ic) jp n.
Proof.
  intros Hc Hi Hp Hsz. destruct (ca_in _ _ _ _ _ _ Hc _ _ Hi Hp) as [Hdev Hm]. pose proof (multiplicity_size (i_inum i) R).
  assert (s32 (i_ref i + 1) = i_ref i + 1) as Es by (apply s32_small; unfold is_s32; lia). rewrite (alter_as_insert _ _ _ _ Hi). split.
  - eapply (cached_set s pid V R L ic ip i); try done; rsimpl; rewrite ?Es; try lia.
    + intros _. split; [done|]. split; [rewrite multiplicity_add, decide_True by done; lia|]. intros Hv.
      by apply (node_fields s V _ i); [apply (ca_valid _ _ _ _ _ _ Hc _ _ Hi Hp Hv)|..].
    + intros _ jp j Hne Hj Hpj E. apply Hne. by eapply (ca_unique _ _ _ _ _ _ Hc).
    + intros n _ Hn. rewrite multiplicity_add, decide_False; [lia|]. apply Hn. lia.
    + by apply (ca_lock _ _ _ _ _ _ Hc).
  - intros jp n (j & Hj & Hpj & En). destruct (decide (jp = ip)) as [->|Hne].
    + simplify_eq. eexists. rewrite list_lookup_insert_eq by (by eapply lookup_lt_Some). split; [done|]. rsimpl. rewrite Es. split; [lia|done].
    + exists j. rewrite list_lookup_insert_ne by done. done.
Qed.

Lemma cached_miss V R L ic ip i inum : cached V R L ic -> ic !! ip = Some i -> i_ref i = 0 -> inum ∉ R ->
  cached V (R ⊎ {[+ inum +]}) L (alter (fresh_entry inum) ip ic) /\ forall jp n, entry ic jp n -> entry (alter (fresh_entry inum) ip ic) jp n.
Proof.
  intros Hc Hi Hp Hn. rewrite (alter_as_insert _ _ _ _ Hi). assert (multiplicity inum R = 0%nat) as Hm0 by (unfold elem_of, gmultiset_elem_of in Hn; lia). split.
  - eapply (cached_set s pid V R L ic ip i); try done; rsimpl; rewrite ?Hp; try lia.
    + intros _. split; [done|]. split; [rewrite multiplicity_add, decide_True by done; lia|done].
    + intros _ jp j Hne Hj Hpj <-. destruct (ca_in _ _ _ _ _ _ Hc _ _ Hj Hpj). lia.
    + intros n _ Hne. rewrite multiplicity_add, decide_False; [lia|]. apply Hne. lia.
    + by apply (ca_lock _ _ _ _ _ _ Hc).
  - intros jp n (j & Hj & Hpj & En). destruct (decide (jp = ip)) as [->|Hne]; [simplify_eq; lia|]. exists j. by rewrite list_lookup_insert_ne.
Qed.

Lemma iget_spec V Hd bl ic k R L inum : tx V Hd bl ic k -> cached V R L ic -> (size (dom R) < length ic)%nat -> Z.of_nat (size R) + 1 < 2 ^ 31 ->
  wp (iget 1 inum) o k (fun ip k' => exists ic', tx V Hd bl ic' k' /\ cached V (R ⊎ {[+ inum +]}) L ic' /\ entry ic' ip inum
    /\ (forall i, ic' !! ip = Some i -> i_valid i = 0 \/ i_ref i <> 1) /\ length ic' = length ic /\ forall jp n, entry ic jp n -> entry ic' jp n).
Proof.
  intros Ht Hc Hroom Hsz. pose proof (tx_icache_unlocked _ _ _ _ _ Ht) as Hk. set (k1 := k <| locks ::= <[LIcache := Me]> |>).
  assert (forall ip g, (exists i, ic !! ip = Some i /\ 0 < i_ref (g i) /\ i_inum (g i) = inum /\ (i_valid (g i) = 0 \/ i_ref (g i) <> 1)) ->
    cached V (R ⊎ {[+ inum +]}) L (alter g ip ic) /\ (forall jp n, entry ic jp n -> entry (alter g ip ic) jp n) ->
    wp (upd_ino ip g;; release LIcache;; mret ip) o k1 (fun ip k' => exists ic', tx V Hd bl ic' k' /\ cached V (R ⊎ {[+ inum +]}) L ic' /\ entry ic' ip inum
    /\ (forall i, ic' !! ip = Some i -> i_valid i = 0 \/ i_ref i <> 1) /\ length ic' = length ic /\ forall jp n, entry ic jp n -> entry ic' jp n)) as Hend.
  { intros ip g (i & Hi & Hp & En & Hst) [Hc' He]. destruct (locked_upd_ino V Hd bl ic k ip g ip Ht) as (k' & E & Ht'). exists ip, k'. split; [done|].
    eexists. split; [exact Ht'|]. split_and!; [done|exists (g i); by rewrite list_lookup_alter_eq, Hi|rewrite list_lookup_alter_eq, Hi; by intros _ [= <-]|apply length_alter|done]. }
  unfold iget. eapply (wp_step _ _ _ _ (fun _ k' => k' = k1)); [eexists _, k1; split; [by apply acquire_unlocked|done]|]. intros _ _ ->.
  eapply (wp_step _ _ _ _ (fun l k' => l = icache (fs k) /\ k' = k1)); [by eexists _, k1|]. intros _ _ [-> ->]. rewrite (tx_ic _ _ _ _ _ _ _ _ Ht).
  destruct (list_find _ ic) as [[ip i]|] eqn:E.
  - apply list_find_Some in E as (Hi & (Hp & Hdev & En) & _). subst inum. pose proof (multiplicity_size (i_inum i) R).
    destruct (ca_in _ _ _ _ _ _ Hc _ _ Hi Hp) as [_ Hm]. apply Hend; [|by apply cached_hit]. exists i. rsimpl. rewrite s32_small by (unfold is_s32; lia). split_and!; [done|lia|done|right; lia].
  - assert (inum ∉ R) as Hno.
    { intros (ip & i & Hi & Hp & <-)%(ca_out _ _ _ _ _ _ Hc). eapply list_find_None in E. eapply (Forall_lookup_1 _ _ _ _ E Hi).
      by destruct (ca_in _ _ _ _ _ _ Hc _ _ Hi Hp). }
    destruct (free_entry s pid V R L ic Hc Hroom) as (ip & i & Hi & Hz).
    destruct (list_find (fun ip => i_ref ip = 0) ic) as [[jp j]|] eqn:E'; [|apply list_find_None in E'; by destruct (Forall_lookup_1 _ _ _ _ E' Hi)].
    apply list_find_Some in E' as (Hj & Hzj & _). apply Hend; [|by apply cached_miss with j]. exists j. split_and!; try done. by left.
Qed.

(** ** Locks *)

Notation with_lock l := (fun i => i <| i_lock := l |>).

Lemma tx_acquiresleep V Hd bl ic k ip i : tx V Hd bl ic k -> ic !! ip = Some i -> sl_locked (i_lock i) = 0 ->
  wp (acquiresleep (SInode ip)) o k (fun _ k' => tx V Hd bl (alter (with_lock (mkSleeplock 1 pid)) ip ic) k').
Proof.
  intros Ht Hi Hl. eexists tt, _. split; [|exact (tx_ic_only V Hd bl ic k (alter (with_lock (mkSleeplock 1 pid)) ip) Ht)].
  destruct (tx_quiet _ _ _ _ _ _ _ _ Ht) as (_ & _ & _ & Hs). rewrite (acquiresleep_free _ (i_lock i) pid); [done| |done|done|apply Ht].
  unfold sleeplock_at. by rewrite (tx_ic _ _ _ _ _ _ _ _ Ht), Hi.
Qed.

Lemma tx_releasesleep V Hd bl ic k ip i : tx V Hd bl ic k -> ic !! ip = Some i ->
  wp (releasesleep (SInode ip)) o k (fun _ k' => tx V Hd bl (alter (with_lock (mkSleeplock 0 0)) ip ic) k').
Proof.
  intros Ht Hi. eexists tt, _. split.
  - destruct (tx_quiet _ _ _ _ _ _ _ _ Ht) as (Hp & _ & _ & Hs). apply (releasesleep_eq _ (i_lock i)); [|done|done].
    unfold sleeplock_at. by rewrite (tx_ic _ _ _ _ _ _ _ _ Ht), Hi.
  - refine (tx_ic_step V Hd bl ic k (alter (with_lock (mkSleeplock 0 0)) ip) _ Ht _). apply rtc_once. by eexists.
Qed.

Lemma alter_same_ino (g : inode -> inode) ip (ic : list inode) i : ic !! ip = Some i -> g i = i -> alter g ip ic = ic.
Proof. intros Hi Hgi. rewrite (alter_as_insert _ _ _ _ Hi), Hgi. by apply list_insert_id. Qed.

(** What the operations on one entry leave: the references [R], the lock [L], and
    every entry its inode. *)
Definition still (V : list block) (bl : list Z) (ic : list inode) (R : gmultiset Z) (L : gset nat) (ic' : list inode) (k' : kernel) : Prop :=
  tx V ∅ bl ic' k' /\ cached V R L ic' /\ length ic' = length ic /\ forall jp n, n ∈ R -> entry ic jp n -> entry ic' jp n.

(** The entry locked, before its fields are read. *)
Lemma lock_entry V bl ic k R L ip i : tx V ∅ bl ic k -> cached V R L ic -> ic !! ip = Some i -> ip ∉ L ->
  wp (acquiresleep (SInode ip)) o k (fun _ k' => still V bl ic R ({[ip]} ∪ L) (<[ip := i <| i_lock := mkSleeplock 1 pid |>]> ic) k').
Proof.
  intros Ht Hc Hi HL. pose proof (ca_lock _ _ _ _ _ _ Hc _ _ Hi) as Hl. rewrite decide_False in Hl by done. eapply wp_mono; [by eapply (tx_acquiresleep V ∅ bl ic k ip i Ht Hi)|].
  intros [] k1 Ht1; cbv beta in Ht1. rewrite (alter_as_insert _ _ _ _ Hi) in Ht1. split_and!; [done| |apply length_insert|intros jp n _; by eapply entry_touch].
  eapply (cached_touch s pid V R L ic ip i); try done; rsimpl.
  - intros Hp Hv. by apply (node_fields s V _ i); [apply (ca_valid _ _ _ _ _ _ Hc _ _ Hi Hp Hv)|..].
  - rewrite decide_True; [done|set_solver].
  - set_solver.
Qed.

Lemma unlock_entry V bl ic k R L ip i : tx V ∅ bl ic k -> cached V R L ic -> ic !! ip = Some i ->
  wp (releasesleep (SInode ip)) o k (fun _ k' => still V bl ic R (L ∖ {[ip]}) (<[ip := i <| i_lock := mkSleeplock 0 0 |>]> ic) k').
Proof.
  intros Ht Hc Hi. eapply wp_mono; [by eapply (tx_releasesleep V ∅ bl ic k ip i Ht Hi)|].
  intros [] k1 Ht1; cbv beta in Ht1. rewrite (alter_as_insert _ _ _ _ Hi) in Ht1. split_and!; [done| |apply length_insert|intros jp n _; by eapply entry_touch].
  eapply (cached_touch s pid V R L ic ip i); try done; rsimpl.
  - intros Hp Hv. by apply (node_fields s V _ i); [apply (ca_valid _ _ _ _ _ _ Hc _ _ Hi Hp Hv)|..].
  - rewrite decide_False; [done|set_solver].
  - set_solver.
Qed.

Lemma still_trans V bl ic R L ic1 k1 L2 ic2 k2 : still V bl ic R L ic1 k1 -> still V bl ic1 R L2 ic2 k2 -> still V bl ic R L2 ic2 k2.
Proof. intros (_ & _ & Hl1 & He1) (Ht & Hc & Hl2 & He2). split_and!; [done|done|congruence|]. intros jp n Hn He. by apply He2, He1. Qed.

(** ** [ilock] and [iunlock] *)

(** The copy of the fields from the disk. *)
Lemma fill_entry V bl ic k R L ip i : tx V ∅ bl ic k -> cached V R L ic -> ic !! ip = Some i -> ip ∈ L -> 0 < i_ref i -> i_valid i = 0 ->
  0 <= i_inum i < sb_ninodes s -> i_type (node s V (i_inum i) i) <> 0 -> allow k0 (length bl) ->
  wp (s ← get_sb;
      bp ← bread (i_dev i) (IBLOCK (i_inum i) s);
      b ← get_buf bp;
      upd_ino ip (read_dinode (dinode_off (i_inum i)) (b_data b));;
      brelse bp;;
      upd_ino ip (fun i => i <| i_valid := 1 |>);;
      i ← get_ino ip;
      when (i_type i =? 0) (panic "ilock: no type")) o k
    (fun _ k' => still V bl ic R L (<[ip := node s V (i_inum i) i <| i_valid := 1 |>]> ic) k').
Proof.
  intros Ht Hc Hi HL Hp Hv Hin Hty Hal. destruct (ca_in _ _ _ _ _ _ Hc _ _ Hi Hp) as [Hdev _]. destruct (IBLOCK_range k0 start nlog Hg _ Hin) as (_ & _ & Hb).
  pose proof (tx_lens _ _ _ _ _ _ _ _ Ht) as [HV _]. pose proof (lookup_lt_Some _ _ _ Hi) as Hlt.
  eapply wp_step; [by eapply tx_get_sb|]. intros _ _ [-> ->]. rewrite Hdev. set (b := IBLOCK (i_inum i) s) in *.
  eapply wp_step; [apply (tx_bread k0 pid start o V ∅ bl ic k b Ht); [lia|by intros x|by eapply bread_room]|]. intros x k1 [Ht1 Hx].
  eapply wp_step; [eapply (tx_get_buf k0 pid start o _ _ _ _ _ x b Ht1), lookup_insert_eq|]. intros bb k2 (-> & Eb & _). rewrite Eb.
  eapply wp_step; [by eapply tx_upd_ino|]. intros [] k3 Ht3; cbv beta in Ht3. rewrite (alter_as_insert _ _ _ _ Hi) in Ht3.
  eapply wp_step; [apply (tx_brelse k0 pid start o _ _ _ _ _ x b Ht3), lookup_insert_eq|]. intros [] k4 Ht4; cbv beta in Ht4. rewrite delete_insert_id in Ht4 by done.
  eapply wp_step; [by eapply tx_upd_ino|]. intros [] k5 Ht5; cbv beta in Ht5.
  erewrite alter_as_insert in Ht5 by (by apply list_lookup_insert_eq). rewrite list_insert_insert_eq in Ht5.
  eapply wp_step; [eapply tx_get_ino; [exact Ht5|by apply list_lookup_insert_eq]|]. intros _ _ [-> ->].
  match goal with |- context [i_type ?x =? 0] => change (i_type x) with (i_type (node s V (i_inum i) i)) end. destruct (Z.eqb_spec (i_type (node s V (i_inum i) i)) 0); [done|].
  eexists tt, k5. split; [done|]. split_and!; [exact Ht5| |apply length_insert|intros jp m _; by eapply entry_touch].
  apply (cached_touch s pid V R L ic ip i _ _ Hc Hi).
  1-3: by rewrite node_eq; destruct (on_disk_fields s V (i_inum i)) as [[[[[? ?] ?] ?] ?] ?].
  - intros _ _. apply (node_fields s V _ (node s V (i_inum i) i)); [apply node_node|].
    rewrite node_eq. by destruct (on_disk_fields s V (i_inum i)) as [[[[[? ?] ?] ?] ?] ?].
  - rewrite decide_True by done. pose proof (ca_lock _ _ _ _ _ _ Hc _ _ Hi) as Hl. by rewrite decide_True in Hl.
  - done.
Qed.

(** A referenced entry after [ilock]: locked, valid, with the fields of the disk. *)
Definition loaded (V : list block) (i : inode) : inode :=
  if decide (i_valid i = 0) then node s V (i_inum i) (i <| i_lock := mkSleeplock 1 pid |>) <| i_valid := 1 |> else i <| i_lock := mkSleeplock 1 pid |>.

Lemma ilock_spec V bl ic k R L ip i : tx V ∅ bl ic k -> cached V R L ic -> ic !! ip = Some i -> ip ∉ L -> 0 < i_ref i ->
  0 <= i_inum i < sb_ninodes s -> i_type (node s V (i_inum i) i) <> 0 -> allow k0 (length bl) ->
  wp (ilock ip) o k (fun _ k' => still V bl ic R ({[ip]} ∪ L) (<[ip := loaded V i]> ic) k').
Proof.
  intros Ht Hc Hi HL Hp Hin Hty Hal. unfold ilock. eapply wp_step; [by eapply tx_get_ino|]. intros _ _ [-> ->]. destruct (Z.ltb_spec (i_ref i) 1); [lia|].
  eapply wp_step; [by eapply lock_entry|]. intros [] k1 Hs1; cbv beta in Hs1. pose proof Hs1 as (Ht1 & Hc1 & _). pose proof (lookup_lt_Some _ _ _ Hi) as Hlt.
  assert (<[ip := i <| i_lock := mkSleeplock 1 pid |>]> ic !! ip = Some (i <| i_lock := mkSleeplock 1 pid |>)) as Hi1 by by apply list_lookup_insert_eq.
  eapply wp_step; [by eapply tx_get_ino|]. intros _ _ [-> ->]. unfold loaded. change (i_valid (i <| i_lock := mkSleeplock 1 pid |>)) with (i_valid i).
  destruct (Z.eqb_spec (i_valid i) 0) as [Hv|Hv]; [rewrite decide_True by done|rewrite decide_False by done; by eexists tt, k1].
  eapply wp_mono; [by apply (fill_entry V bl _ k1 R _ ip _ Ht1 Hc1 Hi1); set_solver|]. intros [] k2 Hs2; cbv beta in Hs2. rewrite list_insert_insert_eq in Hs2. by eapply still_trans.
Qed.

Lemma iunlock_spec V bl ic k R L ip i : tx V ∅ bl ic k -> cached V R L ic -> ic !! ip = Some i -> ip ∈ L -> 0 < i_ref i ->
  wp (iunlock ip) o k (fun _ k' => still V bl ic R (L ∖ {[ip]}) (<[ip := i <| i_lock := mkSleeplock 0 0 |>]> ic) k').
Proof.
  intros Ht Hc Hi HL Hp. unfold iunlock. pose proof (ca_lock _ _ _ _ _ _ Hc _ _ Hi) as Hl. rewrite decide_True in Hl by done.
  eapply (wp_step _ _ _ _ (fun h k' => h = true /\ k' = k)).
  { eexists true, k. split; [|done]. destruct (tx_quiet _ _ _ _ _ _ _ _ Ht) as (_ & _ & _ & Hs). apply (holdingsleep_mine _ pid); [|done|apply Ht].
    unfold sleeplock_at. rewrite (tx_ic _ _ _ _ _ _ _ _ Ht), Hi. by rewrite <- Hl. }
  intros _ _ [-> ->]. cbn [negb]. eapply wp_step; [by eapply tx_get_ino|]. intros _ _ [-> ->]. destruct (Z.ltb_spec (i_ref i) 1); [lia|]. by apply unlock_entry.
Qed.

(** ** [idup] and [iput] *)

Lemma locked_drop_ref V Hd bl ic k ip g : tx V Hd bl ic k ->
  wp (acquire LIcache;; upd_ino ip g;; release LIcache) o k (fun _ k' => tx V Hd bl (alter g ip ic) k').
Proof.
  intros Ht. pose proof (tx_icache_unlocked _ _ _ _ _ Ht) as Hk. eexists tt, _. split; [|exact (tx_ic_only V Hd bl ic k (alter g ip) Ht)].
  unfold upd_ino, upd_fs. mbind_step. mbind_step. rewrite release_locked by solve_lock. f_equal. kernel_eq.
Qed.

Lemma idup_spec V bl ic k R L ip i : tx V ∅ bl ic k -> cached V R L ic -> ic !! ip = Some i -> 0 < i_ref i -> Z.of_nat (size R) + 1 < 2 ^ 31 ->
  wp (idup ip) o k (fun jp k' => jp = ip /\ exists ic', tx V ∅ bl ic' k' /\ cached V (R ⊎ {[+ i_inum i +]}) L ic' /\ length ic' = length ic
    /\ forall jp n, entry ic jp n -> entry ic' jp n).
Proof.
  intros Ht Hc Hi Hp Hsz. destruct (locked_upd_ino V ∅ bl ic k ip next_ref ip Ht) as (k' & E & Ht'). destruct (cached_hit V R L ic ip i Hc Hi Hp Hsz) as [Hc' He].
  exists ip, k'. split; [|split; [done|]; eexists; split_and!; [exact Ht'|done|apply length_alter|done]].
  pose proof (tx_icache_unlocked _ _ _ _ _ Ht) as Hk. unfold idup. mbind_step.
  erewrite bind_ok; [exact E|]. apply deref_some. rsimpl. by rewrite (tx_ic _ _ _ _ _ _ _ _ Ht).
Qed.

(** One reference less. *)
Lemma cached_drop V R L ic ip i : cached V R L ic -> ic !! ip = Some i -> 0 < i_ref i -> Z.of_nat (size R) < 2 ^ 31 ->
  let ic' := <[ip := i <| i_ref ::= fun n => s32 (n - 1) |>]> ic in let R' := R ∖ {[+ i_inum i +]} in
  cached V R' L ic' /\ forall jp n, n ∈ R' -> entry ic jp n -> entry ic' jp n.
Proof.
  intros Hc Hi Hp Hsz ic' R'. destruct (ca_in _ _ _ _ _ _ Hc _ _ Hi Hp) as [Hdev Hm]. pose proof (multiplicity_size (i_inum i) R).
  assert (s32 (i_ref i - 1) = i_ref i - 1) as Es by (apply s32_small; unfold is_s32; lia).
  assert (forall n, multiplicity n R' = multiplicity n R - if decide (n = i_inum i) then 1 else 0)%nat as HR.
  { intros n. unfold R'. by rewrite multiplicity_difference, multiplicity_singleton. }
  assert (i_inum i ∈ R' -> 0 < i_ref i - 1) as Hin by (unfold elem_of, gmultiset_elem_of; rewrite HR, decide_True by done; lia). split.
  - apply (cached_set s pid V R L ic ip i _ _ _ Hc Hi); rsimpl; rewrite ?Es.
    + lia.
    + intros Hp'. split; [done|]. split; [rewrite HR, decide_True by done; lia|]. intros Hv.
      by apply (node_fields s V _ i); [apply (ca_valid _ _ _ _ _ _ Hc _ _ Hi Hp Hv)|].
    + intros _ jp j Hne Hj Hpj E. apply Hne. by eapply (ca_unique _ _ _ _ _ _ Hc).
    + intros n Hn _. rewrite HR, decide_False; [lia|]. by apply Hn.
    + intros _ Hin'. split; [by apply Hin|done].
    + by apply (ca_lock _ _ _ _ _ _ Hc).
    + done.
  - intros jp n Hn (j & Hj & Hpj & En). unfold ic'. destruct (decide (jp = ip)) as [->|Hne].
    + simplify_eq. eexists. rewrite list_lookup_insert_eq by (by eapply lookup_lt_Some). split; [done|]. rsimpl. rewrite Es. split; [by apply Hin|done].
    + exists j. by rewrite list_lookup_insert_ne.
Qed.

(** [iput] of an inode that stays: it has links, or other references. *)
Lemma iput_spec V bl ic k R L ip i : tx V ∅ bl ic k -> cached V R L ic -> ic !! ip = Some i -> ip ∉ L -> 0 < i_ref i -> Z.of_nat (size R) < 2 ^ 31 ->
  i_valid i = 0 \/ i_nlink i <> 0 \/ i_ref i <> 1 ->
  wp (iput ip) o k (fun _ k' => exists ic', still V bl ic (R ∖ {[+ i_inum i +]}) L ic' k').
Proof.
  intros Ht Hc Hi HL Hp Hsz Hstay. unfold iput. pose proof (lookup_lt_Some _ _ _ Hi) as Hlt.
  eapply wp_step; [by eapply lock_entry|]. intros [] k1 Hs1; cbv beta in Hs1. pose proof Hs1 as (Ht1 & Hc1 & Hl1 & He1).
  set (i1 := i <| i_lock := mkSleeplock 1 pid |>) in *. assert (<[ip := i1]> ic !! ip = Some i1) as Hi1 by by apply list_lookup_insert_eq.
  eapply wp_step; [by eapply tx_get_ino|]. intros _ _ [-> ->]. eapply (wp_step _ _ _ _ (fun _ k' => k' = k1)).
  { eexists tt, k1. split; [|done]. change (i_valid i1) with (i_valid i). change (i_nlink i1) with (i_nlink i).
    destruct (negb (i_valid i =? 0) && (i_nlink i =? 0)) eqn:E; [|done]. apply andb_prop in E as [?%negb_true_iff%Z.eqb_neq ?%Z.eqb_eq].
    pose proof (tx_icache_unlocked _ _ _ _ _ Ht1) as Hk. cbn [when]. mbind_step.
    erewrite bind_ok by (apply deref_some; rsimpl; rewrite (tx_ic _ _ _ _ _ _ _ _ Ht1); exact Hi1). mbind_step.
    change (i_ref i1) with (i_ref i). destruct (Z.eqb_spec (i_ref i) 1); [naive_solver|]. cbn [when]. unfold mret, M_ret. f_equal. kernel_eq. }
  intros _ _ ->. eapply wp_step; [by eapply unlock_entry|]. intros [] k2 Hs2; cbv beta in Hs2. rewrite list_insert_insert_eq in Hs2. assert (({[ip]} ∪ L) ∖ {[ip]} = L) as EL by set_solver. rewrite EL in Hs2. pose proof Hs2 as (Ht2 & Hc2 & Hl2 & He2).
  set (i2 := i1 <| i_lock := mkSleeplock 0 0 |>) in *. assert (<[ip := i2]> ic !! ip = Some i2) as Hi2 by by apply list_lookup_insert_eq.
  eapply wp_mono; [by apply (locked_drop_ref V ∅ bl (<[ip := i2]> ic) k2 ip _ Ht2)|]. intros [] k3 Ht3; cbv beta in Ht3. rewrite (alter_as_insert _ _ _ _ Hi2) in Ht3.
  destruct (cached_drop V R _ _ ip i2 Hc2 Hi2) as [Hc3 He3]; [done|done|]. eexists. split_and!; [exact Ht3|exact Hc3|by rewrite !length_insert|].
  intros jp n Hn He. apply He3; [done|]. assert (n ∈ R) as HnR by (unfold elem_of, gmultiset_elem_of in *; rewrite multiplicity_difference in Hn; lia). by apply He2, He1.
Qed.

End operations.
End Icache.
