(* ===== verification/Dir.v ===== *)
(** Directories (fs.c): [dirlookup] and [dirlink] as lookup and insertion in a finite
    map from names to inode numbers. *)

From stdpp Require Import gmultiset.
From S2P Require Import Prelude Monad State Console Kalloc Sched Sleeplock Bytes Bio Log Fs Uaccess Pipe File ConsoleIn Held Cache Crash Tx Alloc Inode Icache.

Module Dir.
Import Header Txn Log Cache Sleeplock Bio Commit Fs Tx Alloc Inode Icache.

(** * Names *)

(** The characters of a name in an array of [n]: those before the first NUL. *)
Fixpoint upto (n : nat) (l : list Z) : list Z :=
  match n, l with
  | S n', c :: l' => if c =? 0 then [] else c :: upto n' l'
  | _, _ => []
  end.
Definition cname (l : list Z) : list Z := upto DIRSIZ l.

Lemma strncmp_upto n p q : strncmp n p q = 0 <-> upto n p = upto n q.
Proof.
  revert p q. induction n as [|n IH]; intros p q; [done|]. cbn [strncmp upto].
  destruct p as [|a p], q as [|b q]; cbn [lookup list_lookup default tail]; cbn; rewrite ?andb_false_r.
  - done.
  - destruct (Z.eqb_spec b 0) as [->|]; [done|]. split; [lia|done].
  - destruct (Z.eqb_spec a 0) as [->|]; cbn; [done|]. split; [|done]. destruct (a =? 0); lia.
  - destruct (Z.eqb_spec a 0) as [->|Ha]; cbn.
    + destruct (Z.eqb_spec b 0) as [->|]; [done|]. split; [lia|done].
    + destruct (Z.eqb_spec a b) as [->|Hab]; cbn.
      * rewrite IH. destruct (Z.eqb_spec b 0); [done|]. split; [by intros ->|congruence].
      * split; [lia|]. destruct (Z.eqb_spec b 0); [done|congruence].
Qed.

Lemma namecmp_cname s t : namecmp s t = 0 <-> cname s = cname t.
Proof. apply strncmp_upto. Qed.

Lemma length_strncpy n t : length (strncpy n t) = n.
Proof.
  revert t. induction n as [|n IH]; intros t; [done|]. cbn [strncpy]. destruct t as [|c t]; [apply length_replicate|].
  destruct (c =? 0); [apply length_replicate|]. simpl. by rewrite IH.
Qed.

Lemma upto_zeros n m : upto n (replicate m 0) = [].
Proof. by destruct n, m. Qed.

Lemma upto_strncpy n t : upto n (strncpy n t) = upto n t.
Proof.
  revert t. induction n as [|n IH]; intros t; [done|]. cbn [strncpy]. destruct t as [|c t]; [apply upto_zeros|].
  destruct (Z.eqb_spec c 0) as [->|Hc]; [rewrite upto_zeros; done|]. cbn [upto]. destruct (Z.eqb_spec c 0); [done|]. by rewrite IH.
Qed.

(** * Directories as maps *)

Definition DE : nat := Z.to_nat sizeof_dirent.

Ltac de_lia := change DE with 16%nat in *; lia.

Definition entries (bytes : list Z) : list (list Z) := (fun x => slice (DE * x) DE bytes) <$> seq 0 (length bytes / DE).

(** The entry in use for each name: the first one. *)
Definition emap (es : list (list Z)) : gmap (list Z) Z :=
  list_to_map ((fun de => (cname (de_name de), de_inum de)) <$> filter (fun de => de_inum de <> 0) es).
Definition dir_map (bytes : list Z) : gmap (list Z) Z := emap (entries bytes).

Lemma emap_cons de es : emap (de :: es) = if decide (de_inum de = 0) then emap es else <[cname (de_name de) := de_inum de]> (emap es).
Proof. unfold emap. rewrite filter_cons. destruct (decide (de_inum de = 0)); [rewrite decide_False by tauto|rewrite decide_True by tauto]; done. Qed.

(** The test of [dirlookup]. *)
Definition names_it (name : list Z) (de : list Z) : bool := negb (de_inum de =? 0) && (namecmp name (de_name de) =? 0).

Lemma names_it_true name de : names_it name de = true <-> de_inum de <> 0 /\ cname (de_name de) = cname name.
Proof.
  unfold names_it. rewrite andb_true_iff, negb_true_iff, Z.eqb_neq, Z.eqb_eq, namecmp_cname. by split; intros [? ->].
Qed.

Lemma find_emap name es :
  emap es !! cname name = (fun p => de_inum p.2) <$> list_find (fun de => names_it name de = true) es.
Proof.
  induction es as [|de es IH]; [done|]. rewrite emap_cons. cbn [list_find]. destruct (decide (names_it name de = true)) as [E|E].
  - apply names_it_true in E as [Hu Hn]. rewrite decide_False by done. rewrite Hn. by rewrite lookup_insert_eq.
  - transitivity (emap es !! cname name).
    + destruct (decide (de_inum de = 0)); [done|]. apply lookup_insert_ne. intros Hn. apply E. by apply names_it_true.
    + rewrite IH. by destruct (list_find _ es) as [[j y]|].
Qed.

Lemma emap_replace es x de0 de : es !! x = Some de0 -> de_inum de0 = 0 -> de_inum de <> 0 -> emap es !! cname (de_name de) = None ->
  emap (<[x := de]> es) = <[cname (de_name de) := de_inum de]> (emap es).
Proof.
  intros Hx H0 Hu. revert x Hx. induction es as [|e es IH]; intros x Hx Hno; [done|]. destruct x as [|x].
  - injection Hx as ->. simpl. rewrite !emap_cons. rewrite decide_False by done. by rewrite (decide_True (P := de_inum de0 = 0)).
  - simpl in Hx |- *. rewrite emap_cons in Hno |- *. rewrite emap_cons. destruct (decide (de_inum e = 0)); [by apply IH|].
    apply lookup_insert_None in Hno as [Hno Hne]. rewrite (IH x Hx Hno). by apply insert_insert_ne.
Qed.

Lemma emap_append es de : de_inum de <> 0 -> emap es !! cname (de_name de) = None -> emap (es ++ [de]) = <[cname (de_name de) := de_inum de]> (emap es).
Proof.
  intros Hu. induction es as [|e es IH]; intros Hno; simpl; rewrite !emap_cons.
  - by rewrite decide_False.
  - rewrite emap_cons in Hno. destruct (decide (de_inum e = 0)); [by apply IH|].
    apply lookup_insert_None in Hno as [Hno Hne]. rewrite (IH Hno). by apply insert_insert_ne.
Qed.

Lemma entries_lookup bytes x : entries bytes !! x = if decide (x < length bytes / DE)%nat then Some (slice (DE * x) DE bytes) else None.
Proof.
  unfold entries. rewrite list_lookup_fmap. case_decide as Hx; [by rewrite lookup_seq_lt|]. by rewrite lookup_seq_ge by lia.
Qed.
Lemma length_entries bytes : length (entries bytes) = (length bytes / DE)%nat.
Proof. unfold entries. by rewrite length_fmap, length_seq. Qed.

(** A new entry written over an old one, or at the end. *)
Lemma entries_splice bytes x de : length de = DE -> (length bytes mod DE = 0)%nat -> (DE * x <= length bytes)%nat ->
  entries (splice (DE * x) de bytes) = if decide (x < length (entries bytes))%nat then <[x := de]> (entries bytes) else entries bytes ++ [de].
Proof.
  intros Hd Hm Hx. assert (DE <> 0%nat) as HD by done. pose proof (Nat.div_mod_eq (length bytes) DE) as Hdm. rewrite Hm, Nat.add_0_r in Hdm.
  set (n := (length bytes / DE)%nat) in *. rewrite length_entries. fold n. apply list_eq. intros y. rewrite entries_lookup. destruct (decide (x < n)%nat) as [Hxn|Hxn].
  - assert (length (splice (DE * x) de bytes) = length bytes) as Hl by (apply length_splice; rewrite Hd; de_lia). rewrite Hl. fold n.
    destruct (decide (x = y)) as [<-|Hne].
    + rewrite decide_True, list_lookup_insert_eq by (rewrite ?length_entries; done). f_equal. rewrite <- Hd at 2. apply slice_splice. rewrite Hd. de_lia.
    + rewrite list_lookup_insert_ne, entries_lookup by done. fold n. case_decide; [|done]. f_equal. apply slice_splice_ne; rewrite Hd; de_lia.
  - assert (x = n) as -> by de_lia. unfold splice. rewrite take_ge, drop_ge, app_nil_r by lia. rewrite length_app, Hd, Hdm.
    replace (DE * n + DE)%nat with (S n * DE)%nat by lia. rewrite Nat.div_mul by done.
    destruct (Nat.lt_ge_cases y n) as [Hy|Hy].
    + rewrite decide_True, lookup_app_l, entries_lookup by (rewrite ?length_entries; fold n; lia). fold n. rewrite decide_True by done. f_equal.
      unfold slice. rewrite drop_app_le by de_lia. rewrite take_app_le; [done|]. rewrite length_drop. de_lia.
    + rewrite lookup_app_r by (rewrite length_entries; fold n; lia). rewrite length_entries. fold n. destruct (decide (y = n)) as [->|Hne].
      * rewrite decide_True by lia. rewrite Nat.sub_diag. simpl. f_equal. unfold slice. rewrite drop_app_ge by de_lia. rewrite Hdm, Nat.sub_diag. simpl. apply take_ge. lia.
      * rewrite decide_False by lia. symmetry. apply lookup_ge_None. simpl. lia.
Qed.

(** * The operations *)

Section operations.
Context `{Layout, Devsw} (k0 : kernel) (pid start nlog : Z) (o : list (kernel -> kernel)).
Notation s := (sb (fs k0)).
Notation tx := (tx k0 pid start).
Hypothesis Hg : geometry s start nlog (length (disk (fs k0))).
Hypothesis Hone : sb_size s <= BPB.

(** A directory: whole entries on the device. *)
Record dir_state (V : list block) (d : inode) : Prop := {
  ds_file : file_state s V d;
  ds_type : i_type d = T_DIR;
  ds_dev : i_dev d = 1;
  ds_whole : i_size d mod sizeof_dirent = 0
}.

Lemma dir_length V d : dir_state V d -> length (file_bytes V d) = Z.to_nat (i_size d) /\ i_size d = Z.of_nat (DE * length (entries (file_bytes V d))) /\ (length (file_bytes V d) mod DE = 0)%nat.
Proof.
  intros [[_ _ Hs] _ _ Hw]. assert (length (file_bytes V d) = Z.to_nat (i_size d)) as Hl by apply length_file_contents. split; [done|].
  assert (Z.to_nat (i_size d) mod DE = 0)%nat as Hm by (unfold DE; rewrite <- Z2Nat.inj_mod by (done || lia); by rewrite Hw).
  rewrite length_entries, Hl. split; [|done]. pose proof (Nat.div_mod_eq (Z.to_nat (i_size d)) DE). lia.
Qed.

Lemma read_entry V bl ic k dp d x de : tx V ∅ bl ic k -> ic !! dp = Some d -> dir_state V d -> allow k0 (length bl) ->
  entries (file_bytes V d) !! x = Some de ->
  wp (readi dp local (Z.of_nat (DE * x)) sizeof_dirent) o k (fun r k' => tx V ∅ bl ic k' /\ r = (sizeof_dirent, de)).
Proof.
  intros Ht Hd Hds Hc Hx. destruct (dir_length V d Hds) as (Hl & Hsz & _). destruct (Hds) as [[Hok Hh Hs] Hty Hdev _].
  pose proof (lookup_lt_Some _ _ _ Hx) as Hlt. rewrite entries_lookup in Hx. rewrite length_entries in Hlt. rewrite decide_True in Hx by done. injection Hx as <-.
  assert (Z.of_nat (DE * x) + sizeof_dirent <= i_size d) as Hin.
  { rewrite Hsz, length_entries. unfold sizeof_dirent. de_lia. }
  eapply wp_mono; [eapply (readi_spec k0 pid start nlog o Hg V bl ic k dp d local (Z.of_nat (DE * x)) sizeof_dirent); try done; [by rewrite Hty|lia|lia|intros t bs Hd' k'; by apply local_sink]|].
  intros r k' [Ht' ->]. split; [done|]. unfold MAXFILE, NINDIRECT in *. change BSIZE with 512 in *.
  destruct (Z.ltb_spec (i_size d) (Z.of_nat (DE * x))); [unfold sizeof_dirent in *; lia|]. rewrite u32_small by (unfold is_u32, sizeof_dirent in *; lia).
  destruct (Z.ltb_spec (Z.of_nat (DE * x) + sizeof_dirent) (Z.of_nat (DE * x))); [unfold sizeof_dirent in *; lia|]. cbn [orb].
  destruct (Z.ltb_spec (i_size d) (Z.of_nat (DE * x) + sizeof_dirent)); [lia|]. rewrite Nat2Z.id. done.
Qed.

Lemma dir_scan_spec V bl ic dp d msg test : ic !! dp = Some d -> dir_state V d -> allow k0 (length bl) ->
  let es := entries (file_bytes V d) in
  forall fuel x k, tx V ∅ bl ic k -> (x <= length es)%nat -> (length es - x <= fuel)%nat ->
  wp (dir_scan fuel msg dp test (Z.of_nat (DE * x))) o k (fun r k' => tx V ∅ bl ic k' /\
    r = match list_find (fun de => test de = true) (drop x es) with
        | Some (j, de) => (Z.of_nat (DE * (x + j)), Some de)
        | None => (i_size d, None)
        end).
Proof.
  intros Hd Hds Hc es fuel. destruct (dir_length V d Hds) as (_ & Hsz & _). fold es in Hsz.
  assert (forall x k, tx V ∅ bl ic k -> x = length es -> forall fuel, wp (dir_scan fuel msg dp test (Z.of_nat (DE * x))) o k (fun r k' => tx V ∅ bl ic k' /\ r = (i_size d, None))) as Hend.
  { intros x k Ht -> fuel'. assert (forall (A : K (Z * option (list Z))), (if Z.of_nat (DE * length es) <? i_size d then A else mret (Z.of_nat (DE * length es), None)) = mret (Z.of_nat (DE * length es), None)) as Eif.
    { intros A. destruct (Z.ltb_spec (Z.of_nat (DE * length es)) (i_size d)); [lia|done]. }
    destruct fuel'; cbn [dir_scan]; (eapply wp_step; [by eapply tx_get_ino|]); intros _ _ [-> ->]; rewrite Eif; eexists _, k; (split; [done|]); by rewrite <- Hsz. }
  induction fuel as [|fuel IH]; intros x k Ht Hx Hf.
  { rewrite drop_ge by lia. apply Hend; [done|lia]. }
  destruct (decide (x = length es)) as [->|Hne]; [rewrite drop_ge by lia; by apply Hend|].
  destruct (lookup_lt_is_Some_2 es x) as [de Hde]; [lia|]. cbn [dir_scan]. eapply wp_step; [by eapply tx_get_ino|]. intros _ _ [-> ->].
  destruct (Z.ltb_spec (Z.of_nat (DE * x)) (i_size d)) as [_|Hge]; [|exfalso; rewrite Hsz in Hge; de_lia].
  eapply wp_step; [by eapply read_entry|]. intros r k1 [Ht1 ->]. cbn [fst snd]. rewrite Z.eqb_refl. cbn [negb].
  rewrite (drop_S _ _ _ Hde). cbn [list_find]. destruct (test de) eqn:Et.
  - rewrite decide_True by done. eexists _, k1. split; [done|]. split; [done|]. by rewrite Nat.add_0_r.
  - rewrite decide_False by done. replace (Z.of_nat (DE * x) + sizeof_dirent) with (Z.of_nat (DE * S x)) by (unfold sizeof_dirent; de_lia).
    eapply wp_mono; [apply (IH (S x) k1 Ht1); lia|]. intros r k2 [Ht2 ->]. split; [done|].
    destruct (list_find _ (drop (S x) es)) as [[j y]|]; simpl; [|done]. do 2 f_equal. lia.
Qed.

Lemma wp_assoc {A B C} (m : K A) (f : A -> K B) (g : B -> K C) k Q : wp ((m ≫= f) ≫= g) o k Q <-> wp (m ≫= fun a => f a ≫= g) o k Q.
Proof. unfold wp. by rewrite bind_assoc. Qed.

(** The scan from the start of the directory. *)
Lemma scan_dir V bl ic k dp d msg test : tx V ∅ bl ic k -> ic !! dp = Some d -> dir_state V d -> allow k0 (length bl) ->
  wp (fuel ← dir_fuel dp; dir_scan fuel msg dp test 0) o k (fun r k' => tx V ∅ bl ic k' /\
    r = match list_find (fun de => test de = true) (entries (file_bytes V d)) with
        | Some (j, de) => (Z.of_nat (DE * j), Some de)
        | None => (i_size d, None)
        end).
Proof.
  intros Ht Hd Hds Hc. destruct (dir_length V d Hds) as (_ & Hsz & _). unfold dir_fuel. apply wp_assoc. eapply wp_step; [by eapply tx_get_ino|]. intros _ _ [-> ->].
  eapply (wp_step _ _ _ _ (fun n k' => n = Z.to_nat (i_size d / sizeof_dirent + 1) /\ k' = k)); [by eexists _, _|]. intros _ _ [-> ->].
  pose proof (dir_scan_spec V bl ic dp d msg test Hd Hds Hc (Z.to_nat (i_size d / sizeof_dirent + 1)) 0 k Ht ltac:(lia)) as Hs.
  rewrite Nat.mul_0_r in Hs. apply Hs. rewrite Hsz. unfold sizeof_dirent. change DE with 16%nat.
  replace (Z.of_nat (16 * length (entries (file_bytes V d)))) with (Z.of_nat (length (entries (file_bytes V d))) * 16) by lia. rewrite Z.div_mul by done. lia.
Qed.

Notation cached := (cached s pid).
Hypothesis Hu : unlocked LIcache k0.

(** [dirlookup] finds what the map of the directory says. *)
Lemma dirlookup_spec V bl ic k R L dp d name : tx V ∅ bl ic k -> cached V R L ic -> ic !! dp = Some d -> dir_state V d -> allow k0 (length bl) ->
  (size (dom R) < length ic)%nat -> Z.of_nat (size R) + 1 < 2 ^ 31 ->
  wp (dirlookup dp name) o k (fun r k' =>
    match dir_map (file_bytes V d) !! cname name with
    | None => r = None /\ tx V ∅ bl ic k'
    | Some inum => exists ip off ic', r = Some (ip, off) /\ tx V ∅ bl ic' k' /\ cached V (R ⊎ {[+ inum +]}) L ic' /\ entry ic' ip inum
        /\ (forall i, ic' !! ip = Some i -> i_valid i = 0 \/ i_ref i <> 1) /\ length ic' = length ic /\ forall jp n, entry ic jp n -> entry ic' jp n
    end).
Proof.
  intros Ht Hc Hd Hds Hal Hroom Hsz. unfold dirlookup. eapply wp_step; [by eapply tx_get_ino|]. intros _ _ [-> ->]. rewrite (ds_type _ _ Hds). cbn [Z.eqb negb].
  change (T_DIR =? T_DIR) with true. cbn [negb]. refine (proj1 (wp_assoc (dir_fuel dp) (fun fuel => dir_scan fuel _ dp _ 0) _ k _) _). eapply wp_step; [by eapply scan_dir|]. intros r k1 [Ht1 Er].
  unfold dir_map. rewrite find_emap. change (fun de => negb (de_inum de =? 0) && (namecmp name (de_name de) =? 0)) with (names_it name) in Er.
  destruct (list_find _ (entries (file_bytes V d))) as [[j de]|]; subst r; cbn [fst snd fmap option_fmap option_map]; [|by eexists _, k1].
  eapply wp_step; [by eapply tx_get_ino|]. intros _ _ [-> ->]. rewrite (ds_dev _ _ Hds).
  eapply wp_step; [by eapply (iget_spec k0 pid start o Hu V ∅ bl ic k1 R L)|]. intros ip k2 (ic' & Ht2 & Hc2 & He2 & Hv2 & Hl2 & Hk2).
  eexists _, k2. split; [done|]. by eexists ip, _, ic'.
Qed.

(** ** [dirlink] *)

Lemma dirent_fields inum name : 0 < inum < 2 ^ 16 ->
  length (dirent inum (strncpy DIRSIZ name)) = DE /\ de_inum (dirent inum (strncpy DIRSIZ name)) = inum
  /\ cname (de_name (dirent inum (strncpy DIRSIZ name))) = cname name.
Proof.
  intros Hi. assert (slice 0 2 (dirent inum (strncpy DIRSIZ name)) = le_bytes 2 inum) as E0 by done.
  assert (de_name (dirent inum (strncpy DIRSIZ name)) = strncpy DIRSIZ name) as E2.
  { unfold de_name, dirent, slice. rewrite drop_app_length' by (by rewrite length_le_bytes). apply take_ge. by rewrite length_strncpy. }
  split_and!.
  - unfold dirent. rewrite length_app, length_le_bytes, length_strncpy. done.
  - unfold de_inum, get_u16. rewrite E0, le_value_bytes. apply Z.mod_small. lia.
  - rewrite E2. apply upto_strncpy.
Qed.

Lemma nblocks_entry x : nblocks (Z.of_nat (DE * x)) sizeof_dirent = 1%nat.
Proof.
  unfold nblocks. change DE with 16%nat. change sizeof_dirent with 16. pose proof (Z.mod_pos_bound (Z.of_nat (16 * x)) BSIZE ltac:(done)) as Hm.
  pose proof (Z.div_mod (Z.of_nat (16 * x)) BSIZE ltac:(done)) as Hd. change BSIZE with 512 in *.
  set (r := Z.of_nat (16 * x) mod 512) in *. set (q := Z.of_nat (16 * x) / 512) in *. assert (0 <= r <= 496) as Hr by lia.
  replace ((r + 16 + 512 - 1) / 512) with 1; [done|]. apply (Z.div_unique _ _ _ (r + 15)); lia.
Qed.

(** Where the scan for an unused entry ends, and what a new entry there does. *)
Lemma new_entry V d name inum x : dir_state V d -> 0 < inum < 2 ^ 16 -> dir_map (file_bytes V d) !! cname name = None ->
  let es := entries (file_bytes V d) in
  x = match list_find (fun de => (de_inum de =? 0) = true) es with Some (j, _) => j | None => length es end ->
  (x <= length es)%nat /\ dir_map (splice (DE * x) (dirent inum (strncpy DIRSIZ name)) (file_bytes V d)) = <[cname name := inum]> (dir_map (file_bytes V d)).
Proof.
  intros Hds Hi Hno es Hx. destruct (dir_length V d Hds) as (Hl & Hsz & Hm). fold es in Hsz. destruct (dirent_fields inum name Hi) as (Hlen & Hin & Hnm).
  set (de := dirent inum (strncpy DIRSIZ name)) in *. rewrite <- Hnm, <- Hin. unfold dir_map in *. fold es in Hno |- *.
  assert (x <= length es)%nat as Hle.
  { destruct (list_find _ es) as [[j e]|] eqn:E; subst x; [|lia]. apply list_find_Some in E as (E & _). apply lookup_lt_Some in E. lia. }
  split; [done|]. rewrite entries_splice; [|done|done|rewrite Hl, Hsz, Nat2Z.id; de_lia]. fold es. destruct (list_find _ es) as [[j e]|] eqn:E; subst x.
  - apply list_find_Some in E as (E & E0%Z.eqb_eq & _). rewrite decide_True by (by eapply lookup_lt_Some). eapply emap_replace; [done|done|lia|by rewrite Hnm].
  - rewrite decide_False by lia. apply emap_append; [lia|by rewrite Hnm].
Qed.

Lemma dirlink_absent V bl ic k R dp d name inum : tx V ∅ bl ic k -> cached V R {[dp]} ic -> ic !! dp = Some d -> dir_state V d ->
  meta_used s V -> 0 <= i_inum d < sb_ninodes s -> i_size d + sizeof_dirent <= MAXFILE * BSIZE -> (2 <= nfree s V)%nat ->
  Z.of_nat (length bl) + MAXOPBLOCKS <= LOGSIZE -> lg_size (slog (fs k0)) = LOGSIZE ->
  (size (dom R) < length ic)%nat -> Z.of_nat (size R) + 1 < 2 ^ 31 ->
  0 < inum < 2 ^ 16 -> dir_map (file_bytes V d) !! cname name = None ->
  exists k' V' bl' d' off, dirlink dp name inum o k = Ok 0 o k' /\ tx V' ∅ bl' (<[dp := d']> ic) k' /\ (length bl' <= length bl + 4)%nat
    /\ wrote k0 V d off (dirent inum (strncpy DIRSIZ name)) V' d' /\ dir_state V' d'
    /\ dir_map (file_bytes V' d') = <[cname name := inum]> (dir_map (file_bytes V d)).
Proof.
  intros Ht Hc Hd Hds Hm Hin Hmax Hfr Hbl Hlg Hroom Hsz Hi Hno. assert (forall c, (c <= length bl + 4)%nat -> allow k0 c) as Hal.
  { intros c Hle. unfold allow. rewrite Hlg. unfold LOGSIZE, MAXOPBLOCKS in *. lia. }
  destruct (dir_length V d Hds) as (Hl & Hsize & _). destruct (dirent_fields inum name Hi) as (Hlen & _).
  set (es := entries (file_bytes V d)) in *. set (x := match list_find (fun de => (de_inum de =? 0) = true) es with Some (j, _) => j | None => length es end).
  destruct (new_entry V d name inum x Hds Hi Hno eq_refl) as [Hx Hmap]. fold es in Hx. set (de := dirent inum (strncpy DIRSIZ name)) in *.
  enough (wp (dirlink dp name inum) o k (fun r k' => r = 0 /\ exists V' bl' d', tx V' ∅ bl' (<[dp := d']> ic) k' /\ (length bl' <= length bl + 4)%nat
    /\ wrote k0 V d (DE * x) de V' d')) as (r & k' & E & -> & V' & bl' & d' & Ht' & Hl' & Hw).
  { exists k', V', bl', d', (DE * x)%nat. split_and!; try done; [|by rewrite (wt_bytes _ _ _ _ _ _ _ Hw)].
    pose proof (wt_inode _ _ _ _ _ _ _ Hw) as Ei. destruct Hds as [? Hty Hdev Hwh]. split; [apply Hw|by rewrite Ei|by rewrite Ei|].
    rewrite Ei. rsimpl. rewrite Hlen. rewrite Hsize. unfold sizeof_dirent. change DE with 16%nat. replace (Z.max _ _) with (Z.of_nat (Nat.max (length es) (x + 1)) * 16) by lia. apply Z.mod_mul. done. }
  unfold dirlink. eapply wp_step; [eapply (dirlookup_spec V bl ic k R {[dp]} dp d name); try done; apply Hal; lia|]. rewrite Hno. intros _ k1 [-> Ht1].
  refine (proj1 (wp_assoc (dir_fuel dp) (fun fuel => dir_scan fuel _ dp _ 0) _ k1 _) _). eapply wp_step; [eapply scan_dir; [done|done|done|apply Hal; lia]|].
  intros r k2 [Ht2 Er]. fold es in Er. assert (r.1 = Z.of_nat (DE * x)) as -> by (subst r x; destruct (list_find _ es) as [[j e]|]; [done|exact Hsize]).
  replace sizeof_dirent with (Z.of_nat (length de)) by by rewrite Hlen.
  assert (nblocks (Z.of_nat (DE * x)) (Z.of_nat (length de)) = 1%nat) as Hnb by (rewrite Hlen; apply nblocks_entry).
  assert (cost s bl (i_addrs d) <= length bl + 2)%nat as Hcost.
  { unfold cost. pose proof (fresh_le (sb_bmapstart s) bl). pose proof (fresh_le (indirect (i_addrs d)) bl). destruct (_ =? 0)%Z; lia. }
  eapply wp_step.
  { eapply (writei_spec k0 pid start nlog o Hg Hone V bl ic k2 dp d (bytes_at de) de (Z.of_nat (DE * x))); rewrite ?Hnb; try done.
    - apply Hds.
    - by rewrite (ds_type _ _ Hds).
    - apply Hds.
    - apply bytes_at_supplies.
    - rewrite Hsize. de_lia.
    - rewrite Hlen. rewrite Hsize in Hmax. unfold sizeof_dirent in Hmax. de_lia.
    - apply Hal. lia. }
  intros r' k3 (-> & V' & bl' & d' & Ht3 & Hw & Hl3). rewrite Z.eqb_refl. cbn [negb]. rewrite Nat2Z.id in Hw.
  eexists _, k3. split; [done|]. split; [done|]. exists V', bl', d'. split_and!; [done|lia|done].
Qed.

(** The name is there. *)
Lemma add_drop (R : gmultiset Z) n : (R ⊎ {[+ n +]}) ∖ {[+ n +]} = R.
Proof. apply gmultiset_eq. intros x. rewrite multiplicity_difference, multiplicity_disj_union. lia. Qed.

Lemma dirlink_present V bl ic k R dp d name inum m : tx V ∅ bl ic k -> cached V R {[dp]} ic -> ic !! dp = Some d -> 0 < i_ref d -> dir_state V d ->
  allow k0 (length bl) -> (size (dom R) < length ic)%nat -> Z.of_nat (size R) + 1 < 2 ^ 31 ->
  dir_map (file_bytes V d) !! cname name = Some m -> m <> i_inum d ->
  exists k' ic', dirlink dp name inum o k = Ok (-1) o k' /\ tx V ∅ bl ic' k' /\ cached V R {[dp]} ic' /\ entry ic' dp (i_inum d).
Proof.
  intros Ht Hc Hd Hp Hds Hal Hroom Hsz Hm Hne.
  enough (wp (dirlink dp name inum) o k (fun r k' => r = -1 /\ exists ic', tx V ∅ bl ic' k' /\ cached V R {[dp]} ic' /\ entry ic' dp (i_inum d)))
    as (r & k' & E & -> & ic' & ? & ? & ?) by eauto 8.
  unfold dirlink. eapply wp_step; [by eapply (dirlookup_spec V bl ic k R {[dp]} dp d name)|]. rewrite Hm. intros r k1 (ip & off & ic1 & -> & Ht1 & Hc1 & He1 & Hv1 & Hl1 & Hk1).
  assert (entry ic1 dp (i_inum d)) as Hdp by (apply Hk1; by exists d). destruct He1 as (i & Hi & Hpi & <-).
  assert (ip <> dp) as Hipd by (intros ->; destruct Hdp as (d1 & Hd1 & _ & E1); congruence). destruct (Hdp) as (d1 & Hd1 & Hp1 & Ed1).
  assert (i_inum d ∈ R) as HdR.
  { destruct (ca_in _ _ _ _ _ _ Hc _ _ Hd Hp) as [_ Er]. unfold elem_of, gmultiset_elem_of. lia. }
  eapply wp_step.
  { apply (iput_spec k0 pid start nlog o Hg Hu V bl ic1 k1 _ {[dp]} ip i Ht1 Hc1 Hi); [set_solver|done|rewrite gmultiset_size_disj_union, gmultiset_size_singleton; lia|].
    destruct (Hv1 i Hi); [by left|by right; right]. }
  intros [] k2 (ic2 & Ht2 & Hc2 & _ & Hk2). rewrite add_drop in *. eexists _, k2. split; [done|]. split; [done|]. exists ic2. split_and!; [done|done|]. by apply Hk2.
Qed.

(** The name is there and is that of the directory itself. *)
Lemma dirlink_self V bl ic k R dp d name inum : tx V ∅ bl ic k -> cached V R {[dp]} ic -> ic !! dp = Some d -> 0 < i_ref d -> dir_state V d ->
  allow k0 (length bl) -> (size (dom R) < length ic)%nat -> Z.of_nat (size R) + 1 < 2 ^ 31 ->
  dir_map (file_bytes V d) !! cname name = Some (i_inum d) -> Held.calm (fun k => Held.is_held (SInode dp) (fs k)) o ->
  forall r o' k', dirlink dp name inum o k <> Ok r o' k'.
Proof.
  intros Ht Hc Hd Hp Hds Hal Hroom Hsz Hm Hcalm r o' k' E.
  destruct (dirlookup_spec V bl ic k R {[dp]} dp d name Ht Hc Hd Hds Hal Hroom Hsz) as (r1 & k1 & E1 & HQ). rewrite Hm in HQ.
  destruct HQ as (ip & off & ic1 & -> & Ht1 & Hc1 & (i & Hi & Hpi & Ei) & _ & _ & Hk1). unfold dirlink in E. rewrite (bind_ok _ _ _ _ _ _ _ E1) in E.
  destruct (Hk1 dp (i_inum d)) as (d1 & Hd1 & Hp1 & Ed1); [by exists d|].
  assert (ip = dp) as -> by (eapply (ca_unique _ _ _ _ _ _ Hc1); try done; congruence).
  apply bind_ok_inv in E as ([] & o2 & k2 & E & _). unfold iput in E. apply bind_ok_inv in E as ([] & o3 & k3 & E & _).
  eapply Held.acquiresleep_hangs in E; [done|done|]. exists (i_lock d1). simpl. rewrite (tx_ic _ _ _ _ _ _ _ _ Ht1), Hd1. split; [done|].
  pose proof (ca_lock _ _ _ _ _ _ Hc1 _ _ Hd1) as Hl. rewrite decide_True in Hl by set_solver. by rewrite Hl.
Qed.

(** What [dirlink] needs of the transaction, the cache and the directory, which is
    locked. *)
Record linkable (V : list block) (bl : list Z) (ic : list inode) (R : gmultiset Z) (dp : nat) (d : inode) (k : kernel) : Prop := {
  li_tx : tx V ∅ bl ic k;
  li_cached : cached V R {[dp]} ic;
  li_entry : ic !! dp = Some d;
  li_ref : 0 < i_ref d;
  li_dir : dir_state V d;
  li_meta : meta_used s V;
  li_inum : 0 <= i_inum d < sb_ninodes s;
  li_size : i_size d + sizeof_dirent <= MAXFILE * BSIZE;
  li_free : (2 <= nfree s V)%nat;
  li_room : Z.of_nat (length bl) + MAXOPBLOCKS <= LOGSIZE /\ lg_size (slog (fs k0)) = LOGSIZE;
  li_cache : (size (dom R) < length ic)%nat /\ Z.of_nat (size R) + 1 < 2 ^ 31
}.

(** C6. Directories are finite maps from names to inode numbers, and dirlink inserts:
    a name that is not there is added for the inode, with all other names kept, the
    files that share no block with the directory unchanged, and at most four blocks
    added to the log.  A name that is there is refused with -1 and nothing changes,
    except for the name of the directory itself, as "." is: then dirlink gives back
    the inode that it found by iput, which waits for the sleep lock that the caller
    of dirlink holds, and never returns. *)
Theorem dirlink_inserts V bl ic R dp d k name inum : linkable V bl ic R dp d k -> 0 < inum < 2 ^ 16 ->
  let es := dir_map (file_bytes V d) in
  (es !! cname name = None -> exists k' V' bl' d', dirlink dp name inum o k = Ok 0 o k' /\ tx V' ∅ bl' (<[dp := d']> ic) k' /\ (length bl' <= length bl + 4)%nat
     /\ dir_state V' d' /\ dir_map (file_bytes V' d') = <[cname name := inum]> es
     /\ forall c, file_state s V c -> disjoint V c d -> file_state s V' c /\ file_bytes V' c = file_bytes V c /\ disjoint V' c d')
  /\ (forall m, es !! cname name = Some m -> m <> i_inum d ->
     exists k' ic', dirlink dp name inum o k = Ok (-1) o k' /\ tx V ∅ bl ic' k' /\ cached V R {[dp]} ic' /\ entry ic' dp (i_inum d))
  /\ (es !! cname name = Some (i_inum d) -> Held.calm (fun k => Held.is_held (SInode dp) (fs k)) o -> forall r o' k', dirlink dp name inum o k <> Ok r o' k').
Proof.
  intros [Ht Hc Hd Hp Hds Hm Hin Hmax Hfr [Hbl Hlg] [Hroom Hsz]] Hi es.
  assert (allow k0 (length bl)) as Hal by (unfold allow; rewrite Hlg; unfold LOGSIZE, MAXOPBLOCKS in *; lia). split_and!.
  - intros Hno. destruct (dirlink_absent V bl ic k R dp d name inum) as (k' & V' & bl' & d' & off & E & Ht' & Hl' & Hw & Hds' & Hm'); try done.
    exists k', V', bl', d'. split_and!; try done. apply Hw.
  - intros m Hsome Hne. by eapply dirlink_present.
  - intros Hself Hcalm. by eapply dirlink_self.
Qed.

End operations.
End Dir.
