(* ===== verification/Namei.v ===== *)
(** Path resolution (fs.c): [namex] follows a path through the directories on disk, as
    a recursive lookup in their maps does. *)

From stdpp Require Import gmultiset.
From S2P Require Import Prelude Monad State Console Kalloc Sched Sleeplock Bytes Bio Log Fs Uaccess Pipe File ConsoleIn Held Cache Crash Tx Alloc Inode Path Icache Dir.

Module Namei.
Import Header Txn Log Cache Sleeplock Bio Commit Fs Tx Alloc Inode Path Icache Dir.

(** * What a path denotes *)

Section meaning.
Context (k0 : kernel).
Notation s := (sb (fs k0)).

(** The inode as the disk has it. *)
Definition dnode (V : list block) (n : Z) : inode := node s V n zero_inode.
Definition dir_of (V : list block) (n : Z) : gmap (list Z) Z := dir_map (file_bytes V (dnode V n)).

(** The inode that the names [es] lead to from the inode [n], or the one that contains
    the last of them; with the last name looked at. *)
Fixpoint resolve (V : list block) (parent : bool) (n : Z) (es : list (list Z)) (name : list Z) : option Z * list Z :=
  match es with
  | [] => if parent then (None, name) else (Some n, name)
  | e :: es' =>
      if i_type (dnode V n) =? T_DIR then
        if parent && bool_decide (es' = []) then (Some n, e) else
        match dir_of V n !! cname e with
        | None => (None, e)
        | Some m => resolve V parent m es' e
        end
      else (None, e)
  end.

(** An inode in use, and a disk whose directories name such inodes only. *)
Definition alive (V : list block) (n : Z) : Prop := 0 <= n < sb_ninodes s /\ i_type (dnode V n) <> 0 /\ i_nlink (dnode V n) <> 0.
Record sound (V : list block) : Prop := {
  so_dir : forall n, alive V n -> i_type (dnode V n) = T_DIR -> file_state s V (dnode V n) /\ i_size (dnode V n) mod sizeof_dirent = 0;
  so_names : forall n name m, alive V n -> i_type (dnode V n) = T_DIR -> dir_of V n !! name = Some m -> alive V m
}.

Lemma node_fields_of V n i : disk_fields (node s V n i) = on_disk_fields s V n.
Proof. rewrite node_eq. apply with_fields_get. Qed.

(** A valid entry of the cache has the fields of the inode on disk. *)
Lemma same_fields V i : node s V (i_inum i) i = i ->
  i_type i = i_type (dnode V (i_inum i)) /\ i_nlink i = i_nlink (dnode V (i_inum i)) /\ i_size i = i_size (dnode V (i_inum i)) /\ i_addrs i = i_addrs (dnode V (i_inum i)).
Proof.
  intros E%node_id. assert (disk_fields (dnode V (i_inum i)) = disk_fields i) as E' by (unfold dnode; rewrite node_fields_of; by symmetry).
  revert E'. generalize (dnode V (i_inum i)). intros j E'. unfold disk_fields in E'. by simplify_eq.
Qed.

Lemma dir_state_of V i : sound V -> alive V (i_inum i) -> node s V (i_inum i) i = i -> i_dev i = 1 -> i_type i = T_DIR ->
  dir_state k0 V i /\ dir_map (file_bytes V i) = dir_of V (i_inum i).
Proof.
  intros Hs Ha Hn Hd Hty. destruct (same_fields V i Hn) as (Et & _ & Es & Ead). rewrite Et in Hty. destruct (so_dir _ Hs _ Ha Hty) as [[Hok Hh Hsz] Hw].
  split; [split; [split; rewrite ?Ead, ?Es|..]|]; try done; try congruence. unfold dir_of, file_bytes. by rewrite Ead, Es.
Qed.

End meaning.
(** * The walk *)

Section operations.
Context `{Layout, Devsw} (k0 : kernel) (pid start nlog : Z) (o : list (kernel -> kernel)).
Notation s := (sb (fs k0)).
Notation tx := (tx k0 pid start).
Notation cached := (cached s pid).
Notation still := (still k0 pid start).
Notation alive := (alive k0).
Notation resolve := (resolve k0).
Hypothesis Hg : geometry s start nlog (length (disk (fs k0))).
Hypothesis Hu : unlocked LIcache k0.

Lemma alive_stays V R L ic ip i : cached V R L ic -> ic !! ip = Some i -> 0 < i_ref i -> alive V (i_inum i) ->
  i_valid i = 0 \/ i_nlink i <> 0 \/ i_ref i <> 1.
Proof.
  intros Hc Hi Hp (_ & _ & Hn). destruct (decide (i_valid i = 0)) as [|Hv]; [by left|]. right. left.
  pose proof (ca_valid _ _ _ _ _ _ Hc _ _ Hi Hp Hv) as E. by destruct (same_fields k0 V i E) as (_ & -> & _).
Qed.

(** A reference to an inode in use is given back. *)
Lemma put_alive V bl R L ic ip n k : tx V ∅ bl ic k -> cached V (R ⊎ {[+ n +]}) L ic -> entry ic ip n -> ip ∉ L -> alive V n -> Z.of_nat (size R) + 1 < 2 ^ 31 ->
  wp (iput ip) o k (fun _ k' => exists ic', still V bl ic R L ic' k').
Proof.
  intros Ht Hc (i & Hi & Hp & <-) HL Ha Hsz.
  pose proof (iput_spec k0 pid start nlog o Hg Hu V bl ic k _ L ip i Ht Hc Hi HL Hp) as Hput. rewrite add_drop in Hput. apply Hput; [|by eapply alive_stays].
  rewrite gmultiset_size_disj_union, gmultiset_size_singleton. lia.
Qed.

Lemma unlockput_alive V bl R ic ip n k : tx V ∅ bl ic k -> cached V (R ⊎ {[+ n +]}) {[ip]} ic -> entry ic ip n -> alive V n -> Z.of_nat (size R) + 1 < 2 ^ 31 ->
  wp (iunlockput ip) o k (fun _ k' => exists ic', still V bl ic R ∅ ic' k').
Proof.
  intros Ht Hc He Ha Hsz. pose proof He as (i & Hi & Hp & En). assert (n ∈ R ⊎ {[+ n +]}) as Hn by multiset_solver. unfold iunlockput.
  eapply wp_step; [apply (iunlock_spec k0 pid start nlog o Hg Hu V bl ic k _ {[ip]} ip i Ht Hc Hi); [set_solver|done]|].
  intros [] k1 (Ht1 & Hc1 & Hl1 & Hk1). rewrite difference_diag_L in Hc1.
  eapply wp_mono; [by apply (put_alive V bl R ∅ _ ip n k1 Ht1 Hc1); [by apply Hk1|set_solver|..]|].
  intros [] k2 (ic2 & Ht2 & Hc2 & Hl2 & Hk2). exists ic2. split_and!; [done|done|congruence|]. intros jp m Hm He'. apply Hk2; [done|]. apply Hk1; [multiset_solver|done].
Qed.

(** The entry locked and its fields read. *)
Lemma lock_alive V bl R ic ip n k : tx V ∅ bl ic k -> cached V R ∅ ic -> entry ic ip n -> n ∈ R -> alive V n -> allow k0 (length bl) ->
  wp (ilock ip) o k (fun _ k' => exists ic' i, still V bl ic R {[ip]} ic' k' /\ ic' !! ip = Some i /\ 0 < i_ref i /\ i_inum i = n /\ i_dev i = 1 /\ node s V n i = i).
Proof.
  intros Ht Hc (i & Hi & Hp & <-) Hn (Hr & Hty & _) Hal. pose proof (lookup_lt_Some _ _ _ Hi) as Hlt.
  assert (disk_fields (node s V (i_inum i) i) = disk_fields (dnode k0 V (i_inum i))) as E by (unfold dnode; by rewrite !node_fields_of).
  assert (i_type (node s V (i_inum i) i) <> 0) as Hty'.
  { revert E Hty. generalize (node s V (i_inum i) i), (dnode k0 V (i_inum i)). intros a b E Hty. unfold disk_fields in E. injection E as Et _ _ _ _ _. by rewrite Et. }
  eapply wp_mono; [by apply (ilock_spec k0 pid start nlog o Hg Hu V bl ic k R ∅ ip i)|].
  intros [] k1 Hs1. rewrite union_empty_r_L in Hs1. eexists _, (loaded k0 pid V i). split; [exact Hs1|]. destruct Hs1 as (Ht1 & Hc1 & _ & _).
  assert (<[ip := loaded k0 pid V i]> ic !! ip = Some (loaded k0 pid V i)) as Hi1 by by apply list_lookup_insert_eq.
  assert (i_ref (loaded k0 pid V i) = i_ref i /\ i_inum (loaded k0 pid V i) = i_inum i /\ i_valid (loaded k0 pid V i) <> 0) as (E1 & E2 & E3).
  { unfold loaded. destruct (decide (i_valid i = 0)); [|done]. rewrite node_eq. by destruct (on_disk_fields s V (i_inum i)) as [[[[[? ?] ?] ?] ?] ?]. }
  rewrite <- E1 in Hp. split_and!; [done|done|done|by apply (ca_in _ _ _ _ _ _ Hc1 _ _ Hi1)|]. rewrite <- E2. by apply (ca_valid _ _ _ _ _ _ Hc1 _ _ Hi1).
Qed.

(** What the walk leaves: the references [R], and one more to the inode that the path
    denotes, if it denotes one. *)
Definition found (V : list block) (bl : list Z) (R : gmultiset Z) (ic : list inode) (res : option Z * list Z) (r : option nat * list Z) (k' : kernel) : Prop :=
  r.2 = res.2 /\ exists ic', tx V ∅ bl ic' k' /\ length ic' = length ic /\ (forall jp n, n ∈ R -> entry ic jp n -> entry ic' jp n) /\
  match res.1 with
  | None => r.1 = None /\ cached V R ∅ ic'
  | Some m => exists jp, r.1 = Some jp /\ cached V (R ⊎ {[+ m +]}) ∅ ic' /\ entry ic' jp m
  end.

Lemma found_none V bl R ic e k' ic' : still V bl ic R ∅ ic' k' -> found V bl R ic (None, e) (None, e) k'.
Proof. intros (? & ? & ? & ?). split; [done|]. exists ic'. by split_and!. Qed.

Lemma found_trans V bl R ic ic1 res r k' : length ic1 = length ic -> (forall jp n, n ∈ R -> entry ic jp n -> entry ic1 jp n) ->
  found V bl R ic1 res r k' -> found V bl R ic res r k'.
Proof.
  intros Hl He [Hr (ic' & Ht & Hl' & He' & Hm)]. split; [done|]. exists ic'. split_and!; [done|congruence| |done]. intros jp n Hn Hj. by apply He', He.
Qed.

Lemma rest_empty rest : rest !! 0%nat <> Some 47 -> bool_decide (rest = []) = bool_decide (elems rest = []).
Proof.
  intros Hr. apply bool_decide_ext. split; [by intros ->|]. intros E. pose proof (skipelem_spec rest) as Hs.
  destruct rest as [|c rest]; [done|]. exfalso. rewrite E in Hs. unfold skipelem in Hs. simpl in Hs, Hr. destruct (Z.eqb_spec c 47); [congruence|].
  cbn [span_elem] in Hs. destruct (Z.eqb_spec c 47); [done|]. destruct (span_elem rest) as [e r]. by destruct Hs.
Qed.

Lemma dom_add (R : gmultiset Z) n : (size (dom (R ⊎ {[+ n +]})) <= size (dom R) + 1)%nat.
Proof.
  etransitivity; [apply (subseteq_size _ (dom R ∪ {[n]}))|].
  - intros x. rewrite elem_of_union, !gmultiset_elem_of_dom, elem_of_singleton. multiset_solver.
  - rewrite size_union_alt. apply Nat.add_le_mono_l. rewrite <- (size_singleton (C := gset Z) n). apply subseteq_size. set_solver.
Qed.

Lemma namex_loop_spec V bl parent : sound k0 V -> allow k0 (length bl) ->
  forall fuel path ip name n R ic k, (length (elems path) <= fuel)%nat -> tx V ∅ bl ic k -> cached V (R ⊎ {[+ n +]}) ∅ ic -> entry ic ip n -> alive V n ->
  (size (dom R) + 1 < length ic)%nat -> Z.of_nat (size R) + 2 < 2 ^ 31 ->
  wp (namex_loop fuel ip path parent name) o k (fun r k' => found V bl R ic (resolve V parent n (elems path) name) r k').
Proof.
  intros Hs Hal fuel. induction fuel as [|fuel IH]; intros path ip name n R ic k Hf Ht Hc He Ha Hroom Hsz; cbn [namex_loop]; pose proof (skipelem_spec path) as Hsk;
    (destruct (skipelem path) as [[rest e]|]; [destruct Hsk as (Ees & Hlen & Hslash); rewrite Ees in Hf |- *; simpl in Hf|rewrite Hsk; cbn [resolve]]).
  1: lia.
  1,3: destruct parent; [eapply wp_step; [eapply put_alive; try done; lia|]; intros [] k1 (ic1 & Hs1); eexists _, k1; split; [done|]; by eapply found_none
                        |eexists _, k; split; [done|]; split; [done|]; exists ic; split_and!; try done; by eexists ip].
  assert (n ∈ R ⊎ {[+ n +]}) as Hn by multiset_solver. cbn [Namei.resolve].
  eapply wp_step; [by eapply lock_alive|]. intros [] k1 (ic1 & i & (Ht1 & Hc1 & Hl1 & He1) & Hi1 & Hp1 & Ei & Hdev & Hnode). subst n.
  assert (entry ic1 ip (i_inum i)) as Hent1 by by exists i. destruct (same_fields k0 V i Hnode) as (Ety & _).
  eapply wp_step; [by eapply tx_get_ino|]. intros _ _ [-> ->]. rewrite <- Ety.
  assert (forall k2 ic2 e', tx V ∅ bl ic2 k2 -> cached V (R ⊎ {[+ i_inum i +]}) {[ip]} ic2 -> entry ic2 ip (i_inum i) -> length ic2 = length ic1 ->
    (forall jp m, m ∈ R -> entry ic1 jp m -> entry ic2 jp m) ->
    wp (iunlockput ip ≫= fun _ => mret (None, e')) o k2 (fun r k' => found V bl R ic (None, e') r k')) as Hgone.
  { intros k2 ic2 e' Ht2 Hc2 He2 Hl2 Hk2. eapply wp_step; [eapply unlockput_alive; try done; lia|]. intros [] k3 (ic3 & Hs3). eexists _, k3. split; [done|].
    apply (found_trans V bl R ic ic2); [congruence| |by eapply found_none]. intros jp m Hm Hj. apply Hk2, He1; [done|multiset_solver|done]. }
  destruct (Z.eqb_spec (i_type i) T_DIR) as [Hdir|Hdir]; cbn [negb]; [|by apply (Hgone k1 ic1)]. rewrite (rest_empty rest Hslash).
  destruct (parent && bool_decide (elems rest = [])).
  { eapply wp_step; [apply (iunlock_spec k0 pid start nlog o Hg Hu V bl ic1 k1 _ {[ip]} ip i Ht1 Hc1 Hi1); [set_solver|done]|].
    intros [] k2 (Ht2 & Hc2 & Hl2 & He2). rewrite difference_diag_L in Hc2. eexists _, k2. split; [done|]. split; [done|]. eexists. split_and!; [exact Ht2|congruence| |].
    - intros jp m Hm Hj. apply He2, He1; [multiset_solver|multiset_solver|done].
    - exists ip. split_and!; [done|done|]. by apply He2. }
  destruct (dir_state_of k0 V i Hs Ha Hnode Hdev Hdir) as [Hds Emap].
  assert (size (dom (R ⊎ {[+ i_inum i +]})) <= size (dom R) + 1)%nat as Hdom.
  { apply dom_add. }
  eapply wp_step; [eapply (dirlookup_spec k0 pid start nlog o Hg Hu V bl ic1 k1 _ {[ip]} ip i e); try done; [lia|rewrite gmultiset_size_disj_union, gmultiset_size_singleton; lia]|].
  rewrite Emap. intros r k2. destruct (dir_of k0 V (i_inum i) !! cname e) as [m|] eqn:Elk; [|intros [-> Ht2]; by apply (Hgone k2 ic1)].
  intros (jp & off & ic2 & -> & Ht2 & Hc2 & He2 & _ & Hl2 & Hk2).
  eapply wp_step.
  { eapply (unlockput_alive V bl (R ⊎ {[+ m +]}) ic2 ip (i_inum i) k2); try done; [|by apply Hk2|rewrite gmultiset_size_disj_union, gmultiset_size_singleton; lia].
    replace (R ⊎ {[+ m +]} ⊎ {[+ i_inum i +]}) with (R ⊎ {[+ i_inum i +]} ⊎ {[+ m +]}) by multiset_solver. done. }
  intros [] k3 (ic3 & Ht3 & Hc3 & Hl3 & Hk3). eapply wp_mono; [eapply (IH rest jp e m R ic3 k3); try done; [lia|apply Hk3; [multiset_solver|done]| |lia]|].
  - eapply (so_names _ _ Hs); [exact Ha| |exact Elk]. congruence.
  - intros r k4 Hf4. eapply found_trans; [| |exact Hf4]; [congruence|]. intros jp' m' Hm' Hj'. apply Hk3; [multiset_solver|]. apply Hk2, He1; [multiset_solver|done].
Qed.

(** Where a path starts: at the root, or at the current directory of the process. *)
Definition start_of (path : list Z) (ic : list inode) (k : kernel) (n : Z) : Prop :=
  if bool_decide (path !! 0%nat = Some 47) then n = ROOTINO
  else exists p pr c, cpu_proc k = Some p /\ ptable k !! p = Some pr /\ p_cwd pr = Some c /\ entry ic c n.

Lemma start_ref V bl R ic k path n : tx V ∅ bl ic k -> cached V R ∅ ic -> start_of path ic k n -> (size (dom R) < length ic)%nat -> Z.of_nat (size R) + 1 < 2 ^ 31 ->
  wp (if bool_decide (path !! 0%nat = Some 47) then iget ROOTDEV ROOTINO
      else p ← curproc; pr ← get_proc p; match p_cwd pr with None => fault "cwd" | Some c => idup c end) o k
    (fun ip k' => exists ic', tx V ∅ bl ic' k' /\ cached V (R ⊎ {[+ n +]}) ∅ ic' /\ entry ic' ip n /\ length ic' = length ic
       /\ forall jp m, entry ic jp m -> entry ic' jp m).
Proof.
  intros Ht Hc Hst Hroom Hsz. unfold start_of in Hst. destruct (bool_decide (path !! 0%nat = Some 47)).
  - subst n. eapply wp_mono; [by eapply (iget_spec k0 pid start o Hu V ∅ bl ic k R ∅ ROOTINO)|]. intros ip k' (ic' & ? & ? & ? & _ & ? & ?). by exists ic'.
  - destruct Hst as (p & pr & c & Hp & Hpr & Hcwd & He). pose proof He as (i & Hi & Hpi & <-).
    eapply (wp_step _ _ _ _ (fun x k' => x = p /\ k' = k)); [eexists _, k; split; [by apply deref_some|done]|]. intros _ _ [-> ->].
    eapply (wp_step _ _ _ _ (fun x k' => x = pr /\ k' = k)); [eexists _, k; split; [by apply deref_some|done]|]. intros _ _ [-> ->]. rewrite Hcwd.
    eapply wp_mono; [by eapply (idup_spec k0 pid start o Hu V bl ic k R ∅ c i)|]. intros ip k' (-> & ic' & ? & ? & ? & Hk). exists ic'. split_and!; try done. by apply Hk.
Qed.

(** C5. Path names denote what the directories on disk say.  On a disk whose
    directories are well formed and name inodes in use, namex (namei and nameiparent)
    returns without waiting on any path, absolute or relative, and its result is that
    of looking up the elements of the path one after the other in the maps of the
    directories, starting at the root or at the current directory: the inode, referenced
    once more and with every other reference kept, or null with the references as they
    were; nameiparent stops one element early and gives the last name. *)
Theorem namex_resolves V bl R ic k path parent n :
  tx V ∅ bl ic k -> cached V R ∅ ic -> sound k0 V -> alive V n -> start_of path ic k n -> allow k0 (length bl) ->
  (size (dom R) + 1 < length ic)%nat -> Z.of_nat (size R) + 2 < 2 ^ 31 ->
  exists r k', namex path parent o k = Ok r o k' /\ found V bl R ic (resolve V parent n (elems path) []) r k'.
Proof.
  intros Ht Hc Hs Ha Hst Hal Hroom Hsz. enough (wp (namex path parent) o k (fun r k' => found V bl R ic (resolve V parent n (elems path) []) r k')) as (r & k' & ? & ?) by eauto.
  unfold namex. eapply wp_step; [eapply start_ref; try done; lia|]. intros ip k1 (ic1 & Ht1 & Hc1 & He1 & Hl1 & Hk1). pose proof (elems_length path).
  eapply wp_mono; [eapply (namex_loop_spec V bl parent Hs Hal (S (length path)) path ip [] n R ic1 k1); try done; lia|].
  intros r k2 Hf. eapply found_trans; [| |exact Hf]; [done|]. intros jp m _. apply Hk1.
Qed.

End operations.
End Namei.

(** * A disk with a root directory

    Inode 1 is the root, with the names "." and "a" in block 35; inode 2 is an empty
    file. *)
Module NameiExample.
Import Header Txn Log Cache Sleeplock Bio Commit Fs Tx Alloc Inode Path Icache Dir Namei InodeExample.
#[local] Existing Instance Kalloc.small_layout.
#[local] Existing Instance ConsoleIn.console_devsw.

Definition root_map : block := [255; 255; 255; 255; 15] ++ replicate 507 0.
Definition root_inode : inode := zero_inode <| i_dev := 1 |> <| i_inum := 1 |> <| i_ref := 1 |> <| i_valid := 1 |> <| i_type := T_DIR |> <| i_nlink := 1 |>
  <| i_size := 32 |> <| i_addrs := 35 :: replicate 12 0 |>.
Definition inode_block : block := write_dinode 64 root_inode (write_dinode 128 (empty_file <| i_inum := 2 |>) zeros).
Definition root_block : block := dirent 1 (strncpy DIRSIZ [46]) ++ dirent 2 (strncpy DIRSIZ [97]) ++ replicate 480 0.
Definition root_disk : list block := [zeros; sb_block] ++ replicate 30 zeros ++ [inode_block; zeros; root_map; root_block] ++ replicate 24 zeros.

(** Two unused entries beside that of the root. *)
Definition unused_inode : inode := zero_inode <| i_addrs := replicate 13 0 |>.
Definition root_cache : list inode := [root_inode; unused_inode; unused_inode].

Lemma root_disk_state ic : exists k, tx k 1 2 root_disk ∅ [] ic k /\ slog (fs k) = slog (fs (mounted_on root_disk ic)) /\ sb (fs k) = small_sb
  /\ disk (fs k) = root_disk /\ locks k = ∅.
Proof.
  apply mounted_on_state. assert (forallb (fun b : block => (length b =? 512)%nat) root_disk = true) as E by by vm_compute.
  apply Forall_forall. intros b Hb. apply list_elem_of_In in Hb. apply (proj1 (forallb_forall _ _) E) in Hb. by apply Nat.eqb_eq in Hb.
Qed.

Lemma root_meta : meta_used small_sb root_disk.
Proof.
  intros c Hc. change (datastart small_sb) with 35 in Hc.
  assert (forallb (fun c => used small_sb root_disk (Z.of_nat c)) (seq 0 35) = true) as Hall by by vm_compute.
  rewrite <- (Z2Nat.id c) by lia. apply (proj1 (forallb_forall _ _) Hall). apply in_seq. lia.
Qed.

Lemma root_addrs j : baddr root_disk (i_addrs root_inode) j = if decide (j = 0)%nat then 35 else 0.
Proof.
  destruct (Nat.lt_ge_cases j NDIRECT) as [Hj|Hj].
  - rewrite baddr_direct by done. unfold NDIRECT in Hj. do 12 (destruct j as [|j]; [done|]). lia.
  - rewrite baddr_indirect by done. unfold NDIRECT in Hj. rewrite decide_False by lia. done.
Qed.

Lemma root_file : file_state small_sb root_disk root_inode.
Proof.
  assert (data small_sb root_disk 35) as Hd by by vm_compute. split; [split|..].
  - done.
  - by left.
  - intros j _. rewrite root_addrs. destruct (decide (j = 0)%nat); [by right|by left].
  - intros j j' _ _. rewrite !root_addrs. destruct (decide (j = 0)%nat), (decide (j' = 0)%nat); congruence.
  - intros j _. rewrite root_addrs. by destruct (decide (j = 0)%nat).
  - intros j Hj. change (i_size root_inode) with 32 in Hj. change BSIZE with 512 in Hj. rewrite root_addrs, decide_True by lia. done.
  - by vm_compute.
Qed.

Lemma root_names : dir_map (file_bytes root_disk root_inode) = list_to_map [([46], 1); ([97], 2)].
Proof. by vm_compute. Qed.

(** The inodes on the disk. *)
Lemma root_inodes k n : sb (fs k) = small_sb -> alive k root_disk n -> n = 1 \/ n = 2.
Proof.
  intros Hs (Hr & Hty & _). rewrite Hs in Hr. change (sb_ninodes small_sb) with 8 in Hr. unfold dnode, node in Hty. rewrite Hs in Hty.
  assert (n = 0 \/ n = 1 \/ n = 2 \/ n = 3 \/ n = 4 \/ n = 5 \/ n = 6 \/ n = 7) as Hn by lia.
  destruct Hn as [->|[->|[->|[->|[->|[->|[->| ->]]]]]]]; try (by left); try (by right); by vm_compute in Hty.
Qed.

Lemma root_dnode k : sb (fs k) = small_sb -> disk_fields (dnode k root_disk 1) = disk_fields root_inode.
Proof. intros Hs. unfold dnode. rewrite node_fields_of, Hs. by vm_compute. Qed.
Lemma file_dnode k : sb (fs k) = small_sb -> disk_fields (dnode k root_disk 2) = disk_fields empty_file.
Proof. intros Hs. unfold dnode. rewrite node_fields_of, Hs. by vm_compute. Qed.

Lemma root_alive k : sb (fs k) = small_sb -> alive k root_disk 1 /\ alive k root_disk 2.
Proof.
  intros Hs. pose proof (root_dnode k Hs) as E1. pose proof (file_dnode k Hs) as E2. unfold alive. rewrite Hs. revert E1 E2.
  generalize (dnode k root_disk 1), (dnode k root_disk 2). intros a b. unfold disk_fields. intros [= -> _ _ -> _ _] [= -> _ _ -> _ _]. done.
Qed.

Lemma root_dir k : sb (fs k) = small_sb -> dir_of k root_disk 1 = list_to_map [([46], 1); ([97], 2)].
Proof.
  intros Hs. rewrite <- root_names. unfold dir_of, file_bytes. pose proof (root_dnode k Hs) as E. revert E.
  generalize (dnode k root_disk 1). intros a. unfold disk_fields. by intros [= _ _ _ _ -> ->].
Qed.

Lemma root_sound k : sb (fs k) = small_sb -> sound k root_disk.
Proof.
  intros Hs. pose proof (root_dnode k Hs) as E1. pose proof (file_dnode k Hs) as E2. split.
  - intros n Hn Hty. destruct (root_inodes k n Hs Hn) as [->| ->].
    + rewrite Hs. destruct root_file as [Ho Hh Hz]. revert E1. generalize (dnode k root_disk 1). intros a. unfold disk_fields. intros [= _ _ _ _ Esz Ead].
      rewrite Esz. split; [|done]. split; by rewrite ?Esz, ?Ead.
    + exfalso. revert E2 Hty. generalize (dnode k root_disk 2). intros a. unfold disk_fields. intros [= -> _ _ _ _ _]. done.
  - intros n name m Hn Hty Hm. destruct (root_alive k Hs) as [Ha1 Ha2]. destruct (root_inodes k n Hs Hn) as [->| ->].
    + rewrite (root_dir k Hs) in Hm. apply elem_of_list_to_map_2 in Hm. set_unfold. destruct Hm as [[= _ ->]|[[= _ ->]|[]]]; done.
    + exfalso. revert E2 Hty. generalize (dnode k root_disk 2). intros a. unfold disk_fields. intros [= -> _ _ _ _ _]. done.
Qed.

(** namei of "/a". *)
Lemma namex_resolves_witness : exists k r k' ic', namex [47; 97] false [] k = Ok r [] k' /\ icache (fs k') = ic' /\ exists ip, r = (Some ip, [97]) /\ entry ic' ip 2.
Proof.
  destruct (root_disk_state [unused_inode; unused_inode]) as (k & Ht & Hl & Hs & Hd & Hk). pose proof (root_alive k Hs) as [Ha _].
  destruct (namex_resolves k 1 2 30 [] ltac:(rewrite Hs, Hd; exact small_geometry) ltac:(unfold unlocked; by rewrite Hk) root_disk [] ∅ [unused_inode; unused_inode] k [47; 97] false 1)
    as (r & k' & E & Er & ic' & Ht' & _ & _ & Hm); try done.
  - split.
    + intros ip i Hi. apply list_elem_of_lookup_2 in Hi. set_unfold. by destruct Hi as [->|[->|[]]].
    + intros ip i Hi Hp. apply list_elem_of_lookup_2 in Hi. set_unfold. by destruct Hi as [->|[->|[]]].
    + intros n Hn. multiset_solver.
    + intros ip ip' i i' Hi Hi' Hp. apply list_elem_of_lookup_2 in Hi. set_unfold. by destruct Hi as [->|[->|[]]].
    + intros ip i Hi Hp. apply list_elem_of_lookup_2 in Hi. set_unfold. by destruct Hi as [->|[->|[]]].
    + intros ip i Hi. apply list_elem_of_lookup_2 in Hi. set_unfold. by destruct Hi as [->|[->|[]]].
  - by apply root_sound.
  - unfold allow. rewrite Hl. by vm_compute.
  - by vm_compute; lia.
  - cbn [fst snd] in *.
    assert (resolve k root_disk false 1 (elems [47; 97]) [] = (Some 2, [97])) as Ers.
    { change (elems [47; 97]) with [[97]]. cbn [resolve]. rewrite (root_dir k Hs). pose proof (root_dnode k Hs) as E1. revert E1. generalize (dnode k root_disk 1). intros a. unfold disk_fields.
      by intros [= -> _ _ _ _ _]. }
    rewrite Ers in Er, Hm. destruct Hm as (ip & Hr & _ & He). exists k, r, k', ic'. split_and!; [done|by apply (tx_ic _ _ _ _ _ _ _ _ Ht')|]. exists ip. destruct r as [a b]. cbn [fst snd] in *. by subst.
Defined.
Lemma file_state_fields s V i i' : i_addrs i' = i_addrs i -> i_size i' = i_size i -> file_state s V i -> file_state s V i'.
Proof. intros Ea Es [Ho Hh Hz]. split; by rewrite ?Ea, ?Es. Qed.

(** The root directory, locked by the process 1. *)
Definition locked_root : inode := root_inode <| i_lock := mkSleeplock 1 1 |>.
Definition locked_cache : list inode := [locked_root; unused_inode].

Lemma root_linkable : exists k, linkable k 1 2 root_disk [] locked_cache {[+ 1 +]} 0 locked_root k
  /\ sb (fs k) = small_sb /\ disk (fs k) = root_disk /\ locks k = ∅.
Proof.
  destruct (root_disk_state locked_cache) as (k & Ht & Hl & Hs & Hd & Hk). exists k. split; [|done].
  assert (forall ip i, locked_cache !! ip = Some i -> (ip = 0%nat /\ i = locked_root) \/ (ip <> 0%nat /\ i = unused_inode)) as Hcase.
  { intros [|[|ip]] i Hi; [left|right|]; by simplify_eq/=. }
  split; rewrite ?Hs; try done.
  - split.
    + intros ip i [[-> ->]|[? ->]]%Hcase; done.
    + intros ip i [[-> ->]|[? ->]]%Hcase; [|done]. intros _. split; [done|]. by rewrite multiplicity_singleton_eq.
    + intros n Hn. exists 0%nat, locked_root. split; [done|]. split; [done|]. change (i_inum locked_root) with 1. multiset_solver.
    + intros ip ip' i i' [[-> ->]|[? ->]]%Hcase [[-> ->]|[? ->]]%Hcase; done.
    + intros ip i [[-> ->]|[? ->]]%Hcase; [|done]. intros _ _. apply node_id. by vm_compute.
    + intros ip i [[-> ->]|[? ->]]%Hcase; [by rewrite decide_True by set_solver|rewrite decide_False by set_solver; done].
  - split; [|done..]. rewrite Hs. apply (file_state_fields _ _ root_inode); [by vm_compute|by vm_compute|exact root_file].
  - exact root_meta.
  - by vm_compute; lia.
  - rewrite Hl. done.
  - split; [by vm_compute; lia|done].
Qed.

Lemma dirlink_inserts_witness : exists k, (exists k', dirlink 0 [98] 3 [] k = Ok 0 [] k') /\ (exists k', dirlink 0 [97] 3 [] k = Ok (-1) [] k')
  /\ forall r o' k', dirlink 0 [46] 3 [] k <> Ok r o' k'.
Proof.
  destruct root_linkable as (k & Hk & Hs & Hd & Hlk). exists k.
  assert (geometry (sb (fs k)) 2 30 (length (disk (fs k)))) as Hg by (rewrite Hs, Hd; exact small_geometry).
  assert (sb_size (sb (fs k)) <= BPB) as Hone by by rewrite Hs. assert (unlocked LIcache k) as Hu by (unfold unlocked; by rewrite Hlk).
  assert (dir_map (file_bytes root_disk locked_root) = list_to_map [([46], 1); ([97], 2)]) as Em by by vm_compute.
  split_and!.
  - destruct (dirlink_inserts k 1 2 30 [] Hg Hone Hu _ _ _ _ _ _ _ [98] 3 Hk ltac:(done)) as (Hn & _ & _). rewrite Em in Hn. destruct (Hn ltac:(done)) as (k' & _ & _ & _ & E & _). by exists k'.
  - destruct (dirlink_inserts k 1 2 30 [] Hg Hone Hu _ _ _ _ _ _ _ [97] 3 Hk ltac:(done)) as (_ & Hn & _). rewrite Em in Hn. destruct (Hn 2 ltac:(done) ltac:(done)) as (k' & _ & E & _). by exists k'.
  - destruct (dirlink_inserts k 1 2 30 [] Hg Hone Hu _ _ _ _ _ _ _ [46] 3 Hk ltac:(done)) as (_ & _ & Hn). rewrite Em in Hn. apply Hn; [done|]. by apply Forall_nil.
Defined.
End NameiExample.
